(* ===== verification/_CoqProject ===== *)
-Q . S2P
Prelude.v
ArrayList.v
QState.v
IndexBits.v
ApplyGate.v
Measure.v
Join.v
Marginal.v
Lazy.v
Slau.v
SlauExact.v
SlauTaylor.v
Shield.v
Fdmss.v
Constants.v
