(* ===== verification/Prelude.v ===== *)
(** * Doki state-vector core ([qops.c], [arraylist.c]), pyfdmss ([Slau.cpp], [wrapper.h]), the automationshield firmware and generated constants

    This development models the programs found under [src/].  Most of
    it is the numerical core of the Doki quantum
    simulator (package doki_mowstyl 1.5.2, directory [src/doki/] under
    [src/packages/doki-Mowstyl/...]), the part the repository's spec calls
    the "state-vector simulation engine".  Its parts and the way they
    interact:

    - the chunked array list ([arraylist.c]: [alist_init], [alist_clear],
      [alist_set], [alist_get]) stores a long array as a list of
      fixed-capacity chunks; [apply_gate] uses one to record the indices it
      must recompute (the "compaction list");
    - the state vector ([qstate.c], not part of the sources we have; it is
      modelled from the spec) owns a chunked store of amplitudes, the qubit
      count, a deferred normalisation constant and a cached global phase;
    - the gate engine ([qops.c]: [apply_gate], [copy_and_index],
      [calculate_empty]) applies a gate with control and anticontrol
      qubits in two passes, copying the amplitudes the controls leave alone
      and recomputing the others;
    - the lazy gate view ([qops.c]: [_ApplyGateFunction], [new_application],
      [free_application], [clone_application], [apply_gate_fmat]) computes
      one entry of the same result on demand, behind a reference count;
    - measurement ([probability], [measure], [collapse]), composition
      ([join]), the global phase ([get_global_phase]) and the density matrix
      entry ([_densityFun]).

    Files, in dependency order (see [_CoqProject]):
    - [Prelude.v] (this file): the outcome type for undefined behaviour,
      the allocation monad [M] over a memory budget with its notations in
      [qsim_scope], loops ([ofold_left], the early-return [fold_opt]) with
      the invariant principle [ofold_left_ind] and the tactic
      [loop_invariant], integer ranges and bit masks (with the bits of a
      row-major index, [testbit_row_major]), arrays indexed by [int]
      ([zlookup], [zinsert]), the scalar interface
      [Scalars] (the C library's complex and real arithmetic) with its
      laws [ScalarLaws] and multiplicative laws [MulLaws], sums [rsum]
      with their permutation, filter, scaling and product-index (Fubini)
      lemmas, an exact
      instance on Gaussian integers for the concrete runs, and the hint
      databases [qsim] and [qsim_rw].
    - [ArrayList.v] ([Module Chunked], then [alist_*]): the chunked store,
      generic in the element type and the chunk capacity; its layout
      invariant [store_wf]; its refinement to a flat array ([flat]).
      [alist_init]'s loop is [alloc_loop], with the [size_t] bound
      [num_chunks - 1] ([natural_pred], wrapping to [NATURAL_MAX]) and
      the pointer array's [malloc] ([malloc_array], whose [malloc(0)]
      is the platform's [MALLOC_ZERO_NULL]).  Claims C18-C20 and C22-C24.
    - [QState.v] ([Module QState]): the state vector over a chunked store
      ([state_get], [state_set], [state_clear], the [norm_const] store
      [with_norm]) and the pointer a caller passes ([sv_ptr]: NULL,
      freed, live).  Modelled from the spec.  [state_init] is the class
      [StateInit]: the contract the spec and the comment at
      [qops.c:233-237] give it (exit 0 with a fresh state of
      indeterminate amplitudes, or one of the error codes 1 to 4,
      [init_error], with everything given back).  [join], [collapse] and
      [apply_gate], and every theorem about them, are stated for any
      instance; [state_init_chunked], the spec's chunked-store [init],
      is the instance the concrete runs use.
    - [IndexBits.v] ([Module IndexBits]): the bit tests of the gate engine
      ([copy_only], the target loop [target_loop]) and their meaning
      ([selected], [gather], [scatter]); the count of selected indices,
      [2^(n - #controls - #anticontrols)], when the roles are distinct
      (C17).
    - [ApplyGate.v] ([Module ApplyGate]): [copy_and_index],
      [calculate_empty], [apply_gate] and the reference [gate_spec]; the
      loop invariants of the two passes ([copy_pass], [calc_pass]); every
      branch of [apply_gate] ([apply_gate_cases]).  Claims C1, C5-C8;
      the end-to-end run of X on [|00>] ([apply_gate_X_00]) and runs
      with overlapping or repeated roles ([apply_gate_overlap_UB],
      [apply_gate_duplicate_control_UB]).
    - [Measure.v] ([Module Measure]): [probability], [collapse], [measure];
      the counter loop of [collapse] keeps exactly the indices whose target
      bit is the outcome ([collapse_pass]).  Claims C3, C10.
    - [Join.v] ([Module Join]): [join] (the tensor product, for every
      schedule of its rows) and [get_global_phase] (its scan and its memo).
      Claims C4, C15.
    - [Marginal.v]: [join] composed with [probability]; the sum over a
      product index space ([rsum_product_bit]).  Claim C11.
    - [Lazy.v] ([Module Lazy]): the [Application] heap and its hooks as a
      step relation ([app_step]) with its resource invariant, the entry
      function [_ApplyGateFunction] ([apply_fun]), [apply_gate_fmat], and
      the density view.  Claims C2, C9, C12-C14, C16, C21.
    - [Slau.v] ([Module Slau], then sections of lemmas): a second program
      from [src/], the linear system of the finite-difference package
      pyfdmss 0.0.9 ([src/Slau.cpp]), independent of Doki.  Its state is
      the record [slau] (the order [p], [float **A] and [Polynom **B] as
      pointer-or-null arrays of cells); its operations are the
      constructor [Slau_new] (with [add_row], [vel_row]), [SwapRows],
      [AddToRow], [SeekRow], [Trianglize], [SolveForSecondDerivative]
      (with [back_row], [back_col]), the destructor [Slau_delete],
      [GetTaylorCoeffs] and the printing members [printA], [printB].  [float] arithmetic is the class [FloatOps] and
      the class [Polynom] the interface [PolyOps]; the concrete runs use
      exact rationals.  The invariant is [wf] (a full system).  Claims
      C26, C27, C29, C30.
    - [SlauExact.v]: the same solver in exact arithmetic.  The class
      [ExactLaws] says that [float] is a commutative ring with exact
      division by a nonzero number and that [Polynom] is a vector of
      coefficients; [ring] is declared from it.  The reference semantics
      is [solves] (the vector [y] satisfies every equation [A y = B], in
      one coefficient) over [row_dot].  [AddToRow] is an exact row
      operation ([AddToRow_rowop], [AddToRow_solves]); [Trianglize] keeps
      every solution ([Trianglize_solves], through the column step
      [Trianglize_col] of [Slau.v]); the back substitution solves the
      triangular rows ([back_loop_val]), whose solution is unique
      ([triangular_unique]).  The concrete runs use the canonical
      rationals [Qc].  Claims C25, C28.
    - [SlauTaylor.v]: what the constructor writes.  [taylor_rows] lists
      the displacement and the polynomial stores of every row in the
      code's order (left boundary, the velocities but [center], right
      boundary); [rows_are] is the invariant of the constructor's loops
      ([add_row_rows], [vel_loop_rows], [Slau_new_rows_are]).  Claim
      C31.
    - [Shield.v] ([Module Avr], [Module Magneto], [Module Aero]): a third
      program from [src/], the two Arduino Leonardo sketches of
      python-automationshield 0.4.0 ([arduino_firmware/leonardo/
      src_magnetoshield/main.cpp] and [src_aeroshield/main.cpp]).  The
      globals of each sketch are a record, [receive], [send],
      [sensorRead], [actuatorWrite], [setOutBuffer] and [loop] (its
      [switch] as [command]) are functions on it, and the board (serial
      port, I2C, PWM) is the record [board]; the sensors are the
      environment of an iteration.  Both sketches implement the class
      [Firmware] with its laws [FirmwareLaws]; [serve] runs the Arduino
      main loop against that interface.  Claims C32-C35.
    - [Fdmss.v]: the entry point of pyfdmss 0.0.8, [wrapper.h]'s
      [SolveImpl] and [run] and the pybind11 binding of [run] in
      [main.cpp] ([py_run], with pybind11's argument binding
      [bind_args]).  The solver class and TinyXML are not among the
      sources: the solver is the interface [PermSolver], and [SolveImpl]
      produces a trace of events (printed lines, field files, the saved
      XML summary).  Claim C36.
    - [Constants.v]: the generated PostgreSQL catalog headers of pgserver
      ([pg_auth_members_d.h], [pg_parameter_acl_d.h]), every macro a
      definition, checked against the guarantees of [genbki.pl]
      ([catalog_headers_wf]); and adelie's [Configs] defaults.

    What the theorems show, by group.
    - Refinement and equivalence: the eager engine computes the standard
      controlled gate at every index, for every pair of schedules, without
      undefined behaviour (C1), its norm is the norm of the result (C5),
      its result does not depend on the schedules (C6), an identity gate
      changes no amplitude (C8), the lazy engine computes the same
      entries (C2, C9), and the partition pass finds exactly the
      [N / 2^(c+a)] indices the compaction list is sized for (C17).
    - Measurement and composition: [probability] is the marginal (C10),
      [measure]/[collapse] keep the right amplitudes in order with the
      code's norm (C3), [join] is the tensor product (C4) and
      [probability] of a joined state is the marginal of the factor that
      owns the qubit (C11), the phase (C15).
    - Resources: every exit of [apply_gate] gives back what it took except
      the new state (C7), [alist_init] is all-or-nothing (C19),
      [alist_clear] releases everything (C20), the [Application] reference
      count counts its holders and its life cycle gives back every
      reference (C12, C13), and it is always released: as many frees as
      its count free it and give everything back (C14); the density view takes one reference (C16).
    - What the code gets wrong or leaves open, each proved on the model:
      [apply_gate] and [collapse] free the caller's struct when
      [state_init] fails (C7, C3); [new_application] leaks its struct and
      [apply_gate_fmat] loses the error code (C21); the phase scan stops
      at the first nonzero amplitude, real or not (C15); the two chunk
      capacities must agree (C22); [alist_init 0] writes past its
      zero-length pointer array where [malloc(0)] returns a pointer, and
      reports failure 1 where it returns NULL (C23); a failed
      [alist_init] leaves a dangling vector (C24).
    - The pyfdmss solver: in exact arithmetic, when the pivots of the
      triangular form are nonzero, [SolveForSecondDerivative] returns
      the unknown [1] (the second derivative) of every solution of the
      system, and its unknowns solve the triangular rows (C25);
      elimination keeps the system full and triangular whatever the
      [float] rounding (C26); back substitution returns exactly when
      [p >= 2] (C27); it adds into [B] in place, leaving
      [A[r][r] * x_r] in row [r], so a second call solves another
      system and returns another stencil (C28); the
      constructor builds a full system exactly when [center] lies
      among the velocities it loops over, and writes past [A] and [B]
      otherwise (C29); the destructor leaks the [p] polynomials (C30);
      and the rows it writes are the Taylor system of the stencil: row
      [i] holds [d_i^(c+1) / (c+1)!] and [B[i]] the polynomial of its
      velocity minus [center] (C31).
    - The automationshield firmware: from reset, every command in the
      serial input is answered, in order, with one three-byte frame
      (C32, against the interface [Firmware]); a RUN command sets the DAC
      to the low 12 bits of its word and its answer unpacks to the two
      readings (C33); a TEST command overflows the 16-bit [int] unless
      its word is in [-2^13, 2^13) (C34); the aeroshield TEST answer
      packs the wrong nibble and the host misreads [4b] for [b >= 64]
      (C35).
    - The pyfdmss entry point: a Python call with keyword arguments
      reaches [SolveImpl] with each path given or defaulted, the summary
      holds the solver's results or, when the input does not load, zeros
      with [LimiterTriggered = 1], and an unknown keyword raises
      [TypeError] (C36).

    Bounds and parameters.  Integers are unbounded [Z]: the theorems
    assume indices and qubit numbers the C types hold (a register of
    [num_qubits] qubits with [2^num_qubits] amplitudes fits NATURAL_TYPE
    when [num_qubits] is below its width); the shifts [NATURAL_ONE << k]
    are only taken with [k] a qubit of the register.  The loops are over
    finite ranges, except [alist_init]'s chunk loop, whose bound
    [num_chunks - 1] can wrap: [alloc_loop] runs on fuel
    [num_chunks + 1], one more than the [num_chunks - 1] iterations a
    positive size makes ([alloc_loop_spec] shows it never runs out
    there), and for size 0 the first iteration is already undefined.
    The platform constants are the class [Platform]: the chunk
    capacities, the largest NATURAL_TYPE [NATURAL_MAX] and whether
    [malloc(0)] returns NULL; the refinement theorems assume the
    capacities are equal, as in [platform.h], and C22 shows what breaks
    if they are not.  Floating
    point is abstract ([Scalars]); the theorems that add up norms assume
    exact, associative and commutative addition ([ScalarLaws]), which the
    OpenMP reductions also assume.

    How the C code is modelled.
    - NATURAL_TYPE indices are [Z] (always non-negative in the model); the
      bit tests of the code ([i & (NATURAL_ONE << k)]) are written with
      [Z.land] and [Z.shiftl] and related to [Z.testbit] by lemmas.
    - A read or write out of an allocation's bounds, a read of a cell never
      written (malloc'ed memory is indeterminate), a write through NULL and
      a double free are undefined behaviour: the model returns [UB].  For
      the indeterminate read this is the conservative reading (ISO C
      makes it an unspecified value for types without trap
      representations): a theorem that a run is [Ok] shows the code
      never depends on such a value.
      Theorems that the code is safe are statements that the result is
      [Ok].
    - [malloc] succeeds when the request fits in the remaining budget
      [avail] of the memory [Mem]; [free] gives the cells back.  This is
      enough to state that every failure path releases what it allocated.
    - Parallel loops ([#pragma omp parallel for]) touch disjoint cells except
      for the critical section that appends to the compaction list and the
      sum reductions; they are modelled as the sequential execution of their
      iterations in an arbitrary order (a schedule, a permutation of the
      iteration space), which is the set of behaviours the pragma allows.
      The reduction of [probability] is summed in index order: under
      [ScalarLaws] every order gives the same sum ([rsum_perm]); with
      rounding, the result of the OpenMP reduction depends on the
      partition of the range among threads, and the model fixes one.
    - Library functions the sources only call are parameters or
      spec-modelled records: [ARG] ([carg]), [state_mem_size], the
      funmatrix [FMatrix] (dimensions, [getitem], memory size) and the
      Python capsules (identity, contents, reference count).

    In [Slau.cpp], [new] never fails (the model counts the cells it
    takes; a negative array size, for which C++11 throws
    [std::bad_array_new_length], is [UB] too: neither returns to the
    caller, which is all C27 distinguishes), and a [Polynom] object
    counts as one cell.  Exact arithmetic is an assumption of C25
    only ([ExactLaws]); the other Slau theorems hold for any [float]
    arithmetic in which [0.0f == 0.0f].

    In the firmware, integers are kept at their width: [int] and
    [unsigned int] are 16 bits on the ATmega32U4, a signed overflow or a
    shift out of [unsigned int] is [UB], conversions to [byte] and
    [uint16_t] reduce modulo [2^8] and [2^16], and the conversion to
    [int] is gcc's two's complement one.  [Serial.readBytes] reads what
    has arrived, with no byte arriving during its timeout.  The main
    loop never ends; [serve] runs it for as many iterations as it is
    given sensor readings, which is all the liveness claim needs.

    Not modelled: Doki's Python binding layer beyond capsules and
    reference counts (the module table, argument parsing), its printf
    diagnostics, the funmatrix library itself, the class [Polynom]
    beyond its interface, the sketches' [setup()] (hardware
    configuration only), pyfdmss's [mrun] and its 0.0.5 binding (their
    sources, [testmodule.h] and the 0.0.5 [wrapper.h], are not under
    [src/]).  The rest of [src/] holds nothing to model: the sharqit
    and pycanha-core files only register classes and functions whose
    sources are absent with nanobind or pybind11, and [gprimes.h],
    [cbc256.h] and [brahma.h] only declare functions defined elsewhere. *)

From stdpp Require Export base list list_numbers sets.
From Stdlib Require Export ZArith Lia.

Declare Scope qsim_scope.
Delimit Scope qsim_scope with qsim.
Open Scope Z_scope.

(** ** Undefined behaviour *)

(** The result of a C computation: a value, or undefined behaviour. *)
Inductive outcome (A : Type) : Type :=
| Ok (a : A)
| UB.
Arguments Ok {A} a.
Arguments UB {A}.

Definition obind {A B} (o : outcome A) (f : A -> outcome B) : outcome B :=
  match o with Ok a => f a | UB => UB end.

Notation "'let?' x := o 'in' k" := (obind o (fun x => k))
  (at level 10, x name, o at level 100, k at level 200) : qsim_scope.
Notation "'let?' ' p := o 'in' k" := (obind o (fun p => k))
  (at level 10, p pattern, o at level 100, k at level 200) : qsim_scope.

(** A [for] loop whose body may have undefined behaviour. *)
Fixpoint ofold_left {A B} (f : B -> A -> outcome B) (l : list A) (b : B) : outcome B :=
  match l with
  | [] => Ok b
  | x :: l' => obind (f b x) (ofold_left f l')
  end.

(** ** Memory and the allocation monad *)

(** The allocator: [avail] cells may still be obtained from [malloc]. *)
Record Mem := mkMem { avail : Z }.

Definition M (A : Type) : Type := Mem -> outcome (A * Mem).

Definition mret {A} (a : A) : M A := fun m => Ok (a, m).
Definition mbind {A B} (x : M A) (f : A -> M B) : M B :=
  fun m => match x m with Ok (a, m') => f a m' | UB => UB end.
Definition undef {A} : M A := fun _ => UB.
Definition lift {A} (o : outcome A) : M A :=
  fun m => match o with Ok a => Ok (a, m) | UB => UB end.

(** [malloc n]: [true] is a non-NULL pointer, [false] is NULL. *)
Definition malloc (n : Z) : M bool :=
  fun m => if n <=? avail m then Ok (true, mkMem (avail m - n)) else Ok (false, m).

Definition mfree (n : Z) : M unit := fun m => Ok (tt, mkMem (avail m + n)).

Notation "'let!' x := c 'in' k" := (mbind c (fun x => k))
  (at level 10, x name, c at level 100, k at level 200) : qsim_scope.
Notation "'let!' ' p := c 'in' k" := (mbind c (fun p => k))
  (at level 10, p pattern, c at level 100, k at level 200) : qsim_scope.
Notation "c ;; k" := (mbind c (fun _ => k))
  (at level 100, right associativity) : qsim_scope.

Open Scope qsim_scope.

(** ** Integer ranges and bit masks *)

(** [zrange lo hi] is the loop [for (i = lo; i < hi; i++)]. *)
Definition zrange (lo hi : Z) : list Z := seqZ lo (hi - lo).

(** [NATURAL_ONE << k] *)
Definition mask (k : Z) : Z := Z.shiftl 1 k.

(** [(i & mask k) != 0] *)
Definition bit_on (i k : Z) : bool := negb (Z.land i (mask k) =? 0).

(** ** Scalars: the complex and real arithmetic of the C library *)

(** [R] is REAL_TYPE, [C] is COMPLEX_TYPE.  The operations are those the
    code calls; [rsqrt] is [sqrt], [rgtb] is [>], [rneq0 x] is [x != 0.]. *)
Class Scalars (R C : Type) := {
  r0 : R; r1 : R;
  radd : R -> R -> R; rsub : R -> R -> R; rmul : R -> R -> R;
  rsqrt : R -> R; rgtb : R -> R -> bool; rneq0 : R -> bool;
  c0 : C; c1 : C;
  cadd : C -> C -> C; cmul : C -> C -> C; cconj : C -> C;
  RE : C -> R; IM : C -> R; cnan : C
}.

(** [pow(RE(z), 2) + pow(IM(z), 2)] *)
Definition sqnorm `{Scalars R C} (z : C) : R :=
  radd (rmul (RE z) (RE z)) (rmul (IM z) (IM z)).

(** [value += f(i)] over the indices [l], in order. *)
Definition rsum `{Scalars R C} (f : Z -> R) (l : list Z) : R :=
  fold_left (fun acc i => radd acc (f i)) l r0.

(** The algebraic facts some theorems need (exact arithmetic satisfies
    them; IEEE doubles satisfy the multiplicative ones only up to signed
    zeros and NaN). *)
Class ScalarLaws (R C : Type) `{Scalars R C} := {
  radd_comm : forall x y, radd x y = radd y x;
  radd_assoc : forall x y z, radd x (radd y z) = radd (radd x y) z;
  radd_0_l : forall x, radd r0 x = x;
  cadd_0_l : forall x, cadd c0 x = x;
  cadd_0_r : forall x, cadd x c0 = x;
  cmul_1_r : forall x, cmul x c1 = x;
  cmul_0_r : forall x, cmul x c0 = c0
}.

(** Exact complex arithmetic on Gaussian integers, for concrete runs. *)
Record gauss := G { gre : Z; gim : Z }.

#[export] Instance gauss_scalars : Scalars Z gauss := {
  r0 := 0; r1 := 1; radd := Z.add; rsub := Z.sub; rmul := Z.mul;
  rsqrt := Z.sqrt; rgtb := Z.gtb; rneq0 := fun x => negb (x =? 0);
  c0 := G 0 0; c1 := G 1 0;
  cadd := fun a b => G (gre a + gre b) (gim a + gim b);
  cmul := fun a b => G (gre a * gre b - gim a * gim b) (gre a * gim b + gim a * gre b);
  cconj := fun a => G (gre a) (- gim a);
  RE := gre; IM := gim; cnan := G 0 0
}.

#[export] Instance gauss_laws : ScalarLaws Z gauss.
Proof.
  split; intros; simpl; try lia; destruct x; simpl; f_equal; lia.
Qed.

(** The multiplicative facts the marginals of a product state need:
    distributivity and [|a b|^2 = |a|^2 |b|^2] (exact arithmetic satisfies
    them; IEEE doubles only up to rounding). *)
Class MulLaws (R C : Type) `{Scalars R C} := {
  rmul_comm : forall x y, rmul x y = rmul y x;
  rmul_radd_distr_l : forall x y z, rmul x (radd y z) = radd (rmul x y) (rmul x z);
  rmul_0_r : forall x, rmul x r0 = r0;
  sqnorm_cmul : forall a b, sqnorm (cmul a b) = rmul (sqnorm a) (sqnorm b)
}.

#[export] Instance gauss_mul_laws : MulLaws Z gauss.
Proof. split; intros; simpl; try ring. Qed.

(** ** Shared lemmas *)

Create HintDb qsim.
Create Rewrite HintDb qsim_rw.

Lemma obind_ok {A B} (a : A) (f : A -> outcome B) : obind (Ok a) f = f a.
Proof. reflexivity. Qed.

Lemma mask_pow2 k : 0 <= k -> mask k = 2 ^ k.
Proof. intros. unfold mask. rewrite Z.shiftl_1_l. reflexivity. Qed.

Lemma bit_on_testbit i k : 0 <= k -> bit_on i k = Z.testbit i k.
Proof.
  intros Hk. unfold bit_on, mask. rewrite Z.shiftl_1_l.
  destruct (Z.testbit i k) eqn:E.
  - apply negb_true_iff, Z.eqb_neq. intros H0.
    assert (Z.testbit (Z.land i (2 ^ k)) k = false) as F by (rewrite H0; apply Z.testbit_0_l).
    rewrite Z.land_spec, Z.pow2_bits_true, E in F by lia. discriminate.
  - apply negb_false_iff, Z.eqb_eq. apply Z.bits_inj'. intros n Hn.
    rewrite Z.land_spec, Z.testbit_0_l, Z.pow2_bits_eqb by lia.
    destruct (Z.eqb_spec k n); [subst; rewrite E|]; auto with bool.
Qed.

Lemma zrange_length lo hi : length (zrange lo hi) = Z.to_nat (hi - lo).
Proof. apply length_seqZ. Qed.

Lemma elem_of_zrange lo hi x : x ∈ zrange lo hi <-> lo <= x < hi.
Proof. unfold zrange. rewrite elem_of_seqZ. lia. Qed.

Lemma NoDup_zrange lo hi : NoDup (zrange lo hi).
Proof. apply NoDup_seqZ. Qed.

Lemma zrange_snoc lo hi : lo <= hi -> zrange lo (hi + 1) = zrange lo hi ++ [hi].
Proof.
  intros H. unfold zrange.
  replace (hi + 1 - lo) with (Z.of_nat (S (Z.to_nat (hi - lo)))) by lia.
  rewrite seqZ_S, Z2Nat.id by lia. do 2 f_equal. lia.
Qed.

(** [zrange] splits at any point between its bounds. *)
Lemma zrange_split lo mid hi : lo <= mid <= hi -> zrange lo hi = zrange lo mid ++ zrange mid hi.
Proof.
  intros Hb. unfold zrange. replace (hi - lo) with ((mid - lo) + (hi - mid)) by lia.
  rewrite seqZ_app by lia. do 2 f_equal. lia.
Qed.

(** Loop invariant: [P p b] holds after the prefix [p] of the iterations
    has run; each iteration succeeds and extends it. *)
Lemma ofold_left_ind {A B} (f : B -> A -> outcome B) (P : list A -> B -> Prop) l b :
  P [] b ->
  (forall p x s b, l = p ++ x :: s -> P p b -> exists b', f b x = Ok b' /\ P (p ++ [x]) b') ->
  exists b', ofold_left f l b = Ok b' /\ P l b'.
Proof.
  intros H0 Hstep.
  assert (forall s p b, l = p ++ s -> P p b -> exists b', ofold_left f s b = Ok b' /\ P l b') as Hgen.
  { induction s as [|x s IH]; intros p b' Hl Hp; simpl.
    - rewrite app_nil_r in Hl. subst. eauto.
    - destruct (Hstep p x s b' Hl Hp) as (b'' & Hf & Hp'). rewrite Hf. simpl.
      apply (IH (p ++ [x])); [rewrite <- app_assoc; done | done]. }
  apply (Hgen l []); done.
Qed.

Lemma rsum_snoc `{Scalars R C} (f : Z -> R) l x : rsum f (l ++ [x]) = radd (rsum f l) (f x).
Proof. unfold rsum. rewrite fold_left_app. done. Qed.

Lemma bool_decide_elem_of_snoc (j x : Z) p :
  bool_decide (j ∈ p ++ [x]) = bool_decide (j ∈ p) || bool_decide (j = x).
Proof.
  destruct (decide (j = x)) as [->|Hne].
  - rewrite (bool_decide_eq_true_2 (x = x)), orb_true_r by done. apply bool_decide_eq_true. set_solver.
  - rewrite (bool_decide_eq_false_2 (j = x)), orb_false_r by done.
    apply bool_decide_ext. set_solver.
Qed.


Lemma ofold_left_app {A B} (f : B -> A -> outcome B) l1 l2 b :
  ofold_left f (l1 ++ l2) b = obind (ofold_left f l1 b) (ofold_left f l2).
Proof.
  revert b. induction l1 as [|x l1 IH]; intros b; simpl; [done|].
  destruct (f b x); simpl; auto.
Qed.

(** A loop whose body may fail and return early ([None]). *)
Fixpoint fold_opt {A B} (f : B -> A -> option B) (l : list A) (b : B) : option B :=
  match l with
  | [] => Some b
  | x :: l' => f b x ≫= fold_opt f l'
  end.

Definition of_option {A} (o : option A) : outcome A :=
  match o with Some a => Ok a | None => UB end.

(** An early-return loop succeeds exactly when the same loop with
    failure read as [UB] does, so [ofold_left_ind] applies to it. *)
Lemma fold_opt_ofold {A B} (f : B -> A -> option B) l b b' :
  ofold_left (fun b x => of_option (f b x)) l b = Ok b' -> fold_opt f l b = Some b'.
Proof.
  revert b. induction l as [|x l IH]; intros b; simpl; [by intros [= ->]|].
  destruct (f b x) as [b1|]; simpl; [apply IH | done].
Qed.

(** Start a proof by loop invariant on the first [ofold_left] or [fold_opt] of the goal. *)
Ltac loop_invariant P :=
  match goal with
  | |- context [ofold_left ?f ?l ?b] => pose proof (ofold_left_ind f P l b) as Hloop
  | |- context [fold_opt ?f ?l ?b] =>
      pose proof (ofold_left_ind (fun acc x => of_option (f acc x)) P l b) as Hloop
  end.

(** Running a sequence whose first step is known. *)
Lemma mbind_run {A B} (x : M A) (f : A -> M B) m a m' :
  x m = Ok (a, m') -> mbind x f m = f a m'.
Proof. unfold mbind. intros ->. done. Qed.

Lemma lift_run {A B} (o : outcome A) (f : A -> M B) m a :
  o = Ok a -> mbind (lift o) f m = f a m.
Proof. unfold mbind, lift. intros ->. done. Qed.

(** An iteration of [for (i = lo; i < hi; i++)] is in range. *)
Lemma zrange_app_cons_range lo hi p x rest : zrange lo hi = p ++ x :: rest -> lo <= x < hi.
Proof. intros E. apply elem_of_zrange. rewrite E. set_solver. Qed.

(** An iteration of [for (i = lo; i < hi; i++)] is not one of the earlier ones. *)
Lemma zrange_app_cons_notin lo hi p x rest : zrange lo hi = p ++ x :: rest -> x ∉ p.
Proof.
  intros E. pose proof (NoDup_zrange lo hi) as Hnd. rewrite E in Hnd.
  apply NoDup_app in Hnd as (_ & Hdis & _). intros Hx. apply (Hdis x Hx). set_solver.
Qed.

(** The iteration after the prefix [p] of [for (i = lo; ...)] is [lo + |p|]. *)
Lemma zrange_app_cons lo hi p x rest :
  zrange lo hi = p ++ x :: rest -> x = lo + Z.of_nat (length p).
Proof.
  intros E. assert (Hl : zrange lo hi !! length p = Some x)
    by (rewrite E, lookup_app_r, Nat.sub_diag by lia; done).
  unfold zrange in Hl. apply lookup_seqZ in Hl. lia.
Qed.

(** The iterations before [x] are [lo..x-1]. *)
Lemma zrange_prefix lo hi p x rest : zrange lo hi = p ++ x :: rest -> p = zrange lo x.
Proof.
  intros E. pose proof (zrange_app_cons_range _ _ _ _ _ E). pose proof (zrange_app_cons _ _ _ _ _ E).
  rewrite (zrange_split lo x hi) in E by lia.
  apply app_inj_1 in E as [<- _]; [done|]. rewrite zrange_length. lia.
Qed.

(** The iteration after the prefix [p] of [for (i = hi - 1; i >= lo; i--)]
    is [hi - 1 - |p|]. *)
Lemma zrange_rev_app_cons lo hi p x rest :
  rev (zrange lo hi) = p ++ x :: rest -> x = hi - 1 - Z.of_nat (length p) /\ lo <= x < hi.
Proof.
  intros E. apply (f_equal (@rev Z)) in E. rewrite rev_involutive, rev_app_distr in E. simpl in E.
  rewrite <- app_assoc in E. simpl in E.
  pose proof (zrange_app_cons _ _ _ _ _ E) as Hx. pose proof (zrange_app_cons_range _ _ _ _ _ E).
  apply (f_equal length) in E. rewrite zrange_length, length_app in E. simpl in E.
  rewrite !length_rev in *. split; lia.
Qed.

(** ** Arrays indexed by [int] *)

(** [l[i]], [None] out of bounds. *)
Definition zlookup {X} (l : list X) (i : Z) : option X :=
  if i <? 0 then None else l !! Z.to_nat i.

(** [l[i] = x], [None] out of bounds. *)
Definition zinsert {X} (l : list X) (i : Z) (x : X) : option (list X) :=
  if (0 <=? i) && (i <? Z.of_nat (length l)) then Some (<[Z.to_nat i := x]> l) else None.

Lemma zlookup_nat {X} (l : list X) i : 0 <= i -> zlookup l i = l !! Z.to_nat i.
Proof. intros Hi. unfold zlookup. destruct (Z.ltb_spec i 0); [lia | done]. Qed.

Lemma zinsert_ok {X} (l : list X) i x :
  0 <= i < Z.of_nat (length l) -> zinsert l i x = Some (<[Z.to_nat i := x]> l).
Proof. intros Hi. unfold zinsert. rewrite (proj2 (Z.leb_le _ _)), (proj2 (Z.ltb_lt _ _)) by lia. done. Qed.

Lemma zinsert_some {X} (l l' : list X) i x :
  zinsert l i x = Some l' -> 0 <= i < Z.of_nat (length l) /\ l' = <[Z.to_nat i := x]> l.
Proof.
  unfold zinsert. destruct (Z.leb_spec 0 i), (Z.ltb_spec i (Z.of_nat (length l))); simpl;
    try discriminate. intros [= <-]. done.
Qed.

Lemma zlookup_insert {X} (l : list X) i j x :
  0 <= i < Z.of_nat (length l) ->
  zlookup (<[Z.to_nat i := x]> l) j = if i =? j then Some x else zlookup l j.
Proof.
  intros Hi. unfold zlookup. destruct (Z.eqb_spec i j) as [<-|Hne].
  - destruct (Z.ltb_spec i 0); [lia|]. apply list_lookup_insert_eq. lia.
  - destruct (Z.ltb_spec j 0); [done|]. apply list_lookup_insert_ne. lia.
Qed.

Lemma zlookup_some {X} (l : list X) i x : zlookup l i = Some x -> 0 <= i < Z.of_nat (length l).
Proof.
  unfold zlookup. destruct (Z.ltb_spec i 0); [done|]. intros Hl.
  apply lookup_lt_Some in Hl. lia.
Qed.

Lemma zlookup_lt {X} (l : list X) i : 0 <= i < Z.of_nat (length l) -> exists x, zlookup l i = Some x.
Proof. intros Hi. rewrite zlookup_nat by lia. apply lookup_lt_is_Some_2. lia. Qed.

(** Bit [q] of [i * 2^n + j], for [0 <= j < 2^n]: a bit of [j] below
    [n], a bit of [i] from [n] on. *)
Lemma testbit_row_major i j n q :
  0 <= n -> 0 <= j < 2 ^ n -> 0 <= q ->
  Z.testbit (i * 2 ^ n + j) q = if q <? n then Z.testbit j q else Z.testbit i (q - n).
Proof.
  intros Hn Hj Hq. destruct (Z.ltb_spec q n) as [Hlt|Hge].
  - rewrite <- (Z.mod_pow2_bits_low _ n q) by lia.
    rewrite Z.add_comm, Z_mod_plus_full, Z.mod_small by lia. done.
  - replace q with ((q - n) + n) at 1 by lia.
    rewrite <- Z.shiftr_spec, Z.shiftr_div_pow2 by lia.
    rewrite Z.div_add_l, Z.div_small by lia. f_equal. lia.
Qed.

(** Reading cell [k] of a list extended at its end. *)
Lemma lookup_snoc_Z {A} (l : list A) x k :
  0 <= k -> (l ++ [x]) !! Z.to_nat k = if Z.of_nat (length l) =? k then Some x else l !! Z.to_nat k.
Proof.
  intros Hk. destruct (Z.eqb_spec (Z.of_nat (length l)) k) as [<-|Hne].
  - rewrite Nat2Z.id, lookup_app_r, Nat.sub_diag by lia. done.
  - destruct (decide (Z.to_nat k < length l)%nat).
    + rewrite lookup_app_l by lia. done.
    + rewrite (lookup_ge_None_2 (l ++ [x])), (lookup_ge_None_2 l) by (rewrite ?length_app; simpl; lia). done.
Qed.

(** ** Filters and sums over permuted index lists *)

Lemma filter_perm (f : Z -> bool) (l l' : list Z) :
  l ≡ₚ l' -> List.filter f l ≡ₚ List.filter f l'.
Proof.
  induction 1 as [|x l l' _ IH|x y l|l l' l'' _ IH1 _ IH2]; simpl.
  - done.
  - destruct (f x); [constructor|]; done.
  - destruct (f x), (f y); try constructor; done.
  - etrans; eauto.
Qed.

Lemma filter_partition_perm (f : Z -> bool) (l : list Z) :
  List.filter f l ++ List.filter (fun x => negb (f x)) l ≡ₚ l.
Proof.
  induction l as [|x l IH]; simpl; [done|]. destruct (f x); simpl.
  - constructor. done.
  - rewrite <- Permutation_middle. constructor. done.
Qed.

Lemma rsum_ext_in `{Scalars R C} (f g : Z -> R) l :
  (forall x, x ∈ l -> f x = g x) -> rsum f l = rsum g l.
Proof.
  unfold rsum. generalize r0. induction l as [|x l IH]; intros a Hfg; simpl; [done|].
  rewrite (Hfg x) by constructor. apply IH.
  intros y Hy. apply Hfg. by constructor.
Qed.

Section SumLaws.
Context `{ScalarLaws R C}.

Lemma radd_0_r x : radd x r0 = x.
Proof. rewrite radd_comm. apply radd_0_l. Qed.

Lemma rsum_acc (f : Z -> R) l a : fold_left (fun acc i => radd acc (f i)) l a = radd a (rsum f l).
Proof.
  unfold rsum. revert a. induction l as [|x l IH]; intros a; simpl; [by rewrite radd_0_r|].
  rewrite (IH (radd a (f x))), (IH (radd r0 (f x))), radd_0_l, radd_assoc. done.
Qed.

Lemma rsum_cons (f : Z -> R) x l : rsum f (x :: l) = radd (f x) (rsum f l).
Proof. unfold rsum at 1. simpl. rewrite rsum_acc, radd_0_l. done. Qed.

Lemma rsum_app (f : Z -> R) l1 l2 : rsum f (l1 ++ l2) = radd (rsum f l1) (rsum f l2).
Proof. unfold rsum at 1. rewrite fold_left_app, rsum_acc. done. Qed.

Lemma rsum_perm (f : Z -> R) l l' : l ≡ₚ l' -> rsum f l = rsum f l'.
Proof.
  induction 1 as [|x l l' _ IH|x y l|l l' l'' _ IH1 _ IH2]; rewrite ?rsum_cons.
  - done.
  - rewrite IH. done.
  - rewrite !radd_assoc, (radd_comm (f y)). done.
  - congruence.
Qed.

(** A column sum [sum = COMPLEX_ADD(sum, ...)] whose terms are all zero
    but one is that term. *)
Lemma csum_zero (f : Z -> C) l a :
  (forall r, r ∈ l -> f r = c0) -> fold_left (fun acc r => cadd acc (f r)) l a = a.
Proof.
  revert a. induction l as [|x l IH]; intros a Hz; simpl; [done|].
  rewrite Hz, cadd_0_r by set_solver. apply IH. intros r Hr. apply Hz. set_solver.
Qed.

Lemma csum_single (f : Z -> C) l r0 :
  NoDup l -> r0 ∈ l -> (forall r, r ∈ l -> r <> r0 -> f r = c0) ->
  fold_left (fun acc r => cadd acc (f r)) l c0 = f r0.
Proof.
  intros Hnd Hin Hz. apply list_elem_of_split in Hin as (l1 & l2 & ->).
  apply NoDup_app in Hnd as (_ & Hdis & Hnd2). apply NoDup_cons in Hnd2 as [Hr2 _].
  assert (Hr1 : r0 ∉ l1) by (intros H1; apply (Hdis r0 H1); set_solver).
  rewrite fold_left_app. simpl. rewrite (csum_zero f l1), cadd_0_l, (csum_zero f l2); [done| |].
  - intros r Hr. apply Hz; [set_solver | intros ->; done].
  - intros r Hr. apply Hz; [set_solver | intros ->; done].
Qed.

Lemma rsum_fmap (f : Z -> R) (g : Z -> Z) l : rsum f (g <$> l) = rsum (fun i => f (g i)) l.
Proof. induction l as [|x l IH]; [done|]. rewrite fmap_cons, !rsum_cons, IH. done. Qed.

Lemma rsum_shift (f : Z -> R) m n : 0 <= n -> rsum f (zrange m (m + n)) = rsum (fun j => f (m + j)) (zrange 0 n).
Proof.
  intros Hn. unfold zrange. rewrite <- (rsum_fmap f (Z.add m)), fmap_add_seqZ. do 2 f_equal; lia.
Qed.

Lemma rsum_single (f : Z -> R) x : rsum f [x] = f x.
Proof. unfold rsum. simpl. apply radd_0_l. Qed.

(** A sum over a filter is the sum of the terms the test keeps. *)
Lemma rsum_filter (P : Z -> bool) (f : Z -> R) l :
  rsum f (List.filter P l) = rsum (fun i => if P i then f i else r0) l.
Proof.
  induction l as [|x l IH]; [done|]. simpl. rewrite rsum_cons, <- IH.
  destruct (P x); [rewrite rsum_cons|rewrite radd_0_l]; done.
Qed.

(** Fubini on a rectangle: the indices [0 <= k < a * b] are the pairs
    [k = i * b + j], [0 <= i < a], [0 <= j < b], row after row. *)
Lemma rsum_zrange_mul (f : Z -> R) a b : 0 <= a -> 0 <= b ->
  rsum f (zrange 0 (a * b)) = rsum (fun i => rsum (fun j => f (i * b + j)) (zrange 0 b)) (zrange 0 a).
Proof.
  intros Ha Hb. revert a Ha. apply natlike_ind; [done|]. intros a Ha IH.
  unfold Z.succ. rewrite (zrange_split 0 (a * b) ((a + 1) * b)) by nia.
  replace ((a + 1) * b) with (a * b + b) by ring.
  rewrite zrange_snoc, !rsum_app, IH, rsum_shift, rsum_single by lia. done.
Qed.

End SumLaws.

Section MulSums.
Context `{ScalarLaws R C} {ML : MulLaws R C}.

Lemma rmul_0_l x : rmul r0 x = r0.
Proof. rewrite rmul_comm. apply rmul_0_r. Qed.

(** A constant factor comes out of a sum. *)
Lemma rsum_mul_l (c : R) (f : Z -> R) l : rsum (fun i => rmul c (f i)) l = rmul c (rsum f l).
Proof.
  induction l as [|x l IH]; [unfold rsum; simpl; by rewrite rmul_0_r|].
  rewrite !rsum_cons, IH, rmul_radd_distr_l. done.
Qed.

Lemma rsum_mul_r (c : R) (f : Z -> R) l : rsum (fun i => rmul (f i) c) l = rmul (rsum f l) c.
Proof. rewrite rmul_comm, <- rsum_mul_l. apply rsum_ext_in. intros. apply rmul_comm. Qed.

End MulSums.

#[export] Hint Rewrite @obind_ok zrange_length : qsim_rw.
#[export] Hint Resolve NoDup_zrange : qsim.
