(* ===== verification/ArrayList.v ===== *)
(** * The chunked store of [arraylist.c]

    [struct array_list_e] keeps a long array as [num_chunks] separately
    allocated chunks: every chunk but the last holds NATURAL_ARRAY_SIZE
    cells, the last holds the remainder.  This file models the store
    generically in its element type and its chunk capacity (the state
    vector of [qstate.c] uses the same scheme for amplitudes), then
    instantiates it as [alist_init], [alist_clear], [alist_set] and
    [alist_get] with the capacities the C code uses: [alist_init] lays
    chunks out by NATURAL_ARRAY_SIZE while [alist_set] and [alist_get]
    address them by COMPLEX_ARRAY_SIZE.

    The theorems show that a well-formed chunked store behaves as one flat
    array ([flat]): [chunks_get] and [chunks_set] are reads and writes of
    that array, in and out of range; that [chunks_init] either succeeds
    with a well-formed store of indeterminate cells or fails having freed
    everything, and what [alist_init(0)] does on each kind of C library
    ([chunks_init_zero]: the [size_t] loop bound wraps around); and what
    happens when the two capacities differ. *)

From S2P Require Import Prelude.

(** The target platform: the compile-time constants of [platform.h]
    (not among the sources), the largest value of the unsigned type
    NATURAL_TYPE, and whether the C library's [malloc(0)] returns NULL
    (ISO C 7.22.3: implementation-defined, NULL or a pointer that may not
    be dereferenced). *)
Class Platform := {
  NATURAL_ARRAY_SIZE : Z;
  COMPLEX_ARRAY_SIZE : Z;
  NATURAL_ARRAY_SIZE_pos : 0 < NATURAL_ARRAY_SIZE;
  COMPLEX_ARRAY_SIZE_pos : 0 < COMPLEX_ARRAY_SIZE;
  NATURAL_MAX : Z;
  NATURAL_MAX_pos : 1 <= NATURAL_MAX;
  MALLOC_ZERO_NULL : bool
}.

Module Chunked.
Section Store.
Context `{Platform} {A : Type}.

(** The [vector] field: NULL, a pointer to freed memory, or live chunks. *)
Inductive vec_ptr :=
| VNull
| VFreed
| VLive (cs : list (list (option A))).

(** [struct array_list_e] *)
Record store := mkStore { size : Z; num_chunks : Z; vector : vec_ptr }.

(** The number of chunks and the capacity of the last one. *)
Definition chunk_layout (cap size : Z) : Z * Z :=
  let nc := size / cap in
  let offset := size mod cap in
  if 0 <? offset then (nc + 1, offset) else (nc, cap).

Definition fresh_chunk (n : Z) : list (option A) := repeat None (Z.to_nat n).

(** [x - 1] in the unsigned NATURAL_TYPE: [0 - 1] wraps around to
    NATURAL_MAX. *)
Definition natural_pred (x : Z) : Z := if x =? 0 then NATURAL_MAX else x - 1.

(** [MALLOC_TYPE(n, T)]: [malloc(0)] follows the C library. *)
Definition malloc_array (n : Z) : M bool :=
  if n =? 0 then mret (negb MALLOC_ZERO_NULL) else malloc n.

(** [for (i = 0; i < num_chunks - 1; i++) { vector[i] = malloc(cap); if
    (vector[i] == NULL) { errored = 1; break; } }] with [vector] an array
    of [nc] pointers: returns whether a malloc failed, and the chunks
    obtained before.  The store [vector[i]] is past the end of the array
    once [i >= nc], so [nc + 1] iterations ([fuel]) decide the loop. *)
Fixpoint alloc_loop (cap nc : Z) (fuel : nat) (i : Z) (acc : list (list (option A)))
    : M (bool * list (list (option A))) :=
  match fuel with
  | O => undef
  | S fuel' =>
      if i <? natural_pred nc then
        let! ok := malloc cap in
        if nc <=? i then undef
        else if ok then alloc_loop cap nc fuel' (i + 1) (acc ++ [fresh_chunk cap]) else mret (true, acc)
      else mret (false, acc)
  end.

(** [for (i = 0; i < errored_chunk; i++) free(vector[i])] *)
Fixpoint free_chunks (cs : list (list (option A))) : M unit :=
  match cs with
  | [] => mret tt
  | c :: cs' => mfree (Z.of_nat (length c)) ;; free_chunks cs'
  end.

(** [alist_init], with the chunk capacity as a parameter.  With
    [num_chunks = 0] the pointer array is [malloc(0)], and the loop bound
    [num_chunks - 1] wraps around to NATURAL_MAX. *)
Definition chunks_init (cap size : Z) : M (Z * store) :=
  let '(nc, offset) := chunk_layout cap size in
  let! ok := malloc_array nc in
  if negb ok then mret (1, mkStore size nc VNull)
  else
    let! '(errored, cs) := alloc_loop cap nc (S (Z.to_nat nc)) 0 [] in
    let! '(errored, cs) :=
      if errored then mret (true, cs)
      else (let! ok := malloc offset in
            if ok then mret (false, cs ++ [fresh_chunk offset]) else mret (true, cs)) in
    if errored then free_chunks cs ;; mfree nc ;; mret (2, mkStore size nc VFreed)
    else mret (0, mkStore size nc (VLive cs)).

(** [for (i = 0; i < num_chunks; i++) free(vector[i])] *)
Fixpoint free_first (n : nat) (cs : list (list (option A))) : M unit :=
  match n, cs with
  | O, _ => mret tt
  | S _, [] => undef
  | S n', c :: cs' => mfree (Z.of_nat (length c)) ;; free_first n' cs'
  end.

Definition empty_store : store := mkStore 0 0 VNull.

(** [alist_clear]: a store whose chunks were already freed by a failed
    [alist_init] is freed a second time. *)
Definition chunks_clear (l : store) : M store :=
  match vector l with
  | VNull => mret empty_store
  | VFreed => undef
  | VLive cs => free_first (Z.to_nat (num_chunks l)) cs ;; mfree (num_chunks l) ;; mret empty_store
  end.

(** [vector[i / cap][i % cap] = value] *)
Definition chunks_set (cap : Z) (l : store) (i : Z) (v : A) : outcome store :=
  match vector l with
  | VLive cs =>
      match cs !! Z.to_nat (i / cap) with
      | Some c =>
          if i mod cap <? Z.of_nat (length c)
          then Ok (mkStore (size l) (num_chunks l)
                     (VLive (<[Z.to_nat (i / cap) := <[Z.to_nat (i mod cap) := Some v]> c]> cs)))
          else UB
      | None => UB
      end
  | _ => UB
  end.

(** [return vector[i / cap][i % cap]]: reading an indeterminate cell is
    undefined. *)
Definition chunks_get (cap : Z) (l : store) (i : Z) : outcome A :=
  match vector l with
  | VLive cs =>
      match cs !! Z.to_nat (i / cap) ≫= (fun c => c !! Z.to_nat (i mod cap)) with
      | Some (Some v) => Ok v
      | _ => UB
      end
  | _ => UB
  end.

(** ** The flat view and the layout invariant *)

Definition flat (l : store) : list (option A) :=
  match vector l with VLive cs => concat cs | _ => [] end.

(** Every chunk but the last is full; the last is non-empty. *)
Inductive chunks_ok (cap : nat) : list (list (option A)) -> Prop :=
| chunks_ok_last c : (0 < length c <= cap)%nat -> chunks_ok cap [c]
| chunks_ok_cons c cs : length c = cap -> chunks_ok cap cs -> chunks_ok cap (c :: cs).

Definition store_wf (cap : Z) (l : store) : Prop :=
  match vector l with
  | VLive cs =>
      chunks_ok (Z.to_nat cap) cs /\ num_chunks l = Z.of_nat (length cs) /\
      size l = Z.of_nat (length (concat cs))
  | _ => False
  end.

End Store.
End Chunked.

Export Chunked.
Arguments store : clear implicits.
Arguments vec_ptr : clear implicits.

(** ** Chunk arithmetic *)

Section Layout.
Context {A : Type}.
Implicit Types (cs : list (list (option A))) (c : list (option A)).

Lemma chunks_ok_cap_pos cap cs : chunks_ok cap cs -> (0 < cap)%nat.
Proof. induction 1; lia. Qed.

(** An in-range index [i] is cell [i mod cap] of chunk [i / cap], and
    writing that cell writes cell [i] of the concatenation. *)
Lemma chunks_ok_lookup cap cs i :
  chunks_ok cap cs -> (i < length (concat cs))%nat ->
  exists c, cs !! (i / cap)%nat = Some c /\ (i mod cap < length c)%nat /\
    concat cs !! i = c !! (i mod cap)%nat /\
    forall x, concat (<[(i / cap)%nat := <[(i mod cap)%nat := x]> c]> cs) = <[i := x]> (concat cs).
Proof.
  intros Hok. revert i. induction Hok as [c Hc | c cs Hc Hok IH]; intros i Hi; simpl in *.
  - rewrite app_nil_r in Hi. rewrite Nat.div_small, Nat.mod_small by lia.
    exists c. simpl. rewrite !app_nil_r. split; [done|]. split; [lia|]. split; [done|].
    intros x. by rewrite !app_nil_r.
  - pose proof (chunks_ok_cap_pos _ _ Hok).
    destruct (decide (i < cap)%nat).
    + rewrite Nat.div_small, Nat.mod_small by lia. exists c. simpl.
      split; [done|]. split; [lia|]. split; [apply lookup_app_l; lia|].
      intros x. rewrite insert_app_l by lia. done.
    + rewrite length_app in Hi. destruct (IH (i - cap)%nat) as (c' & Hc' & Hr & Hget & Hins); [lia|].
      assert (Hd : (i / cap = S ((i - cap) / cap))%nat).
      { replace i with ((i - cap) + 1 * cap)%nat at 1 by lia. rewrite Nat.div_add; lia. }
      assert (Hm : (i mod cap = (i - cap) mod cap)%nat).
      { replace i with ((i - cap) + 1 * cap)%nat at 1 by lia. apply Nat.Div0.mod_add. }
      rewrite Hd, Hm. exists c'. simpl. rewrite lookup_app_r by lia.
      replace (i - length c)%nat with (i - cap)%nat by lia.
      split; [done|]. split; [done|]. split; [rewrite Hget; done|].
      intros x. rewrite insert_app_r_alt by lia.
      rewrite Hins. do 2 f_equal. lia.
Qed.

(** An out-of-range index either names no chunk or lies past its end. *)
Lemma chunks_ok_lookup_ge cap cs i :
  chunks_ok cap cs -> (length (concat cs) <= i)%nat ->
  match cs !! (i / cap)%nat with Some c => (length c <= i mod cap)%nat | None => True end.
Proof.
  intros Hok. revert i. induction Hok as [c Hc | c cs Hc Hok IH]; intros i Hi; simpl in *.
  - rewrite app_nil_r in Hi. destruct (i / cap)%nat eqn:E; simpl; [|done].
    apply Nat.div_small_iff in E; [|lia]. rewrite Nat.mod_small; lia.
  - pose proof (chunks_ok_cap_pos _ _ Hok). rewrite length_app in Hi.
    assert (Hd : (i / cap = S ((i - cap) / cap))%nat).
    { replace i with ((i - cap) + 1 * cap)%nat at 1 by lia. rewrite Nat.div_add; lia. }
    assert (Hm : (i mod cap = (i - cap) mod cap)%nat).
    { replace i with ((i - cap) + 1 * cap)%nat at 1 by lia. apply Nat.Div0.mod_add. }
    rewrite Hd, Hm. apply IH. lia.
Qed.

Lemma chunks_ok_insert cap cs q c c' :
  chunks_ok cap cs -> cs !! q = Some c -> length c' = length c -> chunks_ok cap (<[q := c']> cs).
Proof.
  intros Hok. revert q. induction Hok as [c0 Hc | c0 cs Hc Hok IH]; intros [|q] Hq Hl; simpl in *;
    simplify_eq.
  - constructor. lia.
  - constructor; [lia | done].
  - constructor; auto.
Qed.

(** The chunks of a fresh store. *)
Lemma chunks_ok_fresh cap n offset :
  (0 < offset <= cap)%nat ->
  chunks_ok cap (repeat (repeat (@None A) cap) n ++ [repeat None offset]).
Proof.
  intros H. induction n; simpl; constructor; rewrite ?repeat_length; auto; lia.
Qed.

Lemma concat_fresh (m offset : nat) n :
  concat (repeat (repeat (@None A) m) n ++ [repeat None offset]) = repeat None (n * m + offset).
Proof.
  induction n; simpl; rewrite ?app_nil_r; [done|].
  rewrite IHn, <- repeat_app. f_equal. lia.
Qed.

End Layout.

(** ** The chunked store refines a flat array *)

Section Flat.
Context {A : Type} (cap : Z).
Implicit Types (l : store A).

Lemma store_wf_cap l : store_wf cap l -> 0 < cap.
Proof.
  unfold store_wf. destruct (vector l); try tauto. intros (Hok & _).
  apply chunks_ok_cap_pos in Hok. lia.
Qed.

Lemma store_wf_flat_length l : store_wf cap l -> length (flat l) = Z.to_nat (size l).
Proof. unfold store_wf, flat. destruct (vector l); try tauto. lia. Qed.

(** Reading cell [i] of the chunks is reading cell [i] of [flat]. *)
Lemma chunks_get_flat l i :
  store_wf cap l -> 0 <= i ->
  chunks_get cap l i = match flat l !! Z.to_nat i with Some (Some v) => Ok v | _ => UB end.
Proof.
  intros Hwf Hi. pose proof (store_wf_cap l Hwf) as Hcap. revert Hwf.
  unfold store_wf, chunks_get, flat. destruct (vector l) as [| |cs]; try tauto.
  intros (Hok & _ & _). rewrite Z2Nat.inj_div, Z2Nat.inj_mod by lia.
  destruct (decide (Z.to_nat i < length (concat cs))%nat) as [Hin|Hout].
  - destruct (chunks_ok_lookup _ _ _ Hok Hin) as (c & Hc & _ & Hget & _).
    rewrite Hc. simpl. rewrite Hget. reflexivity.
  - pose proof (chunks_ok_lookup_ge _ _ (Z.to_nat i) Hok) as Hge.
    rewrite (lookup_ge_None_2 (concat cs)) by lia.
    destruct (cs !! _) as [c|] eqn:E; simpl; [|done].
    rewrite (lookup_ge_None_2 c) by (apply Hge; lia). reflexivity.
Qed.

(** Writing an in-range cell writes [flat] and keeps the layout. *)
Lemma chunks_set_flat l i v :
  store_wf cap l -> 0 <= i < size l ->
  exists l', chunks_set cap l i v = Ok l' /\ store_wf cap l' /\
    flat l' = <[Z.to_nat i := Some v]> (flat l) /\ size l' = size l /\ num_chunks l' = num_chunks l.
Proof.
  intros Hwf Hi. pose proof (store_wf_cap l Hwf) as Hcap. revert Hwf.
  unfold store_wf, chunks_set, flat. destruct l as [sz nc [| |cs]]; cbn [vector size num_chunks] in *;
    try tauto.
  intros (Hok & Hnc & Hsz). rewrite Z2Nat.inj_div, Z2Nat.inj_mod by lia.
  destruct (chunks_ok_lookup _ _ (Z.to_nat i) Hok) as (c & Hc & Hr & _ & Hins); [lia|].
  pose proof (Z.mod_pos_bound i cap Hcap). pose proof (Z2Nat.inj_mod i cap).
  rewrite Hc. destruct (Z.ltb_spec (i mod cap) (Z.of_nat (length c))); [|lia].
  eexists; split; [reflexivity|]. simpl. rewrite Hins, length_insert.
  split_and!; try done.
  - eapply chunks_ok_insert; eauto. apply length_insert.
  - rewrite Hsz, length_insert. done.
Qed.

(** Writing an out-of-range cell is undefined. *)
Lemma chunks_set_out l i v :
  store_wf cap l -> size l <= i -> chunks_set cap l i v = UB.
Proof.
  intros Hwf Hi. pose proof (store_wf_cap l Hwf) as Hcap. revert Hwf.
  unfold store_wf, chunks_set. destruct (vector l) as [| |cs]; try tauto.
  intros (Hok & _ & Hsz). rewrite Z2Nat.inj_div, Z2Nat.inj_mod by lia.
  pose proof (chunks_ok_lookup_ge _ _ (Z.to_nat i) Hok) as Hge.
  destruct (cs !! _) as [c|]; [|done].
  pose proof (Z.mod_pos_bound i cap Hcap). pose proof (Z2Nat.inj_mod i cap).
  destruct (Z.ltb_spec (i mod cap) (Z.of_nat (length c))); [|done].
  exfalso. specialize (Hge ltac:(lia)). lia.
Qed.

End Flat.

(** ** Allocation and release *)

Section Alloc.
Context `{Platform} {A : Type}.

Lemma length_concat_repeat (c : list (option A)) k :
  length (concat (repeat c k)) = (k * length c)%nat.
Proof. induction k; simpl; rewrite ?length_app; lia. Qed.

(** For [nc >= 1] the chunk loop from iteration [i] obtains [k] chunks,
    stores them inside the pointer array, and stops early only on a NULL. *)
Lemma alloc_loop_spec cap nc fuel i (acc : list (list (option A))) m :
  0 <= cap -> 1 <= nc -> 0 <= i <= nc - 1 -> (Z.to_nat (nc - 1 - i) < fuel)%nat ->
  exists k err m', alloc_loop cap nc fuel i acc m = Ok ((err, acc ++ repeat (fresh_chunk cap) k), m') /\
    (k <= Z.to_nat (nc - 1 - i))%nat /\ avail m' = avail m - Z.of_nat k * cap /\
    (err = false -> k = Z.to_nat (nc - 1 - i)).
Proof.
  intros Hcap Hnc. revert i acc m. induction fuel as [|fuel IH]; intros i acc m Hi Hf; [lia|].
  cbn [alloc_loop]. unfold natural_pred. rewrite (proj2 (Z.eqb_neq nc 0)) by lia.
  destruct (Z.ltb_spec i (nc - 1)) as [Hlt|Hge].
  - unfold mbind at 1, malloc at 1. rewrite (proj2 (Z.leb_gt nc i)) by lia.
    destruct (Z.leb_spec cap (avail m)).
    + destruct (IH (i + 1) (acc ++ [fresh_chunk cap]) (mkMem (avail m - cap))) as (k & err & m' & Hrun & Hk & Hm & He);
        [lia | lia |].
      exists (S k), err, m'. rewrite Hrun, <- app_assoc. simpl in *.
      split_and!; [done | lia | lia | intros Herr; specialize (He Herr); lia].
    + exists 0%nat, true, m. rewrite app_nil_r. split_and!; [done | lia | lia | done].
  - exists 0%nat, false, m. rewrite app_nil_r. split_and!; [done | lia | lia | intros; lia].
Qed.

Lemma free_chunks_spec (cs : list (list (option A))) m :
  free_chunks cs m = Ok (tt, mkMem (avail m + Z.of_nat (length (concat cs)))).
Proof.
  revert m. induction cs as [|c cs IH]; intros m; simpl.
  - unfold mret. destruct m as [a]. simpl. do 3 f_equal. lia.
  - unfold mbind, mfree at 1. rewrite IH. simpl. rewrite length_app. do 3 f_equal. lia.
Qed.

Lemma chunk_layout_spec cap size :
  0 < cap -> 0 < size ->
  1 <= fst (chunk_layout cap size) /\ 0 < snd (chunk_layout cap size) <= cap /\
  (fst (chunk_layout cap size) - 1) * cap + snd (chunk_layout cap size) = size.
Proof.
  intros Hc Hs. unfold chunk_layout.
  pose proof (Z.div_mod size cap ltac:(lia)). pose proof (Z.mod_pos_bound size cap Hc).
  pose proof (Z.div_pos size cap ltac:(lia) Hc).
  destruct (Z.ltb_spec 0 (size mod cap)); simpl; nia.
Qed.

Lemma fresh_chunks_ok cap n offset :
  0 < offset <= cap ->
  chunks_ok (Z.to_nat cap) (repeat (fresh_chunk (A:=A) cap) n ++ [fresh_chunk offset]) /\
  concat (repeat (fresh_chunk (A:=A) cap) n ++ [fresh_chunk offset]) =
    repeat None (n * Z.to_nat cap + Z.to_nat offset).
Proof.
  intros Hoff. unfold fresh_chunk. split; [apply chunks_ok_fresh; lia | apply concat_fresh].
Qed.

(** A well-formed layout has the number of chunks [alist_init] computes. *)
Lemma chunks_ok_shape cap (cs : list (list (option A))) :
  chunks_ok cap cs -> exists r : nat, (0 < r)%nat /\ (r <= cap)%nat /\
    length (concat cs) = ((length cs - 1) * cap + r)%nat.
Proof.
  induction 1 as [c Hc|c cs Hc Hok (r & Hr & Hr2 & Hlen)]; simpl.
  - exists (length c). rewrite app_nil_r. lia.
  - exists r. split_and!; [done|done|]. rewrite length_app, Hlen, Hc.
    inversion Hok; simpl in *; lia.
Qed.

Lemma store_wf_num_chunks cap (l : store A) :
  0 < cap -> store_wf cap l -> num_chunks l = fst (chunk_layout cap (size l)).
Proof.
  intros Hc. unfold store_wf. destruct (vector l) as [| |cs]; [done|done|].
  intros (Hok & Hnc & Hsz). destruct (chunks_ok_shape _ _ Hok) as (r & Hr & Hr2 & Hlen).
  pose proof (chunks_ok_cap_pos _ _ Hok). assert (length cs <> 0%nat) by (inversion Hok; simpl; lia).
  destruct (chunk_layout_spec cap (size l) Hc ltac:(lia)) as (Hk & Hr' & Heq).
  rewrite Hnc. set (k := fst _) in *. set (r' := snd _) in *. rewrite Hsz, Hlen in Heq.
  assert (Hz : Z.of_nat ((length cs - 1) * Z.to_nat cap + r) = (Z.of_nat (length cs) - 1) * cap + Z.of_nat r)
    by (rewrite Nat2Z.inj_add, Nat2Z.inj_mul, Nat2Z.inj_sub, Z2Nat.id by lia; simpl; lia).
  rewrite Hz in Heq. destruct (Z.lt_total k (Z.of_nat (length cs))) as [Hlt|[Heq'|Hgt]]; [| done |].
  - assert (0 <= (Z.of_nat (length cs) - 1 - k) * cap) by (apply Z.mul_nonneg_nonneg; lia). lia.
  - assert (0 <= (k - 1 - Z.of_nat (length cs)) * cap) by (apply Z.mul_nonneg_nonneg; lia). lia.
Qed.

End Alloc.


Section InitSpec.
Context `{Platform} {A : Type}.

Lemma chunks_init_spec cap size m :
  0 < cap -> 0 < size ->
  exists code (l : store A) m', chunks_init cap size m = Ok ((code, l), m') /\
    ((code = 0 /\ store_wf cap l /\ Chunked.size l = size /\
      flat l = repeat None (Z.to_nat size) /\ avail m' = avail m - num_chunks l - size) \/
     (((code = 1 /\ vector l = VNull) \/ (code = 2 /\ vector l = VFreed)) /\ avail m' = avail m)).
Proof.
  intros Hc Hs. pose proof (chunk_layout_spec cap size Hc Hs) as (Hnc & Hoff & Hsum).
  unfold chunks_init. destruct (chunk_layout cap size) as [nc off] eqn:E. simpl in Hnc, Hoff, Hsum.
  remember (S (Z.to_nat nc)) as fuel eqn:Hfuel.
  unfold malloc_array. rewrite (proj2 (Z.eqb_neq nc 0)) by lia.
  unfold mbind at 1, malloc at 1. destruct (Z.leb_spec nc (avail m)); simpl.
  2: { eexists _, _, _. split; [reflexivity|]. right. split; [left; auto | done]. }
  destruct (alloc_loop_spec (A:=A) cap nc fuel 0 [] (mkMem (avail m - nc)))
    as (k & err & m1 & Hrun & Hk & Hm1 & He); [lia | lia | lia | lia |].
  rewrite Z.sub_0_r in Hk, He.
  unfold mbind at 1. rewrite Hrun. simpl in *.
  assert (Hlen : forall k', length (concat (repeat (fresh_chunk (A:=A) cap) k')) = (k' * Z.to_nat cap)%nat).
  { intros k'. rewrite length_concat_repeat. unfold fresh_chunk. rewrite repeat_length. done. }
  destruct err.
  - unfold mbind, mret, mfree. simpl. rewrite free_chunks_spec, Hlen. simpl.
    eexists _, _, _. split; [reflexivity|]. right. split; [right; auto|]. simpl. nia.
  - specialize (He eq_refl). subst k. unfold mbind, malloc, mret. cbv beta iota.
    destruct (Z.leb_spec off (avail m1)).
    + assert (Hn : (Z.to_nat (nc - 1) * Z.to_nat cap + Z.to_nat off)%nat = Z.to_nat size).
      { subst size. rewrite Z2Nat.inj_add, Z2Nat.inj_mul by nia. done. }
      assert (Hmem : avail m1 - off = avail m - nc - size).
      { rewrite Z2Nat.id in Hm1 by lia. nia. }
      simpl. eexists _, _, _. split; [reflexivity|]. left.
      destruct (fresh_chunks_ok (A:=A) cap (Z.to_nat (nc - 1)) off) as [Hok Hcat]; [lia|].
      unfold store_wf, flat. simpl. rewrite Hcat, length_app, repeat_length, repeat_length, Hn. simpl.
      split_and!; try done; lia.
    + fold (mbind (A:=unit) (B:=Z * store A)). unfold mfree. simpl. rewrite free_chunks_spec, Hlen. simpl.
      eexists _, _, _. split; [reflexivity|]. right. split; [right; auto|]. simpl. nia.
Qed.

(** [alist_init(0)]: [num_chunks] is 0.  If [malloc(0)] returns NULL
    the function returns 1 having taken nothing; otherwise the loop bound
    [num_chunks - 1] wraps around to NATURAL_MAX and the first iteration
    stores [vector[0]] past the end of the zero-length pointer array,
    whether or not the chunk's [malloc] succeeded. *)
Lemma chunks_init_zero cap m :
  0 < cap ->
  chunks_init (A:=A) cap 0 m = if MALLOC_ZERO_NULL then Ok ((1, mkStore 0 0 VNull), m) else UB.
Proof.
  intros Hc. pose proof NATURAL_MAX_pos. unfold chunks_init, chunk_layout.
  rewrite Z.div_0_l, Z.mod_0_l by lia. simpl. unfold malloc_array. simpl.
  destruct MALLOC_ZERO_NULL; simpl; [destruct m; done|].
  unfold natural_pred. simpl. rewrite (proj2 (Z.ltb_lt 0 NATURAL_MAX)) by lia.
  unfold mbind, mret, malloc, undef. simpl. destruct (cap <=? avail m); reflexivity.
Qed.

End InitSpec.

Section Release.
Context {A : Type}.

Lemma free_first_all (cs : list (list (option A))) :
  free_first (length cs) cs = free_chunks cs.
Proof. induction cs as [|c cs IH]; simpl; [done|]. by rewrite IH. Qed.

Lemma chunks_ok_single cap (cs : list (list (option A))) :
  chunks_ok cap cs -> (length (concat cs) <= cap)%nat -> length cs = 1%nat.
Proof.
  intros Hok Hle. inversion Hok as [c Hc|c cs' Hc Hok']; subst; [done|].
  pose proof (chunks_ok_cap_pos _ _ Hok').
  inversion Hok'; subst; simpl in *; rewrite ?length_app in Hle; lia.
Qed.

(** Clearing a well-formed store gives back its chunks and pointer array. *)
Lemma chunks_clear_wf cap (l : store A) m :
  store_wf cap l -> chunks_clear l m = Ok (empty_store, mkMem (avail m + num_chunks l + size l)).
Proof.
  unfold chunks_clear, store_wf.
  destruct (vector l) as [| |cs]; try tauto. intros (_ & Hnc & Hsz).
  rewrite Hnc, Nat2Z.id, free_first_all. unfold mbind at 1. rewrite free_chunks_spec.
  unfold mbind, mfree, mret. simpl. do 3 f_equal. lia.
Qed.

End Release.

(** The store as a partial array: a write is seen by later reads of the
    same index only; a fresh store reads as indeterminate everywhere. *)
Section GetSet.
Context {A : Type} (cap : Z).

Lemma chunks_set_get (l : store A) i v :
  store_wf cap l -> 0 <= i < size l ->
  exists l', chunks_set cap l i v = Ok l' /\ store_wf cap l' /\ size l' = size l /\
    num_chunks l' = num_chunks l /\
    forall j, 0 <= j -> chunks_get cap l' j = if i =? j then Ok v else chunks_get cap l j.
Proof.
  intros Hwf Hi. destruct (chunks_set_flat cap l i v Hwf Hi) as (l' & Hset & Hwf' & Hflat & Hsz & Hnc).
  exists l'. split_and!; try done. intros j Hj.
  rewrite !chunks_get_flat by done. rewrite Hflat.
  pose proof (store_wf_flat_length _ l Hwf).
  destruct (Z.eqb_spec i j) as [<-|Hne].
  - rewrite list_lookup_insert_eq by lia. done.
  - rewrite list_lookup_insert_ne by lia. done.
Qed.

Lemma chunks_get_fresh (l : store A) j :
  store_wf cap l -> flat l = repeat None (Z.to_nat (size l)) -> 0 <= j -> chunks_get cap l j = UB.
Proof.
  intros Hwf Hf Hj. rewrite chunks_get_flat, Hf by done.
  destruct (repeat None _ !! Z.to_nat j) eqn:E; [|done].
  apply list_elem_of_lookup_2, list_elem_of_In, repeat_spec in E. subst. done.
Qed.

End GetSet.

(** ** Deciding the layout invariant *)

Section Decide.
Context {A : Type}.

Fixpoint chunks_okb (cap : nat) (cs : list (list (option A))) : bool :=
  match cs with
  | [] => false
  | c :: cs' =>
      match cs' with
      | [] => (0 <? length c)%nat && (length c <=? cap)%nat
      | _ => (length c =? cap)%nat && chunks_okb cap cs'
      end
  end.

Definition store_wfb (cap : Z) (l : store A) : bool :=
  match vector l with
  | VLive cs =>
      chunks_okb (Z.to_nat cap) cs && (num_chunks l =? Z.of_nat (length cs)) &&
      (size l =? Z.of_nat (length (concat cs)))
  | _ => false
  end.

Lemma chunks_okb_spec cap cs : chunks_okb cap cs = true <-> chunks_ok cap cs.
Proof.
  induction cs as [|c cs IH]; simpl.
  - split; [done | inversion 1].
  - destruct cs as [|c' cs'].
    + rewrite andb_true_iff, Nat.ltb_lt, Nat.leb_le. split; [constructor; lia|].
      inversion 1 as [? Hc|? ? ? Hok]; [lia | inversion Hok].
    + rewrite andb_true_iff, Nat.eqb_eq, IH. split; [intros []; constructor; auto|].
      inversion 1; auto.
Qed.

Lemma store_wfb_spec cap l : store_wfb cap l = true <-> store_wf cap l.
Proof.
  unfold store_wfb, store_wf. destruct (vector l); try (split; [done | tauto]).
  rewrite !andb_true_iff, chunks_okb_spec, !Z.eqb_eq. tauto.
Qed.

End Decide.

(** ** The [arraylist.c] functions: chunks of NATURAL_TYPE indices *)

Section ArrayList.
Context `{Platform}.

Definition array_list_e := store Z.

Definition alist_init (size : Z) : M (Z * array_list_e) := chunks_init NATURAL_ARRAY_SIZE size.
Definition alist_clear (l : array_list_e) : M array_list_e := chunks_clear l.
Definition alist_set (l : array_list_e) (i v : Z) : outcome array_list_e :=
  chunks_set COMPLEX_ARRAY_SIZE l i v.
Definition alist_get (l : array_list_e) (i : Z) : outcome Z := chunks_get COMPLEX_ARRAY_SIZE l i.

End ArrayList.

(** ** Properties of the array list *)

Section ArrayListProps.
Context `{Platform}.

(** C18: when the two chunk capacities coincide, [alist_get] after
    [alist_set] at an in-range index returns the value written there and
    leaves every other cell as it was. *)
Theorem alist_set_get (Hcap : NATURAL_ARRAY_SIZE = COMPLEX_ARRAY_SIZE) (l : array_list_e) i v j :
  store_wfb NATURAL_ARRAY_SIZE l = true -> 0 <= i < size l -> 0 <= j ->
  exists l', alist_set l i v = Ok l' /\ alist_get l' j = (if i =? j then Ok v else alist_get l j).
Proof.
  intros Hwf%store_wfb_spec Hi Hj. unfold alist_set, alist_get. rewrite <- Hcap.
  destruct (chunks_set_get _ l i v Hwf Hi) as (l' & Hset & _ & _ & _ & Hget).
  exists l'. split; [done | apply Hget, Hj].
Qed.

(** C19: [alist_init] of a positive size either succeeds with a well-formed
    store of [size] indeterminate cells, having taken exactly its chunks
    and pointer array from memory, or fails with code 1 (pointer array)
    or 2 (a chunk) having given back everything it took. *)
Theorem alist_init_all_or_nothing size m :
  0 < size ->
  exists code l m', alist_init size m = Ok ((code, l), m') /\
    ((code = 0 /\ store_wfb NATURAL_ARRAY_SIZE l = true /\ Chunked.size l = size /\
      flat l = repeat None (Z.to_nat size) /\ avail m' = avail m - num_chunks l - size) \/
     (((code = 1 /\ vector l = VNull) \/ (code = 2 /\ vector l = VFreed)) /\ avail m' = avail m)).
Proof.
  intros Hs. destruct (chunks_init_spec (A:=Z) NATURAL_ARRAY_SIZE size m NATURAL_ARRAY_SIZE_pos Hs)
    as (code & l & m' & Hrun & Hres).
  exists code, l, m'. split; [done|]. rewrite store_wfb_spec. done.
Qed.

(** C23: [alist_init 0] allocates a zero-length pointer array.  Where
    [malloc(0)] returns NULL the function returns 1 and takes nothing;
    where it returns a unique pointer, the loop bound [num_chunks - 1]
    wraps around to NATURAL_MAX, and the first iteration writes
    [vector[0]] past the end of that array. *)
Theorem alist_init_zero m :
  alist_init 0 m = if MALLOC_ZERO_NULL then Ok ((1, mkStore 0 0 VNull), m) else UB.
Proof. exact (chunks_init_zero NATURAL_ARRAY_SIZE m NATURAL_ARRAY_SIZE_pos). Qed.

(** C20: clearing a well-formed store gives back its chunks and its pointer
    array and leaves the empty store; clearing the empty store again
    changes nothing. *)
Theorem alist_clear_releases (l : array_list_e) m :
  store_wfb NATURAL_ARRAY_SIZE l = true ->
  alist_clear l m = Ok (empty_store, mkMem (avail m + num_chunks l + size l)) /\
  alist_clear empty_store m = Ok (empty_store, m).
Proof.
  intros Hwf%store_wfb_spec. split; [|done]. eapply chunks_clear_wf; eauto.
Qed.

(** C24: after [alist_init] fails on a chunk (code 2) the [vector] field
    still points to the freed chunk array, so a later [alist_clear] frees
    it a second time. *)
Theorem alist_clear_after_failed_init size m m' (l : array_list_e) m'' :
  0 < size -> alist_init size m = Ok ((2, l), m') -> alist_clear l m'' = UB.
Proof.
  intros Hs Hrun.
  destruct (chunks_init_spec (A:=Z) NATURAL_ARRAY_SIZE size m NATURAL_ARRAY_SIZE_pos Hs)
    as (code & l0 & m0 & Hrun' & Hres). unfold alist_init in Hrun.
  rewrite Hrun in Hrun'. injection Hrun' as <- <- <-.
  unfold alist_clear, chunks_clear. destruct Hres as [[? _]|[[[? _]|[_ ->]] _]]; [lia|lia|done].
Qed.

(** C22: if COMPLEX_ARRAY_SIZE is smaller than NATURAL_ARRAY_SIZE, a store
    of NATURAL_ARRAY_SIZE cells laid out by [alist_init] is a single
    chunk, and [alist_set] at the in-range index COMPLEX_ARRAY_SIZE
    addresses a second chunk that does not exist. *)
Theorem alist_capacity_mismatch (l : array_list_e) v :
  COMPLEX_ARRAY_SIZE < NATURAL_ARRAY_SIZE ->
  store_wfb NATURAL_ARRAY_SIZE l = true -> size l = NATURAL_ARRAY_SIZE ->
  alist_set l COMPLEX_ARRAY_SIZE v = UB.
Proof.
  intros Hlt Hwf%store_wfb_spec Hsz. pose proof COMPLEX_ARRAY_SIZE_pos.
  revert Hwf. unfold alist_set, chunks_set, store_wf. destruct (vector l) as [| |cs]; try tauto.
  intros (Hok & _ & Hlen). rewrite Z.div_same by lia.
  destruct cs as [|c [|c' cs]]; [done| |simpl in *; apply chunks_ok_single in Hok; simpl in *; lia].
  done.
Qed.

End ArrayListProps.

(** ** Concrete runs *)

Module ArrayListExamples.

(** A platform whose two capacities agree, and one where they differ. *)
Definition platform_4 : Platform := {| NATURAL_ARRAY_SIZE := 4; COMPLEX_ARRAY_SIZE := 4;
  NATURAL_ARRAY_SIZE_pos := ltac:(lia); COMPLEX_ARRAY_SIZE_pos := ltac:(lia);
  NATURAL_MAX := 2 ^ 64 - 1; NATURAL_MAX_pos := ltac:(lia); MALLOC_ZERO_NULL := false |}.
Definition platform_4_2 : Platform := {| NATURAL_ARRAY_SIZE := 4; COMPLEX_ARRAY_SIZE := 2;
  NATURAL_ARRAY_SIZE_pos := ltac:(lia); COMPLEX_ARRAY_SIZE_pos := ltac:(lia);
  NATURAL_MAX := 2 ^ 64 - 1; NATURAL_MAX_pos := ltac:(lia); MALLOC_ZERO_NULL := false |}.
(** The same capacities on a C library whose [malloc(0)] returns NULL. *)
Definition platform_4_null : Platform := {| NATURAL_ARRAY_SIZE := 4; COMPLEX_ARRAY_SIZE := 4;
  NATURAL_ARRAY_SIZE_pos := ltac:(lia); COMPLEX_ARRAY_SIZE_pos := ltac:(lia);
  NATURAL_MAX := 2 ^ 64 - 1; NATURAL_MAX_pos := ltac:(lia); MALLOC_ZERO_NULL := true |}.

(** Six cells in chunks of four, the first two written. *)
Definition example_list : array_list_e :=
  mkStore 6 2 (VLive [[Some 0; Some 1; None; None]; [None; None]]).

Example alist_init_six : @alist_init platform_4 6 (mkMem 100) =
  Ok ((0, mkStore 6 2 (VLive [[None; None; None; None]; [None; None]])), mkMem 92).
Proof. reflexivity. Qed.

Example alist_init_six_short : @alist_init platform_4 6 (mkMem 6) =
  Ok ((2, mkStore 6 2 VFreed), mkMem 6).
Proof. reflexivity. Qed.

Lemma alist_set_get_witness :
  exists l', @alist_set platform_4 example_list 5 9 = Ok l' /\ @alist_get platform_4 l' 5 = Ok 9.
Proof.
  destruct (@alist_set_get platform_4 eq_refl example_list 5 9 5) as (l' & H1 & H2);
    [reflexivity | simpl; lia | lia |].
  exists l'. split; [exact H1 | exact H2].
Defined.

Lemma alist_init_all_or_nothing_witness :
  exists code l m', @alist_init platform_4 6 (mkMem 6) = Ok ((code, l), m') /\
    ((code = 0 /\ store_wfb 4 l = true /\ Chunked.size l = 6 /\
      flat l = repeat None 6 /\ avail m' = avail (mkMem 6) - num_chunks l - 6) \/
     (((code = 1 /\ vector l = VNull) \/ (code = 2 /\ vector l = VFreed)) /\ avail m' = avail (mkMem 6))).
Proof. apply (@alist_init_all_or_nothing platform_4 6 (mkMem 6)). lia. Defined.

(** [alist_init(0)] on the two kinds of C library. *)
Example alist_init_zero_unique : @alist_init platform_4 0 (mkMem 100) = UB.
Proof. vm_compute. reflexivity. Qed.

Example alist_init_zero_null : @alist_init platform_4_null 0 (mkMem 100) =
  Ok ((1, mkStore 0 0 VNull), mkMem 100).
Proof. vm_compute. reflexivity. Qed.

Lemma alist_clear_releases_witness :
  alist_clear example_list (mkMem 0) = Ok (empty_store, mkMem 8).
Proof. apply (@alist_clear_releases platform_4 example_list (mkMem 0)). reflexivity. Defined.

Lemma alist_clear_after_failed_init_witness :
  alist_clear (mkStore 6 2 VFreed) (mkMem 6) = UB.
Proof.
  apply (@alist_clear_after_failed_init platform_4 6 (mkMem 6) (mkMem 6)); [lia | reflexivity].
Defined.

Lemma alist_capacity_mismatch_witness :
  @alist_set platform_4_2 (mkStore 4 1 (VLive [[None; None; None; None]])) 2 7 = UB.
Proof. apply (@alist_capacity_mismatch platform_4_2); [simpl; lia | reflexivity | reflexivity]. Defined.

End ArrayListExamples.
