(* ===== verification/QState.v ===== *)
(** * The state vector ([qstate.c], modelled from the spec)

    [qstate.c] and [qstate.h] are not among the sources; the spec (sections
    3 and 4.1) describes them: a state vector owns a chunked store of
    [2^num_qubits] amplitudes addressed by COMPLEX_ARRAY_SIZE, a deferred
    normalisation constant [norm_const] and a memoised global phase
    ([fcarg], [fcarg_init]).  The functions of [qops.c] receive a pointer
    [new_state] to a caller-owned struct; [sv_ptr] models that pointer
    (NULL, freed, or the struct's current contents).

    [state_init] is called with [init = 0] at every call site of
    [qops.c].  Its code is not available, so it is the class [StateInit]:
    the contract the spec and the comment at [qops.c:233-237] give it,
    success with a fresh state of indeterminate amplitudes or one of the
    documented error codes 1 to 4 ([init_error]) with its memory given
    back.  The clients are proved against the class; [state_init_chunked]
    (the spec's chunked-store [init], failing with 1 or 2) is an instance.

    The lemmas make the state vector a partial array of amplitudes:
    [state_init_chunked_spec] (fresh, all cells indeterminate, or failed
    with the memory given back) and [state_set_get] (read after write). *)

From S2P Require Import Prelude ArrayList.

Module QState.
Section StateVector.
Context `{Platform} {R C : Type} `{Scalars R C}.

(** [struct state_vector] *)
Record state_vector := mkState {
  num_qubits : Z;
  size : Z;
  vector : store C;
  norm_const : R;
  fcarg : R;
  fcarg_init : bool
}.

(** A [struct state_vector *] argument. *)
Inductive sv_ptr :=
| SVNull
| SVFreed
| SVLive (s : state_vector).

(** [state_init(state, num_qubits, 0)] as the spec's [init(size)] of the
    chunked store: the amplitudes in [ceil(2^nq / COMPLEX_ARRAY_SIZE)]
    chunks, failing with 1 on the pointer array and 2 on a chunk. *)
Definition state_init_chunked (s : state_vector) (nq : Z) : M (Z * state_vector) :=
  let! '(code, st) := chunks_init COMPLEX_ARRAY_SIZE (2 ^ nq) in
  mret (code, mkState nq (2 ^ nq) st r1 r0 false).

(** [state_get(state, i)] *)
Definition state_get (s : state_vector) (i : Z) : outcome C :=
  chunks_get COMPLEX_ARRAY_SIZE (vector s) i.

(** [state_set(state, i, value)] *)
Definition state_set (s : state_vector) (i : Z) (v : C) : outcome state_vector :=
  let? st := chunks_set COMPLEX_ARRAY_SIZE (vector s) i v in
  Ok (mkState (num_qubits s) (size s) st (norm_const s) (fcarg s) (fcarg_init s)).

(** [state_clear(state)] *)
Definition state_clear (s : state_vector) : M state_vector :=
  let! st := chunks_clear (vector s) in
  mret (mkState 0 0 st (norm_const s) (fcarg s) (fcarg_init s)).

(** [new_state->norm_const = nc] *)
Definition with_norm (s : state_vector) (nc : R) : state_vector :=
  mkState (num_qubits s) (size s) (vector s) nc (fcarg s) (fcarg_init s).

(** The invariant of a live state vector. *)
Definition sv_wf (s : state_vector) : Prop :=
  store_wf COMPLEX_ARRAY_SIZE (vector s) /\ 0 <= num_qubits s /\
  size s = 2 ^ num_qubits s /\ Chunked.size (vector s) = size s.

(** [s] holds the amplitudes [amp] at every index. *)
Definition sv_holds (s : state_vector) (amp : Z -> C) : Prop :=
  forall i, 0 <= i < size s -> state_get s i = Ok (amp i).

(** Executable versions, for concrete runs. *)
Definition sv_wfb (s : state_vector) : bool :=
  store_wfb COMPLEX_ARRAY_SIZE (vector s) && (0 <=? num_qubits s) &&
  (size s =? 2 ^ num_qubits s) && (Chunked.size (vector s) =? size s).

Definition is_ok {A} (o : outcome A) : bool := match o with Ok _ => true | UB => false end.

(** Every amplitude of [s] has been written. *)
Definition sv_full (s : state_vector) : bool :=
  forallb (fun i => is_ok (state_get s i)) (zrange 0 (size s)).

(** The amplitudes of [s], as a function. *)
Definition amps_of (s : state_vector) (i : Z) : C :=
  match state_get s i with Ok v => v | UB => c0 end.

(** ** Lemmas *)

Lemma sv_wfb_spec s : sv_wfb s = true <-> sv_wf s.
Proof.
  unfold sv_wfb, sv_wf. rewrite !andb_true_iff, store_wfb_spec, Z.leb_le, !Z.eqb_eq. tauto.
Qed.

Lemma sv_full_holds s : sv_full s = true -> sv_holds s (amps_of s).
Proof.
  unfold sv_full, sv_holds, amps_of. rewrite forallb_forall. intros Hf i Hi.
  specialize (Hf i). rewrite <- list_elem_of_In, elem_of_zrange in Hf.
  specialize (Hf ltac:(lia)). destruct (state_get s i); done.
Qed.

Lemma state_init_chunked_spec s nq m :
  0 <= nq ->
  exists code s' m', state_init_chunked s nq m = Ok ((code, s'), m') /\ num_qubits s' = nq /\
    ((code = 0 /\ sv_wf s' /\ (forall j, 0 <= j -> state_get s' j = UB) /\
      norm_const s' = r1 /\ fcarg_init s' = false /\
      avail m' = avail m - num_chunks (vector s') - 2 ^ nq) \/
     ((code = 1 \/ code = 2) /\ avail m' = avail m)).
Proof.
  intros Hnq. pose proof COMPLEX_ARRAY_SIZE_pos as Hcap.
  assert (Hpow : 0 < 2 ^ nq) by (apply Z.pow_pos_nonneg; lia).
  destruct (chunks_init_spec (A:=C) COMPLEX_ARRAY_SIZE (2 ^ nq) m Hcap Hpow)
    as (code & st & m' & Hrun & Hres).
  unfold state_init_chunked, mbind at 1. rewrite Hrun. unfold mret.
  eexists _, _, _. split; [reflexivity|]. simpl. split; [done|].
  destruct Hres as [(-> & Hwf & Hsz & Hflat & Hm)|[Hc Hm]]; [left|right].
  - unfold sv_wf, state_get. simpl. split_and!; try done.
    intros j Hj. apply chunks_get_fresh; [done | rewrite Hsz; done | done].
  - split; [destruct Hc as [[? _]|[? _]]; auto | done].
Qed.

Lemma state_set_get s i v :
  sv_wf s -> 0 <= i < size s ->
  exists s', state_set s i v = Ok s' /\ sv_wf s' /\ num_qubits s' = num_qubits s /\
    size s' = size s /\ norm_const s' = norm_const s /\
    forall j, 0 <= j -> state_get s' j = if i =? j then Ok v else state_get s j.
Proof.
  intros (Hwf & Hnq & Hsz & Hvs) Hi.
  destruct (chunks_set_get COMPLEX_ARRAY_SIZE (vector s) i v Hwf ltac:(lia))
    as (st & Hset & Hwf' & Hsz' & _ & Hget).
  unfold state_set. rewrite Hset. simpl. eexists. split; [reflexivity|].
  unfold sv_wf, state_get. simpl. split_and!; try done; lia.
Qed.

(** Two well-formed state vectors of the same size own the same number of chunks. *)
Lemma sv_wf_num_chunks s s' :
  sv_wf s -> sv_wf s' -> size s = size s' -> num_chunks (vector s) = num_chunks (vector s').
Proof.
  intros (Hv & _ & _ & Hs) (Hv' & _ & _ & Hs') Heq.
  rewrite (store_wf_num_chunks _ _ COMPLEX_ARRAY_SIZE_pos Hv), (store_wf_num_chunks _ _ COMPLEX_ARRAY_SIZE_pos Hv').
  congruence.
Qed.

End StateVector.

(** ** The contract of [state_init]

    [qstate.c] is not among the sources, so its clients in [qops.c]
    ([join], [collapse], [apply_gate]) are verified against what the spec
    and the comment at [qops.c:233-237] promise of
    [state_init(state, num_qubits, 0)]: exit 0 with a well-formed state of
    [2^num_qubits] indeterminate amplitudes, norm constant 1, no memoised
    phase, its chunks and amplitudes taken from memory; or one of the
    documented error codes 1 (initializing a chunk), 2 (allocating a
    chunk), 3 (setting values) or 4 (allocating the state), with
    everything it took given back. *)
Definition init_error (code : Z) : Prop := code = 1 \/ code = 2 \/ code = 3 \/ code = 4.

Class StateInit `{Platform} (R C : Type) `{Scalars R C} := {
  state_init : @state_vector R C -> Z -> M (Z * @state_vector R C);
  state_init_spec : forall s nq m, 0 <= nq ->
    exists code s' m', state_init s nq m = Ok ((code, s'), m') /\ num_qubits s' = nq /\
      ((code = 0 /\ sv_wf s' /\ (forall j, 0 <= j -> state_get s' j = UB) /\
        norm_const s' = r1 /\ fcarg_init s' = false /\
        avail m' = avail m - num_chunks (vector s') - 2 ^ nq) \/
       (init_error code /\ avail m' = avail m))
}.

Lemma init_error_nonzero code : init_error code -> code <> 0.
Proof. unfold init_error. lia. Qed.

(** The chunked-store model meets the contract. *)
Lemma state_init_chunked_contract `{Platform} {R C : Type} `{Scalars R C} s nq m :
  0 <= nq ->
  exists code s' m', state_init_chunked (R:=R) (C:=C) s nq m = Ok ((code, s'), m') /\ num_qubits s' = nq /\
    ((code = 0 /\ sv_wf s' /\ (forall j, 0 <= j -> state_get s' j = UB) /\
      norm_const s' = r1 /\ fcarg_init s' = false /\
      avail m' = avail m - num_chunks (vector s') - 2 ^ nq) \/
     (init_error code /\ avail m' = avail m)).
Proof.
  intros Hnq. destruct (state_init_chunked_spec s nq m Hnq) as (code & s' & m' & Hrun & Hnq' & Hres).
  exists code, s', m'. split_and!; [done | done |].
  destruct Hres as [Hok|[Hc Hm]]; [left; done | right; split; [unfold init_error; lia | done]].
Qed.

#[export] Instance chunked_state_init `{Platform} {R C : Type} `{Scalars R C} : StateInit R C :=
  {| state_init := state_init_chunked; state_init_spec := state_init_chunked_contract |}.

End QState.

Export QState.
Arguments state_vector R C : clear implicits.
Arguments sv_ptr R C : clear implicits.
