(* ===== verification/IndexBits.v ===== *)
(** * Index arithmetic of the gate engine ([qops.c])

    Both gate engines of [qops.c] ([copy_and_index]/[calculate_empty] and
    [_ApplyGateFunction]) decide from the bits of an index whether the
    control qubits select it, and build the indices a gate row reads by
    overwriting the target bits.  This file holds the code's versions of
    these computations ([copy_only], [target_loop]) and their bit-level
    specifications ([selected], [gather], [scatter]), with the lemmas that
    relate them, and the counting argument behind the size
    [size >> (num_controls + num_anticontrols)] that [apply_gate] gives its
    compaction list: exactly [2^(n - c - a)] indices are selected when the
    control and anticontrol qubits are distinct qubits of the register. *)

From S2P Require Import Prelude.

Module IndexBits.

(** ** The code's computations *)

(** The control test of [copy_and_index] (and of [_ApplyGateFunction]):
    an index is only copied when a control bit is 0 or an anticontrol bit
    is 1. *)
Definition copy_only (controls anticontrols : list Z) (i : Z) : bool :=
  existsb (fun c => negb (bit_on i c)) controls || existsb (fun a => bit_on i a) anticontrols.

(** The inner loop over [k] of [calculate_empty]: [row] collects the target
    bits of [curr_id], [reg_index] gets the bits of [j] at the targets. *)
Fixpoint target_loop (curr_id j : Z) (targets : list Z) (k row reg_index : Z) : Z * Z :=
  match targets with
  | [] => (row, reg_index)
  | t :: ts =>
      let row' := row + Z.shiftl (Z.b2z (bit_on curr_id t)) k in
      let reg' := if bit_on j k then Z.lor reg_index (mask t) else Z.land reg_index (Z.lnot (mask t)) in
      target_loop curr_id j ts (k + 1) row' reg'
  end.

(** ** Bit-level specifications *)

(** A list of (bit position, required value) constraints. *)
Definition sat (cs : list (Z * bool)) (i : Z) : bool :=
  forallb (fun pb => Bool.eqb (Z.testbit i pb.1) pb.2) cs.

Definition role_constraints (controls anticontrols : list Z) : list (Z * bool) :=
  map (fun c => (c, true)) controls ++ map (fun a => (a, false)) anticontrols.

(** The index is one the gate acts on. *)
Definition selected (controls anticontrols : list Z) (i : Z) : bool :=
  sat (role_constraints controls anticontrols) i.

(** The bits of [i] at the targets, target [k] giving bit [k]. *)
Fixpoint gather (i : Z) (targets : list Z) : Z :=
  match targets with
  | [] => 0
  | t :: ts => Z.b2z (Z.testbit i t) + 2 * gather i ts
  end.

(** [i] with bit [targets[k]] replaced by bit [k] of [r]. *)
Fixpoint scatter (i r : Z) (targets : list Z) : Z :=
  match targets with
  | [] => i
  | t :: ts => scatter (if Z.testbit r 0 then Z.setbit i t else Z.clearbit i t) (Z.shiftr r 1) ts
  end.

(** The roles are distinct qubits of an [n]-qubit register. *)
Definition roles_ok (n : Z) (targets controls anticontrols : list Z) : Prop :=
  NoDup (targets ++ controls ++ anticontrols) /\
  Forall (fun q => 0 <= q < n) (targets ++ controls ++ anticontrols).

(** ** The code computes the specifications *)

Lemma copy_only_selected controls anticontrols i :
  Forall (fun q => 0 <= q) (controls ++ anticontrols) ->
  copy_only controls anticontrols i = negb (selected controls anticontrols i).
Proof.
  intros Hnn. apply Forall_app in Hnn as [Hc Ha].
  unfold copy_only, selected, sat, role_constraints. rewrite forallb_app, negb_andb.
  f_equal.
  - induction Hc as [|c cs Hc Hcs IH]; simpl; [done|].
    rewrite bit_on_testbit, IH by done. destruct (Z.testbit i c); done.
  - induction Ha as [|a as' Ha Has IH]; simpl; [done|].
    rewrite bit_on_testbit, IH by done. destruct (Z.testbit i a); done.
Qed.

Lemma lor_mask_setbit x t : 0 <= t -> Z.lor x (mask t) = Z.setbit x t.
Proof. intros. rewrite mask_pow2, Z.setbit_spec' by done. done. Qed.

Lemma land_lnot_mask_clearbit x t : 0 <= t -> Z.land x (Z.lnot (mask t)) = Z.clearbit x t.
Proof. intros. rewrite mask_pow2, Z.clearbit_spec', Z.ldiff_land by done. done. Qed.

Lemma target_loop_spec curr_id j targets k row reg :
  0 <= k -> Forall (fun t => 0 <= t) targets ->
  target_loop curr_id j targets k row reg =
    (row + 2 ^ k * gather curr_id targets, scatter reg (Z.shiftr j k) targets).
Proof.
  intros Hk Ht. revert k row reg Hk. induction Ht as [|t ts Ht Hts IH]; intros k row reg Hk; simpl.
  - f_equal. lia.
  - rewrite IH by lia. rewrite bit_on_testbit, bit_on_testbit, Z.shiftl_mul_pow2 by lia.
    rewrite <- Z.bit0_odd, Z.shiftr_spec, Z.shiftr_shiftr by lia. rewrite Z.add_0_l.
    destruct (Z.testbit j k); [rewrite lor_mask_setbit by done | rewrite land_lnot_mask_clearbit by done];
      f_equal; try done; rewrite Z.pow_add_r by lia; simpl; nia.
Qed.

(** The row and the register index of iteration [j], from [k = 0]. *)
Corollary target_loop_0 curr_id j targets reg :
  Forall (fun t => 0 <= t) targets ->
  target_loop curr_id j targets 0 0 reg = (gather curr_id targets, scatter reg j targets).
Proof.
  intros Ht. rewrite target_loop_spec by (done || lia). rewrite Z.shiftr_0_r. f_equal. lia.
Qed.

(** ** Properties of [scatter] and [gather] *)

Lemma scatter_outside i r targets n :
  Forall (fun t => 0 <= t) targets -> n ∉ targets ->
  Z.testbit (scatter i r targets) n = Z.testbit i n.
Proof.
  intros Ht. revert i r. induction Ht as [|t ts Ht Hts IH]; intros i r Hn; simpl; [done|].
  rewrite IH by set_solver. destruct (Z.odd r).
  - apply Z.setbit_neq; [done | set_solver].
  - apply Z.clearbit_neq. set_solver.
Qed.

(** [scatter] overwrites every target bit: only the other bits of its
    first argument matter. *)
Lemma scatter_indep i i' r targets :
  Forall (fun t => 0 <= t) targets ->
  (forall n, n ∉ targets -> Z.testbit i n = Z.testbit i' n) ->
  scatter i r targets = scatter i' r targets.
Proof.
  intros Ht. revert i i' r. induction Ht as [|t ts Ht Hts IH]; intros i i' r Hagree; simpl.
  - apply Z.bits_inj. intros n. destruct (decide (0 <= n)).
    + apply Hagree. set_solver.
    + rewrite !Z.testbit_neg_r by lia. done.
  - apply IH. intros n Hn. destruct (decide (n = t)) as [->|Hne].
    + destruct (Z.odd r); [rewrite !Z.setbit_eq | rewrite !Z.clearbit_eq]; done.
    + destruct (Z.odd r); [rewrite !Z.setbit_neq by done | rewrite !Z.clearbit_neq by done];
        apply Hagree; set_solver.
Qed.

Lemma scatter_scatter i r r' targets :
  Forall (fun t => 0 <= t) targets ->
  scatter (scatter i r' targets) r targets = scatter i r targets.
Proof.
  intros Ht. apply scatter_indep; [done|]. intros n Hn. apply scatter_outside; done.
Qed.

Lemma scatter_nonneg i r targets : 0 <= i -> 0 <= scatter i r targets.
Proof.
  revert i r. induction targets as [|t ts IH]; intros i r Hi; simpl; [done|].
  apply IH. destruct (Z.odd r).
  - rewrite Z.setbit_spec'. apply Z.lor_nonneg. split; [done|]. apply Z.pow_nonneg. lia.
  - rewrite Z.clearbit_spec'. apply Z.ldiff_nonneg. auto.
Qed.

(** A non-negative number is below [2^n] when its bits from [n] on are 0. *)
Lemma lt_pow2_bits a n :
  0 <= a -> 0 <= n -> (forall m, n <= m -> Z.testbit a m = false) -> a < 2 ^ n.
Proof.
  intros Ha Hn Hbits. assert (a = a mod 2 ^ n) as ->.
  { apply Z.bits_inj. intros m. destruct (decide (0 <= m)); [|rewrite !Z.testbit_neg_r by lia; done].
    rewrite Z.testbit_mod_pow2 by done. destruct (Z.ltb_spec m n); simpl; [done|]. apply Hbits. lia. }
  apply Z.mod_pos_bound, Z.pow_pos_nonneg; lia.
Qed.

Lemma testbit_lt_pow2 a n m : 0 <= a < 2 ^ n -> n <= m -> Z.testbit a m = false.
Proof.
  intros Ha Hm. destruct (decide (a = 0)) as [->|]; [apply Z.testbit_0_l|].
  apply Z.bits_above_log2; [lia|]. pose proof (proj1 (Z.log2_lt_pow2 a n ltac:(lia)) (proj2 Ha)). lia.
Qed.

(** [scatter] keeps an index of an [n]-qubit register in range. *)
Lemma scatter_range i r targets n :
  Forall (fun t => 0 <= t < n) targets -> 0 <= i < 2 ^ n -> 0 <= scatter i r targets < 2 ^ n.
Proof.
  intros Ht Hi. assert (0 <= n) by (destruct (decide (0 <= n)); [done|]; rewrite Z.pow_neg_r in Hi; lia).
  split; [apply scatter_nonneg; lia|]. apply lt_pow2_bits; [apply scatter_nonneg; lia | done |].
  intros m Hm. rewrite scatter_outside.
  - apply (testbit_lt_pow2 _ n); lia.
  - eapply Forall_impl; [exact Ht | simpl; lia].
  - intros Hin. eapply Forall_forall in Ht; [|exact Hin]. lia.
Qed.

Lemma gather_range i targets : 0 <= gather i targets < 2 ^ Z.of_nat (length targets).
Proof.
  induction targets as [|t ts IH]; simpl; [lia|].
  rewrite Nat2Z.inj_succ, Z.pow_succ_r by lia. destruct (Z.testbit i t); simpl; lia.
Qed.

(** Writing back the target bits an index already has changes nothing. *)
Lemma scatter_gather i targets :
  Forall (fun t => 0 <= t) targets -> scatter i (gather i targets) targets = i.
Proof.
  intros Ht. induction Ht as [|t ts Ht Hts IH]; simpl; [done|].
  replace (Z.shiftr (Z.b2z (Z.testbit i t) + 2 * gather i ts) 1) with (gather i ts).
  2: { rewrite Z.shiftr_div_pow2, Z.pow_1_r by lia.
       apply (Z.div_unique _ _ _ (Z.b2z (Z.testbit i t))); destruct (Z.testbit i t); simpl; lia. }
  replace (Z.odd (Z.b2z (Z.testbit i t) + 2 * gather i ts)) with (Z.testbit i t).
  2: { rewrite Z.odd_add, Z.odd_mul. destruct (Z.testbit i t); done. }
  destruct (Z.testbit i t) eqn:E.
  - replace (Z.setbit i t) with i; [done|]. apply Z.bits_inj'. intros n Hn.
    rewrite Z.setbit_eqb by done. destruct (Z.eqb_spec t n) as [<-|]; [by rewrite E | done].
  - replace (Z.clearbit i t) with i; [done|]. apply Z.bits_inj'. intros n Hn.
    rewrite Z.clearbit_eqb by done. destruct (Z.eqb_spec t n) as [<-|]; simpl; [by rewrite E | by rewrite andb_true_r].
Qed.

(** ** Counting the selected indices *)

Section Counting.
Implicit Types (cs : list (Z * bool)).

Lemma sat_split cs (p : Z * bool -> bool) i :
  sat cs i = sat (List.filter p cs) i && sat (List.filter (fun x => negb (p x)) cs) i.
Proof.
  induction cs as [|c cs IH]; simpl; [done|]. rewrite IH.
  destruct (p c); simpl; destruct (Bool.eqb _ _); simpl;
    destruct (sat (List.filter p cs) i), (sat (List.filter (fun x => negb (p x)) cs) i); done.
Qed.

Lemma sat_shift cs n i :
  0 <= n -> Forall (fun pb => 0 <= pb.1 < n) cs -> sat cs (i + 2 ^ n) = sat cs i.
Proof.
  intros Hn Hcs. induction Hcs as [|[p b] cs Hp Hcs IH]; simpl in *; [done|].
  rewrite IH, Z.add_pow2_spec_low by lia. done.
Qed.

Lemma length_filter_fmap (P : Z -> bool) (f : Z -> Z) (l : list Z) :
  length (List.filter P (f <$> l)) = length (List.filter (fun x => P (f x)) l).
Proof. induction l as [|x l IH]; [done|]. cbn. destruct (P (f x)); cbn; lia. Qed.

Lemma zrange_pow2_succ n :
  0 <= n -> zrange 0 (2 ^ (n + 1)) = zrange 0 (2 ^ n) ++ (Z.add (2 ^ n) <$> zrange 0 (2 ^ n)).
Proof.
  intros Hn. pose proof (Z.pow_pos_nonneg 2 n ltac:(lia) Hn). unfold zrange.
  rewrite Z.pow_add_r, Z.pow_1_r by lia. rewrite !Z.sub_0_r, fmap_add_seqZ.
  replace (2 ^ n * 2) with (2 ^ n + 2 ^ n) by lia. rewrite seqZ_app, Z.add_0_r by lia. done.
Qed.

Lemma length_distinct_positions cs n :
  NoDup cs.*1 -> Forall (fun pb => 0 <= pb.1 < n) cs -> Z.of_nat (length cs) <= Z.max 0 n.
Proof.
  intros Hnd Hcs. rewrite <- (length_fmap fst cs).
  assert (length cs.*1 <= length (zrange 0 n))%nat as Hle.
  { apply NoDup_incl_length; [apply NoDup_ListNoDup; done|].
    intros x Hx. apply list_elem_of_In, elem_of_zrange. apply list_elem_of_In in Hx.
    apply list_elem_of_fmap in Hx as ([p b] & -> & Hin). eapply Forall_forall in Hcs; [|exact Hin]. done. }
  rewrite zrange_length in Hle. lia.
Qed.

Lemma length_same_position cs n :
  NoDup cs.*1 -> Forall (fun pb => pb.1 = n) cs -> (length cs <= 1)%nat.
Proof.
  intros Hnd Hcs. destruct cs as [|[p b] [|[p' b'] cs]]; simpl; try lia.
  inversion Hcs as [|? ? Hp Hcs']; inversion Hcs' as [|? ? Hp' _]; simpl in *; subst.
  apply NoDup_cons in Hnd as [Hnotin _]. set_solver.
Qed.

Lemma sat_perm cs cs' i : cs ≡ₚ cs' -> sat cs i = sat cs' i.
Proof.
  induction 1; simpl; try congruence.
  destruct (Bool.eqb _ x.2), (Bool.eqb _ y.2); done.
Qed.

Lemma length_filter_false (l : list Z) : length (List.filter (fun _ => false) l) = 0%nat.
Proof. induction l; done. Qed.

Lemma sat_low cs n :
  0 <= n -> Forall (fun pb => 0 <= pb.1 < n + 1) cs -> n ∉ cs.*1 -> Forall (fun pb => 0 <= pb.1 < n) cs.
Proof.
  intros Hn Hcs Hnot. apply Forall_forall. intros [p b] Hin.
  eapply Forall_forall in Hcs; [|exact Hin]. simpl in *.
  assert (p <> n); [|lia]. intros ->. apply Hnot. apply list_elem_of_fmap. exists (n, b). done.
Qed.

(** Exactly [2^(n - |cs|)] indices of [n] bits satisfy [|cs|] constraints on
    distinct bit positions below [n]. *)
Lemma count_sat (n : nat) cs :
  NoDup cs.*1 -> Forall (fun pb => 0 <= pb.1 < Z.of_nat n) cs ->
  Z.of_nat (length (List.filter (sat cs) (zrange 0 (2 ^ Z.of_nat n)))) =
    2 ^ (Z.of_nat n - Z.of_nat (length cs)).
Proof.
  revert cs. induction n as [|n IH]; intros cs Hnd Hcs.
  - destruct cs as [|c cs]; [reflexivity|]. inversion Hcs; lia.
  - rewrite Nat2Z.inj_succ in *. rewrite <- Z.add_1_r in *. set (N := Z.of_nat n) in *.
    assert (HN : 0 <= N) by lia. pose proof (Z.pow_pos_nonneg 2 N ltac:(lia) HN).
    rewrite zrange_pow2_succ, List.filter_app, length_app, length_filter_fmap by done.
    assert (Hlo : forall i, i ∈ zrange 0 (2 ^ N) -> Z.testbit i N = false /\ Z.testbit (2 ^ N + i) N = true).
    { intros i Hi%elem_of_zrange. rewrite Z.add_comm, Z.add_pow2_spec_top by done.
      rewrite (testbit_lt_pow2 i N N) by lia. done. }
    destruct (decide (N ∈ cs.*1)) as [Hin|Hnot].
    + apply list_elem_of_fmap in Hin as ([p b] & Hp & Hin). simpl in Hp. subst p.
      apply elem_of_Permutation in Hin as [rest Hperm].
      rewrite Hperm in Hnd, Hcs. rewrite (Permutation_length Hperm). simpl in *.
      apply NoDup_cons in Hnd as [Hnotin Hnd]. inversion Hcs as [|? ? _ Hrest]; subst.
      apply sat_low in Hrest; [|done|done].
      rewrite (filter_ext_in _ (fun i => negb b && sat rest i)),
              (filter_ext_in (fun i => sat cs (2 ^ N + i)) (fun i => b && sat rest i)).
      * specialize (IH rest Hnd Hrest). destruct b; simpl;
          rewrite length_filter_false, ?Nat.add_0_l, ?Nat.add_0_r;
          change (fun i => sat rest i) with (sat rest); rewrite IH; f_equal; lia.
      * intros i Hi%list_elem_of_In. rewrite (sat_perm _ _ _ Hperm). simpl.
        destruct (Hlo i Hi) as [_ ->]. rewrite Z.add_comm, sat_shift by done. destruct b; done.
      * intros i Hi%list_elem_of_In. rewrite (sat_perm _ _ _ Hperm). simpl.
        destruct (Hlo i Hi) as [-> _]. destruct b; done.
    + apply sat_low in Hcs; [|done|done].
      rewrite (filter_ext_in (fun i => sat cs (2 ^ N + i)) (sat cs)).
      * rewrite Nat2Z.inj_add, IH by done. pose proof (length_distinct_positions cs N Hnd Hcs).
        replace (N + 1 - Z.of_nat (length cs)) with (Z.succ (N - Z.of_nat (length cs))) by lia.
        rewrite Z.pow_succ_r by lia. lia.
      * intros i Hi%list_elem_of_In. rewrite Z.add_comm, sat_shift by done. done.
Qed.

(** Deciding [roles_ok]. *)
Definition roles_okb (n : Z) (targets controls anticontrols : list Z) : bool :=
  bool_decide (NoDup (targets ++ controls ++ anticontrols)) &&
  forallb (fun q => (0 <=? q) && (q <? n)) (targets ++ controls ++ anticontrols).

Lemma roles_okb_spec n targets controls anticontrols :
  roles_okb n targets controls anticontrols = true <-> roles_ok n targets controls anticontrols.
Proof.
  unfold roles_okb, roles_ok. rewrite andb_true_iff, bool_decide_eq_true, forallb_forall, Forall_forall.
  setoid_rewrite andb_true_iff. setoid_rewrite Z.leb_le. setoid_rewrite Z.ltb_lt.
  setoid_rewrite <- list_elem_of_In. done.
Qed.

Lemma role_constraints_fst controls anticontrols :
  (role_constraints controls anticontrols).*1 = controls ++ anticontrols.
Proof.
  unfold role_constraints. rewrite fmap_app. f_equal.
  - induction controls; simpl; f_equal; done.
  - induction anticontrols; simpl; f_equal; done.
Qed.

Lemma role_constraints_range n controls anticontrols :
  Forall (fun q => 0 <= q < n) (controls ++ anticontrols) ->
  Forall (fun pb => 0 <= pb.1 < n) (role_constraints controls anticontrols).
Proof.
  intros H. apply Forall_forall. intros pb Hin.
  assert (pb.1 ∈ controls ++ anticontrols) as Hq.
  { rewrite <- role_constraints_fst. apply list_elem_of_fmap. eauto. }
  eapply Forall_forall in H; [|exact Hq]. done.
Qed.

Lemma roles_ok_parts n targets controls anticontrols :
  roles_ok n targets controls anticontrols ->
  NoDup (controls ++ anticontrols) /\ Forall (fun q => 0 <= q < n) (controls ++ anticontrols) /\
  Forall (fun q => 0 <= q < n) targets.
Proof.
  intros [Hnd Hr]. apply NoDup_app in Hnd as (_ & _ & Hnd). apply Forall_app in Hr as [Ht Hr].
  done.
Qed.

(** Distinct controls and anticontrols of an [n]-qubit register are at most [n]. *)
Lemma roles_count_le n targets controls anticontrols :
  0 <= n -> roles_ok n targets controls anticontrols ->
  Z.of_nat (length controls + length anticontrols) <= n.
Proof.
  intros Hn (Hnd & Hr & _)%roles_ok_parts.
  pose proof (length_distinct_positions (role_constraints controls anticontrols) n) as Hb.
  rewrite role_constraints_fst in Hb. specialize (Hb Hnd (role_constraints_range _ _ _ Hr)).
  unfold role_constraints in Hb. rewrite length_app, !length_map in Hb. lia.
Qed.

(** The partition pass of [copy_and_index] finds exactly
    [size >> (num_controls + num_anticontrols)] indices to recompute, the
    size [apply_gate] gives the compaction list, when the roles are
    distinct qubits of the register. *)
Lemma free_count n targets controls anticontrols :
  0 <= n -> roles_ok n targets controls anticontrols ->
  Z.of_nat (length (List.filter (fun i => negb (copy_only controls anticontrols i)) (zrange 0 (2 ^ n)))) =
    Z.shiftr (2 ^ n) (Z.of_nat (length controls + length anticontrols)).
Proof.
  intros Hn Hok. pose proof (roles_count_le _ _ _ _ Hn Hok) as Hle.
  apply roles_ok_parts in Hok as (Hnd & Hr & _).
  rewrite (filter_ext_in _ (selected controls anticontrols)).
  2: { intros i _. rewrite copy_only_selected, negb_involutive; [done|].
       eapply Forall_impl; [exact Hr | simpl; lia]. }
  replace n with (Z.of_nat (Z.to_nat n)) at 1 by lia.
  assert (Hlen : length (role_constraints controls anticontrols) = (length controls + length anticontrols)%nat).
  { unfold role_constraints. rewrite length_app, !length_map. done. }
  unfold selected. rewrite count_sat.
  - rewrite Hlen, Z2Nat.id, Z.shiftr_div_pow2, <- Z.pow_sub_r by lia. done.
  - rewrite role_constraints_fst. done.
  - rewrite Z2Nat.id by lia. apply role_constraints_range. done.
Qed.

(** C17: the partition pass leaves exactly [2^(n - c - a)] indices to
    recompute, [N / 2^(c+a)] for [N = 2^n], [c] controls and [a]
    anticontrols, and exactly one when the roles restrict every qubit
    ([c + a = n]). *)
Theorem partition_free_count n targets controls anticontrols :
  0 <= n -> roles_ok n targets controls anticontrols ->
  Z.of_nat (length (List.filter (fun i => negb (copy_only controls anticontrols i)) (zrange 0 (2 ^ n)))) =
    2 ^ (n - Z.of_nat (length controls + length anticontrols)) /\
  (Z.of_nat (length controls + length anticontrols) = n ->
   Z.of_nat (length (List.filter (fun i => negb (copy_only controls anticontrols i)) (zrange 0 (2 ^ n)))) = 1).
Proof.
  intros Hn Hok. pose proof (roles_count_le _ _ _ _ Hn Hok) as Hle.
  rewrite (free_count n targets), Z.shiftr_div_pow2, <- Z.pow_sub_r by (done || lia).
  split; [done|]. intros ->. rewrite Z.sub_diag. done.
Qed.

Lemma partition_free_count_witness :
  Z.of_nat (length (List.filter (fun i => negb (copy_only [1] [0] i)) (zrange 0 (2 ^ 2)))) = 2 ^ (2 - 2) /\
  (2 = 2 -> Z.of_nat (length (List.filter (fun i => negb (copy_only [1] [0] i)) (zrange 0 (2 ^ 2)))) = 1).
Proof. apply (partition_free_count 2 [] [1] [0]); [lia | apply roles_okb_spec; reflexivity]. Defined.

End Counting.

End IndexBits.
Export IndexBits.
