(* ===== verification/ApplyGate.v ===== *)
(** * The eager gate engine of [qops.c]

    [apply_gate] (qops.c 201-274) applies a gate matrix to the qubits
    [targets] of a state vector, on the indices whose [controls] bits are 1
    and whose [anticontrols] bits are 0.  It allocates the compaction list
    [not_copy] (an [array_list_e] of [size >> (num_controls +
    num_anticontrols)] cells) and the new state, then runs two parallel
    passes:
    - [copy_and_index] (276-343) copies every amplitude the controls leave
      alone into the new state, adds its squared modulus to the norm, and
      appends every other index to [not_copy] inside a critical section;
    - [calculate_empty] (345-408) recomputes each index of [not_copy] as
      the sum over the gate's columns of gate entry times the amplitude
      whose target bits spell the column.
    The new state's [norm_const] is the square root of the accumulated
    squared norm.

    The parallel loops are modelled by a schedule: a list of the iteration
    indices in the order their iterations run (a permutation of the
    iteration space).  The order of the appends to [not_copy] is the order
    of the schedule of the first pass.

    [gate_spec] is the reference: the standard controlled local gate at
    one index, by bit operations ([selected], [gather], [scatter] of
    [IndexBits]).  The theorems show that [apply_gate] computes it at every
    index for every pair of schedules (a refinement of the reference), that
    it never has undefined behaviour when the roles are distinct register
    qubits, that its failures release what they took (with one exception),
    and what happens when the roles overlap. *)

From S2P Require Import Prelude ArrayList QState IndexBits.

Module ApplyGate.
Section Engine.
Context `{Platform} {R C : Type} `{Scalars R C} `{!StateInit R C}.

(** [struct qgate] (qgate.h, not among the sources): [size] rows and
    columns of complex entries. *)
Record qgate := mkGate { gate_num_qubits : Z; gate_size : Z; matrix : list (list C) }.

(** [gate->matrix[row][col]] *)
Definition gate_entry (g : qgate) (row col : Z) : outcome C :=
  match matrix g !! Z.to_nat row ≫= (fun r => r !! Z.to_nat col) with
  | Some x => Ok x
  | None => UB
  end.

(** ** [copy_and_index] *)

(** One iteration [i] of the loop of [copy_and_index]; the accumulator is
    [(new_state, not_copy, count, aux_const)]. *)
Definition copy_and_index_body (state : state_vector R C) (controls anticontrols : list Z)
    (acc : state_vector R C * array_list_e * Z * R) (i : Z)
    : outcome (state_vector R C * array_list_e * Z * R) :=
  let '(new_state, not_copy, count, aux_const) := acc in
  if copy_only controls anticontrols i then
    let? aux := state_get state i in
    let? new_state' := state_set new_state i aux in
    Ok (new_state', not_copy, count, radd aux_const (sqnorm aux))
  else
    let? not_copy' := alist_set not_copy count i in
    Ok (new_state, not_copy', count + 1, aux_const).

(** [copy_and_index]: the loop over [sched], then [*norm_const = aux_const];
    returns the exit code, the new state, [not_copy] and the norm. *)
Definition copy_and_index (state new_state : state_vector R C) (controls anticontrols : list Z)
    (not_copy : array_list_e) (sched : list Z) : outcome (Z * state_vector R C * array_list_e * R) :=
  let? '(new_state', not_copy', _, aux_const) :=
    ofold_left (copy_and_index_body state controls anticontrols) sched (new_state, not_copy, 0, r0) in
  Ok (0, new_state', not_copy', aux_const).

(** ** [calculate_empty] *)

(** The loop over the gate's columns [j] for one index [curr_id]:
    [reg_index] starts at [curr_id] and keeps the target bits of the
    previous column between iterations, as in the code. *)
Definition row_sum (state : state_vector R C) (gate : qgate) (targets : list Z) (curr_id : Z)
    : outcome C :=
  let? '(_, sum) :=
    ofold_left (fun (acc : Z * C) j =>
                  let '(reg_index, sum) := acc in
                  let '(row, reg_index') := target_loop curr_id j targets 0 0 reg_index in
                  let? s := state_get state reg_index' in
                  let? g := gate_entry gate row j in
                  Ok (reg_index', cadd sum (cmul s g)))
               (zrange 0 (gate_size gate)) (curr_id, c0) in
  Ok sum.

(** One iteration [i] of the loop of [calculate_empty]. *)
Definition calculate_empty_body (state : state_vector R C) (gate : qgate) (targets : list Z)
    (not_copy : array_list_e) (acc : state_vector R C * R) (i : Z) : outcome (state_vector R C * R) :=
  let '(new_state, aux_const) := acc in
  let? curr_id := alist_get not_copy i in
  let? sum := row_sum state gate targets curr_id in
  let? new_state' := state_set new_state curr_id sum in
  Ok (new_state', radd aux_const (sqnorm sum)).

(** [calculate_empty]: the loop over [sched], then [*norm_const += aux_const]. *)
Definition calculate_empty (state : state_vector R C) (gate : qgate) (targets : list Z)
    (new_state : state_vector R C) (not_copy : array_list_e) (norm_const : R) (sched : list Z)
    : outcome (Z * state_vector R C * R) :=
  let? '(new_state', aux_const) :=
    ofold_left (calculate_empty_body state gate targets not_copy) sched (new_state, r0) in
  Ok (0, new_state', radd norm_const aux_const).

(** ** [apply_gate] *)

(** [apply_gate]; [sched1] and [sched2] are the schedules of the two
    passes.  The [struct array_list_e] of [not_copy] is one cell of
    memory, and so is the caller's [struct state_vector]. *)
Definition apply_gate (state : state_vector R C) (gate : qgate)
    (targets controls anticontrols : list Z) (new_state : sv_ptr R C) (sched1 sched2 : list Z)
    : M (Z * sv_ptr R C) :=
  let! ok := malloc 1 in
  if negb ok then mret (11, new_state) else
  let! '(code, not_copy) :=
    alist_init (Z.shiftr (size state) (Z.of_nat (length controls + length anticontrols))) in
  if negb (code =? 0) then mfree 1 ;; mret (code, new_state) else
  match new_state with
  | SVNull => alist_clear not_copy ;; mfree 1 ;; mret (10, SVNull)
  | SVFreed => undef
  | SVLive ns =>
      let! '(code, ns) := state_init ns (num_qubits state) in
      if negb (code =? 0) then alist_clear not_copy ;; mfree 1 ;; mfree 1 ;; mret (code, SVFreed)
      else
        let! '(code, ns, not_copy, norm_const) :=
          lift (copy_and_index state ns controls anticontrols not_copy sched1) in
        let! '(code, ns) :=
          if code =? 0 then
            lift (let? '(code, ns, norm_const) :=
                    calculate_empty state gate targets ns not_copy norm_const sched2 in
                  Ok (if code =? 0 then (0, with_norm ns (rsqrt norm_const)) else (5, ns)))
          else mret (6, ns) in
        alist_clear not_copy ;; mfree 1 ;; mret (code, SVLive ns)
  end.

(** ** The reference *)

(** The gate matrix as a function. *)
Definition gate_fun (g : qgate) (row col : Z) : C :=
  match gate_entry g row col with Ok x => x | UB => c0 end.

(** The amplitude at [i] after applying the gate [G] of dimension [dim]:
    unchanged where the controls do not select [i]; otherwise the row of
    [G] given by [i]'s target bits times the amplitudes of the indices
    that agree with [i] outside the targets, in column order. *)
Definition gate_spec (amp : Z -> C) (G : Z -> Z -> C) (dim : Z)
    (targets controls anticontrols : list Z) (i : Z) : C :=
  if selected controls anticontrols i then
    fold_left (fun acc r => cadd acc (cmul (amp (scatter i r targets)) (G (gather i targets) r)))
      (zrange 0 dim) c0
  else amp i.

(** The gate is square of dimension [2^|targets|]. *)
Definition gate_ok (g : qgate) (t : nat) : Prop :=
  gate_size g = 2 ^ Z.of_nat t /\ length (matrix g) = Z.to_nat (gate_size g) /\
  Forall (fun row => length row = Z.to_nat (gate_size g)) (matrix g).

End Engine.
End ApplyGate.

Export ApplyGate.
Arguments qgate C : clear implicits.

(** ** The recompute pass computes one reference entry *)

Section RowSum.
Context `{Platform} {R C : Type} `{Scalars R C} `{!StateInit R C}.

Definition gate_okb (g : qgate C) (t : nat) : bool :=
  (gate_size g =? 2 ^ Z.of_nat t) && (length (matrix g) =? Z.to_nat (gate_size g))%nat &&
  forallb (fun row => length row =? Z.to_nat (gate_size g))%nat (matrix g).

Lemma gate_okb_spec g t : gate_okb g t = true <-> gate_ok g t.
Proof.
  unfold gate_okb, gate_ok. rewrite !andb_true_iff, Z.eqb_eq, Nat.eqb_eq, forallb_forall, Forall_forall.
  setoid_rewrite Nat.eqb_eq. setoid_rewrite <- list_elem_of_In. tauto.
Qed.

Lemma gate_entry_ok g t row col :
  gate_ok g t -> 0 <= row < gate_size g -> 0 <= col < gate_size g ->
  gate_entry g row col = Ok (gate_fun g row col).
Proof.
  intros (Hsz & Hlen & Hrows) Hr Hc. unfold gate_fun.
  unfold gate_entry. destruct (matrix g !! Z.to_nat row) as [r|] eqn:E.
  - simpl. eapply Forall_lookup_1 in Hrows; [|exact E].
    destruct (r !! Z.to_nat col) eqn:E'; [done|]. apply lookup_ge_None_1 in E'. lia.
  - apply lookup_ge_None_1 in E. lia.
Qed.

(** The column sum of the reference at index [i]. *)
Definition row_ref (amp : Z -> C) (G : Z -> Z -> C) (targets : list Z) (i : Z) (cols : list Z) : C :=
  fold_left (fun acc r => cadd acc (cmul (amp (scatter i r targets)) (G (gather i targets) r))) cols c0.

Lemma row_sum_spec (state : state_vector R C) gate targets amp curr :
  sv_wf state -> sv_holds state amp ->
  Forall (fun t => 0 <= t < num_qubits state) targets -> gate_ok gate (length targets) ->
  0 <= curr < size state ->
  row_sum state gate targets curr =
    Ok (row_ref amp (gate_fun gate) targets curr (zrange 0 (gate_size gate))).
Proof.
  intros Hwf Hamp Ht Hg Hc. pose proof Hwf as (_ & Hnq & Hsize & _).
  pose proof Hg as (Hgs & _ & _).
  assert (Ht0 : Forall (fun t => 0 <= t) targets) by (eapply Forall_impl; [exact Ht | simpl; lia]).
  unfold row_sum.
  loop_invariant
     (fun p (acc : Z * C) => (forall n, n ∉ targets -> Z.testbit acc.1 n = Z.testbit curr n) /\
                    acc.2 = row_ref amp (gate_fun gate) targets curr p).
  destruct Hloop as ([reg sum] & Hrun & _ & Hsum).
  - split; done.
  - intros p j rest [reg sum] Hl [Hagree Hs]. simpl in Hagree, Hs. subst sum.
    assert (Hj : 0 <= j < gate_size gate).
    { apply elem_of_zrange. rewrite Hl. set_solver. }
    rewrite target_loop_0 by done. rewrite (scatter_indep reg curr) by done.
    pose proof (scatter_range curr j targets (num_qubits state) Ht ltac:(lia)) as Hrange.
    rewrite Hamp by lia. simpl.
    pose proof (gather_range curr targets).
    rewrite (gate_entry_ok gate (length targets)) by (done || lia). simpl.
    eexists. split; [reflexivity|]. split.
    + intros n Hn. simpl. apply scatter_outside; done.
    + simpl. unfold row_ref. rewrite fold_left_app. done.
  - rewrite Hrun. simpl in *. rewrite Hsum. done.
Qed.

End RowSum.

(** ** The partition pass *)

Section CopyPass.
Context `{Platform} {R C : Type} `{Scalars R C} `{!StateInit R C}.
Variables (state : state_vector R C) (amp : Z -> C) (controls anticontrols : list Z).
Hypotheses (Hwf : sv_wf state) (Hamp : sv_holds state amp).

Definition free_list (l : list Z) : list Z := List.filter (fun i => negb (copy_only controls anticontrols i)) l.
Definition copied_list (l : list Z) : list Z := List.filter (copy_only controls anticontrols) l.

(** After the iterations [p]: the copied amplitudes are in place, the
    free indices of [p] fill the first cells of [not_copy] in the order
    they ran, and [aux_const] is the squared norm of the copied ones. *)
Definition copy_inv (ns0 : state_vector R C) (nc0 : array_list_e) (p : list Z)
    (acc : state_vector R C * array_list_e * Z * R) : Prop :=
  let '(ns, nc, count, aux) := acc in
  sv_wf ns /\ num_qubits ns = num_qubits ns0 /\ size ns = size ns0 /\
  (forall j, 0 <= j -> state_get ns j =
     if bool_decide (j ∈ p) && copy_only controls anticontrols j then Ok (amp j) else state_get ns0 j) /\
  store_wf COMPLEX_ARRAY_SIZE nc /\ Chunked.size nc = Chunked.size nc0 /\
  count = Z.of_nat (length (free_list p)) /\
  (forall k, 0 <= k -> alist_get nc k =
     match free_list p !! Z.to_nat k with Some x => Ok x | None => alist_get nc0 k end) /\
  aux = rsum (fun i => sqnorm (amp i)) (copied_list p).

Lemma copy_step ns0 nc0 sched p x rest acc :
  size ns0 = size state -> NoDup sched -> (forall i, i ∈ sched -> 0 <= i < size state) ->
  Z.of_nat (length (free_list sched)) <= Chunked.size nc0 ->
  sched = p ++ x :: rest -> copy_inv ns0 nc0 p acc ->
  exists acc', copy_and_index_body state controls anticontrols acc x = Ok acc' /\
    copy_inv ns0 nc0 (p ++ [x]) acc'.
Proof.
  intros Hsz Hnd Hrange Hroom -> Hinv. destruct acc as [[[ns nc] count] aux].
  destruct Hinv as (Hns & Hnq & Hsz' & Hget & Hnc & Hncsz & Hcount & Hidx & Haux).
  assert (Hx : 0 <= x < size state) by (apply Hrange; set_solver).
  assert (Hxp : x ∉ p) by (apply NoDup_app in Hnd as (_ & Hdis & _); intros Hin; apply (Hdis x Hin); set_solver).
  unfold copy_and_index_body, copy_inv, free_list, copied_list in *. rewrite !List.filter_app. simpl.
  destruct (copy_only controls anticontrols x) eqn:Ecopy; simpl.
  - rewrite Hamp by done. simpl.
    destruct (state_set_get ns x (amp x) Hns ltac:(lia)) as (ns' & -> & Hns' & Hnq' & Hsz'' & _ & Hget').
    simpl. eexists. split; [reflexivity|]. rewrite !app_nil_r, rsum_snoc.
    split_and!; try done; try congruence.
    intros j Hj. rewrite Hget', bool_decide_elem_of_snoc by done.
    destruct (Z.eqb_spec x j) as [<-|Hne].
    + rewrite (bool_decide_eq_true_2 (x = x)), orb_true_r, Ecopy by done. done.
    + rewrite (bool_decide_eq_false_2 (j = x)), orb_false_r by congruence. apply Hget. done.
  - rewrite List.filter_app, length_app in Hroom. simpl in Hroom. rewrite Ecopy in Hroom. simpl in Hroom.
    destruct (chunks_set_get COMPLEX_ARRAY_SIZE nc count x Hnc ltac:(lia))
      as (nc' & Hset & Hnc' & Hncsz' & _ & Hget').
    unfold alist_set. rewrite Hset. simpl. eexists. split; [reflexivity|]. rewrite !app_nil_r.
    split_and!; try done; try congruence.
    + intros j Hj. rewrite Hget, bool_decide_elem_of_snoc by done.
      destruct (decide (j = x)) as [->|Hne]; [rewrite Ecopy, !andb_false_r; done|].
      rewrite (bool_decide_eq_false_2 (j = x)), orb_false_r by done. done.
    + rewrite length_app. simpl. lia.
    + intros k Hk. unfold alist_get in *. rewrite Hget' by done. destruct (Z.eqb_spec count k) as [<-|Hne].
      * rewrite lookup_app_r by lia. replace (Z.to_nat count - _)%nat with 0%nat by lia. done.
      * rewrite Hidx by done. destruct (decide (Z.to_nat k < length (List.filter (fun i => negb (copy_only controls anticontrols i)) p))%nat).
        -- rewrite lookup_app_l by lia. done.
        -- rewrite lookup_app_r by lia. rewrite (lookup_ge_None_2 (List.filter _ p)) by lia.
           rewrite lookup_ge_None_2 by (simpl; lia). done.
Qed.

Lemma copy_pass ns0 nc0 sched :
  sv_wf ns0 -> size ns0 = size state -> store_wf COMPLEX_ARRAY_SIZE nc0 ->
  NoDup sched -> (forall i, i ∈ sched -> 0 <= i < size state) ->
  Z.of_nat (length (free_list sched)) <= Chunked.size nc0 ->
  exists ns nc count aux, copy_and_index state ns0 controls anticontrols nc0 sched = Ok (0, ns, nc, aux) /\
    copy_inv ns0 nc0 sched (ns, nc, count, aux).
Proof.
  intros Hns0 Hsz Hnc0 Hnd Hrange Hroom. unfold copy_and_index.
  loop_invariant (copy_inv ns0 nc0).
  destruct Hloop as ([[[ns nc] count] aux] & Hrun & Hinv).
  - split_and!; try done.
  - intros p x rest acc Hl Hinv. eapply copy_step; eauto.
  - rewrite Hrun. simpl. eauto 10.
Qed.

End CopyPass.

(** ** The recompute pass *)

Section CalcPass.
Context `{Platform} {R C : Type} `{Scalars R C} `{!StateInit R C}.
Variables (state : state_vector R C) (amp : Z -> C) (gate : qgate C) (targets : list Z).
Hypotheses (Hwf : sv_wf state) (Hamp : sv_holds state amp)
  (Ht : Forall (fun t => 0 <= t < num_qubits state) targets) (Hg : gate_ok gate (length targets)).

(** The indices of the compaction list [F] named by the iterations [q]. *)
Definition img (F q : list Z) : list Z := (fun k => F !!! Z.to_nat k) <$> q.

Lemma img_all F : img F (zrange 0 (Z.of_nat (length F))) = F.
Proof.
  apply list_eq. intros i. unfold img, zrange. rewrite list_lookup_fmap.
  destruct (decide (i < length F)%nat).
  - rewrite lookup_seqZ_lt by lia. simpl. rewrite Z.add_0_l, Nat2Z.id.
    symmetry. apply list_lookup_lookup_total_lt. done.
  - rewrite lookup_seqZ_ge by lia. simpl. symmetry. apply lookup_ge_None_2. lia.
Qed.

Definition rowv (j : Z) : C := row_ref amp (gate_fun gate) targets j (zrange 0 (gate_size gate)).

(** After the iterations [q]: the indices they name hold their row sums,
    and [aux_const] is the squared norm of those sums. *)
Definition calc_inv (F : list Z) (ns1 : state_vector R C) (q : list Z) (acc : state_vector R C * R) : Prop :=
  let '(ns, aux) := acc in
  sv_wf ns /\ num_qubits ns = num_qubits ns1 /\ size ns = size ns1 /\
  (forall j, 0 <= j -> state_get ns j =
     if bool_decide (j ∈ img F q) then Ok (rowv j) else state_get ns1 j) /\
  aux = rsum (fun j => sqnorm (rowv j)) (img F q).

Lemma calc_pass F (nc : array_list_e) ns1 norm sched :
  sv_wf ns1 -> size ns1 = size state ->
  (forall k x, 0 <= k -> F !! Z.to_nat k = Some x -> alist_get nc k = Ok x) ->
  (forall x, x ∈ F -> 0 <= x < size state) ->
  (forall k, k ∈ sched -> 0 <= k < Z.of_nat (length F)) ->
  exists ns aux, calculate_empty state gate targets ns1 nc norm sched = Ok (0, ns, radd norm aux) /\
    calc_inv F ns1 sched (ns, aux).
Proof.
  intros Hns1 Hsz Hnc HF Hsched. unfold calculate_empty.
  loop_invariant (calc_inv F ns1). destruct Hloop as ([ns aux] & Hrun & Hinv).
  - split_and!; try done.
  - intros q k rest [ns aux] Hl (Hns & Hnq & Hsz' & Hget & Haux).
    assert (Hk : 0 <= k < Z.of_nat (length F)) by (apply Hsched; rewrite Hl; set_solver).
    destruct (lookup_lt_is_Some_2 F (Z.to_nat k) ltac:(lia)) as [curr Hcurr].
    assert (Hc : 0 <= curr < size state) by (apply HF; eapply list_elem_of_lookup_2; eauto).
    unfold calculate_empty_body. rewrite (Hnc k curr) by (done || lia). simpl.
    rewrite (row_sum_spec state gate targets amp curr) by done. simpl.
    destruct (state_set_get ns curr (rowv curr) Hns ltac:(lia)) as (ns' & Hset & Hns' & Hnq' & Hsz'' & _ & Hget').
    unfold rowv in Hset. rewrite Hset. simpl. eexists. split; [reflexivity|].
    assert (Himg : img F (q ++ [k]) = img F q ++ [curr]).
    { unfold img. rewrite fmap_app. simpl. f_equal. f_equal. apply list_lookup_total_correct. done. }
    unfold calc_inv. rewrite Himg, rsum_snoc, <- Haux. split_and!; try done; try congruence.
    intros j Hj. rewrite Hget', bool_decide_elem_of_snoc by done.
    destruct (Z.eqb_spec curr j) as [<-|Hne].
    + rewrite (bool_decide_eq_true_2 (curr = curr)), orb_true_r by done. done.
    + rewrite (bool_decide_eq_false_2 (j = curr)), orb_false_r by congruence. apply Hget. done.
  - rewrite Hrun. simpl. eauto.
Qed.

End CalcPass.

(** ** The two passes compute the reference *)

Section Refine.
Context `{Platform} {R C : Type} `{Scalars R C} `{!StateInit R C}.
Variables (state : state_vector R C) (gate : qgate C) (targets controls anticontrols : list Z).
Hypotheses (Hwf : sv_wf state) (Hfull : sv_full state = true)
  (Hroles : roles_ok (num_qubits state) targets controls anticontrols)
  (Hg : gate_ok gate (length targets)).

(** The size of the compaction list. *)
Definition free_size (state : state_vector R C) (controls anticontrols : list Z) : Z :=
  Z.shiftr (size state) (Z.of_nat (length controls + length anticontrols)).

(** The reference state, as a function of the index. *)
Definition spec_amp (i : Z) : C :=
  gate_spec (amps_of state) (gate_fun gate) (gate_size gate) targets controls anticontrols i.

Lemma roles_nonneg : Forall (fun q => 0 <= q) (controls ++ anticontrols).
Proof.
  apply roles_ok_parts in Hroles as (_ & Hr & _). eapply Forall_impl; [exact Hr | simpl; lia].
Qed.

Lemma free_list_elem sched x :
  x ∈ free_list controls anticontrols sched <-> x ∈ sched /\ selected controls anticontrols x = true.
Proof.
  unfold free_list. rewrite !list_elem_of_In, filter_In, copy_only_selected, negb_involutive
    by apply roles_nonneg. done.
Qed.

Lemma copied_list_elem sched x :
  x ∈ copied_list controls anticontrols sched <-> x ∈ sched /\ selected controls anticontrols x = false.
Proof.
  unfold copied_list. rewrite !list_elem_of_In, filter_In, copy_only_selected, negb_true_iff
    by apply roles_nonneg. done.
Qed.

Lemma free_list_length sched :
  sched ≡ₚ zrange 0 (size state) ->
  Z.of_nat (length (free_list controls anticontrols sched)) = free_size state controls anticontrols.
Proof.
  intros Hperm. pose proof Hwf as (_ & Hnq & Hsz & _). unfold free_list, free_size.
  rewrite (filter_perm _ _ _ Hperm), Hsz. apply (free_count _ targets); done.
Qed.

Lemma img_perm F q : q ≡ₚ zrange 0 (Z.of_nat (length F)) -> img F q ≡ₚ F.
Proof.
  intros Hq. rewrite <- (img_all F) at 2. unfold img. rewrite Hq. done.
Qed.

Lemma spec_amp_selected i :
  selected controls anticontrols i = true -> spec_amp i = rowv (amps_of state) gate targets i.
Proof. intros Hs. unfold spec_amp, gate_spec, rowv, row_ref. rewrite Hs. done. Qed.

Lemma spec_amp_unselected i :
  selected controls anticontrols i = false -> spec_amp i = amps_of state i.
Proof. intros Hs. unfold spec_amp, gate_spec. rewrite Hs. done. Qed.

(** The partition pass then the recompute pass, from a fresh new state and
    an empty compaction list of the right size, under any two schedules:
    the new state is the reference, and the two partial norms are sums of
    its squared moduli over two lists that together enumerate the indices. *)
Lemma apply_passes (ns0 : state_vector R C) (nc0 : array_list_e) sched1 sched2 :
  sv_wf ns0 -> num_qubits ns0 = num_qubits state -> size ns0 = size state ->
  (forall j, 0 <= j -> state_get ns0 j = UB) ->
  store_wf COMPLEX_ARRAY_SIZE nc0 -> Chunked.size nc0 = free_size state controls anticontrols ->
  sched1 ≡ₚ zrange 0 (size state) -> sched2 ≡ₚ zrange 0 (free_size state controls anticontrols) ->
  exists ns1 nc ns aux1 aux2 l1 l2,
    copy_and_index state ns0 controls anticontrols nc0 sched1 = Ok (0, ns1, nc, aux1) /\
    calculate_empty state gate targets ns1 nc aux1 sched2 = Ok (0, ns, radd aux1 aux2) /\
    store_wf COMPLEX_ARRAY_SIZE nc /\ Chunked.size nc = Chunked.size nc0 /\
    sv_wf ns /\ num_qubits ns = num_qubits state /\ size ns = size state /\
    (forall i, 0 <= i < size state -> state_get ns i = Ok (spec_amp i)) /\
    aux1 = rsum (fun i => sqnorm (spec_amp i)) l1 /\ aux2 = rsum (fun i => sqnorm (spec_amp i)) l2 /\
    l1 ++ l2 ≡ₚ zrange 0 (size state).
Proof.
  intros Hns0 Hnq0 Hsz0 Hfresh Hnc0 Hncsz Hp1 Hp2.
  pose proof (sv_full_holds state Hfull) as Hamp.
  pose proof (roles_ok_parts _ _ _ _ Hroles) as (_ & _ & Ht).
  assert (Hr1 : forall i, i ∈ sched1 -> 0 <= i < size state) by (intros i; rewrite Hp1, elem_of_zrange; done).
  destruct (copy_pass state (amps_of state) controls anticontrols Hwf Hamp ns0 nc0 sched1)
    as (ns1 & nc & count & aux1 & Hrun1 & Hinv1); try done.
  { rewrite Hp1. apply NoDup_zrange. }
  { rewrite free_list_length, Hncsz; done. }
  destruct Hinv1 as (Hns1 & Hnq1 & Hsz1 & Hget1 & Hnc & Hncsz' & _ & Hidx & Haux1).
  set (F := free_list controls anticontrols sched1) in *.
  assert (HF : Z.of_nat (length F) = free_size state controls anticontrols) by (apply free_list_length; done).
  destruct (calc_pass state (amps_of state) gate targets Hwf Hamp Ht Hg F nc ns1 aux1 sched2)
    as (ns & aux2 & Hrun2 & Hns & Hnq & Hsz & Hget & Haux2); try congruence.
  { intros k x Hk Hx. rewrite Hidx, Hx; done. }
  { intros x Hx%free_list_elem. apply Hr1. tauto. }
  { intros k. rewrite Hp2, elem_of_zrange. lia. }
  assert (Himg : img F sched2 ≡ₚ F) by (apply img_perm; rewrite HF; done).
  exists ns1, nc, ns, aux1, aux2, (copied_list controls anticontrols sched1), (img F sched2).
  split_and!; try done; try congruence.
  - intros i Hi. rewrite Hget by lia.
    assert (Hi1 : i ∈ sched1) by (rewrite Hp1, elem_of_zrange; done).
    destruct (selected controls anticontrols i) eqn:Es.
    + rewrite bool_decide_eq_true_2 by (rewrite Himg; unfold F; apply free_list_elem; done).
      rewrite spec_amp_selected; done.
    + rewrite bool_decide_eq_false_2 by (rewrite Himg; unfold F; rewrite free_list_elem; intros [_ ?]; congruence).
      rewrite Hget1, spec_amp_unselected, copy_only_selected, Es by (done || lia || apply roles_nonneg).
      rewrite bool_decide_eq_true_2 by done. rewrite <- Hamp by lia. done.
  - rewrite Haux1. apply rsum_ext_in. intros x (_ & Hx)%copied_list_elem.
    rewrite spec_amp_unselected; done.
  - rewrite Haux2. apply rsum_ext_in. intros x Hx. rewrite Himg in Hx.
    unfold F in Hx. apply free_list_elem in Hx as [_ Hx]. rewrite spec_amp_selected; done.
  - rewrite Himg. unfold copied_list, F, free_list. rewrite filter_partition_perm. done.
Qed.

(** The whole of [apply_gate] on a live caller struct, every branch: out
    of memory for the list header (11), [alist_init] failing (its code,
    everything given back), [state_init] failing (its code, and the
    caller's struct freed), or success with the reference state, its norm,
    and exactly the new state's memory taken. *)
Lemma apply_gate_cases (Hcap : NATURAL_ARRAY_SIZE = COMPLEX_ARRAY_SIZE) (ns0 : state_vector R C)
    sched1 sched2 m :
  sched1 ≡ₚ zrange 0 (size state) -> sched2 ≡ₚ zrange 0 (free_size state controls anticontrols) ->
  exists code res m',
    apply_gate state gate targets controls anticontrols (SVLive ns0) sched1 sched2 m = Ok ((code, res), m') /\
    ((code = 11 /\ res = SVLive ns0 /\ m' = m) \/
     ((code = 1 \/ code = 2) /\ res = SVLive ns0 /\ avail m' = avail m) \/
     (init_error code /\ res = SVFreed /\ avail m' = avail m + 1) \/
     (code = 0 /\ exists ns l1 l2, res = SVLive ns /\ sv_wf ns /\ num_qubits ns = num_qubits state /\
        (forall i, 0 <= i < size state -> state_get ns i = Ok (spec_amp i)) /\
        norm_const ns = rsqrt (radd (rsum (fun i => sqnorm (spec_amp i)) l1)
                                    (rsum (fun i => sqnorm (spec_amp i)) l2)) /\
        l1 ++ l2 ≡ₚ zrange 0 (size state) /\
        avail m' = avail m - num_chunks (vector ns) - size ns)).
Proof.
  intros Hp1 Hp2. pose proof Hwf as (_ & Hnq & Hsz & _).
  assert (HN : 0 < free_size state controls anticontrols).
  { pose proof (roles_count_le _ _ _ _ Hnq Hroles). unfold free_size. rewrite Hsz, Z.shiftr_div_pow2 by lia.
    apply Z.div_str_pos. split; [apply Z.pow_pos_nonneg; lia | apply Z.pow_le_mono_r; lia]. }
  unfold apply_gate, mbind at 1, malloc. destruct (Z.leb_spec 1 (avail m)) as [Hm|Hm]; simpl.
  2: { eexists _, _, _. split; [reflexivity|]. left. done. }
  change (Z.shiftr (size state) _) with (free_size state controls anticontrols).
  destruct (chunks_init_spec (A:=Z) NATURAL_ARRAY_SIZE _ (mkMem (avail m - 1)) NATURAL_ARRAY_SIZE_pos HN)
    as (code & nc0 & m2 & Hrun & Hres).
  unfold alist_init. rewrite (mbind_run _ _ _ _ _ Hrun).
  destruct Hres as [(-> & Hnc0 & Hncsz & _ & Hm2) | (Hc & Hm2)].
  2: { destruct Hc as [[-> _]|[-> _]]; simpl; unfold mbind, mfree, mret; simpl;
       eexists _, _, _; (split; [reflexivity|]); right; left; simpl in *; split_and!; auto; lia. }
  simpl. destruct (state_init_spec ns0 (num_qubits state) m2 Hnq) as (code & ns1 & m3 & Hrun' & Hnq1 & Hres').
  rewrite (mbind_run _ _ _ _ _ Hrun').
  destruct Hres' as [(-> & Hns1 & Hfresh & _ & _ & Hm3) | (Hc & Hm3)].
  2: { rewrite (proj2 (Z.eqb_neq _ _) (init_error_nonzero _ Hc)). simpl.
       unfold alist_clear; rewrite (mbind_run _ _ _ _ _ (chunks_clear_wf _ _ _ Hnc0)).
       unfold mbind, mfree, mret; simpl; eexists _, _, _; (split; [reflexivity|]); right; right; left.
       simpl in *; split_and!; auto; lia. }
  assert (Hsz1 : size ns1 = size state) by (destruct Hns1 as (_ & _ & -> & _); congruence).
  destruct (apply_passes ns1 nc0 sched1 sched2 Hns1 Hnq1 Hsz1 Hfresh ltac:(rewrite <- Hcap; done) Hncsz Hp1 Hp2)
    as (ns1' & nc & ns & aux1 & aux2 & l1 & l2 & Hc1 & Hc2 & Hnc & Hncsz' & Hns & Hnqs & Hszs & Hget & Ha1 & Ha2 & Hperm).
  replace (negb (0 =? 0)) with false by reflexivity. cbv iota.
  rewrite (lift_run _ _ _ _ Hc1). simpl. rewrite Hc2. simpl. erewrite lift_run by reflexivity.
  unfold alist_clear. rewrite (mbind_run _ _ _ _ _ (chunks_clear_wf _ _ _ Hnc)).
  unfold mbind, mfree, mret. simpl. eexists _, _, _. split; [reflexivity|]. right; right; right.
  split; [done|]. exists (with_norm ns (rsqrt (radd aux1 aux2))), l1, l2.
  assert (Hch : num_chunks nc = num_chunks nc0).
  { rewrite (store_wf_num_chunks _ nc COMPLEX_ARRAY_SIZE_pos Hnc),
      (store_wf_num_chunks _ nc0 NATURAL_ARRAY_SIZE_pos Hnc0), Hcap, Hncsz'. done. }
  assert (Hch' : num_chunks (vector ns) = num_chunks (vector ns1)) by (apply sv_wf_num_chunks; congruence).
  unfold with_norm, sv_wf, state_get in *; simpl in *. split_and!; try tauto; try congruence.
  lia.
Qed.

End Refine.

(** ** Properties of [apply_gate] *)

Section ApplyGateProps.
Context `{Platform} {R C : Type} `{Scalars R C} `{!StateInit R C}.

(** C1: [apply_gate] on a complete state, with distinct register qubits
    as targets, controls and anticontrols, a square gate of dimension
    [2^num_targets], and any schedules of its two parallel loops, has no
    undefined behaviour, exits with 0, with 11 ([not_copy] struct), with
    [alist_init]'s 1 or 2 or with one of [state_init]'s documented codes
    1 to 4, and on exit 0 the new
    state holds at every index the reference amplitude [gate_spec]. *)
Theorem apply_gate_refines (Hcap : NATURAL_ARRAY_SIZE = COMPLEX_ARRAY_SIZE)
    (state ns0 : state_vector R C) gate targets controls anticontrols sched1 sched2 m :
  sv_wfb state = true -> sv_full state = true ->
  roles_okb (num_qubits state) targets controls anticontrols = true ->
  gate_okb gate (length targets) = true ->
  bool_decide (sched1 ≡ₚ zrange 0 (size state)) = true ->
  bool_decide (sched2 ≡ₚ zrange 0 (free_size state controls anticontrols)) = true ->
  exists code res m',
    apply_gate state gate targets controls anticontrols (SVLive ns0) sched1 sched2 m = Ok ((code, res), m') /\
    (code = 0 \/ code = 1 \/ code = 2 \/ code = 3 \/ code = 4 \/ code = 11) /\
    (code = 0 -> exists ns, res = SVLive ns /\ sv_wf ns /\ num_qubits ns = num_qubits state /\
       forall i, 0 <= i < size state ->
         state_get ns i = Ok (gate_spec (amps_of state) (gate_fun gate) (gate_size gate)
                                        targets controls anticontrols i)).
Proof.
  intros Hwf%sv_wfb_spec Hfull Hroles%roles_okb_spec Hg%gate_okb_spec Hp1%bool_decide_eq_true_1 Hp2%bool_decide_eq_true_1.
  destruct (apply_gate_cases state gate targets controls anticontrols Hwf Hfull Hroles Hg Hcap ns0 sched1 sched2 m Hp1 Hp2)
    as (code & res & m' & Hrun & Hcases).
  exists code, res, m'. split; [done|].
  destruct Hcases as [(-> & _)|[(Hc & _)|[(Hc & _)|(-> & ns & l1 & l2 & -> & Hns & Hnq & Hget & _)]]];
    try unfold init_error in Hc; (split; [lia|]); intros Hc0; try lia.
  exists ns. split_and!; auto.
Qed.

(** C5: when [apply_gate] succeeds, the norm constant of the new state
    is the square root of the sum of the squared moduli of the reference
    amplitudes over all indices (given exact commutative, associative
    addition). *)
Theorem apply_gate_norm `{!ScalarLaws R C} (Hcap : NATURAL_ARRAY_SIZE = COMPLEX_ARRAY_SIZE)
    (state ns0 ns : state_vector R C) gate targets controls anticontrols sched1 sched2 m m' :
  sv_wfb state = true -> sv_full state = true ->
  roles_okb (num_qubits state) targets controls anticontrols = true ->
  gate_okb gate (length targets) = true ->
  bool_decide (sched1 ≡ₚ zrange 0 (size state)) = true ->
  bool_decide (sched2 ≡ₚ zrange 0 (free_size state controls anticontrols)) = true ->
  apply_gate state gate targets controls anticontrols (SVLive ns0) sched1 sched2 m = Ok ((0, SVLive ns), m') ->
  norm_const ns = rsqrt (rsum (fun i => sqnorm (gate_spec (amps_of state) (gate_fun gate) (gate_size gate)
                                                          targets controls anticontrols i))
                              (zrange 0 (size state))).
Proof.
  intros Hwf%sv_wfb_spec Hfull Hroles%roles_okb_spec Hg%gate_okb_spec Hp1%bool_decide_eq_true_1 Hp2%bool_decide_eq_true_1 Hrun.
  destruct (apply_gate_cases state gate targets controls anticontrols Hwf Hfull Hroles Hg Hcap ns0 sched1 sched2 m Hp1 Hp2)
    as (code & res & m'' & Hrun' & Hcases).
  rewrite Hrun in Hrun'. injection Hrun' as <- <- <-.
  destruct Hcases as [(? & _)|[(? & _)|[(_ & ? & _)|(_ & ns' & l1 & l2 & Hns' & _ & _ & _ & Hnorm & Hperm & _)]]];
    try lia; try discriminate.
  injection Hns' as <-. rewrite Hnorm, <- rsum_app, (rsum_perm _ _ _ Hperm). done.
Qed.

(** C7: [apply_gate] gives back all the memory it took on every exit,
    except the new state's amplitudes on success; on a [state_init]
    failure it also frees the caller's [new_state] struct, one cell more
    than it took, and returns it freed. *)
Theorem apply_gate_memory (Hcap : NATURAL_ARRAY_SIZE = COMPLEX_ARRAY_SIZE)
    (state ns0 : state_vector R C) gate targets controls anticontrols sched1 sched2 m code res m' :
  sv_wfb state = true -> sv_full state = true ->
  roles_okb (num_qubits state) targets controls anticontrols = true ->
  gate_okb gate (length targets) = true ->
  bool_decide (sched1 ≡ₚ zrange 0 (size state)) = true ->
  bool_decide (sched2 ≡ₚ zrange 0 (free_size state controls anticontrols)) = true ->
  apply_gate state gate targets controls anticontrols (SVLive ns0) sched1 sched2 m = Ok ((code, res), m') ->
  (code <> 0 /\ res = SVLive ns0 /\ avail m' = avail m) \/
  (init_error code /\ res = SVFreed /\ avail m' = avail m + 1) \/
  (code = 0 /\ exists ns, res = SVLive ns /\ avail m' = avail m - num_chunks (vector ns) - size ns).
Proof.
  intros Hwf%sv_wfb_spec Hfull Hroles%roles_okb_spec Hg%gate_okb_spec Hp1%bool_decide_eq_true_1 Hp2%bool_decide_eq_true_1 Hrun.
  destruct (apply_gate_cases state gate targets controls anticontrols Hwf Hfull Hroles Hg Hcap ns0 sched1 sched2 m Hp1 Hp2)
    as (code' & res' & m'' & Hrun' & Hcases).
  rewrite Hrun in Hrun'. injection Hrun' as <- <- <-.
  destruct Hcases as [(-> & -> & ->)|[(Hc & -> & Hm)|[Hf|(-> & ns & _ & _ & -> & _ & _ & _ & _ & _ & Hm)]]].
  - left. split_and!; done.
  - left. split_and!; [lia | done | done].
  - right; left. done.
  - right; right. eauto.
Qed.

(** C6: the amplitudes [apply_gate] computes do not depend on the order
    in which the iterations of its two parallel loops run (nor on the
    order of the appends to [not_copy] inside the critical section). *)
Theorem apply_gate_schedule_independent (Hcap : NATURAL_ARRAY_SIZE = COMPLEX_ARRAY_SIZE)
    (state ns0 ns0' ns ns' : state_vector R C) gate targets controls anticontrols s1 s2 s1' s2' m m1 m' m1' :
  sv_wfb state = true -> sv_full state = true ->
  roles_okb (num_qubits state) targets controls anticontrols = true ->
  gate_okb gate (length targets) = true ->
  bool_decide (s1 ≡ₚ zrange 0 (size state)) = true -> bool_decide (s1' ≡ₚ zrange 0 (size state)) = true ->
  bool_decide (s2 ≡ₚ zrange 0 (free_size state controls anticontrols)) = true ->
  bool_decide (s2' ≡ₚ zrange 0 (free_size state controls anticontrols)) = true ->
  apply_gate state gate targets controls anticontrols (SVLive ns0) s1 s2 m = Ok ((0, SVLive ns), m1) ->
  apply_gate state gate targets controls anticontrols (SVLive ns0') s1' s2' m' = Ok ((0, SVLive ns'), m1') ->
  forall i, 0 <= i < size state -> state_get ns i = state_get ns' i.
Proof.
  intros Hwf%sv_wfb_spec Hfull Hroles%roles_okb_spec Hg%gate_okb_spec
    Hp1%bool_decide_eq_true_1 Hp1'%bool_decide_eq_true_1 Hp2%bool_decide_eq_true_1 Hp2'%bool_decide_eq_true_1 Hrun Hrun' i Hi.
  destruct (apply_gate_cases state gate targets controls anticontrols Hwf Hfull Hroles Hg Hcap ns0 s1 s2 m Hp1 Hp2)
    as (c & r & mm & Hr & Hcases).
  destruct (apply_gate_cases state gate targets controls anticontrols Hwf Hfull Hroles Hg Hcap ns0' s1' s2' m' Hp1' Hp2')
    as (c' & r' & mm' & Hr' & Hcases').
  rewrite Hrun in Hr. rewrite Hrun' in Hr'. injection Hr as <- <- <-. injection Hr' as <- <- <-.
  destruct Hcases as [(? & _)|[(? & _)|[(_ & ? & _)|(_ & n1 & _ & _ & Hn1 & _ & _ & Hget & _)]]]; try lia; try discriminate.
  destruct Hcases' as [(? & _)|[(? & _)|[(_ & ? & _)|(_ & n2 & _ & _ & Hn2 & _ & _ & Hget' & _)]]]; try lia; try discriminate.
  injection Hn1 as <-. injection Hn2 as <-. rewrite Hget, Hget'; done.
Qed.

(** The identity matrix of dimension [n], row by row. *)
Definition id_matrix (n : Z) : list (list C) :=
  (fun r => (fun c => if r =? c then c1 else c0) <$> zrange 0 n) <$> zrange 0 n.

Lemma gate_fun_id (gate : qgate C) r c :
  matrix gate = id_matrix (gate_size gate) -> 0 <= r < gate_size gate -> 0 <= c < gate_size gate ->
  gate_fun gate r c = if r =? c then c1 else c0.
Proof.
  intros Hm Hr Hc. unfold gate_fun, gate_entry. rewrite Hm. unfold id_matrix, zrange.
  rewrite list_lookup_fmap, lookup_seqZ_lt by lia. simpl.
  rewrite list_lookup_fmap, lookup_seqZ_lt by lia. simpl. rewrite !Z2Nat.id by lia. done.
Qed.

(** C8: applying an identity gate, on any targets and roles that are
    distinct register qubits, leaves every amplitude as it was. *)
Theorem apply_gate_identity `{!ScalarLaws R C} (Hcap : NATURAL_ARRAY_SIZE = COMPLEX_ARRAY_SIZE)
    (state ns0 ns : state_vector R C) gate targets controls anticontrols sched1 sched2 m m' :
  sv_wfb state = true -> sv_full state = true ->
  roles_okb (num_qubits state) targets controls anticontrols = true ->
  gate_okb gate (length targets) = true -> matrix gate = id_matrix (gate_size gate) ->
  bool_decide (sched1 ≡ₚ zrange 0 (size state)) = true ->
  bool_decide (sched2 ≡ₚ zrange 0 (free_size state controls anticontrols)) = true ->
  apply_gate state gate targets controls anticontrols (SVLive ns0) sched1 sched2 m = Ok ((0, SVLive ns), m') ->
  forall i, 0 <= i < size state -> state_get ns i = state_get state i.
Proof.
  intros Hwf%sv_wfb_spec Hfull Hroles%roles_okb_spec Hg%gate_okb_spec Hid Hp1%bool_decide_eq_true_1
    Hp2%bool_decide_eq_true_1 Hrun i Hi.
  pose proof Hg as (Hgs & _ & _). pose proof (roles_ok_parts _ _ _ _ Hroles) as (_ & _ & Ht).
  assert (Ht0 : Forall (fun t => 0 <= t) targets) by (eapply Forall_impl; [exact Ht | simpl; lia]).
  destruct (apply_gate_cases state gate targets controls anticontrols Hwf Hfull Hroles Hg Hcap ns0 sched1 sched2 m Hp1 Hp2)
    as (code & res & m'' & Hrun' & Hcases).
  rewrite Hrun in Hrun'. injection Hrun' as <- <- <-.
  destruct Hcases as [(? & _)|[(? & _)|[(_ & ? & _)|(_ & ns' & _ & _ & Hns' & _ & _ & Hget & _)]]];
    try lia; try discriminate.
  injection Hns' as <-. rewrite Hget, (sv_full_holds state Hfull i) by done. f_equal.
  unfold spec_amp, gate_spec. destruct (selected controls anticontrols i); [|done].
  pose proof (gather_range i targets) as Hgr. rewrite <- Hgs in Hgr.
  pose proof (csum_single (fun r => cmul (amps_of state (scatter i r targets)) (gate_fun gate (gather i targets) r))
                (zrange 0 (gate_size gate)) (gather i targets)) as E. cbv beta in E.
  rewrite E; [| apply NoDup_zrange | apply elem_of_zrange; done |].
  - rewrite gate_fun_id, Z.eqb_refl, cmul_1_r, scatter_gather by (done || lia). done.
  - intros r Hr%elem_of_zrange Hne. rewrite gate_fun_id by (done || lia).
    rewrite (proj2 (Z.eqb_neq _ _)) by congruence. apply cmul_0_r.
Qed.

End ApplyGateProps.

(** ** Concrete runs *)

Module ApplyGateExamples.
Import ArrayListExamples.

(** The two-qubit state [|00> + 2|01> + (3+i)|10> + 4i|11>] in one chunk
    of four, on Gaussian integers. *)
Definition st : state_vector Z gauss :=
  mkState 2 4 (mkStore 4 1 (VLive [[Some (G 1 0); Some (G 2 0); Some (G 3 1); Some (G 0 4)]])) 1 0 false.

(** NOT, applied with qubit 1 as control: CNOT. *)
Definition X : qgate gauss := mkGate 1 2 [[G 0 0; G 1 0]; [G 1 0; G 0 0]].

(** The caller's [new_state] struct, before [state_init]. *)
Definition blank : state_vector Z gauss := mkState 0 0 empty_store 0 0 false.

(** The CNOT of [st]: amplitudes 2 and 3 swapped, norm [isqrt 31]. *)
Definition st_cnot : state_vector Z gauss :=
  mkState 2 4 (mkStore 4 1 (VLive [[Some (G 1 0); Some (G 2 0); Some (G 0 4); Some (G 3 1)]])) 5 0 false.

Lemma apply_gate_refines_witness :
  exists code res m',
    @apply_gate platform_4 _ _ _ _ st X [0] [1] [] (SVLive blank) [3; 0; 2; 1] [1; 0] (mkMem 100) =
      Ok ((code, res), m') /\
    (code = 0 \/ code = 1 \/ code = 2 \/ code = 3 \/ code = 4 \/ code = 11) /\
    (code = 0 -> exists ns, res = SVLive ns /\ @sv_wf platform_4 _ _ ns /\ num_qubits ns = num_qubits st /\
       forall i, 0 <= i < size st ->
         @state_get platform_4 _ _ ns i = Ok (gate_spec (@amps_of platform_4 _ _ _ st) (gate_fun X) (gate_size X) [0] [1] [] i)).
Proof. apply (@apply_gate_refines platform_4 Z gauss _ _ eq_refl); vm_compute; reflexivity. Defined.

Lemma apply_gate_norm_witness :
  norm_const st_cnot =
    rsqrt (rsum (fun i => sqnorm (gate_spec (@amps_of platform_4 _ _ _ st) (gate_fun X) (gate_size X) [0] [1] [] i))
                (zrange 0 (size st))).
Proof.
  apply (@apply_gate_norm platform_4 Z gauss _ _ _ eq_refl st blank st_cnot X [0] [1] [] [3; 0; 2; 1] [1; 0]
           (mkMem 100) (mkMem 95)); vm_compute; reflexivity.
Defined.

Lemma apply_gate_memory_witness :
  (2 <> 0 /\ @SVFreed Z gauss = SVLive blank /\ avail (mkMem 7) = avail (mkMem 6)) \/
  (init_error 2 /\ @SVFreed Z gauss = SVFreed /\ avail (mkMem 7) = avail (mkMem 6) + 1) \/
  (2 = 0 /\ exists ns, @SVFreed Z gauss = SVLive ns /\
     avail (mkMem 7) = avail (mkMem 6) - num_chunks (vector ns) - size ns).
Proof.
  apply (@apply_gate_memory platform_4 Z gauss _ _ eq_refl st blank X [0] [1] [] [0; 1; 2; 3] [0; 1] (mkMem 6));
    vm_compute; reflexivity.
Defined.

Lemma apply_gate_schedule_independent_witness :
  @state_get platform_4 _ _ st_cnot 2 = @state_get platform_4 _ _ st_cnot 2.
Proof.
  apply (@apply_gate_schedule_independent platform_4 Z gauss _ _ eq_refl st blank blank st_cnot st_cnot X [0] [1] []
           [3; 0; 2; 1] [1; 0] [0; 1; 2; 3] [0; 1] (mkMem 100) (mkMem 95) (mkMem 100) (mkMem 95));
    first [vm_compute; reflexivity | simpl; lia].
Defined.

(** The identity gate, and [st] after it: same amplitudes, norm
    [isqrt 31]. *)
Definition Id2 : qgate gauss := mkGate 1 2 [[G 1 0; G 0 0]; [G 0 0; G 1 0]].

Definition st_id : state_vector Z gauss :=
  mkState 2 4 (mkStore 4 1 (VLive [[Some (G 1 0); Some (G 2 0); Some (G 3 1); Some (G 0 4)]])) 5 0 false.

Lemma apply_gate_identity_witness :
  @state_get platform_4 _ _ st_id 2 = @state_get platform_4 _ _ st 2.
Proof.
  apply (@apply_gate_identity platform_4 Z gauss _ _ _ eq_refl st blank st_id Id2 [0] [1] []
           [3; 0; 2; 1] [1; 0] (mkMem 100) (mkMem 95));
    first [vm_compute; reflexivity | simpl; lia].
Defined.

(** The basis state [|00>]. *)
Definition st00 : state_vector Z gauss :=
  mkState 2 4 (mkStore 4 1 (VLive [[Some (G 1 0); Some (G 0 0); Some (G 0 0); Some (G 0 0)]])) 1 0 false.

(** End to end, Pauli-X on qubit 0 of [|00>] with no controls gives
    [|01>]: amplitude 1 at index 1, 0 elsewhere, [norm_const = 1]; the
    compaction list is freed and only the new state (one chunk pointer and
    four cells) stays allocated. *)
Example apply_gate_X_00 :
  @apply_gate platform_4 _ _ _ _ st00 X [0] [] [] (SVLive blank) [0; 1; 2; 3] [0; 1; 2; 3] (mkMem 100) =
    Ok ((0, SVLive (mkState 2 4 (mkStore 4 1 (VLive [[Some (G 0 0); Some (G 1 0); Some (G 0 0); Some (G 0 0)]]))
                            1 0 false)), mkMem 95).
Proof. vm_compute. reflexivity. Qed.

(** With qubit 1 both control and anticontrol no index is selected,
    yet [apply_gate] sizes [not_copy] for one index; [calculate_empty]
    reads its never-written cell: undefined behaviour. *)
Example apply_gate_overlap_UB :
  @apply_gate platform_4 _ _ _ _ st X [0] [1] [1] (SVLive blank) [0; 1; 2; 3] [0] (mkMem 100) = UB.
Proof. vm_compute. reflexivity. Qed.

(** With qubit 1 given twice as control, two indices are selected
    but [not_copy] is sized for [4 >> 2 = 1]: [copy_and_index] writes past
    its end, undefined behaviour. *)
Example apply_gate_duplicate_control_UB :
  @apply_gate platform_4 _ _ _ _ st X [0] [1; 1] [] (SVLive blank) [0; 1; 2; 3] [0] (mkMem 100) = UB.
Proof. vm_compute. reflexivity. Qed.

(** With room for [not_copy] but not for the new state's
    amplitudes, [apply_gate] returns [state_init]'s code 2 and has freed
    the caller's [new_state] struct: 7 cells free after starting from 6. *)
Example apply_gate_init_failure_frees_new_state :
  @apply_gate platform_4 _ _ _ _ st X [0] [1] [] (SVLive blank) [0; 1; 2; 3] [0; 1] (mkMem 6) =
    Ok ((2, SVFreed), mkMem 7).
Proof. vm_compute. reflexivity. Qed.

End ApplyGateExamples.
