(* ===== verification/Measure.v ===== *)
(** * Measurement: [probability], [collapse] and [measure] of [qops.c]

    [probability] (qops.c 78-101) sums the squared moduli of the
    amplitudes whose [target_id] bit is 1; the OpenMP reduction is
    modelled as the sum in ascending index order (with [ScalarLaws] every
    order gives the same value, [rsum_perm]).  [collapse] (146-199) keeps
    the amplitudes whose target bit equals the outcome: its loop runs from
    [value ? step : 0] and tracks the target bit of [i] with a counter
    [count] and a flag [toggle] flipped every [step = 2^target_id]
    iterations.  [measure] (132-144) compares the probability with the
    caller's [roll] and collapses.

    The theorems show that the counter loop keeps exactly the indices
    whose target bit is the outcome, in ascending order ([kept]), that
    the new state has [num_qubits - 1] qubits and the norm the code
    writes, and what [collapse] does on a one-qubit state and on a failed
    [state_init]. *)

From S2P Require Import Prelude ArrayList QState IndexBits.

Module Measure.
Section Ops.
Context `{Platform} {R C : Type} `{Scalars R C} `{!StateInit R C}.

(** [probability(state, target_id)] *)
Definition probability (state : state_vector R C) (target_id : Z) : outcome R :=
  ofold_left (fun value i =>
                if bit_on i target_id then
                  let? val := state_get state i in
                  Ok (radd value (radd (rmul (RE val) (RE val)) (rmul (IM val) (IM val))))
                else Ok value)
             (zrange (mask target_id) (size state)) r0.

(** One iteration [i] of the loop of [collapse]; the accumulator is
    [(new_state, j, count, toggle)]. *)
Definition collapse_body (state : state_vector R C) (value : bool) (step : Z)
    (acc : state_vector R C * Z * Z * bool) (i : Z) : outcome (state_vector R C * Z * Z * bool) :=
  let '(new_state, j, count, toggle) := acc in
  let? '(new_state', j') :=
    if Bool.eqb toggle value then
      let? aux := state_get state i in
      let? ns := state_set new_state j aux in
      Ok (ns, j + 1)
    else Ok (new_state, j) in
  if count + 1 =? step then Ok (new_state', j', 0, negb toggle)
  else Ok (new_state', j', count + 1, toggle).

(** [new_state->vector = NULL; new_state->num_qubits = 0]: the terminal
    state of the one-qubit case. *)
Definition terminal (ns : state_vector R C) : state_vector R C :=
  mkState 0 (size ns) (mkStore (Chunked.size (vector ns)) (num_chunks (vector ns)) VNull)
    (norm_const ns) (fcarg ns) (fcarg_init ns).

(** [collapse(state, target_id, value, prob_one, new_state)]; the
    caller's [new_state] struct is one cell of memory. *)
Definition collapse (state : state_vector R C) (target_id : Z) (value : bool) (prob_one : R)
    (new_state : sv_ptr R C) : M (Z * sv_ptr R C) :=
  match new_state with
  | SVLive ns =>
      if num_qubits state =? 1 then mret (0, SVLive (terminal ns)) else
      let! '(code, ns) := state_init ns (num_qubits state - 1) in
      if negb (code =? 0) then mfree 1 ;; mret (code, SVFreed) else
      let norm_const := if value then prob_one else rsub r1 prob_one in
      let step := mask target_id in
      let! '(ns, _, _, _) :=
        lift (ofold_left (collapse_body state value step)
                (zrange (if value then step else 0) (size state)) (ns, 0, 0, value)) in
      mret (0, SVLive (with_norm ns (rsqrt norm_const)))
  | _ => undef
  end.

(** [measure(state, result, target, new_state, roll)]: returns the exit
    code, [*result] and the new state. *)
Definition measure (state : state_vector R C) (target : Z) (new_state : sv_ptr R C) (roll : R)
    : M (Z * bool * sv_ptr R C) :=
  let! sum := lift (probability state target) in
  let result := rgtb sum roll in
  let! '(code, ns) := collapse state target result sum new_state in
  mret (code, result, ns).

(** ** The reference *)

(** The indices of [l] whose bit [t] is [v], in order. *)
Definition kept (t : Z) (v : bool) (l : list Z) : list Z :=
  List.filter (fun i => Bool.eqb (Z.testbit i t) v) l.

End Ops.
End Measure.

Export Measure.

(** ** The counter of [collapse] tracks the target bit *)

Lemma testbit_div_odd a n : 0 <= n -> Z.testbit a n = Z.odd (a / 2 ^ n).
Proof.
  intros Hn. rewrite <- Z.shiftr_div_pow2, <- Z.bit0_odd, Z.shiftr_spec by lia. f_equal; lia.
Qed.

(** Advancing [i] by one: at the end of a block of [2^t] indices the
    counter wraps and bit [t] flips, otherwise the counter counts up and
    the bit stays. *)
Lemma block_step x t :
  0 <= t ->
  (x mod 2 ^ t + 1 = 2 ^ t -> (x + 1) mod 2 ^ t = 0 /\ Z.testbit (x + 1) t = negb (Z.testbit x t)) /\
  (x mod 2 ^ t + 1 <> 2 ^ t -> (x + 1) mod 2 ^ t = x mod 2 ^ t + 1 /\ Z.testbit (x + 1) t = Z.testbit x t).
Proof.
  intros Ht. assert (Hs : 0 < 2 ^ t) by (apply Z.pow_pos_nonneg; lia).
  rewrite !testbit_div_odd by done.
  pose proof (Z.div_mod x (2 ^ t) ltac:(lia)) as Hx. pose proof (Z.mod_pos_bound x (2 ^ t) Hs).
  set (q := x / 2 ^ t) in *. set (r := x mod 2 ^ t) in *. split; intros Hr.
  - replace (x + 1) with ((q + 1) * 2 ^ t) by lia.
    rewrite Z.mod_mul, Z.div_mul by lia. split; [done|]. rewrite Z.odd_add, Z.odd_1. destruct (Z.odd q); done.
  - replace (x + 1) with ((r + 1) + q * 2 ^ t) by lia.
    rewrite Z.mod_add, Z.div_add, Z.mod_small, Z.div_small by lia. split; [done|]. f_equal; lia.
Qed.

(** The loop bound [value ? step : 0] is at the start of a block whose
    bit [t] is [value]. *)
Lemma collapse_start t (v : bool) :
  0 <= t -> (if v then mask t else 0) mod 2 ^ t = 0 /\ Z.testbit (if v then mask t else 0) t = v /\
    0 <= (if v then mask t else 0).
Proof.
  intros Ht. rewrite mask_pow2 by done. destruct v.
  - rewrite Z.mod_same, Z.pow2_bits_true by (try apply Z.pow_nonzero; lia).
    split_and!; [done|done|]. apply Z.pow_nonneg. lia.
  - rewrite Z.mod_0_l, Z.testbit_0_l by (apply Z.pow_nonzero; lia). done.
Qed.

(** The counter update at the end of an iteration, when the counter and
    the flag describe the current index [x]. *)
Lemma counter_next {A} (acc : A) x t count toggle :
  0 <= t -> count = x mod 2 ^ t -> toggle = Z.testbit x t ->
  (if count + 1 =? 2 ^ t then Ok (acc, 0, negb toggle) else Ok (acc, count + 1, toggle)) =
    Ok (acc, (x + 1) mod 2 ^ t, Z.testbit (x + 1) t).
Proof.
  intros Ht -> ->. destruct (block_step x t Ht) as [H1 H2].
  destruct (Z.eqb_spec (x mod 2 ^ t + 1) (2 ^ t)) as [E|E].
  - destruct (H1 E) as [-> ->]. done.
  - destruct (H2 E) as [-> ->]. done.
Qed.

Section CollapseLoop.
Context `{Platform} {R C : Type} `{Scalars R C} `{!StateInit R C}.
Variables (state : state_vector R C) (amp : Z -> C) (t : Z) (v : bool) (i0 : Z) (ns0 : state_vector R C).
Hypotheses (Hwf : sv_wf state) (Hamp : sv_holds state amp) (Ht : 0 <= t)
  (Hi0 : i0 mod 2 ^ t = 0) (Hbit0 : Z.testbit i0 t = v) (Hi0nn : 0 <= i0) (Hns0 : sv_wf ns0)
  (Hroom : Z.of_nat (length (kept t v (zrange i0 (size state)))) <= size ns0).

(** After the iterations [p]: the kept indices of [p] are written in
    order at the front of the new state, [j] counts them, and the counter
    and flag describe the next index. *)
Definition collapse_inv (p : list Z) (acc : state_vector R C * Z * Z * bool) : Prop :=
  let '(ns, j, count, toggle) := acc in
  sv_wf ns /\ num_qubits ns = num_qubits ns0 /\ size ns = size ns0 /\
  (forall k, 0 <= k -> state_get ns k =
     match kept t v p !! Z.to_nat k with Some i => Ok (amp i) | None => state_get ns0 k end) /\
  j = Z.of_nat (length (kept t v p)) /\
  count = (i0 + Z.of_nat (length p)) mod 2 ^ t /\ toggle = Z.testbit (i0 + Z.of_nat (length p)) t.

Lemma kept_snoc p x :
  kept t v (p ++ [x]) = kept t v p ++ (if Bool.eqb (Z.testbit x t) v then [x] else []).
Proof. unfold kept. rewrite List.filter_app. simpl. destruct (Bool.eqb _ v); done. Qed.

Lemma collapse_step p x rest acc :
  zrange i0 (size state) = p ++ x :: rest -> collapse_inv p acc ->
  exists acc', collapse_body state v (mask t) acc x = Ok acc' /\ collapse_inv (p ++ [x]) acc'.
Proof.
  intros Hl Hinv. destruct acc as [[[ns j] count] toggle].
  destruct Hinv as (Hns & Hnq & Hsz & Hget & Hj & Hc & Htg).
  pose proof (zrange_app_cons _ _ _ _ _ Hl) as Hx. rewrite <- Hx in Hc, Htg.
  assert (Hxr : 0 <= x < size state) by (pose proof (proj1 (elem_of_zrange i0 (size state) x)
    ltac:(rewrite Hl; set_solver)); lia).
  assert (Hlen : Z.of_nat (length (p ++ [x])) = Z.of_nat (length p) + 1) by (rewrite length_app; simpl; lia).
  unfold collapse_body, collapse_inv. rewrite mask_pow2 by done. rewrite kept_snoc, Hlen, <- Htg.
  destruct (Bool.eqb toggle v) eqn:Eb; simpl.
  - rewrite Hamp by done. simpl.
    assert (Hj' : j < size ns).
    { rewrite Hsz, Hj. enough (length (kept t v p ++ [x]) <= length (kept t v (zrange i0 (size state))))%nat
        by (rewrite length_app in *; simpl in *; lia).
      assert (Hk : kept t v p ++ [x] = kept t v (p ++ [x])) by (rewrite kept_snoc, <- Htg, Eb; done).
      rewrite Hk, Hl. replace (p ++ x :: rest) with ((p ++ [x]) ++ rest) by (rewrite <- app_assoc; done).
      unfold kept. rewrite (List.filter_app _ (p ++ [x]) rest), length_app. lia. }
    destruct (state_set_get ns j (amp x) Hns ltac:(lia)) as (ns' & -> & Hns' & Hnq' & Hsz' & _ & Hget').
    simpl. rewrite (counter_next (ns', j + 1) x t count toggle) by done.
    eexists. split; [reflexivity|]. split_and!; try congruence.
    + intros k Hk. rewrite Hget', lookup_snoc_Z, <- Hj by done.
      destruct (j =? k); [done | apply Hget, Hk].
    + rewrite length_app. simpl. lia.
    + f_equal. lia.
    + f_equal. lia.
  - rewrite (counter_next (ns, j) x t count toggle) by done.
    eexists. split; [reflexivity|]. simpl. rewrite !app_nil_r.
    split_and!; try congruence; try (f_equal; lia). apply Hget.
Qed.

Lemma collapse_pass :
  exists ns j count toggle,
    ofold_left (collapse_body state v (mask t)) (zrange i0 (size state)) (ns0, 0, 0, v) =
      Ok (ns, j, count, toggle) /\
    collapse_inv (zrange i0 (size state)) (ns, j, count, toggle).
Proof.
  loop_invariant collapse_inv. destruct Hloop as ([[[ns j] count] toggle] & Hrun & Hinv).
  - unfold collapse_inv. simpl. rewrite Z.add_0_r. split_and!; done.
  - intros p x rest acc Hl Hinv. eapply collapse_step; eauto.
  - eauto 10.
Qed.

End CollapseLoop.

(** Half of the indices of an [n]-qubit register have bit [t] equal to [v]. *)
Lemma kept_count n t v :
  0 <= t < n -> Z.of_nat (length (kept t v (zrange 0 (2 ^ n)))) = 2 ^ (n - 1).
Proof.
  intros Ht. replace n with (Z.of_nat (Z.to_nat n)) at 1 by lia.
  unfold kept. rewrite (filter_ext_in _ (sat [(t, v)])).
  - rewrite count_sat; simpl; [f_equal; lia | | ].
    + constructor; [set_solver | constructor].
    + constructor; [simpl; lia | constructor].
  - intros i _. unfold sat. simpl. rewrite andb_true_r. done.
Qed.

(** The indices below [2^t] all have bit [t] clear, so starting the loop
    at [value ? 2^t : 0] skips no kept index. *)
Lemma kept_from_start t v hi :
  0 <= t -> 2 ^ t <= hi ->
  kept t v (zrange (if v then mask t else 0) hi) = kept t v (zrange 0 hi).
Proof.
  intros Ht Hhi. rewrite mask_pow2 by done. destruct v; [|done].
  assert (Hs : 0 <= 2 ^ t) by (apply Z.pow_nonneg; lia).
  unfold zrange. rewrite <- (Z.sub_add (2 ^ t) hi) at 2. rewrite Z.sub_0_r.
  replace (hi - 2 ^ t + 2 ^ t) with (2 ^ t + (hi - 2 ^ t)) by lia.
  rewrite seqZ_app by lia. unfold kept. rewrite List.filter_app, Z.add_0_l.
  enough (Hnil : length (List.filter (fun i => Bool.eqb (Z.testbit i t) true) (seqZ 0 (2 ^ t))) = 0%nat)
    by (apply length_zero_iff_nil in Hnil; rewrite Hnil; done).
  rewrite (filter_ext_in _ (fun _ => false)); [apply length_filter_false|].
  intros i Hi. rewrite <- list_elem_of_In, elem_of_seqZ in Hi.
  rewrite (testbit_lt_pow2 i t t) by lia. done.
Qed.

(** ** [probability] and [collapse] compute their specifications *)

Section MeasureSpec.
Context `{Platform} {R C : Type} `{Scalars R C} `{!StateInit R C}.

Lemma probability_run (state : state_vector R C) amp t :
  sv_wf state -> sv_holds state amp -> 0 <= t < num_qubits state ->
  probability state t = Ok (rsum (fun i => sqnorm (amp i)) (kept t true (zrange 0 (size state)))).
Proof.
  intros Hwf Hamp Ht. pose proof Hwf as (_ & Hnq & Hsz & _).
  assert (Hpow : 2 ^ t <= size state) by (rewrite Hsz; apply Z.pow_le_mono_r; lia).
  rewrite <- (kept_from_start t true) by lia. unfold probability.
  loop_invariant (fun p (value : R) => value = rsum (fun i => sqnorm (amp i)) (kept t true p)).
  destruct Hloop as (value & Hrun & ->); [done| |by rewrite Hrun].
  intros p x rest value Hl ->.
  assert (Hx : 0 <= x < size state).
  { pose proof (proj1 (elem_of_zrange (mask t) (size state) x) ltac:(rewrite Hl; set_solver)).
    rewrite mask_pow2 in * by lia. pose proof (Z.pow_nonneg 2 t). lia. }
  rewrite kept_snoc, bit_on_testbit by lia. destruct (Z.testbit x t); simpl.
  - rewrite Hamp by done. simpl. eexists. split; [reflexivity|]. rewrite rsum_snoc. done.
  - eexists. split; [reflexivity|]. rewrite app_nil_r. done.
Qed.

Lemma collapse_spec (state ns0 : state_vector R C) amp t v prob m :
  sv_wf state -> sv_holds state amp -> 2 <= num_qubits state -> 0 <= t < num_qubits state ->
  exists code res m', collapse state t v prob (SVLive ns0) m = Ok ((code, res), m') /\
    ((code = 0 /\ exists ns, res = SVLive ns /\ sv_wf ns /\ num_qubits ns = num_qubits state - 1 /\
        size ns = Z.of_nat (length (kept t v (zrange 0 (size state)))) /\
        norm_const ns = rsqrt (if v then prob else rsub r1 prob) /\
        (forall j, 0 <= j < size ns ->
           state_get ns j = Ok (amp (kept t v (zrange 0 (size state)) !!! Z.to_nat j))) /\
        avail m' = avail m - num_chunks (vector ns) - size ns) \/
     (init_error code /\ res = SVFreed /\ avail m' = avail m + 1)).
Proof.
  intros Hwf Hamp Hn Ht. pose proof Hwf as (_ & Hnq & Hsz & _).
  unfold collapse. destruct (Z.eqb_spec (num_qubits state) 1); [lia|].
  destruct (state_init_spec ns0 (num_qubits state - 1) m ltac:(lia)) as (code & ns1 & m1 & Hrun & Hnq1 & Hres).
  rewrite (mbind_run _ _ _ _ _ Hrun).
  destruct Hres as [(-> & Hns1 & Hfresh & _ & _ & Hm1) | (Hc & Hm1)].
  2: { rewrite (proj2 (Z.eqb_neq _ _) (init_error_nonzero _ Hc)). simpl.
       unfold mbind, mfree, mret; simpl; eexists _, _, _; (split; [reflexivity|]); right.
       simpl; split_and!; auto; lia. }
  simpl. assert (Hpow : 2 ^ t <= size state) by (rewrite Hsz; apply Z.pow_le_mono_r; lia).
  assert (Hk : kept t v (zrange (if v then mask t else 0) (size state)) = kept t v (zrange 0 (size state)))
    by (apply kept_from_start; lia).
  assert (Hsz1 : size ns1 = 2 ^ (num_qubits state - 1)) by (destruct Hns1 as (_ & _ & -> & _); congruence).
  assert (Hcount : Z.of_nat (length (kept t v (zrange 0 (size state)))) = size ns1)
    by (rewrite Hsz, kept_count, Hsz1 by lia; done).
  destruct (collapse_start t v ltac:(lia)) as (Hi0 & Hb0 & Hnn).
  destruct (collapse_pass state amp t v _ ns1 Hwf Hamp ltac:(lia) Hi0 Hb0 Hnn Hns1 ltac:(rewrite Hk; lia))
    as (ns & j & c & tg & Hloop & Hns & Hnq' & Hsz' & Hget & _).
  rewrite (lift_run _ _ _ _ Hloop). unfold mret. eexists _, _, _. split; [reflexivity|]. left.
  split; [done|]. exists (with_norm ns (rsqrt (if v then prob else rsub r1 prob))).
  assert (Hch : num_chunks (vector ns) = num_chunks (vector ns1)) by (apply sv_wf_num_chunks; congruence).
  unfold with_norm, sv_wf, state_get in *; simpl in *. split_and!; try tauto; try congruence; try lia.
  intros i Hi. rewrite Hget, Hk by lia.
  destruct (lookup_lt_is_Some_2 (kept t v (zrange 0 (size state))) (Z.to_nat i)) as [x Hx]; [lia|].
  rewrite Hx, (list_lookup_total_correct _ _ _ Hx). done.
Qed.

End MeasureSpec.

(** ** Properties of measurement *)

Section MeasureProps.
Context `{Platform} {R C : Type} `{Scalars R C} `{!StateInit R C}.

(** The reference marginal: the squared moduli of the amplitudes whose
    bit [target] is 1, summed in ascending index order. *)
Definition prob_ref (state : state_vector R C) (target : Z) : R :=
  rsum (fun i => sqnorm (amps_of state i)) (kept target true (zrange 0 (size state))).

(** C10: [probability(state, target)] is the sum, in ascending index
    order, of the squared moduli of the amplitudes whose [target] bit is
    1, over the whole register (the loop's start at [1 << target] skips
    none of them); it reads no unwritten cell. *)
Theorem probability_spec (state : state_vector R C) target :
  sv_wfb state = true -> sv_full state = true -> 0 <= target < num_qubits state ->
  probability state target = Ok (prob_ref state target).
Proof.
  intros Hwf%sv_wfb_spec Hfull Ht. apply probability_run; [done | apply sv_full_holds; done | done].
Qed.

(** C3: [measure] with a caller's [roll] on a complete state of at least
    two qubits reports the outcome [probability > roll] and either
    returns a state of [num_qubits - 1] qubits holding, in order, exactly
    the amplitudes whose target bit is the outcome, with norm [sqrt(p)]
    or [sqrt(1 - p)], having taken only its storage; or [state_init]
    failed with one of its documented codes 1 to 4 and the caller's
    [new_state] struct is freed. *)
Theorem measure_collapses (state ns0 : state_vector R C) target roll m :
  sv_wfb state = true -> sv_full state = true -> 2 <= num_qubits state -> 0 <= target < num_qubits state ->
  exists code res m',
    measure state target (SVLive ns0) roll m = Ok ((code, rgtb (prob_ref state target) roll, res), m') /\
    ((code = 0 /\ exists ns, res = SVLive ns /\ num_qubits ns = num_qubits state - 1 /\
        size ns = Z.of_nat (length (kept target (rgtb (prob_ref state target) roll) (zrange 0 (size state)))) /\
        norm_const ns = rsqrt (if rgtb (prob_ref state target) roll then prob_ref state target
                               else rsub r1 (prob_ref state target)) /\
        (forall j, 0 <= j < size ns ->
           state_get ns j = Ok (amps_of state (kept target (rgtb (prob_ref state target) roll)
                                                   (zrange 0 (size state)) !!! Z.to_nat j))) /\
        avail m' = avail m - num_chunks (vector ns) - size ns) \/
     (init_error code /\ res = SVFreed /\ avail m' = avail m + 1)).
Proof.
  intros Hwf%sv_wfb_spec Hfull Hn Ht. pose proof (sv_full_holds state Hfull) as Hamp.
  unfold measure. rewrite (lift_run _ _ _ _ (probability_run state _ target Hwf Hamp ltac:(lia))).
  destruct (collapse_spec state ns0 (amps_of state) target (rgtb (prob_ref state target) roll)
              (prob_ref state target) m Hwf Hamp Hn Ht) as (code & res & m' & Hrun & Hres).
  rewrite (mbind_run _ _ _ _ _ Hrun). unfold mret. exists code, res, m'. split; [done|].
  destruct Hres as [(-> & ns & -> & _ & Hrest)|Hf]; [left | right]; eauto.
Qed.

(** [collapse] of a one-qubit state, whatever the outcome, returns
    exit code 0 and the terminal state: zero qubits and a NULL vector;
    nothing is allocated or freed. *)
Theorem collapse_one_qubit (state ns0 : state_vector R C) target value prob m :
  num_qubits state = 1 ->
  collapse state target value prob (SVLive ns0) m = Ok ((0, SVLive (terminal ns0)), m) /\
  num_qubits (terminal ns0) = 0 /\ Chunked.vector (vector (terminal ns0)) = VNull.
Proof. intros Hn. unfold collapse. rewrite Hn. done. Qed.

End MeasureProps.

(** ** Concrete runs *)

Module MeasureExamples.
Import ArrayListExamples.

(** The three-qubit state with amplitude [i] at index [i]. *)
Definition st3 : state_vector Z gauss :=
  mkState 3 8 (mkStore 8 2 (VLive [[Some (G 0 0); Some (G 1 0); Some (G 2 0); Some (G 3 0)];
                                   [Some (G 4 0); Some (G 5 0); Some (G 6 0); Some (G 7 0)]])) 1 0 false.

Definition blank : state_vector Z gauss := mkState 0 0 empty_store 0 0 false.

Lemma probability_spec_witness : @probability platform_4 _ _ _ st3 1 = Ok (@prob_ref platform_4 _ _ _ st3 1).
Proof. apply (@probability_spec platform_4); [reflexivity | reflexivity | simpl; lia]. Defined.

Lemma measure_collapses_witness :
  exists code res m',
    @measure platform_4 _ _ _ _ st3 1 (SVLive blank) 10 (mkMem 100) =
      Ok ((code, rgtb (@prob_ref platform_4 _ _ _ st3 1) 10, res), m') /\
    ((code = 0 /\ exists ns, res = SVLive ns /\ num_qubits ns = num_qubits st3 - 1 /\
        size ns = Z.of_nat (length (kept 1 (rgtb (@prob_ref platform_4 _ _ _ st3 1) 10) (zrange 0 (size st3)))) /\
        norm_const ns = rsqrt (if rgtb (@prob_ref platform_4 _ _ _ st3 1) 10 then @prob_ref platform_4 _ _ _ st3 1
                               else rsub r1 (@prob_ref platform_4 _ _ _ st3 1)) /\
        (forall j, 0 <= j < size ns ->
           @state_get platform_4 _ _ ns j =
             Ok (@amps_of platform_4 _ _ _ st3 (kept 1 (rgtb (@prob_ref platform_4 _ _ _ st3 1) 10)
                                                     (zrange 0 (size st3)) !!! Z.to_nat j))) /\
        avail m' = avail (mkMem 100) - num_chunks (vector ns) - size ns) \/
     (init_error code /\ res = SVFreed /\ avail m' = avail (mkMem 100) + 1)).
Proof. apply (@measure_collapses platform_4); [reflexivity | reflexivity | simpl; lia | simpl; lia]. Defined.

Lemma collapse_one_qubit_witness :
  @collapse platform_4 _ _ _ _ (mkState 1 2 empty_store 1 0 false) 0 true 1 (SVLive blank) (mkMem 3) =
    Ok ((0, SVLive (terminal blank)), mkMem 3) /\
  num_qubits (terminal blank) = 0 /\ Chunked.vector (vector (terminal blank)) = VNull.
Proof. apply (@collapse_one_qubit platform_4). reflexivity. Defined.

(** [collapse] does not check [new_state] for NULL (unlike
    [apply_gate], which returns 10): on a NULL destination it writes
    through the null pointer. *)
Example collapse_null_destination_UB :
  @collapse platform_4 _ _ _ _ st3 0 true 1 SVNull (mkMem 100) = UB.
Proof. reflexivity. Qed.

End MeasureExamples.
