(* ===== verification/Join.v ===== *)
(** * Composition and global phase: [join] and [get_global_phase] of [qops.c]

    [join] (qops.c 103-130) initialises [r] with [num_qubits s1 +
    num_qubits s2] qubits and writes [s1[i] * s2[j]] at [i * s2->size +
    j]; its outer loop is an OpenMP loop, modelled by a schedule (a
    permutation of the rows), the inner loop runs in order.
    [get_global_phase] (47-76) returns the memoised phase if [fcarg_init]
    is set, otherwise scans for the first amplitude with a nonzero part,
    takes its argument [ARG] if its imaginary part is nonzero and 0
    otherwise, and memoises the result in the state.  [ARG] is the C
    library's [carg], a parameter of the model.

    The theorems give [join]'s result at every index (the tensor product)
    for every schedule, the phase [get_global_phase] computes, and its
    memoisation, which survives later writes to the state. *)

From S2P Require Import Prelude ArrayList QState.

Module Join.
Section Ops.
Context `{Platform} {R C : Type} `{Scalars R C} `{!StateInit R C}.

(** One iteration [i] of the outer loop of [join]: the inner loop over [j]. *)
Definition join_row (s1 s2 : state_vector R C) (r : state_vector R C) (i : Z) : outcome (state_vector R C) :=
  let? o1 := state_get s1 i in
  ofold_left (fun r j =>
                let? o2 := state_get s2 j in
                state_set r (i * size s2 + j) (cmul o1 o2))
             (zrange 0 (size s2)) r.

(** [join(r, s1, s2)]; [sched] is the order of the rows [i]. *)
Definition join (r : sv_ptr R C) (s1 s2 : state_vector R C) (sched : list Z) : M (Z * sv_ptr R C) :=
  match r with
  | SVLive r0 =>
      let! '(code, r1) := state_init r0 (num_qubits s1 + num_qubits s2) in
      if negb (code =? 0) then mret (code, SVLive r1) else
      let! r2 := lift (ofold_left (join_row s1 s2) sched r1) in
      mret (0, SVLive r2)
  | _ => undef
  end.

Section Phase.
(** [ARG], the argument of a complex number. *)
Variable carg : C -> R.

(** The loop of [get_global_phase] with its [break]. *)
Fixpoint phase_scan (state : state_vector R C) (l : list Z) : outcome R :=
  match l with
  | [] => Ok r0
  | i :: l' =>
      let? val := state_get state i in
      if rneq0 (RE val) || rneq0 (IM val) then Ok (if rneq0 (IM val) then carg val else r0)
      else phase_scan state l'
  end.

(** [get_global_phase(state)]: the phase and the state with the memo set. *)
Definition get_global_phase (state : state_vector R C) : outcome (R * state_vector R C) :=
  if fcarg_init state then Ok (fcarg state, state) else
  let? phase := phase_scan state (zrange 0 (size state)) in
  Ok (phase, mkState (num_qubits state) (size state) (vector state) (norm_const state) phase true).

End Phase.
End Ops.
End Join.

Export Join.

(** ** [join] writes the tensor product *)

(** [i * s + j] with [0 <= j < s] is the index whose quotient by [s] is
    [i] and whose remainder is [j]. *)
Lemma flat_index_iff s i j k :
  0 <= j < s -> 0 <= k -> (i * s + j = k <-> k / s = i /\ k mod s = j).
Proof.
  intros Hj Hk. split.
  - intros <-. split.
    + rewrite Z.div_add_l, Z.div_small by lia. lia.
    + rewrite Z.add_comm, Z.mod_add, Z.mod_small by lia. done.
  - intros [<- <-]. rewrite Z.mul_comm. symmetry. apply Z.div_mod. lia.
Qed.

Section JoinLoop.
Context `{Platform} {R C : Type} `{Scalars R C} `{!StateInit R C}.
Variables (s1 s2 : state_vector R C) (amp1 amp2 : Z -> C).
Hypotheses (Hwf1 : sv_wf s1) (Hwf2 : sv_wf s2) (Hamp1 : sv_holds s1 amp1) (Hamp2 : sv_holds s2 amp2).

Definition prod_amp (k : Z) : C := cmul (amp1 (k / size s2)) (amp2 (k mod size s2)).

Lemma size2_pos : 0 < size s2.
Proof. destruct Hwf2 as (_ & ? & -> & _). apply Z.pow_pos_nonneg; lia. Qed.

(** Row [i]: every index with quotient [i] gets its product. *)
Lemma join_row_spec (rs : state_vector R C) i :
  sv_wf rs -> size rs = size s1 * size s2 -> 0 <= i < size s1 ->
  exists r, join_row s1 s2 rs i = Ok r /\ sv_wf r /\ num_qubits r = num_qubits rs /\
    size r = size rs /\ norm_const r = norm_const rs /\
    forall k, 0 <= k -> state_get r k = if k / size s2 =? i then Ok (prod_amp k) else state_get rs k.
Proof.
  intros Hrs Hsz Hi. pose proof size2_pos as Hs2. unfold join_row. rewrite Hamp1 by done. simpl.
  loop_invariant (fun (q : list Z) r => sv_wf r /\ num_qubits r = num_qubits rs /\ size r = size rs /\
    norm_const r = norm_const rs /\ forall k, 0 <= k -> state_get r k =
      if (k / size s2 =? i) && bool_decide (k mod size s2 ∈ q) then Ok (prod_amp k) else state_get rs k).
  destruct Hloop as (r & Hrun & Hr & Hnq & Hsz' & Hn & Hget).
  - split_and!; try done. intros k _. rewrite andb_false_r. done.
  - intros q j rest r Hl (Hr & Hnq & Hsz' & Hn & Hget).
    assert (Hj : 0 <= j < size s2) by (apply elem_of_zrange; rewrite Hl; set_solver).
    rewrite Hamp2 by done. simpl.
    destruct (state_set_get r (i * size s2 + j) (cmul (amp1 i) (amp2 j)) Hr ltac:(nia))
      as (r' & -> & Hr' & Hnq' & Hsz'' & Hn' & Hget').
    eexists. split; [reflexivity|]. split_and!; try congruence.
    intros k Hk. rewrite Hget', Hget, bool_decide_elem_of_snoc by done.
    destruct (Z.eqb_spec (i * size s2 + j) k) as [E|E];
      pose proof (flat_index_iff (size s2) i j k Hj Hk) as Hiff.
    + destruct (proj1 Hiff E) as [Ei Ej].
      rewrite Ei, Z.eqb_refl, (bool_decide_eq_true_2 (k mod size s2 = j)), orb_true_r by done.
      unfold prod_amp. rewrite Ei, Ej. done.
    + destruct (Z.eqb_spec (k / size s2) i) as [Ei|Ei]; [|done]. simpl.
      rewrite (bool_decide_eq_false_2 (k mod size s2 = j)), orb_false_r by (intros Ej; apply E, Hiff; done).
      done.
  - exists r. split; [done|]. split_and!; try done. intros k Hk. rewrite Hget by done.
    rewrite bool_decide_eq_true_2, andb_true_r; [done|].
    apply elem_of_zrange. apply Z.mod_pos_bound. done.
Qed.

Lemma join_rows (rs : state_vector R C) sched :
  sv_wf rs -> size rs = size s1 * size s2 -> (forall i, i ∈ sched -> 0 <= i < size s1) ->
  exists r, ofold_left (join_row s1 s2) sched rs = Ok r /\ sv_wf r /\ num_qubits r = num_qubits rs /\
    size r = size rs /\ norm_const r = norm_const rs /\
    forall k, 0 <= k -> state_get r k = if bool_decide (k / size s2 ∈ sched) then Ok (prod_amp k) else state_get rs k.
Proof.
  intros Hrs Hsz Hsched.
  loop_invariant (fun (p : list Z) r => sv_wf r /\ num_qubits r = num_qubits rs /\ size r = size rs /\
    norm_const r = norm_const rs /\ forall k, 0 <= k -> state_get r k =
      if bool_decide (k / size s2 ∈ p) then Ok (prod_amp k) else state_get rs k).
  destruct Hloop as (r & Hrun & Hinv); [split_and!; done | | eauto].
  intros p i rest r Hl (Hr & Hnq & Hsz' & Hn & Hget).
  destruct (join_row_spec r i Hr ltac:(congruence) ltac:(apply Hsched; rewrite Hl; set_solver))
    as (r' & Hrow & Hr' & Hnq' & Hsz'' & Hn' & Hget').
  exists r'. split; [done|]. split_and!; try congruence.
  intros k Hk. rewrite Hget', Hget, bool_decide_elem_of_snoc by done.
  destruct (Z.eqb_spec (k / size s2) i) as [->|E].
  - rewrite (bool_decide_eq_true_2 (i = i)), orb_true_r by done. done.
  - rewrite (bool_decide_eq_false_2 (k / size s2 = i)), orb_false_r by done. done.
Qed.

End JoinLoop.

(** ** The phase scan *)

Section PhaseSpec.
Context `{Platform} {R C : Type} `{Scalars R C} `{!StateInit R C}.
Variable carg : C -> R.

(** The reference: the argument of the first amplitude with a nonzero
    part if its imaginary part is nonzero, and 0 otherwise. *)
Definition phase_ref (amp : Z -> C) (l : list Z) : R :=
  match List.find (fun i => rneq0 (RE (amp i)) || rneq0 (IM (amp i))) l with
  | Some k => if rneq0 (IM (amp k)) then carg (amp k) else r0
  | None => r0
  end.

Lemma phase_scan_spec (state : state_vector R C) amp l :
  (forall i, i ∈ l -> state_get state i = Ok (amp i)) ->
  phase_scan carg state l = Ok (phase_ref amp l).
Proof.
  unfold phase_ref. induction l as [|i l IH]; intros Hl; simpl; [done|].
  rewrite Hl by set_solver. simpl.
  destruct (rneq0 (RE (amp i)) || rneq0 (IM (amp i))); [done|].
  apply IH. intros x Hx. apply Hl. set_solver.
Qed.

End PhaseSpec.

(** ** Properties of [join] and [get_global_phase] *)

Section JoinProps.
Context `{Platform} {R C : Type} `{Scalars R C} `{!StateInit R C}.

(** Every exit of [join], for complete well-formed operands and any
    schedule of its rows. *)
Lemma join_spec (r0 s1 s2 : state_vector R C) sched m :
  sv_wf s1 -> sv_full s1 = true -> sv_wf s2 -> sv_full s2 = true -> sched ≡ₚ zrange 0 (size s1) ->
  exists code res m', join (SVLive r0) s1 s2 sched m = Ok ((code, res), m') /\
    ((code = 0 /\ exists r, res = SVLive r /\ sv_wf r /\ num_qubits r = num_qubits s1 + num_qubits s2 /\
        size r = size s1 * size s2 /\ norm_const r = r1 /\
        (forall k, 0 <= k < size r ->
           state_get r k = Ok (cmul (amps_of s1 (k / size s2)) (amps_of s2 (k mod size s2)))) /\
        avail m' = avail m - num_chunks (vector r) - size r) \/
     (init_error code /\ avail m' = avail m)).
Proof.
  intros Hwf1 Hf1 Hwf2 Hf2 Hp.
  pose proof Hwf1 as (_ & Hn1 & Hs1 & _). pose proof Hwf2 as (_ & Hn2 & Hs2 & _).
  unfold join. destruct (state_init_spec r0 (num_qubits s1 + num_qubits s2) m ltac:(lia))
    as (code & r1' & m1 & Hrun & Hnq & Hres).
  rewrite (mbind_run _ _ _ _ _ Hrun).
  destruct Hres as [(-> & Hr1 & Hfresh & Hnorm & _ & Hm1) | (Hc & Hm1)].
  2: { rewrite (proj2 (Z.eqb_neq _ _) (init_error_nonzero _ Hc)). simpl.
       unfold mret; eexists _, _, _; (split; [reflexivity|]); right; auto. }
  simpl. assert (Hsz : size r1' = size s1 * size s2).
  { destruct Hr1 as (_ & _ & -> & _). rewrite Hnq, Hs1, Hs2, Z.pow_add_r by lia. done. }
  destruct (join_rows s1 s2 (amps_of s1) (amps_of s2) Hwf1 Hwf2 (sv_full_holds s1 Hf1) (sv_full_holds s2 Hf2)
              r1' sched Hr1 Hsz ltac:(intros i; rewrite Hp, elem_of_zrange; done))
    as (r & Hrows & Hr & Hnq' & Hsz' & Hn & Hget).
  rewrite (lift_run _ _ _ _ Hrows). unfold mret. eexists _, _, _. split; [reflexivity|]. left.
  split; [done|]. exists r. pose proof (size2_pos s2 Hwf2).
  assert (Hch : num_chunks (vector r) = num_chunks (vector r1')) by (apply sv_wf_num_chunks; congruence).
  split_and!; try done; try congruence.
  - intros k Hk. rewrite Hget by lia. rewrite bool_decide_eq_true_2; [done|].
    rewrite Hp, elem_of_zrange. split; [apply Z.div_pos; lia | apply Z.div_lt_upper_bound; nia].
  - rewrite Hs1, Hs2, <- Z.pow_add_r in Hsz by lia. lia.
Qed.

(** C4: [join] of two complete states, under any schedule of its
    parallel loop, has no undefined behaviour; on exit 0 the result has
    [num_qubits s1 + num_qubits s2] qubits and holds
    [s1[k / s2->size] * s2[k mod s2->size]] at every index [k], with the
    norm constant 1 that [state_init] gave it (the norm constants of
    [s1] and [s2] are not combined); otherwise [state_init] failed and
    nothing is held. *)
Theorem join_tensor (r0 s1 s2 : state_vector R C) sched m :
  sv_wfb s1 = true -> sv_full s1 = true -> sv_wfb s2 = true -> sv_full s2 = true ->
  bool_decide (sched ≡ₚ zrange 0 (size s1)) = true ->
  exists code res m', join (SVLive r0) s1 s2 sched m = Ok ((code, res), m') /\
    ((code = 0 /\ exists r, res = SVLive r /\ sv_wf r /\ num_qubits r = num_qubits s1 + num_qubits s2 /\
        size r = size s1 * size s2 /\ norm_const r = r1 /\
        (forall k, 0 <= k < size r ->
           state_get r k = Ok (cmul (amps_of s1 (k / size s2)) (amps_of s2 (k mod size s2)))) /\
        avail m' = avail m - num_chunks (vector r) - size r) \/
     (init_error code /\ avail m' = avail m)).
Proof.
  intros Hwf1%sv_wfb_spec Hf1 Hwf2%sv_wfb_spec Hf2 Hp%bool_decide_eq_true_1. apply join_spec; done.
Qed.

End JoinProps.

Section PhaseProps.
Context `{Platform} {R C : Type} `{Scalars R C} `{!StateInit R C}.
Variable carg : C -> R.

(** C15: on a complete state whose phase is not yet memoised,
    [get_global_phase] returns the argument of the first amplitude with a
    nonzero part if that amplitude's imaginary part is nonzero, and 0
    otherwise (the scan stops at the first nonzero amplitude even when it
    is real), and memoises it; nothing else of the state changes. *)
Theorem get_global_phase_spec (state : state_vector R C) :
  sv_wfb state = true -> sv_full state = true -> fcarg_init state = false ->
  exists s', get_global_phase carg state = Ok (phase_ref carg (amps_of state) (zrange 0 (size state)), s') /\
    fcarg_init s' = true /\ fcarg s' = phase_ref carg (amps_of state) (zrange 0 (size state)) /\
    vector s' = vector state /\ num_qubits s' = num_qubits state /\ size s' = size state /\
    norm_const s' = norm_const state.
Proof.
  intros Hwf%sv_wfb_spec Hfull Hinit. unfold get_global_phase. rewrite Hinit.
  rewrite (phase_scan_spec carg state (amps_of state)); [simpl; eexists; split; [reflexivity | done]|].
  intros i Hi%elem_of_zrange. apply sv_full_holds; done.
Qed.

(** Once [get_global_phase] has run, it returns the same phase
    without reading the amplitudes, also after any later [state_set]: the
    memo is never invalidated. *)
Theorem get_global_phase_memo (state s' : state_vector R C) ph :
  get_global_phase carg state = Ok (ph, s') ->
  get_global_phase carg s' = Ok (ph, s') /\
  forall j v s'', state_set s' j v = Ok s'' -> get_global_phase carg s'' = Ok (ph, s'').
Proof.
  unfold get_global_phase. destruct (fcarg_init state) eqn:E.
  - intros [= <- <-]. rewrite E. split; [done|]. intros j v s'' Hset.
    unfold state_set in Hset. destruct (chunks_set _ _ _ _); [|done]. injection Hset as <-. simpl. rewrite E. done.
  - destruct (phase_scan carg state _) as [p|]; [|done]. intros [= <- <-]. simpl. split; [done|].
    intros j v s'' Hset. unfold state_set in Hset. destruct (chunks_set _ _ _ _); [|done].
    injection Hset as <-. done.
Qed.

End PhaseProps.

(** ** Concrete runs *)

Module JoinExamples.
Import ArrayListExamples.

(** [|0> + 2|1>] and [3|0> + i|1>], each one chunk of two cells. *)
Definition q1 : state_vector Z gauss := mkState 1 2 (mkStore 2 1 (VLive [[Some (G 1 0); Some (G 2 0)]])) 1 0 false.
Definition q2 : state_vector Z gauss := mkState 1 2 (mkStore 2 1 (VLive [[Some (G 3 0); Some (G 0 1)]])) 1 0 false.
Definition blank : state_vector Z gauss := mkState 0 0 empty_store 0 0 false.

Lemma join_tensor_witness :
  exists code res m', @join platform_4 _ _ _ _ (SVLive blank) q1 q2 [1; 0] (mkMem 10) = Ok ((code, res), m') /\
    ((code = 0 /\ exists r, res = SVLive r /\ @sv_wf platform_4 _ _ r /\ num_qubits r = num_qubits q1 + num_qubits q2 /\
        size r = size q1 * size q2 /\ norm_const r = r1 /\
        (forall k, 0 <= k < size r ->
           @state_get platform_4 _ _ r k =
             Ok (cmul (@amps_of platform_4 _ _ _ q1 (k / size q2)) (@amps_of platform_4 _ _ _ q2 (k mod size q2)))) /\
        avail m' = avail (mkMem 10) - num_chunks (vector r) - size r) \/
     (init_error code /\ avail m' = avail (mkMem 10))).
Proof. apply (@join_tensor platform_4); reflexivity. Defined.

(** [|0> + i|1>]: the first nonzero amplitude, 1, is real. *)
Definition ph : state_vector Z gauss := mkState 1 2 (mkStore 2 1 (VLive [[Some (G 1 0); Some (G 0 1)]])) 1 0 false.

Lemma get_global_phase_spec_witness :
  exists s', @get_global_phase platform_4 _ _ _ gim ph = Ok (phase_ref gim (@amps_of platform_4 _ _ _ ph) (zrange 0 (size ph)), s') /\
    fcarg_init s' = true /\ fcarg s' = phase_ref gim (@amps_of platform_4 _ _ _ ph) (zrange 0 (size ph)) /\
    vector s' = vector ph /\ num_qubits s' = num_qubits ph /\ size s' = size ph /\ norm_const s' = norm_const ph.
Proof. apply (@get_global_phase_spec platform_4); reflexivity. Defined.

Lemma get_global_phase_memo_witness :
  @get_global_phase platform_4 _ _ _ gim (mkState 1 2 (vector ph) 1 0 true) = Ok (0, mkState 1 2 (vector ph) 1 0 true) /\
  forall j v s'', @state_set platform_4 _ _ (mkState 1 2 (vector ph) 1 0 true) j v = Ok s'' ->
    @get_global_phase platform_4 _ _ _ gim s'' = Ok (0, s'').
Proof. apply (@get_global_phase_memo platform_4 _ _ _ gim ph). reflexivity. Defined.

(** The spec says the scan continues past an amplitude without an
    imaginary part; the code stops at the first nonzero amplitude: for
    [|0> + i|1>] the phase is 0, not the argument of [i] (here [ARG]
    is any function, e.g. the imaginary part). *)
Example global_phase_stops_at_real :
  @get_global_phase platform_4 _ _ _ gim ph = Ok (0, mkState 1 2 (vector ph) 1 0 true).
Proof. reflexivity. Qed.

(** The basis state [|0>] of one qubit. *)
Definition q0 : state_vector Z gauss := mkState 1 2 (mkStore 2 1 (VLive [[Some (G 1 0); Some (G 0 0)]])) 1 0 false.

(** End to end, [join] of two one-qubit [|0>] states is the two-qubit
    state with amplitude 1 at index 0 only and [norm_const = 1]. *)
Example join_zero_zero :
  @join platform_4 _ _ _ _ (SVLive blank) q0 q0 [0; 1] (mkMem 10) =
    Ok ((0, SVLive (mkState 2 4 (mkStore 4 1 (VLive [[Some (G 1 0); Some (G 0 0); Some (G 0 0); Some (G 0 0)]]))
                            1 0 false)), mkMem 5).
Proof. vm_compute. reflexivity. Qed.

End JoinExamples.
