(* ===== verification/Marginal.v ===== *)
(** * Marginals of a joined state: [probability] after [join]

    [join] (qops.c 103-130) writes [s1[i] * s2[j]] at index
    [i * s2->size + j], so the qubits of [s2] are the low
    [num_qubits s2] bits of an index and those of [s1] the high ones.
    [probability] (qops.c 78-101) of the joined state on a qubit of one
    factor is then the marginal of that factor, scaled by the total
    weight of the other factor (1 for normalised states).

    The file holds the sum over the product index space and the theorem
    that composes [Join.join] with [Measure.probability]; it needs the
    multiplicative laws [MulLaws] of the scalars and the bits of a
    row-major index ([testbit_row_major] of the prelude). *)

From S2P Require Import Prelude ArrayList QState IndexBits Measure Join.

(** ** The weight of a state *)

Section Weight.
Context `{Platform} {R C : Type} `{Scalars R C}.

(** The total weight [sum |s[i]|^2] of a state. *)
Definition total_prob (s : state_vector R C) : R :=
  rsum (fun i => sqnorm (amps_of s i)) (zrange 0 (size s)).

End Weight.

(** ** The sum over a product index space *)

Section ProductSum.
Context {R C : Type} `{ScalarLaws R C} {ML : MulLaws R C}.

(** The sum of [a(k / 2^n2) * b(k mod 2^n2)] over the indices whose bit
    [q] is set factors into a marginal of one factor times the total of
    the other. *)
Lemma rsum_product_bit (a b : Z -> R) n1 n2 q :
  0 <= n1 -> 0 <= n2 -> 0 <= q ->
  rsum (fun k => if Z.testbit k q then rmul (a (k / 2 ^ n2)) (b (k mod 2 ^ n2)) else r0)
       (zrange 0 (2 ^ n1 * 2 ^ n2)) =
  if q <? n2
  then rmul (rsum a (zrange 0 (2 ^ n1))) (rsum (fun j => if Z.testbit j q then b j else r0) (zrange 0 (2 ^ n2)))
  else rmul (rsum (fun i => if Z.testbit i (q - n2) then a i else r0) (zrange 0 (2 ^ n1))) (rsum b (zrange 0 (2 ^ n2))).
Proof.
  intros H1 H2 Hq. pose proof (Z.pow_pos_nonneg 2 n2 ltac:(lia) H2).
  rewrite rsum_zrange_mul by lia.
  erewrite rsum_ext_in; cycle 1.
  { intros i Hi%elem_of_zrange. apply rsum_ext_in. intros j Hj%elem_of_zrange.
    rewrite testbit_row_major, Z.div_add_l, Z.div_small, Z.add_0_r by lia.
    rewrite Z.add_comm, Z_mod_plus_full, Z.mod_small by lia. reflexivity. }
  destruct (q <? n2).
  - rewrite <- rsum_mul_r. apply rsum_ext_in. intros i _. rewrite <- rsum_mul_l.
    apply rsum_ext_in. intros j _. destruct (Z.testbit j q); [done | by rewrite rmul_0_r].
  - rewrite <- rsum_mul_r. apply rsum_ext_in. intros i _.
    destruct (Z.testbit i (q - n2)); [apply rsum_mul_l|].
    rewrite rmul_0_l. induction (zrange 0 (2 ^ n2)) as [|x l IH]; [done|].
    rewrite rsum_cons, IH, radd_0_l. done.
Qed.

End ProductSum.

(** ** [probability] of a joined state *)

Section MarginalProps.
Context `{Platform} {R C : Type} `{ScalarLaws R C} {ML : MulLaws R C} `{!StateInit R C}.

Lemma rsum_kept_true (f : Z -> R) t l :
  rsum f (kept t true l) = rsum (fun i => if Z.testbit i t then f i else r0) l.
Proof. unfold kept. rewrite rsum_filter. apply rsum_ext_in. intros i _. by destruct (Z.testbit i t). Qed.

(** C11: after a successful [join] of two complete states, [probability]
    on a qubit [q] of the result is the marginal of the factor that owns
    [q]: [prob(s2, q)] scaled by the weight of [s1] when [q] is one of
    the low [num_qubits s2] qubits, [prob(s1, q - num_qubits s2)] scaled
    by the weight of [s2] otherwise (for normalised factors, exactly the
    factor's marginal). *)
Theorem join_probability_product (r0 s1 s2 r : state_vector R C) sched m m' q :
  sv_wfb s1 = true -> sv_full s1 = true -> sv_wfb s2 = true -> sv_full s2 = true ->
  bool_decide (sched ≡ₚ zrange 0 (size s1)) = true ->
  join (SVLive r0) s1 s2 sched m = Ok ((0, SVLive r), m') ->
  0 <= q < num_qubits s1 + num_qubits s2 ->
  probability r q =
    Ok (if q <? num_qubits s2 then rmul (total_prob s1) (prob_ref s2 q)
        else rmul (prob_ref s1 (q - num_qubits s2)) (total_prob s2)).
Proof.
  intros Hwf1%sv_wfb_spec Hf1 Hwf2%sv_wfb_spec Hf2 Hp%bool_decide_eq_true_1 Hrun Hq.
  destruct (join_spec r0 s1 s2 sched m Hwf1 Hf1 Hwf2 Hf2 Hp) as (code & res & m'' & Hrun' & Hcases).
  rewrite Hrun in Hrun'. injection Hrun' as <- <- <-.
  destruct Hcases as [(_ & r' & Hr' & Hwf & Hnq & Hsz & _ & Hget & _) | (Hc & _)];
    [|by destruct (init_error_nonzero 0 Hc)].
  injection Hr' as <-. pose proof Hwf1 as (_ & Hn1 & Hs1 & _). pose proof Hwf2 as (_ & Hn2 & Hs2 & _).
  rewrite (probability_run r _ q Hwf Hget) by lia. f_equal.
  unfold prob_ref, total_prob. rewrite !rsum_kept_true, Hsz, Hs1, Hs2.
  erewrite rsum_ext_in; [|intros k _; rewrite sqnorm_cmul; reflexivity].
  apply (rsum_product_bit (fun i => sqnorm (amps_of s1 i)) (fun j => sqnorm (amps_of s2 j))); lia.
Qed.

End MarginalProps.

(** ** A concrete run *)

Module MarginalExamples.
Import ArrayListExamples JoinExamples.

(** [join] of [q1 = |0> + 2|1>] and [q2 = 3|0> + i|1>]. *)
Definition q12 : state_vector Z gauss :=
  mkState 2 4 (mkStore 4 1 (VLive [[Some (G 3 0); Some (G 0 1); Some (G 6 0); Some (G 0 2)]])) 1 0 false.

(** Qubit 1 of [q12] is the qubit of [q1]: probability [4 * 10 = 40]. *)
Lemma join_probability_product_witness :
  @probability platform_4 _ _ _ q12 1 =
    Ok (if 1 <? num_qubits q2 then rmul (@total_prob platform_4 _ _ _ q1) (@prob_ref platform_4 _ _ _ q2 1)
        else rmul (@prob_ref platform_4 _ _ _ q1 (1 - num_qubits q2)) (@total_prob platform_4 _ _ _ q2)).
Proof.
  apply (@join_probability_product platform_4 Z gauss _ _ _ _ blank q1 q2 q12 [1; 0] (mkMem 10) (mkMem 5) 1);
    first [vm_compute; reflexivity | simpl; lia].
Defined.

End MarginalExamples.
