(* ===== verification/Lazy.v ===== *)
(** * The lazy views of [qops.c]: [apply_gate_fmat] and [density_matrix]

    [apply_gate_fmat] (qops.c 607-634) does not compute the new state: it
    builds an [Application] (442-466) holding the state and gate
    matrices, the role arrays and a reference count, and wraps it in a
    functional matrix whose entry [i] is computed on demand by
    [_ApplyGateFunction] (636-728).  [new_application] (495-539),
    [free_application] (541-571), [clone_application] (573-585) and
    [size_application] (587-605) are the context's lifetime hooks.
    [density_matrix] (747-774) wraps a state capsule the same way, with
    entries [_densityFun] (410-440), and [size_state_capsule] (730-745)
    as size estimate.

    The funmatrix library and the Python capsules are not among the
    sources.  A functional matrix is modelled by its dimensions, its
    [getitem] ([None] for a nonzero result code) and its [FM_mem_size]; a
    capsule by an identity (for its Python reference count) and what it
    holds.  The [Application] structs live in a heap ([gmap] from
    addresses to slots), so that [clone_application] returns the same
    pointer and every holder sees the shared reference count;
    [new_FunctionalMatrix] is one allocation that may fail.

    The theorems show that [_ApplyGateFunction] computes the reference
    [gate_spec] and so agrees with the eager [apply_gate] at every index,
    the reference-count life cycle, the leak and the lost error code of
    [new_application]'s failure paths, and the density entries. *)

From stdpp Require Import gmap.
From S2P Require Import Prelude ArrayList QState IndexBits ApplyGate.

Module Lazy.
Section Lazy.
Context `{Platform} {R C : Type} `{Scalars R C} `{!StateInit R C}.

(** [struct FMatrix]: rows, columns, [getitem] and [FM_mem_size]. *)
Record fmatrix := mkFM { fm_rows : Z; fm_cols : Z; fm_get : Z -> Z -> option C; fm_mem : Z }.

(** What a PyCapsule holds, under its name. *)
Inductive capsule_obj :=
| CapFMatrix (f : fmatrix)
| CapState (s : state_vector R C)
| CapOther.

Record capsule := mkCap { cap_id : Z; cap_obj : capsule_obj }.

(** [PyCapsule_GetPointer(c, "qsimov.doki.funmatrix")] *)
Definition get_fmatrix (c : capsule) : option fmatrix :=
  match cap_obj c with CapFMatrix f => Some f | _ => None end.

(** [PyCapsule_GetPointer(c, "qsimov.doki.state_vector")] *)
Definition get_state (c : capsule) : option (state_vector R C) :=
  match cap_obj c with CapState s => Some s | _ => None end.

(** [struct Application]; [num_targets] and the like are the lengths. *)
Record application := mkApp {
  state_capsule : capsule; app_state : fmatrix;
  gate_capsule : capsule; app_gate : fmatrix;
  app_targets : list Z; app_controls : list Z; app_anticontrols : list Z;
  refcount : Z
}.

Inductive slot := Live (a : application) | Freed.

(** The heap of [Application] structs, the Python reference counts of
    the capsules, the next fresh address and the free memory cells. *)
Record world := mkWorld { apps : gmap Z slot; pyrefs : gmap Z Z; next_ptr : Z; wavail : Z }.

Definition set_slot (p : Z) (s : slot) (w : world) : world :=
  mkWorld (<[p := s]> (apps w)) (pyrefs w) (next_ptr w) (wavail w).

(** [Py_INCREF] / [Py_DECREF] *)
Definition py_ref (d : Z) (c : capsule) (w : world) : world :=
  mkWorld (apps w) (<[cap_id c := pyrefs w !!! cap_id c + d]> (pyrefs w)) (next_ptr w) (wavail w).

Definition take_cells (n : Z) (w : world) : world :=
  mkWorld (apps w) (pyrefs w) (next_ptr w) (wavail w - n).

(** [new_application]: the new pointer (0 for NULL) and [errno] if set. *)
Definition new_application (sc gc : capsule) (targets controls anticontrols : list Z) (w : world)
    : (Z * option Z) * world :=
  if wavail w <? 1 then ((0, None), w) else
  let p := next_ptr w in
  let w1 := mkWorld (apps w) (pyrefs w) (p + 1) (wavail w - 1) in
  match get_fmatrix sc, get_fmatrix gc with
  | None, _ => ((0, Some 4), w1)
  | Some _, None => ((0, Some 3), w1)
  | Some st, Some g =>
      ((p, None), set_slot p (Live (mkApp sc st gc g targets controls anticontrols 1))
                    (py_ref 1 gc (py_ref 1 sc w1)))
  end.

(** [free_application]: the struct is one cell; the role arrays it frees
    were allocated by the binding. *)
Definition free_application (p : Z) (w : world) : outcome world :=
  if p =? 0 then Ok w else
  match apps w !! p with
  | Some (Live a) =>
      if refcount a - 1 =? 0 then
        Ok (take_cells (-1) (set_slot p Freed (py_ref (-1) (gate_capsule a) (py_ref (-1) (state_capsule a) w))))
      else
        Ok (set_slot p (Live (mkApp (state_capsule a) (app_state a) (gate_capsule a) (app_gate a)
                               (app_targets a) (app_controls a) (app_anticontrols a) (refcount a - 1))) w)
  | _ => UB
  end.

(** [clone_application] *)
Definition clone_application (p : Z) (w : world) : outcome (Z * world) :=
  if p =? 0 then Ok (0, w) else
  match apps w !! p with
  | Some (Live a) =>
      Ok (p, set_slot p (Live (mkApp (state_capsule a) (app_state a) (gate_capsule a) (app_gate a)
                                (app_targets a) (app_controls a) (app_anticontrols a) (refcount a + 1))) w)
  | _ => UB
  end.

Section Sizes.
(** [sizeof (struct Application)] and [sizeof (unsigned int)]. *)
Variables (sizeof_application sizeof_uint : Z).

(** [size_application] *)
Definition size_application (p : Z) (w : world) : outcome Z :=
  if p =? 0 then Ok 0 else
  match apps w !! p with
  | Some (Live a) =>
      Ok (sizeof_application + fm_mem (app_state a) + fm_mem (app_gate a) +
          Z.of_nat (length (app_targets a)) * sizeof_uint + Z.of_nat (length (app_controls a)) * sizeof_uint +
          Z.of_nat (length (app_anticontrols a)) * sizeof_uint)
  | _ => UB
  end.
(** [state_mem_size] of [qstate.c] (not among the sources). *)
Variable state_mem_size : option (state_vector R C) -> Z.

(** [size_state_capsule]: NULL is [None]. *)
Definition size_state_capsule (c : option capsule) : Z :=
  match c with None => 0 | Some c => state_mem_size (get_state c) end.
End Sizes.

(** The loop over the gate's columns [n] of [_ApplyGateFunction], with
    its early returns on a failed [getitem]. *)
Definition lazy_sum (st g : fmatrix) (targets : list Z) (i : Z) : option C :=
  snd <$> fold_opt (fun (acc : Z * C) n =>
                      let '(reg_index, val) := acc in
                      let '(row, reg_index') := target_loop i n targets 0 0 reg_index in
                      aux ← fm_get st reg_index' 0;
                      aux2 ← fm_get g row n;
                      Some (reg_index', cadd val (cmul aux aux2)))
                   (zrange 0 (fm_rows g)) (i, c0).

(** [_ApplyGateFunction(i, ..., data)]: the entry [i] of the lazy new
    state; a failed [getitem] gives COMPLEX_NAN. *)
Definition apply_fun (a : application) (i : Z) : C :=
  if copy_only (app_controls a) (app_anticontrols a) i then
    match fm_get (app_state a) i 0 with Some v => v | None => cnan end
  else
    match lazy_sum (app_state a) (app_gate a) (app_targets a) i with Some v => v | None => cnan end.

(** A functional matrix built by [new_FunctionalMatrix]: its dimensions
    and its context pointer. *)
Record lazy_matrix := mkLazy { lm_rows : Z; lm_cols : Z; lm_data : Z }.

(** Reading entry [(i, 0)] of the matrix [apply_gate_fmat] returned:
    [_ApplyGateFunction] on the context, which must still be live. *)
Definition lazy_entry (w : world) (h : lazy_matrix) (i : Z) : outcome C :=
  match apps w !! lm_data h with Some (Live a) => Ok (apply_fun a i) | _ => UB end.

(** [apply_gate_fmat]: the matrix (NULL is [None]) and [errno] if set. *)
Definition apply_gate_fmat (sc gc : capsule) (targets controls anticontrols : list Z) (w : world)
    : outcome ((option lazy_matrix * option Z) * world) :=
  let '((p, err), w1) := new_application sc gc targets controls anticontrols w in
  if p =? 0 then Ok ((None, Some 5), w1) else
  if wavail w1 <? 1 then
    let? w2 := free_application p w1 in Ok ((None, Some 1), w2)
  else
    match apps w1 !! p with
    | Some (Live a) => Ok ((Some (mkLazy (fm_rows (app_state a)) 1 p), err), take_cells 1 w1)
    | _ => UB
    end.

(** [_densityFun(i, j, ..., rawstate)] *)
Definition density_fun (c : capsule) (i j : Z) : outcome C :=
  match get_state c with
  | None => Ok cnan
  | Some s =>
      let? elem_i := state_get s i in
      let? elem_j := state_get s j in
      Ok (cmul elem_i (cconj elem_j))
  end.

(** [density_matrix(state_capsule)]: the matrix's rows, columns and
    capsule (NULL is [None]) and [errno] if set. *)
Definition density_matrix (c : capsule) (w : world) : (option (Z * Z * capsule) * option Z) * world :=
  match get_state c with
  | None => ((None, Some 2), w)
  | Some s =>
      if wavail w <? 1 then ((None, Some 1), w)
      else ((Some (size s, size s, c), None), py_ref 1 c (take_cells 1 w))
  end.

End Lazy.
End Lazy.

Export Lazy.
Arguments fmatrix C : clear implicits.
Arguments capsule_obj R C : clear implicits.
Arguments capsule R C : clear implicits.
Arguments application R C : clear implicits.
Arguments slot R C : clear implicits.
Arguments world R C : clear implicits.

(** ** [_ApplyGateFunction] computes the reference *)

Section LazySpec.
Context `{Platform} {R C : Type} `{Scalars R C} `{!StateInit R C}.
Variables (st g : fmatrix C) (amp : Z -> C) (G : Z -> Z -> C) (n : Z) (targets : list Z).
Hypotheses (Hst : forall k, 0 <= k < 2 ^ n -> fm_get st k 0 = Some (amp k))
  (Hg : forall r c, 0 <= r < fm_rows g -> 0 <= c < fm_rows g -> fm_get g r c = Some (G r c))
  (Hdim : fm_rows g = 2 ^ Z.of_nat (length targets))
  (Ht : Forall (fun t => 0 <= t < n) targets).

Lemma lazy_sum_spec i :
  0 <= i < 2 ^ n -> lazy_sum st g targets i = Some (row_ref amp G targets i (zrange 0 (fm_rows g))).
Proof.
  intros Hi. assert (Ht0 : Forall (fun t => 0 <= t) targets) by (eapply Forall_impl; [exact Ht | simpl; lia]).
  assert (Hn : 0 <= n) by (destruct (decide (0 <= n)); [done|]; rewrite Z.pow_neg_r in Hi; lia).
  unfold lazy_sum.
  loop_invariant
     (fun p (acc : Z * C) => (forall m, m ∉ targets -> Z.testbit acc.1 m = Z.testbit i m) /\
                    acc.2 = row_ref amp G targets i p).
  destruct Hloop as ([reg sum] & Hrun & _ & Hsum).
  - split; done.
  - intros p j rest [reg sum] Hl [Hagree Hs]. simpl in Hagree, Hs. subst sum.
    assert (Hj : 0 <= j < fm_rows g) by (apply elem_of_zrange; rewrite Hl; set_solver).
    rewrite target_loop_0 by done. rewrite (scatter_indep reg i) by done.
    pose proof (scatter_range i j targets n Ht Hi) as Hrange. pose proof (gather_range i targets).
    rewrite Hst, Hg by lia. simpl. eexists. split; [reflexivity|]. split.
    + intros m Hm. simpl. apply scatter_outside; done.
    + simpl. unfold row_ref. rewrite fold_left_app. done.
  - apply fold_opt_ofold in Hrun. rewrite Hrun. simpl in *. rewrite Hsum. done.
Qed.

Lemma apply_fun_spec sc gc controls anticontrols rc i :
  roles_ok n targets controls anticontrols -> 0 <= i < 2 ^ n ->
  apply_fun (mkApp sc st gc g targets controls anticontrols rc) i =
    gate_spec amp G (fm_rows g) targets controls anticontrols i.
Proof.
  intros Hroles Hi. apply roles_ok_parts in Hroles as (_ & Hr & _).
  unfold apply_fun, gate_spec. simpl.
  rewrite copy_only_selected by (eapply Forall_impl; [exact Hr | simpl; lia]).
  destruct (selected controls anticontrols i); simpl.
  - rewrite lazy_sum_spec by done. done.
  - rewrite Hst by done. done.
Qed.

End LazySpec.

(** ** The lazy and the eager engine agree *)

Section Agree.
Context `{Platform} {R C : Type} `{Scalars R C} `{!StateInit R C}.

(** The functional matrices the binding builds over a state vector (a
    column) and over a gate. *)
Definition state_fm (s : state_vector R C) (mem : Z) : fmatrix C :=
  mkFM (size s) 1 (fun r c => if c =? 0 then match state_get s r with Ok v => Some v | UB => None end else None) mem.

Definition gate_fm (g : qgate C) (mem : Z) : fmatrix C :=
  mkFM (gate_size g) (gate_size g) (fun r c => match gate_entry g r c with Ok x => Some x | UB => None end) mem.

(** C2: the two strategies compute the same state: when the eager
    [apply_gate] succeeds, every entry of its new state equals the entry
    [_ApplyGateFunction] computes on demand from an [Application] over
    the same state, gate and roles (whatever the schedules, capsules and
    reference count). *)
Theorem lazy_eager_agree (Hcap : NATURAL_ARRAY_SIZE = COMPLEX_ARRAY_SIZE)
    (state ns0 ns : state_vector R C) gate targets controls anticontrols sched1 sched2 m m'
    (sc gc : capsule R C) mem1 mem2 rc :
  sv_wfb state = true -> sv_full state = true ->
  roles_okb (num_qubits state) targets controls anticontrols = true ->
  gate_okb gate (length targets) = true ->
  bool_decide (sched1 ≡ₚ zrange 0 (size state)) = true ->
  bool_decide (sched2 ≡ₚ zrange 0 (free_size state controls anticontrols)) = true ->
  apply_gate state gate targets controls anticontrols (SVLive ns0) sched1 sched2 m = Ok ((0, SVLive ns), m') ->
  forall i, 0 <= i < size state ->
    state_get ns i =
      Ok (apply_fun (mkApp sc (state_fm state mem1) gc (gate_fm gate mem2) targets controls anticontrols rc) i).
Proof.
  intros Hwf%sv_wfb_spec Hfull Hroles%roles_okb_spec Hg%gate_okb_spec Hp1%bool_decide_eq_true_1
    Hp2%bool_decide_eq_true_1 Hrun i Hi.
  pose proof Hwf as (_ & Hnq & Hsz & _). pose proof Hg as (Hgs & _ & _).
  destruct (apply_gate_cases state gate targets controls anticontrols Hwf Hfull Hroles Hg Hcap ns0 sched1 sched2 m Hp1 Hp2)
    as (code & res & m'' & Hrun' & Hcases).
  rewrite Hrun in Hrun'. injection Hrun' as <- <- <-.
  destruct Hcases as [(? & _)|[(? & _)|[(_ & ? & _)|(_ & ns' & _ & _ & Hns' & _ & _ & Hget & _)]]];
    try lia; try discriminate.
  injection Hns' as <-. rewrite Hget by done. f_equal. unfold spec_amp.
  rewrite (apply_fun_spec (state_fm state mem1) (gate_fm gate mem2) (amps_of state) (gate_fun gate) (num_qubits state));
    [done | | | simpl; done | apply roles_ok_parts in Hroles; tauto | done | lia].
  - intros k Hk. simpl. rewrite <- Hsz in Hk. pose proof (sv_full_holds state Hfull k Hk) as Hk'.
    unfold amps_of. rewrite Hk'. done.
  - intros r c Hr Hc. simpl in *. rewrite (gate_entry_ok gate (length targets)) by done. done.
Qed.

End Agree.

(** ** The life cycle of an [Application] *)

Section Lifecycle.
Context `{Platform} {R C : Type} `{Scalars R C} `{!StateInit R C}.

(** The hooks the functional matrix calls on its context [p]. *)
Inductive app_step (p : Z) : world R C -> world R C -> Prop :=
| step_clone w w' : clone_application p w = Ok (p, w') -> app_step p w w'
| step_free w w' : free_application p w = Ok w' -> app_step p w w'.

(** The Python references an application holds on a capsule identity. *)
Definition held (sc gc : capsule R C) (id : Z) : Z :=
  (if cap_id sc =? id then 1 else 0) + (if cap_id gc =? id then 1 else 0).

(** Relative to the world [w0] before [new_application]: either the
    application is live with a positive count, holding one reference on
    each capsule and its cell, or it is freed and everything is given
    back; no other slot of the heap changes. *)
Definition lifecycle_inv (w0 : world R C) (sc gc : capsule R C) (p : Z) (w : world R C) : Prop :=
  ((exists a, apps w !! p = Some (Live a) /\ state_capsule a = sc /\ gate_capsule a = gc /\ 1 <= refcount a /\
      (forall id, pyrefs w !!! id = pyrefs w0 !!! id + held sc gc id) /\ wavail w = wavail w0 - 1) \/
   (apps w !! p = Some Freed /\ (forall id, pyrefs w !!! id = pyrefs w0 !!! id) /\ wavail w = wavail w0)) /\
  (forall q, q <> p -> apps w !! q = apps w0 !! q).

Lemma py_ref_lookup d (c : capsule R C) w id :
  pyrefs (py_ref d c w) !!! id = pyrefs w !!! id + (if cap_id c =? id then d else 0).
Proof.
  unfold py_ref. simpl. destruct (Z.eqb_spec (cap_id c) id) as [<-|E].
  - rewrite lookup_total_insert_eq. done.
  - rewrite lookup_total_insert_ne by done. lia.
Qed.

Lemma lifecycle_step w0 sc gc p w w' :
  p <> 0 -> app_step p w w' -> lifecycle_inv w0 sc gc p w -> lifecycle_inv w0 sc gc p w'.
Proof.
  intros Hp Hs [Hlive Hother]. unfold lifecycle_inv.
  destruct Hlive as [(a & Ha & Hsc & Hgc & Hrc & Hrefs & Hm)|(Hf & Hrefs & Hm)].
  2: { destruct Hs as [w w' Hc|w w' Hf']; [unfold clone_application in Hc | unfold free_application in Hf'];
       rewrite (proj2 (Z.eqb_neq p 0) Hp), Hf in *; done. }
  destruct Hs as [w w' Hc|w w' Hf'].
  - unfold clone_application in Hc. rewrite (proj2 (Z.eqb_neq p 0) Hp), Ha in Hc. injection Hc as <-.
    unfold set_slot; simpl. rewrite lookup_insert_eq. split.
    + left. eexists. split_and!; [reflexivity | done | done | simpl; lia | done | done].
    + intros q Hq. rewrite lookup_insert_ne by congruence. auto.
  - unfold free_application in Hf'. rewrite (proj2 (Z.eqb_neq p 0) Hp), Ha in Hf'.
    destruct (Z.eqb_spec (refcount a - 1) 0); injection Hf' as <-.
    + cbn [take_cells set_slot apps pyrefs wavail]. rewrite lookup_insert_eq. split.
      * right. split_and!; [done | | simpl; lia]. intros id.
        rewrite !py_ref_lookup, Hrefs, Hsc, Hgc. unfold held. destruct (cap_id sc =? id), (cap_id gc =? id); lia.
      * intros q Hq. rewrite lookup_insert_ne by congruence. auto.
    + unfold set_slot; simpl. rewrite lookup_insert_eq. split.
      * left. eexists. split_and!; [reflexivity | done | done | simpl; lia | done | done].
      * intros q Hq. rewrite lookup_insert_ne by congruence. auto.
Qed.

Lemma py_ref_apps d (c : capsule R C) w : apps (py_ref d c w) = apps w.
Proof. done. Qed.

Lemma py_ref_wavail d (c : capsule R C) w : wavail (py_ref d c w) = wavail w.
Proof. done. Qed.

Lemma lifecycle_start sc gc targets controls anticontrols (w0 w1 : world R C) p err :
  new_application sc gc targets controls anticontrols w0 = ((p, err), w1) -> p <> 0 ->
  lifecycle_inv w0 sc gc p w1.
Proof.
  unfold new_application. destruct (Z.ltb_spec (wavail w0) 1); [intros [= <- _ _]; done|].
  destruct (get_fmatrix sc), (get_fmatrix gc); intros [= <- _ <-]; try done. intros Hp.
  unfold lifecycle_inv. cbn [set_slot apps pyrefs wavail]. rewrite !py_ref_apps, !py_ref_wavail.
  cbn [apps wavail]. rewrite lookup_insert_eq. split.
  - left. eexists. split_and!; [reflexivity | done | done | simpl; lia | | lia].
    intros id. rewrite !py_ref_lookup. unfold held. simpl. lia.
  - intros q Hq. rewrite lookup_insert_ne by congruence. done.
Qed.

Lemma lifecycle_rtc w0 sc gc p w w' :
  p <> 0 -> rtc (app_step p) w w' -> lifecycle_inv w0 sc gc p w -> lifecycle_inv w0 sc gc p w'.
Proof. intros Hp Hr. induction Hr as [|x y z Hs _ IH]; [done|]. intros Hx. apply IH. eapply lifecycle_step; eauto. Qed.

(** A sequence of calls of the hooks on the context [p]. *)
Inductive hook := HClone | HFree.

Fixpoint run_hooks (p : Z) (hs : list hook) (w : world R C) : outcome (world R C) :=
  match hs with
  | [] => Ok w
  | HClone :: hs' => let? '(_, w') := clone_application p w in run_hooks p hs' w'
  | HFree :: hs' => let? w' := free_application p w in run_hooks p hs' w'
  end.

Definition count_hook (h : hook) (hs : list hook) : Z :=
  Z.of_nat (length (List.filter (fun h' => match h, h' with HClone, HClone | HFree, HFree => true | _, _ => false end) hs)).

Lemma clone_same_ptr p (w : world R C) q w' : clone_application p w = Ok (q, w') -> q = p.
Proof.
  unfold clone_application. destruct (Z.eqb_spec p 0) as [->|]; [by intros [= <- _]|].
  destruct (apps w !! p) as [[a|]|]; [by intros [= <- _] | done | done].
Qed.

Lemma run_hooks_rtc p hs w w' : run_hooks p hs w = Ok w' -> rtc (app_step p) w w'.
Proof.
  revert w. induction hs as [|[] hs IH]; intros w; simpl; [intros [= ->]; done| |].
  - destruct (clone_application p w) as [[q w1]|] eqn:E; [|done]. simpl. intros Hr.
    pose proof (clone_same_ptr _ _ _ _ E) as ->. eapply rtc_l; [apply step_clone; exact E | apply IH, Hr].
  - destruct (free_application p w) as [w1|] eqn:E; [|done]. simpl. intros Hr.
    eapply rtc_l; [apply step_free; exact E | apply IH, Hr].
Qed.

Lemma run_hooks_freed p hs w w' :
  p <> 0 -> apps w !! p = Some Freed -> run_hooks p hs w = Ok w' -> hs = [] /\ w' = w.
Proof.
  intros Hp Hf. destruct hs as [|[] hs]; simpl; [intros [= ->]; done| |];
    unfold clone_application, free_application; rewrite (proj2 (Z.eqb_neq p 0) Hp), Hf; done.
Qed.

(** The count after the hooks [hs], from a live context. *)
Lemma run_hooks_count p hs w w' a :
  p <> 0 -> apps w !! p = Some (Live a) -> 1 <= refcount a -> run_hooks p hs w = Ok w' ->
  (exists a', apps w' !! p = Some (Live a') /\ 1 <= refcount a' /\
     refcount a' = refcount a + count_hook HClone hs - count_hook HFree hs) \/
  (apps w' !! p = Some Freed /\ refcount a + count_hook HClone hs - count_hook HFree hs = 0).
Proof.
  intros Hp. revert w a. unfold count_hook.
  induction hs as [|[] hs IH]; intros w a Ha Hrc; simpl.
  - intros [= ->]. left. exists a. split_and!; [done | done | lia].
  - unfold clone_application. rewrite (proj2 (Z.eqb_neq p 0) Hp), Ha. simpl. intros Hr.
    eapply IH in Hr; cycle 1; [unfold set_slot; simpl; apply lookup_insert_eq | simpl; lia |].
    destruct Hr as [(a' & Ha' & Hrc' & Heq)|(Hf & Heq)]; simpl in *; [left; exists a' | right];
      split_and!; try done; lia.
  - unfold free_application. rewrite (proj2 (Z.eqb_neq p 0) Hp), Ha.
    destruct (Z.eqb_spec (refcount a - 1) 0) as [E|E]; simpl; intros Hr.
    + apply run_hooks_freed in Hr as [-> ->]; [|done|cbn [take_cells set_slot apps]; apply lookup_insert_eq].
      right. cbn [take_cells set_slot apps]. rewrite lookup_insert_eq. simpl. split; [done | lia].
    + eapply IH in Hr; cycle 1; [unfold set_slot; simpl; apply lookup_insert_eq | simpl; lia |].
      destruct Hr as [(a' & Ha' & Hrc' & Heq)|(Hf & Heq)]; simpl in *; [left; exists a' | right];
        split_and!; try done; lia.
Qed.

Lemma run_hooks_free_cons p hs (w : world R C) :
  run_hooks p (HFree :: hs) w = (let? w' := free_application p w in run_hooks p hs w').
Proof. done. Qed.

(** [k + 1] calls of [free_application] on a live context of count
    [k + 1] are defined and the last one frees it. *)
Lemma run_frees p (w : world R C) a (k : nat) :
  p <> 0 -> apps w !! p = Some (Live a) -> refcount a = Z.of_nat (S k) ->
  exists w', run_hooks p (repeat HFree (S k)) w = Ok w' /\ apps w' !! p = Some Freed.
Proof.
  intros Hp. revert w a. induction k as [|k IH]; intros w a Ha Hrc;
    change (repeat HFree (S ?n)) with (HFree :: repeat HFree n); rewrite run_hooks_free_cons;
    unfold free_application; rewrite (proj2 (Z.eqb_neq p 0) Hp), Ha.
  - rewrite (proj2 (Z.eqb_eq _ 0)) by lia. eexists. split; [reflexivity|].
    cbn [take_cells set_slot apps]. apply lookup_insert_eq.
  - rewrite (proj2 (Z.eqb_neq _ 0)) by lia. rewrite obind_ok. apply (IH _ _ (lookup_insert_eq _ _ _)). simpl. lia.
Qed.

End Lifecycle.

(** ** Properties of the lazy gate view *)

Section LazyProps.
Context `{Platform} {R C : Type} `{Scalars R C} `{!StateInit R C}.

Lemma new_application_ok sc gc targets controls anticontrols (w0 w1 : world R C) p err :
  new_application sc gc targets controls anticontrols w0 = ((p, err), w1) -> p <> 0 ->
  exists st g, get_fmatrix sc = Some st /\ get_fmatrix gc = Some g /\ err = None /\ p = next_ptr w0 /\
    apps w1 !! p = Some (Live (mkApp sc st gc g targets controls anticontrols 1)) /\ wavail w1 = wavail w0 - 1.
Proof.
  unfold new_application. destruct (Z.ltb_spec (wavail w0) 1); [intros [= <- _ _]; done|].
  destruct (get_fmatrix sc) as [st|], (get_fmatrix gc) as [g|]; intros [= <- <- <-]; try done. intros _.
  exists st, g. cbn [set_slot apps wavail]. rewrite py_ref_apps, py_ref_apps, py_ref_wavail, py_ref_wavail.
  simpl. rewrite lookup_insert_eq. done.
Qed.

Lemma new_application_success sc gc targets controls anticontrols (w : world R C) st g :
  1 <= wavail w -> get_fmatrix sc = Some st -> get_fmatrix gc = Some g ->
  exists w1, new_application sc gc targets controls anticontrols w = ((next_ptr w, None), w1) /\
    apps w1 !! next_ptr w = Some (Live (mkApp sc st gc g targets controls anticontrols 1)) /\
    wavail w1 = wavail w - 1.
Proof.
  intros Hm Hsc Hgc. unfold new_application. destruct (Z.ltb_spec (wavail w) 1); [lia|].
  rewrite Hsc, Hgc. eexists. split; [reflexivity|].
  cbn [set_slot apps wavail]. rewrite !py_ref_apps, !py_ref_wavail. simpl. rewrite lookup_insert_eq. done.
Qed.

Lemma apply_gate_fmat_success sc gc targets controls anticontrols (w w1 : world R C) p a :
  new_application sc gc targets controls anticontrols w = ((p, None), w1) -> p <> 0 ->
  apps w1 !! p = Some (Live a) -> 1 <= wavail w1 ->
  apply_gate_fmat sc gc targets controls anticontrols w =
    Ok ((Some (mkLazy (fm_rows (app_state a)) 1 p), None), take_cells 1 w1).
Proof.
  intros Hnew Hp Ha Hm. unfold apply_gate_fmat. rewrite Hnew.
  rewrite (proj2 (Z.eqb_neq p 0) Hp). destruct (Z.ltb_spec (wavail w1) 1); [lia|]. rewrite Ha. done.
Qed.

(** C12: the reference count of an [Application] counts its holders:
    after [new_application] and any run of [clone_application] and
    [free_application] calls on it that is defined, it is live with count
    [1 + clones - frees], or it was freed by the call that made the frees
    exceed the clones by one. *)
Theorem application_refcount sc gc targets controls anticontrols (w0 w1 w : world R C) p err hs :
  new_application sc gc targets controls anticontrols w0 = ((p, err), w1) -> p <> 0 ->
  run_hooks p hs w1 = Ok w ->
  (exists a, apps w !! p = Some (Live a) /\ 1 <= refcount a /\
     refcount a = 1 + count_hook HClone hs - count_hook HFree hs) \/
  (apps w !! p = Some Freed /\ count_hook HFree hs = count_hook HClone hs + 1).
Proof.
  intros Hnew Hp Hrun. destruct (new_application_ok _ _ _ _ _ _ _ _ _ Hnew Hp) as (st & g & _ & _ & _ & _ & Ha & _).
  destruct (run_hooks_count p hs w1 w _ Hp Ha ltac:(simpl; lia) Hrun) as [(a' & ? & ? & ?)|(? & ?)];
    simpl in *; [left; exists a' | right]; split_and!; try done; lia.
Qed.

(** C13: every defined run of the hooks keeps the resources straight: while
    the application is live it holds exactly one more Python reference on
    each capsule and one cell; once freed, the references and the cell
    are given back and any further [free_application] or
    [clone_application] on it is undefined; no other application of the
    heap is touched. *)
Theorem application_lifecycle sc gc targets controls anticontrols (w0 w1 w : world R C) p err hs :
  new_application sc gc targets controls anticontrols w0 = ((p, err), w1) -> p <> 0 ->
  run_hooks p hs w1 = Ok w ->
  lifecycle_inv w0 sc gc p w /\
  (apps w !! p = Some Freed -> free_application p w = UB /\ clone_application p w = UB).
Proof.
  intros Hnew Hp Hrun. split.
  - eapply lifecycle_rtc; [done | exact (run_hooks_rtc _ _ _ _ Hrun) | eapply lifecycle_start; eauto].
  - intros Hf. unfold free_application, clone_application. rewrite (proj2 (Z.eqb_neq p 0) Hp), Hf. done.
Qed.

(** C14: an [Application] is always eventually released: from any defined
    run of the hooks that leaves it live with count [k], exactly [k]
    further calls of [free_application] are defined and free it, and
    afterwards every Python reference and the cell it took are given back
    and no other application of the heap has changed. *)
Theorem application_released sc gc targets controls anticontrols (w0 w1 w : world R C) p err hs a :
  new_application sc gc targets controls anticontrols w0 = ((p, err), w1) -> p <> 0 ->
  run_hooks p hs w1 = Ok w -> apps w !! p = Some (Live a) ->
  exists w', run_hooks p (repeat HFree (Z.to_nat (refcount a))) w = Ok w' /\ apps w' !! p = Some Freed /\
    (forall id, pyrefs w' !!! id = pyrefs w0 !!! id) /\ wavail w' = wavail w0 /\
    (forall q, q <> p -> apps w' !! q = apps w0 !! q).
Proof.
  intros Hnew Hp Hrun Ha.
  assert (Hinv : lifecycle_inv w0 sc gc p w)
    by (eapply lifecycle_rtc; [done | exact (run_hooks_rtc _ _ _ _ Hrun) | eapply lifecycle_start; eauto]).
  destruct Hinv as [[(a' & Ha' & _ & _ & Hrc & _)|(Hf & _)] _]; [|congruence].
  rewrite Ha in Ha'. injection Ha' as <-.
  destruct (run_frees p w a (Z.to_nat (refcount a) - 1) Hp Ha ltac:(lia)) as (w' & Hfr & Hf).
  replace (S (Z.to_nat (refcount a) - 1)) with (Z.to_nat (refcount a)) in Hfr by lia.
  exists w'. split_and!; [done | done | ..].
  all: assert (Hinv' : lifecycle_inv w0 sc gc p w')
         by (eapply lifecycle_rtc; [done | exact (run_hooks_rtc _ _ _ _ Hfr) |];
             eapply lifecycle_rtc; [done | exact (run_hooks_rtc _ _ _ _ Hrun) | eapply lifecycle_start; eauto]).
  all: destruct Hinv' as [[(a'' & Ha'' & _)|(_ & Hrefs & Hav)] Hother]; [congruence| done ..].
Qed.

(** C21: when a capsule does not hold a functional matrix,
    [new_application] returns NULL with [errno] 4 or 3 but does not free
    the struct it allocated: the cell is lost; [apply_gate_fmat] then
    overwrites [errno] with 5, so the caller cannot tell which capsule was
    wrong. *)
Theorem apply_gate_fmat_bad_capsule (sc gc : capsule R C) targets controls anticontrols (w : world R C) :
  1 <= wavail w -> get_fmatrix sc = None \/ get_fmatrix gc = None ->
  (exists e w1, new_application sc gc targets controls anticontrols w = ((0, Some e), w1) /\
     (e = 3 \/ e = 4) /\ apps w1 = apps w /\ wavail w1 = wavail w - 1) /\
  (exists w', apply_gate_fmat sc gc targets controls anticontrols w = Ok ((None, Some 5), w') /\
     apps w' = apps w /\ pyrefs w' = pyrefs w /\ wavail w' = wavail w - 1).
Proof.
  intros Hm Hbad. unfold apply_gate_fmat, new_application.
  destruct (Z.ltb_spec (wavail w) 1); [lia|].
  destruct (get_fmatrix sc), (get_fmatrix gc); [destruct Hbad; discriminate | | |];
    (split; [eexists _, _; split; [reflexivity|]; simpl; split_and!; auto |
             simpl; eexists; split; [reflexivity | done]]).
Qed.

(** C9: [apply_gate_fmat] over the matrices of a complete state and a
    well-formed gate, with distinct register qubits as roles and room for
    the two allocations, returns a one-column matrix of [size] rows whose
    every entry, read through the live context, is the reference
    amplitude [gate_spec]. *)
Theorem apply_gate_fmat_entries (state : state_vector R C) gate targets controls anticontrols id1 id2 mem1 mem2
    (w : world R C) :
  sv_wfb state = true -> sv_full state = true ->
  roles_okb (num_qubits state) targets controls anticontrols = true ->
  gate_okb gate (length targets) = true -> 2 <= wavail w -> 0 < next_ptr w ->
  exists h w', apply_gate_fmat (mkCap id1 (CapFMatrix (state_fm state mem1))) (mkCap id2 (CapFMatrix (gate_fm gate mem2)))
                 targets controls anticontrols w = Ok ((Some h, None), w') /\
    lm_rows h = size state /\ lm_cols h = 1 /\ wavail w' = wavail w - 2 /\
    forall i, 0 <= i < size state ->
      lazy_entry w' h i = Ok (gate_spec (amps_of state) (gate_fun gate) (gate_size gate) targets controls anticontrols i).
Proof.
  intros Hwf%sv_wfb_spec Hfull Hroles%roles_okb_spec Hg%gate_okb_spec Hm Hp.
  pose proof Hwf as (_ & Hnq & Hsz & _). pose proof Hg as (Hgs & _ & _).
  destruct (new_application_success (mkCap id1 (CapFMatrix (state_fm state mem1)))
              (mkCap id2 (CapFMatrix (gate_fm gate mem2))) targets controls anticontrols w _ _ ltac:(lia)
              eq_refl eq_refl) as (w1 & Hnew & Ha & Hm1).
  rewrite (apply_gate_fmat_success _ _ _ _ _ _ _ _ _ Hnew ltac:(lia) Ha ltac:(lia)).
  eexists _, _. split; [reflexivity|]. simpl. split_and!; try done; [lia|].
  intros i Hi. unfold lazy_entry. simpl. rewrite Ha.
  f_equal. rewrite Hsz in Hi.
  apply (apply_fun_spec (state_fm state mem1) (gate_fm gate mem2) (amps_of state) (gate_fun gate) (num_qubits state));
    [ | | simpl; done | apply roles_ok_parts in Hroles; tauto | done | done].
  - intros k Hk. simpl. rewrite <- Hsz in Hk. pose proof (sv_full_holds state Hfull k Hk) as Hk'.
    unfold amps_of. rewrite Hk'. done.
  - intros r c Hr Hc. simpl in *. rewrite (gate_entry_ok gate (length targets)) by done. done.
Qed.

End LazyProps.

(** ** The density view *)

(** The conjugation law the Hermitian symmetry needs. *)
Class ConjLaws (R C : Type) `{Scalars R C} := {
  cconj_mul_conj : forall a b, cconj (cmul a (cconj b)) = cmul b (cconj a)
}.

#[export] Instance gauss_conj_laws : ConjLaws Z gauss.
Proof. split. intros [ar ai] [br bi]. simpl. f_equal; nia. Qed.

Section DensityProps.
Context `{Platform} {R C : Type} `{Scalars R C} `{!StateInit R C}.

(** C16: [density_matrix] over a state capsule returns a [size x size]
    matrix over that capsule, taking one Python reference and one cell;
    the entry [(i, j)] [_densityFun] computes is [s[i] * conj(s[j])], and
    the matrix is Hermitian: entry [(j, i)] is the conjugate of entry
    [(i, j)]. *)
Theorem density_entries `{!ConjLaws R C} (s : state_vector R C) id (w : world R C) i j :
  sv_wfb s = true -> sv_full s = true -> 1 <= wavail w -> 0 <= i < size s -> 0 <= j < size s ->
  (exists w', density_matrix (mkCap id (CapState s)) w = ((Some (size s, size s, mkCap id (CapState s)), None), w') /\
     pyrefs w' !!! id = pyrefs w !!! id + 1 /\ wavail w' = wavail w - 1) /\
  density_fun (mkCap id (CapState s)) i j = Ok (cmul (amps_of s i) (cconj (amps_of s j))) /\
  density_fun (mkCap id (CapState s)) j i = Ok (cconj (cmul (amps_of s i) (cconj (amps_of s j)))).
Proof.
  intros Hwf%sv_wfb_spec Hfull Hm Hi Hj. pose proof (sv_full_holds s Hfull) as Hamp.
  unfold density_matrix, density_fun. simpl. rewrite !Hamp by done. simpl. split_and!.
  - destruct (Z.ltb_spec (wavail w) 1); [lia|]. eexists. split; [reflexivity|].
    rewrite py_ref_lookup, Z.eqb_refl. simpl. lia.
  - done.
  - rewrite cconj_mul_conj. done.
Qed.

End DensityProps.

(** ** Concrete runs *)

Module LazyExamples.
Import ArrayListExamples ApplyGateExamples.

(** Capsules over the matrices of [st] and of the NOT gate [X], and an
    empty heap with ten free cells. *)
Definition sc : capsule Z gauss := mkCap 1 (CapFMatrix (@state_fm platform_4 _ _ st 0)).
Definition gc : capsule Z gauss := mkCap 2 (CapFMatrix (gate_fm X 0)).
Definition w0 : world Z gauss := mkWorld ∅ ∅ 1 10.

(** The application CNOT needs, and the world after clone, free, free. *)
Definition w1 : world Z gauss := snd (new_application sc gc [0] [1] [] w0).
Definition hooks : list hook := [HClone; HFree; HFree].
Definition w_end : world Z gauss := match run_hooks 1 hooks w1 with Ok w => w | UB => w1 end.

Lemma lazy_eager_agree_witness :
  @state_get platform_4 _ _ st_cnot 2 =
    Ok (apply_fun (mkApp sc (@state_fm platform_4 _ _ st 0) gc (gate_fm X 0) [0] [1] [] 1) 2).
Proof.
  apply (@lazy_eager_agree platform_4 Z gauss _ _ eq_refl st blank st_cnot X [0] [1] [] [3; 0; 2; 1] [1; 0]
           (mkMem 100) (mkMem 95)); first [vm_compute; reflexivity | simpl; lia].
Defined.

Lemma application_refcount_witness :
  (exists a, apps w_end !! 1 = Some (Live a) /\ 1 <= refcount a /\
     refcount a = 1 + count_hook HClone hooks - count_hook HFree hooks) \/
  (apps w_end !! 1 = Some Freed /\ count_hook HFree hooks = count_hook HClone hooks + 1).
Proof. apply (application_refcount sc gc [0] [1] [] w0 w1 w_end 1 None hooks); [reflexivity | lia | reflexivity]. Defined.

Lemma application_lifecycle_witness :
  lifecycle_inv w0 sc gc 1 w_end /\
  (apps w_end !! 1 = Some Freed -> free_application 1 w_end = UB /\ clone_application 1 w_end = UB).
Proof. apply (application_lifecycle sc gc [0] [1] [] w0 w1 w_end 1 None hooks); [reflexivity | lia | reflexivity]. Defined.

Lemma apply_gate_fmat_bad_capsule_witness :
  (exists e w1', new_application (mkCap 3 CapOther) gc [0] [1] [] w0 = ((0, Some e), w1') /\
     (e = 3 \/ e = 4) /\ apps w1' = apps w0 /\ wavail w1' = wavail w0 - 1) /\
  (exists w', apply_gate_fmat (mkCap 3 CapOther) gc [0] [1] [] w0 = Ok ((None, Some 5), w') /\
     apps w' = apps w0 /\ pyrefs w' = pyrefs w0 /\ wavail w' = wavail w0 - 1).
Proof. apply apply_gate_fmat_bad_capsule; [simpl; lia | left; reflexivity]. Defined.

Lemma apply_gate_fmat_entries_witness :
  exists h w', apply_gate_fmat (mkCap 1 (CapFMatrix (@state_fm platform_4 _ _ st 0))) (mkCap 2 (CapFMatrix (gate_fm X 0)))
                 [0] [1] [] w0 = Ok ((Some h, None), w') /\
    lm_rows h = size st /\ lm_cols h = 1 /\ wavail w' = wavail w0 - 2 /\
    forall i, 0 <= i < size st ->
      lazy_entry w' h i = Ok (gate_spec (@amps_of platform_4 _ _ _ st) (gate_fun X) (gate_size X) [0] [1] [] i).
Proof. apply (@apply_gate_fmat_entries platform_4); first [reflexivity | simpl; lia]. Defined.

Lemma density_entries_witness :
  (exists w', density_matrix (mkCap 4 (CapState st)) w0 =
                ((Some (size st, size st, mkCap 4 (CapState st)), None), w') /\
     pyrefs w' !!! 4 = pyrefs w0 !!! 4 + 1 /\ wavail w' = wavail w0 - 1) /\
  @density_fun platform_4 _ _ _ (mkCap 4 (CapState st)) 0 2 =
    Ok (cmul (@amps_of platform_4 _ _ _ st 0) (cconj (@amps_of platform_4 _ _ _ st 2))) /\
  @density_fun platform_4 _ _ _ (mkCap 4 (CapState st)) 2 0 =
    Ok (cconj (cmul (@amps_of platform_4 _ _ _ st 0) (cconj (@amps_of platform_4 _ _ _ st 2)))).
Proof. apply (@density_entries platform_4 Z gauss _ _); first [reflexivity | simpl; lia]. Defined.

(** After two clones the count is 3; three frees release everything. *)
Definition w_live : world Z gauss := match run_hooks 1 [HClone; HClone] w1 with Ok w => w | UB => w1 end.

Lemma application_released_witness :
  exists w', run_hooks 1 (repeat HFree (Z.to_nat (refcount (mkApp sc (@state_fm platform_4 _ _ st 0) gc (gate_fm X 0) [0] [1] [] 3)))) w_live = Ok w' /\
    apps w' !! 1 = Some Freed /\ (forall id, pyrefs w' !!! id = pyrefs w0 !!! id) /\ wavail w' = wavail w0 /\
    (forall q, q <> 1 -> apps w' !! q = apps w0 !! q).
Proof.
  apply (application_released sc gc [0] [1] [] w0 w1 w_live 1 None [HClone; HClone]);
    first [vm_compute; reflexivity | lia].
Defined.

End LazyExamples.
