(* ===== verification/Slau.v ===== *)
(** * The linear system of pyfdmss: [Slau.cpp]

    [Slau] (pyfdmss 0.0.9, [src/Slau.cpp]) builds a [p x p] system whose
    rows are Taylor coefficients ([float *A[p]]) and whose right-hand
    sides are polynomials ([Polynom *B[p]]), brings it to upper
    triangular form by Gaussian elimination with row swaps
    ([Trianglize], [SeekRow], [SwapRows], [AddToRow]) and solves it by
    back substitution ([SolveForSecondDerivative]).

    The model keeps the pointers of the code: [A] and [B] are [None]
    (nullptr) or an array of row pointers, a row pointer is [None]
    (nullptr) or the array of its cells, and a cell of a [new float[n]]
    is [None] until written.  Reading through a null or dangling pointer,
    out of an array's bounds or from an unwritten cell is [UB].
    Allocation uses the monad [M] of the prelude with [new] that never
    fails ([std::bad_alloc] and the exception of a negative array size
    are outside the model; the latter is read as [UB]).  A [Polynom]
    object counts as one cell.

    [float] arithmetic is the class [FloatOps] (any rounding; the
    comparison [x == 0.0f] is [feq0]); the class [Polynom], whose source
    is not among the sources, is the interface [PolyOps] (its
    constructor, [operator[]] as a store, [add] and [operator/]).  The
    case description [EnvCase] is the record of the values its members
    return. *)

From S2P Require Import Prelude.
From Stdlib Require QArith.

(** ** Interfaces of the code [Slau.cpp] calls *)

(** [float] arithmetic. *)
Class FloatOps (F : Type) := {
  fzero : F; fone : F; fhalf : F;
  fneg : F -> F; fadd : F -> F -> F; fsub : F -> F -> F;
  fmul : F -> F -> F; fdiv : F -> F -> F;
  feq0 : F -> bool;        (** [x == 0.0f] *)
  f_of_Z : Z -> F          (** the conversion of an [int] *)
}.

(** The class [Polynom]: [new Polynom(n)], the store [q[k] = v], the
    read [q[k]], [q->add(r, m)] ([q += m * r]) and [*q / x]. *)
Class PolyOps (F P : Type) := {
  pnew : Z -> P;
  pset : P -> Z -> F -> P;
  pget : P -> Z -> F;
  padd : P -> P -> F -> P;
  pdiv : P -> F -> P
}.

(** The members of [EnvCase] the constructor reads. *)
Record env_case := mkEnvCase {
  xLeft : Z; xRight : Z; yLeft : Z; yRight : Z;
  pX : Z; pY : Z; centerX : Z; centerY : Z;
  LeftXIncluded : bool; RightXIncluded : bool;
  LeftYIncluded : bool; RightYIncluded : bool
}.

(** [new T[n]] that never fails: [n] cells are taken. *)
Definition cnew (n : Z) : M unit := fun m => Ok (tt, mkMem (avail m - n)).

(** A [for] loop over [M]. *)
Fixpoint mfold_left {X Y} (f : Y -> X -> M Y) (l : list X) (y : Y) : M Y :=
  match l with
  | [] => mret y
  | x :: l' => let! y' := f y x in mfold_left f l' y'
  end.

Module Slau.
Section Ops.
Context {F P : Type} `{FloatOps F} `{PolyOps F P}.

(** [class Slau]: the order [p], [float **A] (a row is the list of its
    cells, [None] until written) and [Polynom **B]. *)
Record slau := mkSlau { p : Z; A : option (list (option (list (option F)))); B : option (list (option P)) }.

(** [A[r][c]] *)
Definition getA (s : slau) (r c : Z) : outcome F :=
  let? rs := of_option (A s) in
  let? rw := of_option (zlookup rs r ≫= id) in
  of_option (zlookup rw c ≫= id).

(** [A[r][c] = v] *)
Definition setA (s : slau) (r c : Z) (v : F) : outcome slau :=
  let? rs := of_option (A s) in
  let? rw := of_option (zlookup rs r ≫= id) in
  let? rw' := of_option (zinsert rw c (Some v)) in
  let? rs' := of_option (zinsert rs r (Some rw')) in
  Ok (mkSlau (p s) (Some rs') (B s)).

(** [A[r] = rw] *)
Definition set_rowA (s : slau) (r : Z) (rw : option (list (option F))) : outcome slau :=
  let? rs := of_option (A s) in
  let? rs' := of_option (zinsert rs r rw) in
  Ok (mkSlau (p s) (Some rs') (B s)).

(** [*B[r]] *)
Definition getB (s : slau) (r : Z) : outcome P :=
  let? bs := of_option (B s) in
  of_option (zlookup bs r ≫= id).

(** [B[r] = q] *)
Definition setB (s : slau) (r : Z) (q : option P) : outcome slau :=
  let? bs := of_option (B s) in
  let? bs' := of_option (zinsert bs r q) in
  Ok (mkSlau (p s) (A s) (Some bs')).

(** [SwapRows(a, b)]: swaps the row pointers of [A] and of [B]. *)
Definition SwapRows (s : slau) (a b : Z) : outcome slau :=
  if a =? b then Ok s else
  if (0 <=? a) && (a <? p s) && (0 <=? b) && (b <? p s) then
    let? rs := of_option (A s) in
    let? fa := of_option (zlookup rs a) in
    let? fb := of_option (zlookup rs b) in
    let? s1 := set_rowA s a fb in
    let? s2 := set_rowA s1 b fa in
    let? bs := of_option (B s2) in
    let? pa := of_option (zlookup bs a) in
    let? pb := of_option (zlookup bs b) in
    let? s3 := setB s2 a pb in
    setB s3 b pa
  else Ok s.

(** [AddToRow(row, ccol)]: subtracts the multiple of row [ccol] that
    cancels [A[row][ccol]], then stores [0.0f] there. *)
Definition AddToRow (s : slau) (r ccol : Z) : outcome slau :=
  let? x := getA s r ccol in
  if feq0 x then Ok s else
  let? piv := getA s ccol ccol in
  let mult := fdiv (fneg x) piv in
  let? s1 := ofold_left (fun s i =>
                           let? a := getA s r i in
                           let? b := getA s ccol i in
                           setA s r i (fadd a (fmul mult b)))
                        (zrange ccol (p s)) s in
  let? br := getB s1 r in
  let? bc := getB s1 ccol in
  let? s2 := setB s1 r (Some (padd br bc mult)) in
  setA s2 r ccol fzero.

(** The loop of [SeekRow(col)] over the rows [l], with its [return]. *)
Fixpoint seek_loop (s : slau) (col : Z) (l : list Z) : outcome Z :=
  match l with
  | [] => Ok (-1)
  | r :: l' => let? x := getA s r col in if negb (feq0 x) then Ok r else seek_loop s col l'
  end.

(** [SeekRow(col)]: the first row from [col] on with a nonzero entry in
    column [col], or [-1]. *)
Definition SeekRow (s : slau) (col : Z) : outcome Z := seek_loop s col (zrange col (p s)).

(** [Trianglize()] *)
Definition Trianglize (s : slau) : outcome slau :=
  ofold_left (fun s cl =>
                let? mainrow := SeekRow s cl in
                let? s1 := SwapRows s cl mainrow in
                ofold_left (fun s r => AddToRow s r cl) (zrange (cl + 1) (p s)) s1)
             (zrange 0 (p s - 1)) s.

(** One iteration [p] of the loop of [GetTaylorCoeffs(d, maxp)]: [nom],
    [den] and the cells of [cfs]. *)
Definition taylor_step (d : F) (acc : F * F * list (option F)) (k : Z) : F * F * list (option F) :=
  let '(nom, den, cfs) := acc in
  let nom' := fmul nom d in
  let den' := fmul den (f_of_Z k) in
  (nom', den', <[Z.to_nat (k - 1) := Some (fdiv nom' den')]> cfs).

(** The loop [for (p = 1; p <= maxp; p++)]. *)
Definition taylor_loop (d : F) (maxp : Z) : F * F * list (option F) :=
  fold_left (taylor_step d) (zrange 1 (maxp + 1)) (fone, fone, replicate (Z.to_nat maxp) None).

(** [GetTaylorCoeffs(d, maxp)]: [cfs = new float[maxp]], then
    [cfs[p - 1] = d^p / p!] computed by running products. *)
Definition GetTaylorCoeffs (d : F) (maxp : Z) : M (list (option F)) :=
  cnew maxp ;; mret (taylor_loop d maxp).2.

(** One row of the constructor: [bcf = new Polynom(p + 1)] with the
    stores [stores], [A[idx] = GetTaylorCoeffs(d, p)], [B[idx] = bcf]. *)
Definition add_row (s : slau) (idx : Z) (stores : list (Z * F)) (d : F) : M slau :=
  cnew 1 ;;
  let bcf := fold_left (fun q '(k, v) => pset q k v) stores (pnew (p s + 1)) in
  let! cfs := GetTaylorCoeffs d (p s) in
  let! s1 := lift (set_rowA s idx (Some cfs)) in
  lift (setB s1 idx (Some bcf)).

(** The parameters the constructor reads from [cs]: [left], [right],
    [p], [center], [leftIncl], [rightIncl]. *)
Definition case_params (cs : env_case) (firstOrSecond : Z) : Z * Z * Z * Z * bool * bool :=
  if firstOrSecond =? 1
  then (xLeft cs, xRight cs, pX cs, centerX cs, LeftXIncluded cs, RightXIncluded cs)
  else (yLeft cs, yRight cs, pY cs, centerY cs, LeftYIncluded cs, RightYIncluded cs).

(** One iteration [vel] of the loop over the velocities: skipped at
    [center], otherwise the row with [bcf[vel] = 1] and [bcf[center] = -1],
    [GetTaylorCoeffs(vel - center, p)] at [idx], then [idx++]. *)
Definition vel_row (center : Z) (acc : slau * Z) (vel : Z) : M (slau * Z) :=
  let '(s, idx) := acc in
  if vel =? center then mret (s, idx) else
  let! s' := add_row s idx [(vel, fone); (center, fneg fone)] (f_of_Z (vel - center)) in
  mret (s', idx + 1).

(** [Slau(cs, firstOrSecond)]: the left boundary row, the rows of the
    velocities [initVel..maxVel] but [center], the right boundary row. *)
Definition Slau_new (cs : env_case) (firstOrSecond : Z) : M slau :=
  let '(left', right', p, center, leftIncl, rightIncl) := case_params cs firstOrSecond in
  if p <? 0 then undef else
  cnew p ;; cnew p ;;
  let s0 := mkSlau p (Some (replicate (Z.to_nat p) None)) (Some (replicate (Z.to_nat p) None)) in
  let! '(s1, idx1) :=
    if leftIncl then
      let! s := add_row s0 0 [(center, fneg fone)] (fsub (fneg fhalf) (f_of_Z left')) in mret (s, 1)
    else mret (s0, 0) in
  let initVel := 1 + (if leftIncl then 1 else 0) in
  let maxVel := p + (if rightIncl then 0 else 1) in
  let! '(s2, idx2) :=
    mfold_left (vel_row center) (zrange initVel (maxVel + 1)) (s1, idx1) in
  if rightIncl then add_row s2 idx2 [(center, fneg fone)] (fadd fhalf (f_of_Z right'))
  else mret s2.

(** One iteration [i] of the loop of [~Slau()]:
    [if (A[i] != nullptr) { delete[] A[i]; A[i] = nullptr; }]. *)
Definition delete_row (rs : list (option (list (option F)))) (i : Z) : M (list (option (list (option F)))) :=
  let! rw := lift (of_option (zlookup rs i)) in
  match rw with
  | Some cells => mfree (Z.of_nat (length cells)) ;; lift (of_option (zinsert rs i None))
  | None => mret rs
  end.

(** [~Slau()]: frees every row of [A], then [A] and [B]; the polynomials
    [B[i]] point to are not freed. *)
Definition Slau_delete (s : slau) : M slau :=
  let! s1 :=
    match A s with
    | Some rs =>
        let! rs' := mfold_left delete_row (zrange 0 (p s)) rs in
        mfree (p s) ;; mret (mkSlau (p s) None (B s))
    | None => mret s
    end in
  match B s1 with
  | Some _ => mfree (p s1) ;; mret (mkSlau (p s1) (A s1) None)
  | None => mret s1
  end.

(** What [printf] writes: a number ["%.4f "] or a line end. *)
Inductive pout := PVal (x : F) | PNewline.

(** The printing loops of [printA] and [printB]: for each row, the
    cells of [cols], then a line end; a last line end. *)
Definition print_rows (cell : Z -> Z -> outcome F) (rows cols : list Z) : outcome (list pout) :=
  let? out := ofold_left (fun acc i =>
                 let? line := ofold_left (fun acc' j => let? x := cell i j in Ok (acc' ++ [PVal x])) cols [] in
                 Ok (acc ++ line ++ [PNewline])) rows [] in
  Ok (out ++ [PNewline]).

(** [printA()]: [A[i][j]] for [i, j < p]. *)
Definition printA (s : slau) : outcome (list pout) :=
  print_rows (getA s) (zrange 0 (p s)) (zrange 0 (p s)).

(** [printB()]: coefficient [j] of polynomial [B[i]] for [i < p] and [1 <= j <= p + 1]. *)
Definition printB (s : slau) : outcome (list pout) :=
  print_rows (fun i j => let? q := getB s i in Ok (pget q j)) (zrange 0 (p s)) (zrange 1 (p s + 2)).

(** One iteration [col] of the inner loop of [SolveForSecondDerivative]:
    [B[resIdx]->add(sols[col - 1], -A[resIdx][col])]. *)
Definition back_col (resIdx : Z) (sols : list (option P)) (s : slau) (col : Z) : outcome slau :=
  let? a := getA s resIdx col in
  let? br := getB s resIdx in
  let? q := of_option (zlookup sols (col - 1) ≫= id) in
  setB s resIdx (Some (padd br q (fneg a))).

(** One iteration [resIdx] of the outer loop: the inner loop, then
    [sols[resIdx - 1] = *B[resIdx] / A[resIdx][resIdx]]. *)
Definition back_row (acc : slau * list (option P)) (resIdx : Z) : outcome (slau * list (option P)) :=
  let '(s, sols) := acc in
  let? s' := ofold_left (back_col resIdx sols) (zrange (resIdx + 1) (p s)) s in
  let? br := getB s' resIdx in
  let? d := getA s' resIdx resIdx in
  let? sols' := of_option (zinsert sols (resIdx - 1) (Some (pdiv br d))) in
  Ok (s', sols').

(** [SolveForSecondDerivative()]: [Trianglize()], then back substitution
    into [sols = new Polynom*[p - 1]] from the last row up to row 1;
    returns [*sols[0]]. *)
Definition SolveForSecondDerivative (s : slau) : M (P * slau) :=
  let! s1 := lift (Trianglize s) in
  if p s - 1 <? 0 then undef else
  cnew (p s - 1) ;;
  let! '(s2, sols) :=
    lift (ofold_left back_row (rev (zrange 1 (p s1))) (s1, replicate (Z.to_nat (p s1 - 1)) None)) in
  let! q := lift (of_option (zlookup sols 0 ≫= id)) in
  mret (q, s2).

End Ops.
End Slau.

(** [0.0f == 0.0f]: the one fact of [float] arithmetic the elimination
    needs. *)
Class FloatLaws (F : Type) `{FloatOps F} := { feq0_fzero : feq0 fzero = true }.

Import Slau.

(** ** The shape of a system *)

Section Shape.
Context {F P : Type} `{FloatOps F} `{PolyOps F P}.

(** A full row of [n] written cells. *)
Definition full_row (n : Z) (o : option (list (option F))) : Prop :=
  exists rw, o = Some rw /\ Z.of_nat (length rw) = n /\ forall j x, rw !! j = Some x -> is_Some x.

(** [A] is [p] full rows of [p] cells and [B] is [p] polynomials. *)
Definition wf (s : slau (F:=F) (P:=P)) : Prop :=
  0 <= p s /\
  (exists rs, A s = Some rs /\ Z.of_nat (length rs) = p s /\ forall i o, rs !! i = Some o -> full_row (p s) o) /\
  (exists bs, B s = Some bs /\ Z.of_nat (length bs) = p s /\ forall i o, bs !! i = Some o -> is_Some o).

(** Deciding [wf], for concrete systems. *)
Definition wfb (s : slau (F:=F) (P:=P)) : bool :=
  (0 <=? p s) &&
  match A s, B s with
  | Some rs, Some bs =>
      (Z.of_nat (length rs) =? p s) &&
      forallb (fun o => match o with
                        | Some rw => (Z.of_nat (length rw) =? p s) && forallb (fun x : option F => match x with Some _ => true | None => false end) rw
                        | None => false
                        end) rs &&
      (Z.of_nat (length bs) =? p s) && forallb (fun o : option P => match o with Some _ => true | None => false end) bs
  | _, _ => false
  end.

Lemma wfb_wf s : wfb s = true -> wf s.
Proof.
  unfold wfb. destruct (A s) as [rs|] eqn:HA, (B s) as [bs|] eqn:HB; rewrite ?andb_false_r; [|done..].
  rewrite !andb_true_iff, Z.leb_le, !Z.eqb_eq, !forallb_forall.
  intros (Hp & ((Hl & Hrows) & Hlb) & Hbs). split; [done|]. split.
  - exists rs. split_and!; [done | done |]. intros i o Hi.
    specialize (Hrows o (proj1 (list_elem_of_In _ _) (list_elem_of_lookup_2 _ _ _ Hi))).
    destruct o as [rw|]; [|done]. apply andb_true_iff in Hrows as [Hlw Hc]. apply Z.eqb_eq in Hlw.
    rewrite forallb_forall in Hc. exists rw. split_and!; [done | done |]. intros j x Hj.
    specialize (Hc x (proj1 (list_elem_of_In _ _) (list_elem_of_lookup_2 _ _ _ Hj))). destruct x; [eauto | done].
  - exists bs. split_and!; [done | done |]. intros i o Hi.
    specialize (Hbs o (proj1 (list_elem_of_In _ _) (list_elem_of_lookup_2 _ _ _ Hi))). destruct o; [eauto | done].
Qed.

Lemma wf_getA s r c : wf s -> 0 <= r < p s -> 0 <= c < p s -> exists v, getA s r c = Ok v.
Proof.
  intros (_ & (rs & HA & Hl & Hrows) & _) Hr Hc. unfold getA. rewrite HA. simpl.
  destruct (zlookup_lt rs r ltac:(lia)) as [o Ho]. rewrite Ho. rewrite zlookup_nat in Ho by lia.
  destruct (Hrows _ _ Ho) as (rw & -> & Hlw & Hcells). simpl.
  destruct (zlookup_lt rw c ltac:(lia)) as [x Hx]. rewrite Hx. rewrite zlookup_nat in Hx by lia.
  destruct (Hcells _ _ Hx) as [v ->]. eauto.
Qed.

Lemma wf_getB s r : wf s -> 0 <= r < p s -> exists q, getB s r = Ok q.
Proof.
  intros (_ & _ & (bs & HB & Hl & Hb)) Hr. unfold getB. rewrite HB. simpl.
  destruct (zlookup_lt bs r ltac:(lia)) as [o Ho]. rewrite Ho. rewrite zlookup_nat in Ho by lia.
  destruct (Hb _ _ Ho) as [q ->]. eauto.
Qed.

Lemma wf_setA s r c v :
  wf s -> 0 <= r < p s -> 0 <= c < p s ->
  exists s', setA s r c v = Ok s' /\ wf s' /\ p s' = p s /\ B s' = B s /\
    forall r' c', getA s' r' c' = if (r =? r') && (c =? c') then Ok v else getA s r' c'.
Proof.
  intros (Hp & (rs & HA & Hl & Hrows) & HBs) Hr Hc. unfold setA. rewrite HA. simpl.
  destruct (zlookup_lt rs r ltac:(lia)) as [o Ho]. rewrite Ho. pose proof Ho as Ho'.
  rewrite zlookup_nat in Ho' by lia. destruct (Hrows _ _ Ho') as (rw & -> & Hlw & Hcells). simpl.
  rewrite zinsert_ok by lia. simpl. rewrite zinsert_ok by lia. simpl.
  eexists. split; [reflexivity|]. split_and!; [| done | done |].
  - split; [done|]. split; [|done]. exists (<[Z.to_nat r := Some (<[Z.to_nat c := Some v]> rw)]> rs).
    split; [done|]. rewrite (length_insert rs). split; [done|]. intros i o' Hi.
    destruct (decide (i = Z.to_nat r)) as [->|Hne].
    + rewrite list_lookup_insert_eq in Hi by lia. injection Hi as <-. eexists. split; [reflexivity|].
      rewrite (length_insert rw). split; [done|]. intros j x Hj.
      destruct (decide (j = Z.to_nat c)) as [->|Hjne].
      * rewrite list_lookup_insert_eq in Hj by lia. injection Hj as <-. eauto.
      * rewrite list_lookup_insert_ne in Hj by done. eauto.
    + rewrite list_lookup_insert_ne in Hi by done. eauto.
  - intros r' c'. unfold getA. rewrite HA. simpl. rewrite zlookup_insert by lia.
    destruct (Z.eqb_spec r r') as [<-|Hne]; simpl; [|done].
    rewrite Ho. simpl. rewrite zlookup_insert by lia. destruct (Z.eqb_spec c c'); done.
Qed.

Lemma wf_setB s r q :
  wf s -> 0 <= r < p s ->
  exists s', setB s r (Some q) = Ok s' /\ wf s' /\ p s' = p s /\ A s' = A s /\
    (forall r', getB s' r' = if r =? r' then Ok q else getB s r').
Proof.
  intros (Hp & HAs & (bs & HB & Hl & Hb)) Hr. unfold setB. rewrite HB. simpl.
  rewrite zinsert_ok by lia. simpl. eexists. split; [reflexivity|]. split_and!; [| done | done |].
  - split; [done|]. split; [done|]. exists (<[Z.to_nat r := Some q]> bs). split; [done|].
    rewrite length_insert. split; [done|]. intros i o Hi.
    destruct (decide (i = Z.to_nat r)) as [->|Hne].
    + rewrite list_lookup_insert_eq in Hi by lia. injection Hi as <-. eauto.
    + rewrite list_lookup_insert_ne in Hi by done. eauto.
  - intros r'. unfold getB. rewrite HB. simpl. rewrite zlookup_insert by lia.
    destruct (Z.eqb_spec r r'); done.
Qed.

End Shape.

(** ** Printing *)

Section Print.
Context {F P : Type} `{FloatOps F} `{PolyOps F P}.

Lemma print_cols (cell : Z -> Z -> outcome F) i cols acc (v : Z -> F) :
  (forall j, In j cols -> cell i j = Ok (v j)) ->
  ofold_left (fun acc' j => let? x := cell i j in Ok (acc' ++ [PVal x])) cols acc =
    Ok (acc ++ map (fun j => PVal (v j)) cols).
Proof.
  revert acc. induction cols as [|j cols IH]; intros acc Hc; simpl; [by rewrite app_nil_r|].
  rewrite (Hc j (or_introl eq_refl)). simpl. rewrite IH by (intros; apply Hc; right; done).
  rewrite <- app_assoc. done.
Qed.

(** When every cell it reads is defined, a printing loop writes the
    cells row by row, each row ended by a line end, and a last line end. *)
Lemma print_rows_ok (cell : Z -> Z -> outcome F) rows cols (v : Z -> Z -> F) :
  (forall i j, In i rows -> In j cols -> cell i j = Ok (v i j)) ->
  print_rows cell rows cols =
    Ok (concat (map (fun i => map (fun j => PVal (v i j)) cols ++ [PNewline]) rows) ++ [PNewline]).
Proof.
  intros Hc. unfold print_rows.
  enough (forall rs acc, (forall i, In i rs -> In i rows) ->
            ofold_left (fun acc i =>
                 let? line := ofold_left (fun acc' j => let? x := cell i j in Ok (acc' ++ [PVal x])) cols [] in
                 Ok (acc ++ line ++ [PNewline])) rs acc =
            Ok (acc ++ concat (map (fun i => map (fun j => PVal (v i j)) cols ++ [PNewline]) rs))) as Hrows.
  { rewrite (Hrows rows []) by done. done. }
  induction rs as [|i rs IH]; intros acc Hin; simpl; [by rewrite app_nil_r|].
  rewrite (print_cols cell i cols [] (v i)) by (intros; apply Hc; [apply Hin; left |]; done).
  simpl. rewrite IH by (intros; apply Hin; right; done). rewrite !app_assoc. done.
Qed.

(** [printA()] on a full system writes the [p x p] entries of [A]. *)
Lemma printA_wf (s : slau (F:=F) (P:=P)) :
  wf s -> exists v : Z -> Z -> F,
    (forall i j, 0 <= i < p s -> 0 <= j < p s -> getA s i j = Ok (v i j)) /\
    printA s = Ok (concat (map (fun i => map (fun j => PVal (v i j)) (zrange 0 (p s)) ++ [PNewline]) (zrange 0 (p s)))
                   ++ [PNewline]).
Proof.
  intros Hwf. set (v i j := match getA s i j with Ok x => x | UB => fzero end).
  assert (Hv : forall i j, 0 <= i < p s -> 0 <= j < p s -> getA s i j = Ok (v i j)).
  { intros i j Hi Hj. unfold v. destruct (wf_getA s i j Hwf Hi Hj) as [x ->]. done. }
  exists v. split; [done|]. apply print_rows_ok.
  intros i j Hi%list_elem_of_In%elem_of_zrange Hj%list_elem_of_In%elem_of_zrange. apply Hv; done.
Qed.

(** [printB()] on a full system writes coefficients [1..p+1] of each
    [B[i]]. *)
Lemma printB_wf (s : slau (F:=F) (P:=P)) :
  wf s -> exists q : Z -> P,
    (forall i, 0 <= i < p s -> getB s i = Ok (q i)) /\
    printB s = Ok (concat (map (fun i => map (fun j => PVal (pget (q i) j)) (zrange 1 (p s + 2)) ++ [PNewline])
                              (zrange 0 (p s))) ++ [PNewline]).
Proof.
  intros Hwf.
  set (q i := match getB s i with Ok x => x | UB => pnew 0 end).
  assert (Hq : forall i, 0 <= i < p s -> getB s i = Ok (q i)).
  { intros i Hi. unfold q. destruct (wf_getB s i Hwf Hi) as [x ->]. done. }
  exists q. split; [done|]. apply (print_rows_ok _ _ _ (fun i j => pget (q i) j)).
  intros i j Hi%list_elem_of_In%elem_of_zrange _. rewrite (Hq i Hi). done.
Qed.

End Print.

(** ** Gaussian elimination *)

Section Elim.
Context {F P : Type} `{FloatOps F} `{PolyOps F P}.

(** [A[r][c]] is written and compares equal to [0.0f]. *)
Definition zero_at (s : slau (F:=F) (P:=P)) (r c : Z) : bool :=
  match getA s r c with Ok v => feq0 v | UB => false end.

(** The inner loop of [AddToRow] only writes row [r] from column [ccol] on. *)
Lemma add_row_loop (s : slau (F:=F) (P:=P)) r ccol mult :
  wf s -> 0 <= r < p s -> 0 <= ccol ->
  exists s1, ofold_left (fun s i =>
                          let? a := getA s r i in
                          let? b := getA s ccol i in
                          setA s r i (fadd a (fmul mult b)))
                       (zrange ccol (p s)) s = Ok s1 /\
    wf s1 /\ p s1 = p s /\ B s1 = B s /\
    (forall r' c, r' <> r -> getA s1 r' c = getA s r' c) /\
    (forall c, c < ccol -> getA s1 r c = getA s r c).
Proof.
  intros Hwf Hr Hc.
  loop_invariant (fun (_ : list Z) (s1 : slau (F:=F) (P:=P)) => wf s1 /\ p s1 = p s /\ B s1 = B s /\
    (forall r' c, r' <> r -> getA s1 r' c = getA s r' c) /\
    (forall c, c < ccol -> getA s1 r c = getA s r c)).
  destruct Hloop as (s1 & Hrun & Hinv); [done| |eauto].
  intros pre i rest s1 Hl (Hwf1 & Hp1 & HB1 & Hrow1 & Hcol1). pose proof (zrange_app_cons_range _ _ _ _ _ Hl).
  destruct (wf_getA s1 r i Hwf1 ltac:(lia) ltac:(lia)) as [a Ha].
  destruct (wf_getA s1 ccol i Hwf1 ltac:(lia) ltac:(lia)) as [b Hb]. rewrite Ha, Hb. simpl.
  destruct (wf_setA s1 r i (fadd a (fmul mult b)) Hwf1 ltac:(lia) ltac:(lia)) as (s2 & Hset & Hwf2 & Hp2 & HB2 & Hget2).
  exists s2. split; [done|]. split_and!; [done | congruence | congruence | |].
  - intros r' c Hne. rewrite Hget2, (proj2 (Z.eqb_neq r r')) by done. simpl. auto.
  - intros c Hlt. rewrite Hget2, (proj2 (Z.eqb_neq i c)), andb_false_r by lia. auto.
Qed.

(** [AddToRow(r, ccol)] on a full system is defined, writes only row [r]
    from column [ccol] on, and leaves [A[r][ccol]] equal to [0.0f]. *)
Lemma AddToRow_spec `{!FloatLaws F} (s : slau (F:=F) (P:=P)) r ccol :
  wf s -> 0 <= r < p s -> 0 <= ccol < p s ->
  exists s', AddToRow s r ccol = Ok s' /\ wf s' /\ p s' = p s /\
    (forall r' c, r' <> r -> getA s' r' c = getA s r' c) /\
    (forall c, c < ccol -> getA s' r c = getA s r c) /\
    zero_at s' r ccol = true.
Proof.
  intros Hwf Hr Hc. unfold AddToRow.
  destruct (wf_getA s r ccol Hwf Hr Hc) as [x Hx]. rewrite Hx. simpl.
  destruct (feq0 x) eqn:Ex.
  { exists s. split_and!; try done. unfold zero_at. rewrite Hx. done. }
  destruct (wf_getA s ccol ccol Hwf Hc Hc) as [piv Hpiv]. rewrite Hpiv. simpl.
  destruct (add_row_loop s r ccol (fdiv (fneg x) piv) Hwf Hr ltac:(lia))
    as (s1 & Hrun & Hwf1 & Hp1 & HB1 & Hrow1 & Hcol1).
  rewrite Hrun. simpl.
  destruct (wf_getB s1 r Hwf1 ltac:(lia)) as [br Hbr]. destruct (wf_getB s1 ccol Hwf1 ltac:(lia)) as [bc Hbc].
  rewrite Hbr, Hbc. simpl.
  destruct (wf_setB s1 r (padd br bc (fdiv (fneg x) piv)) Hwf1 ltac:(lia)) as (s2 & Hs2 & Hwf2 & Hp2 & HA2 & _).
  rewrite Hs2. simpl.
  destruct (wf_setA s2 r ccol fzero Hwf2 ltac:(lia) ltac:(lia)) as (s3 & Hs3 & Hwf3 & Hp3 & _ & Hget3).
  assert (HA : forall r' c, getA s2 r' c = getA s1 r' c) by (intros; unfold getA; rewrite HA2; done).
  exists s3. split_and!; [done | done | congruence | | |].
  - intros r' c Hne. rewrite Hget3, (proj2 (Z.eqb_neq r r')) by done. simpl. rewrite HA. auto.
  - intros c Hlt. rewrite Hget3, (proj2 (Z.eqb_neq ccol c)), andb_false_r by lia. rewrite HA. auto.
  - unfold zero_at. rewrite Hget3, !Z.eqb_refl. simpl. apply feq0_fzero.
Qed.

(** The loop of [SeekRow] returns the first row of [l] whose entry in
    column [col] is nonzero, or [-1]. *)
Lemma seek_loop_spec (s : slau (F:=F) (P:=P)) col l :
  wf s -> 0 <= col < p s -> Forall (fun r => 0 <= r < p s) l ->
  exists m, seek_loop s col l = Ok m /\
    ((m = -1 /\ Forall (fun r => zero_at s r col = true) l) \/
     (exists pre post, l = pre ++ m :: post /\ zero_at s m col = false /\
        Forall (fun r => zero_at s r col = true) pre)).
Proof.
  intros Hwf Hc. induction l as [|r l IH]; intros Hl; simpl.
  - exists (-1). split; [done|]. left. done.
  - apply Forall_cons in Hl as [Hr Hl]. destruct (wf_getA s r col Hwf Hr Hc) as [x Hx].
    rewrite Hx. simpl. destruct (feq0 x) eqn:Ex; simpl.
    + destruct (IH Hl) as (m & Hm & Hcase). exists m. split; [done|].
      destruct Hcase as [(-> & Hz)|(pre & post & -> & Hnz & Hz)].
      * left. split; [done|]. constructor; [unfold zero_at; rewrite Hx; done | done].
      * right. exists (r :: pre), post. split_and!; [done | done |].
        constructor; [unfold zero_at; rewrite Hx; done | done].
    + exists r. split; [done|]. right. exists [], l. split_and!; [done | unfold zero_at; rewrite Hx; done | done].
Qed.

(** The row [r] of [A] as the code reads it: [A[r]]. *)
Definition rowA (s : slau (F:=F) (P:=P)) (r : Z) : option (option (list (option F))) :=
  A s ≫= fun rs => zlookup rs r.

Lemma getA_rowA (s s' : slau (F:=F) (P:=P)) r r' c :
  rowA s' r = rowA s r' -> getA s' r c = getA s r' c.
Proof.
  unfold rowA, getA. destruct (A s) as [rs|], (A s') as [rs'|]; simpl; intros E; [by rewrite E | | | done].
  - by rewrite <- E.
  - by rewrite E.
Qed.

(** [SwapRows(a, b)] with [b] a row or the [-1] of [SeekRow]. *)
Definition swap_idx (a b r : Z) : Z := if r =? a then b else if r =? b then a else r.

Lemma SwapRows_spec (s : slau (F:=F) (P:=P)) a b :
  wf s -> 0 <= a < p s -> b = -1 \/ 0 <= b < p s ->
  exists s', SwapRows s a b = Ok s' /\ wf s' /\ p s' = p s /\
    (forall r c, getA s' r c = getA s (if b =? -1 then r else swap_idx a b r) c) /\
    (forall r, getB s' r = getB s (if b =? -1 then r else swap_idx a b r)).
Proof.
  intros Hwf Ha Hb. unfold SwapRows. destruct (Z.eqb_spec a b) as [<-|Hab].
  { assert (Hid : forall r, (if a =? -1 then r else swap_idx a a r) = r).
    { intros r. destruct (a =? -1); [done|]. unfold swap_idx. destruct (Z.eqb_spec r a) as [->|]; done. }
    exists s. split_and!; try done; intros; rewrite Hid; done. }
  destruct Hb as [->|Hb].
  { rewrite (proj2 (Z.leb_nle 0 (-1))), andb_false_r by lia. exists s. split_and!; done. }
  rewrite (proj2 (Z.leb_le 0 a)), (proj2 (Z.ltb_lt a _)), (proj2 (Z.leb_le 0 b)), (proj2 (Z.ltb_lt b _)) by lia.
  simpl. destruct Hwf as (Hp & (rs & HA & Hl & Hrows) & (bs & HB & Hlb & Hbs)).
  rewrite HA. simpl.
  destruct (zlookup_lt rs a ltac:(lia)) as [fa Hfa]. destruct (zlookup_lt rs b ltac:(lia)) as [fb Hfb].
  rewrite Hfa, Hfb. simpl. unfold set_rowA. rewrite HA. simpl. rewrite zinsert_ok by lia. simpl.
  rewrite zinsert_ok by (rewrite length_insert; lia). simpl. unfold setB. cbn [B]. rewrite HB. simpl.
  destruct (zlookup_lt bs a ltac:(lia)) as [pa Hpa]. destruct (zlookup_lt bs b ltac:(lia)) as [pb Hpb].
  rewrite Hpa, Hpb. simpl. rewrite zinsert_ok by lia. simpl.
  rewrite zinsert_ok by (rewrite length_insert; lia). simpl.
  eexists. split; [reflexivity|]. split_and!; [| done | |].
  - split; [done|]. split.
    + eexists. split; [reflexivity|]. rewrite !length_insert. split; [done|].
      intros i o Hi. apply (Hrows (Z.to_nat (swap_idx a b (Z.of_nat i)))).
      rewrite zlookup_nat in Hfa, Hfb by lia. unfold swap_idx.
      destruct (decide (i = Z.to_nat b)) as [->|Hnb];
        [rewrite list_lookup_insert_eq in Hi by (rewrite length_insert; lia) |
         rewrite list_lookup_insert_ne in Hi by done;
         destruct (decide (i = Z.to_nat a)) as [->|Hna];
           [rewrite list_lookup_insert_eq in Hi by lia | rewrite list_lookup_insert_ne in Hi by done]];
        simplify_eq.
      * rewrite Z2Nat.id, Z.eqb_refl, (proj2 (Z.eqb_neq b a)) by lia. done.
      * rewrite Z2Nat.id, Z.eqb_refl by lia. done.
      * rewrite (proj2 (Z.eqb_neq _ a)), (proj2 (Z.eqb_neq _ b)), Nat2Z.id by lia. done.
    + eexists. split; [reflexivity|]. rewrite !length_insert. split; [done|].
      intros i o Hi. rewrite zlookup_nat in Hpa, Hpb by lia.
      destruct (decide (i = Z.to_nat b)) as [->|Hnb];
        [rewrite list_lookup_insert_eq in Hi by (rewrite length_insert; lia) |
         rewrite list_lookup_insert_ne in Hi by done;
         destruct (decide (i = Z.to_nat a)) as [->|Hna];
           [rewrite list_lookup_insert_eq in Hi by lia | rewrite list_lookup_insert_ne in Hi by done]];
        simplify_eq; eauto.
  - intros r c. rewrite (proj2 (Z.eqb_neq b (-1))) by lia. apply getA_rowA. unfold rowA. cbn [A].
    rewrite HA. simpl. rewrite zlookup_insert by (rewrite length_insert; lia).
    rewrite zlookup_insert by lia. unfold swap_idx.
    destruct (Z.eqb_spec b r) as [<-|Hbr]; [rewrite (proj2 (Z.eqb_neq b a)), Z.eqb_refl by lia; done|].
    rewrite (proj2 (Z.eqb_neq r b)) by lia.
    destruct (Z.eqb_spec a r) as [<-|Har]; [rewrite Z.eqb_refl; done|].
    rewrite (proj2 (Z.eqb_neq r a)) by lia. done.
  - intros r. rewrite (proj2 (Z.eqb_neq b (-1))) by lia. unfold getB. cbn [B].
    rewrite HB. simpl. rewrite zlookup_insert by (rewrite length_insert; lia).
    rewrite zlookup_insert by lia. unfold swap_idx.
    destruct (Z.eqb_spec b r) as [<-|Hbr]; [rewrite (proj2 (Z.eqb_neq b a)), Z.eqb_refl, Hpa by lia; done|].
    rewrite (proj2 (Z.eqb_neq r b)) by lia.
    destruct (Z.eqb_spec a r) as [<-|Har]; [rewrite Z.eqb_refl, Hpb; done|].
    rewrite (proj2 (Z.eqb_neq r a)) by lia. done.
Qed.

Lemma zero_at_eq (s s' : slau (F:=F) (P:=P)) r r' c : getA s' r c = getA s r' c -> zero_at s' r c = zero_at s r' c.
Proof. unfold zero_at. intros ->. done. Qed.

(** The inner loop of [Trianglize] for column [cl]: every row below [cl]
    gets a zero in column [cl]; the columns before are not written. *)
Lemma elim_column `{!FloatLaws F} (s : slau (F:=F) (P:=P)) cl :
  wf s -> 0 <= cl < p s ->
  exists s', ofold_left (fun s r => AddToRow s r cl) (zrange (cl + 1) (p s)) s = Ok s' /\
    wf s' /\ p s' = p s /\
    (forall r c, c < cl -> getA s' r c = getA s r c) /\
    (forall r, cl < r < p s -> zero_at s' r cl = true).
Proof.
  intros Hwf Hcl.
  loop_invariant (fun (pre : list Z) (s1 : slau (F:=F) (P:=P)) => wf s1 /\ p s1 = p s /\
    (forall r c, c < cl -> getA s1 r c = getA s r c) /\
    (forall r, r ∈ pre -> zero_at s1 r cl = true)).
  destruct Hloop as (s' & Hrun & (Hwf' & Hp' & Hold & Hnew)).
  - split_and!; try done. intros r Hr. set_solver.
  - intros pre r rest s1 Hl (Hwf1 & Hp1 & Hold1 & Hnew1).
    pose proof (zrange_app_cons_range _ _ _ _ _ Hl). pose proof (zrange_app_cons_notin _ _ _ _ _ Hl).
    destruct (AddToRow_spec s1 r cl Hwf1 ltac:(lia) ltac:(lia)) as (s2 & Hrun & Hwf2 & Hp2 & Hrow2 & Hcol2 & Hz2).
    exists s2. split; [done|]. split_and!; [done | congruence | |].
    + intros r' c Hc. destruct (Z.eq_dec r' r) as [->|Hne]; [rewrite Hcol2 by lia | rewrite Hrow2 by done]; auto.
    + intros r' Hr'. apply elem_of_app in Hr' as [Hr'|Hr'%list_elem_of_singleton]; [|by subst].
      rewrite (zero_at_eq s1 s2 r' r' cl); [by apply Hnew1 | apply Hrow2; set_solver].
  - exists s'. split_and!; try done. intros r Hr. apply Hnew. apply elem_of_zrange. lia.
Qed.

(** One iteration [cl] of the loop of [Trianglize()], on a system whose
    columns before [cl] are already zero below the diagonal: [SeekRow]
    returns [-1] when column [cl] is zero from row [cl] down, and
    otherwise a row [m] with a nonzero entry there; [SwapRows] exchanges
    rows [cl] and [m] of [A] and of [B]; the elimination loop zeroes
    column [cl] below the diagonal. *)
Lemma Trianglize_col `{!FloatLaws F} (s1 : slau (F:=F) (P:=P)) cl :
  wf s1 -> 0 <= cl < p s1 ->
  (forall r c, 0 <= c < cl -> c < r < p s1 -> zero_at s1 r c = true) ->
  exists m s2 s3, SeekRow s1 cl = Ok m /\ SwapRows s1 cl m = Ok s2 /\
    ofold_left (fun s r => AddToRow s r cl) (zrange (cl + 1) (p s1)) s2 = Ok s3 /\
    wf s2 /\ p s2 = p s1 /\
    (forall r c, getA s2 r c = getA s1 (if m =? -1 then r else swap_idx cl m r) c) /\
    (forall r, getB s2 r = getB s1 (if m =? -1 then r else swap_idx cl m r)) /\
    ((m = -1 /\ forall r, cl <= r < p s1 -> zero_at s1 r cl = true) \/ (cl <= m < p s1 /\ zero_at s1 m cl = false)) /\
    wf s3 /\ p s3 = p s1 /\
    (forall r c, 0 <= c <= cl -> c < r < p s1 -> zero_at s3 r c = true).
Proof.
  intros Hwf1 Hcl Hz1. unfold SeekRow.
  destruct (seek_loop_spec s1 cl (zrange cl (p s1)) Hwf1 Hcl) as (m & Hm & Hcase).
  { apply Forall_forall. intros r Hr%elem_of_zrange. lia. }
  assert (Hpiv : (m = -1 /\ forall r, cl <= r < p s1 -> zero_at s1 r cl = true) \/
                 (cl <= m < p s1 /\ zero_at s1 m cl = false)).
  { destruct Hcase as [(-> & Hz)|(pre' & post & Heq & Hnz & _)].
    - left. split; [done|]. intros r Hr. rewrite Forall_forall in Hz. apply Hz, elem_of_zrange. lia.
    - right. split; [apply (zrange_app_cons_range _ _ _ _ _ Heq) | done]. }
  assert (Hmr : m = -1 \/ cl <= m < p s1) by (destruct Hpiv as [[]|[]]; lia).
  destruct (SwapRows_spec s1 cl m Hwf1 Hcl ltac:(lia)) as (s2 & Hsw & Hwf2 & Hp2 & HgetA2 & HgetB2).
  destruct (elim_column s2 cl Hwf2 ltac:(lia)) as (s3 & Hel & Hwf3 & Hp3 & Hold3 & Hnew3).
  rewrite Hp2 in Hel. exists m, s2, s3. split_and!; try done; [congruence|].
  intros r c Hc Hr. destruct (Z.eq_dec c cl) as [->|Hne]; [apply Hnew3; lia|].
  rewrite (zero_at_eq s2 s3 r r c) by (apply Hold3; lia).
  rewrite (zero_at_eq s1 s2 r (if m =? -1 then r else swap_idx cl m r) c) by apply HgetA2.
  apply Hz1; [lia|]. destruct (Z.eqb_spec m (-1)); [lia|]. unfold swap_idx.
  destruct (Z.eqb_spec r cl); [lia|]. destruct (Z.eqb_spec r m); lia.
Qed.

(** [Trianglize()] on a full system succeeds, keeps it full and zeroes
    every entry below the diagonal. *)
Lemma Trianglize_spec `{!FloatLaws F} (s : slau (F:=F) (P:=P)) :
  wf s ->
  exists s', Trianglize s = Ok s' /\ wf s' /\ p s' = p s /\
    forall r c, 0 <= c < r /\ r < p s -> zero_at s' r c = true.
Proof.
  intros Hwf. pose proof Hwf as (Hp & _). unfold Trianglize.
  loop_invariant (fun (pre : list Z) (s1 : slau (F:=F) (P:=P)) => wf s1 /\ p s1 = p s /\
    forall r c, 0 <= c < Z.of_nat (length pre) -> c < r < p s -> zero_at s1 r c = true).
  destruct Hloop as (s' & Hrun & (Hwf' & Hp' & Hz)).
  - split_and!; try done. simpl. lia.
  - intros pre cl rest s1 Hl (Hwf1 & Hp1 & Hz1).
    pose proof (zrange_app_cons_range _ _ _ _ _ Hl). pose proof (zrange_app_cons _ _ _ _ _ Hl) as Hcl.
    destruct (Trianglize_col s1 cl Hwf1 ltac:(lia)) as (m & s2 & s3 & Hm & Hsw & Hel & _ & _ & _ & _ & _ & Hwf3 & Hp3 & Hz3).
    { intros r c Hc Hr. apply Hz1; lia. }
    rewrite Hm. simpl. rewrite Hsw. simpl. rewrite Hel. eexists. split; [reflexivity|].
    split_and!; [done | congruence |]. intros r c Hc Hr. rewrite length_app in Hc. simpl in Hc. apply Hz3; lia.
  - exists s'. split_and!; try done. intros r c Hrc. apply Hz; [rewrite zrange_length|]; lia.
Qed.

(** C26: [Trianglize()] on a full system (every row allocated and written,
    every right-hand side allocated) has no undefined behaviour, keeps the
    system full, and leaves every entry below the diagonal comparing equal
    to [0.0f], whatever the rounding of [float] arithmetic: [AddToRow]
    stores the zero itself, and the row swaps of [SeekRow]'s pivot only
    exchange rows that are already zero in the earlier columns. *)
Theorem Trianglize_upper `{!FloatLaws F} (s : slau (F:=F) (P:=P)) :
  wf s ->
  exists s', Trianglize s = Ok s' /\ wf s' /\ p s' = p s /\
    forall r c, 0 <= c < r /\ r < p s -> zero_at s' r c = true.
Proof. apply Trianglize_spec. Qed.

End Elim.

(** ** Taylor coefficients *)

Section Taylor.
Context {F : Type} `{FloatOps F}.

(** [d * d * ... * d] ([n] factors) and [1 * 2 * ... * n], multiplied
    from the left as the loop does. *)
Definition fpow (d : F) (n : Z) : F := fold_left (fun acc _ => fmul acc d) (zrange 1 (n + 1)) fone.
Definition ffact (n : Z) : F := fold_left (fun acc k => fmul acc (f_of_Z k)) (zrange 1 (n + 1)) fone.

Lemma fpow_succ d n : 0 <= n -> fpow d (n + 1) = fmul (fpow d n) d.
Proof. intros Hn. unfold fpow. rewrite (zrange_snoc 1 (n + 1)), fold_left_app by lia. done. Qed.

Lemma ffact_succ n : 0 <= n -> ffact (n + 1) = fmul (ffact n) (f_of_Z (n + 1)).
Proof. intros Hn. unfold ffact. rewrite (zrange_snoc 1 (n + 1)), fold_left_app by lia. done. Qed.

(** After the iterations [1..k] of the loop: [nom = d^k], [den = k!], the
    cells [0..k-1] hold [d^(j+1) / (j+1)!] and the others are unwritten. *)
Lemma taylor_prefix d maxp k :
  0 <= k <= maxp ->
  exists cfs,
    fold_left (taylor_step d) (zrange 1 (k + 1)) (fone, fone, replicate (Z.to_nat maxp) None) =
      (fpow d k, ffact k, cfs) /\
    length cfs = Z.to_nat maxp /\
    (forall j, 0 <= j < k -> cfs !! Z.to_nat j = Some (Some (fdiv (fpow d (j + 1)) (ffact (j + 1))))) /\
    (forall j, k <= j < maxp -> cfs !! Z.to_nat j = Some None).
Proof.
  intros [Hk Hkm]. revert Hkm. pattern k. revert k Hk. apply natlike_ind.
  - intros _. eexists. split_and!; [reflexivity | apply length_replicate | intros; lia |].
    intros j Hj. apply lookup_replicate_2. lia.
  - intros k Hk IH Hkm. destruct (IH ltac:(lia)) as (cfs & Hrun & Hlen & Hdone & Hfree).
    unfold Z.succ. rewrite (zrange_snoc 1 (k + 1)), fold_left_app, Hrun by lia.
    exists (<[Z.to_nat k := Some (fdiv (fpow d (k + 1)) (ffact (k + 1)))]> cfs).
    rewrite fpow_succ, ffact_succ by lia. split; [cbn [fold_left taylor_step]; repeat f_equal; lia|].
    rewrite <- fpow_succ, <- ffact_succ by lia. split_and!; [by rewrite length_insert | |].
    + intros j Hj. destruct (Z.eq_dec j k) as [->|Hne].
      * rewrite list_lookup_insert_eq by lia. done.
      * rewrite list_lookup_insert_ne by lia. apply Hdone. lia.
    + intros j Hj. rewrite list_lookup_insert_ne by lia. apply Hfree. lia.
Qed.

End Taylor.

Section TaylorRun.
Context {F P : Type} `{FloatOps F} `{PolyOps F P}.

(** The row [GetTaylorCoeffs] returns is full. *)
Lemma GetTaylorCoeffs_full d maxp m :
  0 <= maxp -> exists cfs, GetTaylorCoeffs d maxp m = Ok (cfs, mkMem (avail m - maxp)) /\ full_row maxp (Some cfs).
Proof.
  intros Hm. destruct (taylor_prefix d maxp maxp ltac:(lia)) as (cfs & Hrun & Hlen & Hcells & _).
  exists cfs. unfold GetTaylorCoeffs, taylor_loop. rewrite Hrun. split; [done|].
  exists cfs. split_and!; [done | lia |]. intros j x Hj.
  pose proof (lookup_lt_Some _ _ _ Hj) as Hlt. rewrite <- (Nat2Z.id j), Hcells in Hj by lia.
  injection Hj as <-. eauto.
Qed.

End TaylorRun.

(** ** The constructor *)

Section Build.
Context {F P : Type} `{FloatOps F} `{PolyOps F P}.

(** The arrays [A] and [B] of [p] pointers, the rows [0..n-1] written. *)
Definition rows_upto (s : slau (F:=F) (P:=P)) (n : Z) : Prop :=
  0 <= p s /\
  (exists rs, A s = Some rs /\ Z.of_nat (length rs) = p s /\
     forall i, 0 <= i < n -> exists o, zlookup rs i = Some o /\ full_row (p s) o) /\
  (exists bs, B s = Some bs /\ Z.of_nat (length bs) = p s /\
     forall i, 0 <= i < n -> exists q, zlookup bs i = Some (Some q)).

Lemma rows_upto_wf s : rows_upto s (p s) -> wf s.
Proof.
  intros (Hp & (rs & HA & Hl & Hrs) & (bs & HB & Hlb & Hbs)). split; [done|]. split.
  - exists rs. split_and!; [done | done |]. intros i o Hi. pose proof (lookup_lt_Some _ _ _ Hi).
    destruct (Hrs (Z.of_nat i) ltac:(lia)) as (o' & Ho' & Hf). rewrite zlookup_nat, Nat2Z.id, Hi in Ho' by lia.
    congruence.
  - exists bs. split_and!; [done | done |]. intros i o Hi. pose proof (lookup_lt_Some _ _ _ Hi).
    destruct (Hbs (Z.of_nat i) ltac:(lia)) as (q & Hq). rewrite zlookup_nat, Nat2Z.id, Hi in Hq by lia.
    injection Hq as ->. eauto.
Qed.

(** One row of the constructor at [idx < p] is written; at [idx >= p]
    the store [A[idx]] is out of bounds. *)
Lemma add_row_ok s idx stores d m :
  rows_upto s idx -> 0 <= idx < p s ->
  exists s', add_row s idx stores d m = Ok (s', mkMem (avail m - 1 - p s)) /\ rows_upto s' (idx + 1) /\ p s' = p s.
Proof.
  intros (Hp & (rs & HA & Hl & Hrs) & (bs & HB & Hlb & Hbs)) Hidx. unfold add_row.
  destruct (GetTaylorCoeffs_full d (p s) (mkMem (avail m - 1)) Hp) as (cfs & Hrun & Hfull).
  rewrite (mbind_run _ _ m tt (mkMem (avail m - 1))), (mbind_run _ _ _ _ _ Hrun) by reflexivity.
  assert (Hset : set_rowA s idx (Some cfs) = Ok (mkSlau (p s) (Some (<[Z.to_nat idx := Some cfs]> rs)) (B s)))
    by (unfold set_rowA; rewrite HA; simpl; rewrite zinsert_ok by lia; done).
  rewrite (lift_run _ _ _ _ Hset). unfold lift, setB. simpl. rewrite HB. simpl. rewrite zinsert_ok by lia. simpl.
  eexists. split; [repeat f_equal; lia|]. split; [|done]. split; [done|]. simpl. split.
  - eexists. split; [reflexivity|]. rewrite length_insert. split; [done|]. intros i Hi.
    rewrite zlookup_insert by lia. destruct (Z.eqb_spec idx i) as [<-|Hne]; [eauto|]. apply Hrs. lia.
  - eexists. split; [reflexivity|]. rewrite length_insert. split; [done|]. intros i Hi.
    rewrite zlookup_insert by lia. destruct (Z.eqb_spec idx i) as [<-|Hne]; [eauto|]. apply Hbs. lia.
Qed.

Lemma add_row_ub s idx stores d m :
  rows_upto s 0 -> p s <= idx -> add_row s idx stores d m = UB.
Proof.
  intros (Hp & (rs & HA & Hl & _) & _) Hidx. unfold add_row.
  destruct (GetTaylorCoeffs_full d (p s) (mkMem (avail m - 1)) Hp) as (cfs & Hrun & _).
  rewrite (mbind_run _ _ m tt (mkMem (avail m - 1))), (mbind_run _ _ _ _ _ Hrun) by reflexivity.
  unfold mbind, lift, set_rowA, zinsert. rewrite HA. simpl.
  rewrite (proj2 (Z.ltb_ge idx _)), andb_false_r by lia. done.
Qed.

Lemma rows_upto_0 s n : rows_upto s n -> 0 <= n -> rows_upto s 0.
Proof. intros (Hp & (rs & ? & ? & _) & (bs & ? & ? & _)) _. split; [done|]. split; eexists; split_and!; eauto; lia. Qed.

(** The number of rows the loop over the velocities [l] writes. *)
Definition vcount (center : Z) (l : list Z) : Z :=
  Z.of_nat (length (List.filter (fun v => negb (v =? center)) l)).

Lemma vcount_nonneg center l : 0 <= vcount center l.
Proof. unfold vcount. lia. Qed.

Lemma vcount_cons center v l :
  vcount center (v :: l) = (if v =? center then 0 else 1) + vcount center l.
Proof. unfold vcount. simpl. destruct (v =? center); simpl; lia. Qed.

Lemma vcount_zrange center a b :
  a <= b -> vcount center (zrange a b) = b - a - (if (a <=? center) && (center <? b) then 1 else 0).
Proof.
  intros Hab. assert (Hn : 0 <= b - a) by lia. remember (b - a) as n eqn:En.
  replace b with (a + n) by lia. clear En Hab b. revert n Hn. apply natlike_ind.
  - rewrite Z.add_0_r. unfold vcount, zrange. rewrite Z.sub_diag. simpl.
    destruct (Z.leb_spec a center), (Z.ltb_spec center a); simpl; lia.
  - intros n Hn IH. unfold Z.succ. rewrite Z.add_assoc, zrange_snoc by lia.
    unfold vcount in *. rewrite List.filter_app, length_app, Nat2Z.inj_add, IH. simpl.
    destruct (Z.eqb_spec (a + n) center), (Z.leb_spec a center), (Z.ltb_spec center (a + n)),
      (Z.ltb_spec center (a + n + 1)); simpl; lia.
Qed.

Lemma vel_loop_ok center l s idx m :
  rows_upto s idx -> 0 <= idx -> idx + vcount center l <= p s ->
  exists s', mfold_left (vel_row center) l (s, idx) m =
      Ok ((s', idx + vcount center l), mkMem (avail m - vcount center l * (1 + p s))) /\
    rows_upto s' (idx + vcount center l) /\ p s' = p s.
Proof.
  revert s idx m. induction l as [|v l IH]; intros s idx m Hs Hidx Hle.
  - exists s. unfold vcount. simpl. rewrite Z.add_0_r, Z.sub_0_r. destruct m. done.
  - rewrite vcount_cons in *. pose proof (vcount_nonneg center l). cbn [mfold_left]. unfold vel_row at 1. revert Hle.
    destruct (Z.eqb_spec v center); intros Hle.
    + rewrite (mbind_run _ _ m (s, idx) m) by reflexivity. apply IH; lia || done.
    + destruct (add_row_ok s idx [(v, fone); (center, fneg fone)] (f_of_Z (v - center)) m Hs ltac:(lia))
        as (s1 & Hrun & Hs1 & Hp1).
      rewrite (mbind_run _ _ _ _ _ (mbind_run _ _ _ _ _ Hrun)).
      destruct (IH s1 (idx + 1) (mkMem (avail m - 1 - p s)) Hs1 ltac:(lia) ltac:(lia)) as (s' & Hrun' & Hs' & Hp').
      exists s'. rewrite Hrun', Hp1. split_and!; [| by rewrite Z.add_assoc | congruence].
      simpl. f_equal. f_equal; f_equal; nia.
Qed.

Lemma mbind_ub {X Y} (x : M X) (f : X -> M Y) m : x m = UB -> mbind x f m = UB.
Proof. unfold mbind. intros ->. done. Qed.

Lemma vel_loop_ub center l s idx m :
  rows_upto s idx -> 0 <= idx <= p s -> p s < idx + vcount center l ->
  mfold_left (vel_row center) l (s, idx) m = UB.
Proof.
  revert s idx m. induction l as [|v l IH]; intros s idx m Hs Hidx Hlt.
  - unfold vcount in Hlt. simpl in Hlt. lia.
  - rewrite vcount_cons in Hlt. pose proof (vcount_nonneg center l). cbn [mfold_left]. unfold vel_row at 1. revert Hlt.
    destruct (Z.eqb_spec v center); intros Hlt.
    + rewrite (mbind_run _ _ m (s, idx) m) by reflexivity. apply IH; lia || done.
    + destruct (Z.eq_dec idx (p s)) as [->|Hne].
      * apply mbind_ub, mbind_ub, add_row_ub; [eapply rows_upto_0; eauto; lia | lia].
      * destruct (add_row_ok s idx [(v, fone); (center, fneg fone)] (f_of_Z (v - center)) m Hs ltac:(lia))
          as (s1 & Hrun & Hs1 & Hp1).
        rewrite (mbind_run _ _ _ _ _ (mbind_run _ _ _ _ _ Hrun)). apply IH; [done | lia | lia].
Qed.

Lemma rows_upto_succ s n : rows_upto s (n + 1) -> rows_upto s n.
Proof.
  intros (Hp & (rs & HA & Hl & Hrs) & (bs & HB & Hlb & Hbs)). split; [done|].
  split; eexists; split_and!; eauto; intros i Hi; [apply Hrs | apply Hbs]; lia.
Qed.

(** The loop over the velocities and the right boundary row, from row
    [idx1]: defined exactly when the rows fit in [p]. *)
Lemma tail_rows center lst (ri : bool) stores d s1 idx1 m :
  rows_upto s1 idx1 -> 0 <= idx1 <= p s1 ->
  (idx1 + vcount center lst + (if ri then 1 else 0) <= p s1 ->
   exists s m', (let! '(s2, idx2) := mfold_left (vel_row center) lst (s1, idx1) in
                 if ri then add_row s2 idx2 stores d else mret s2) m = Ok (s, m') /\
     rows_upto s (idx1 + vcount center lst + (if ri then 1 else 0)) /\ p s = p s1 /\
     avail m' = avail m - (vcount center lst + (if ri then 1 else 0)) * (1 + p s1)) /\
  (p s1 < idx1 + vcount center lst + (if ri then 1 else 0) ->
   (let! '(s2, idx2) := mfold_left (vel_row center) lst (s1, idx1) in
    if ri then add_row s2 idx2 stores d else mret s2) m = UB).
Proof.
  intros Hs1 Hidx. pose proof (vcount_nonneg center lst). split.
  - intros Hle. destruct (vel_loop_ok center lst s1 idx1 m Hs1 ltac:(lia) ltac:(destruct ri; lia))
      as (s2 & Hrun & Hs2 & Hp2).
    rewrite (mbind_run _ _ _ _ _ Hrun). destruct ri.
    + destruct (add_row_ok s2 (idx1 + vcount center lst) stores d (mkMem (avail m - vcount center lst * (1 + p s1))) Hs2 ltac:(lia))
        as (s & Hrow & Hs & Hp).
      exists s. eexists. rewrite Hrow. split_and!; [done | done | congruence | simpl; rewrite Hp2; nia].
    + exists s2. eexists. split_and!; [done | by rewrite Z.add_0_r | done | simpl; lia].
  - intros Hlt. destruct (Z_le_gt_dec (idx1 + vcount center lst) (p s1)) as [Hle|Hgt].
    + destruct (vel_loop_ok center lst s1 idx1 m Hs1 ltac:(lia) Hle) as (s2 & Hrun & Hs2 & Hp2).
      rewrite (mbind_run _ _ _ _ _ Hrun). destruct ri; [|lia].
      apply add_row_ub; [eapply rows_upto_0; eauto; lia | lia].
    + apply mbind_ub, vel_loop_ub; [done | lia | lia].
Qed.

(** The constructor writes [T = leftIncl + #velocities + rightIncl]
    rows at [0..T-1]: it is defined exactly when [T <= p]. *)
Lemma Slau_new_phases cs fos l0 r0 p0 center (li ri : bool) m :
  case_params cs fos = (l0, r0, p0, center, li, ri) -> 0 <= p0 ->
  let T := (if li then 1 else 0) + vcount center (zrange (1 + (if li then 1 else 0)) (p0 + (if ri then 0 else 1) + 1)) +
           (if ri then 1 else 0) in
  (T <= p0 -> exists s m', Slau_new cs fos m = Ok (s, m') /\ rows_upto s T /\ p s = p0 /\
                 avail m' = avail m - 2 * p0 - T * (1 + p0)) /\
  (p0 < T -> Slau_new cs fos m = UB).
Proof.
  intros Hcp Hp T. unfold Slau_new. rewrite Hcp. cbn beta iota zeta.
  rewrite (proj2 (Z.ltb_ge p0 0)) by lia.
  rewrite (mbind_run _ _ m tt (mkMem (avail m - p0))), (mbind_run _ _ _ tt (mkMem (avail m - p0 - p0)))
    by reflexivity.
  set (s0 := mkSlau (F:=F) (P:=P) p0 (Some (replicate (Z.to_nat p0) None)) (Some (replicate (Z.to_nat p0) None))).
  assert (Hs0 : rows_upto s0 0).
  { split; [done|]. split; eexists; (split_and!; [reflexivity | rewrite length_replicate; simpl; lia | intros; lia]). }
  pose proof (vcount_nonneg center (zrange (1 + (if li then 1 else 0)) (p0 + (if ri then 0 else 1) + 1))).
  destruct li; cbn beta iota zeta in *.
  - destruct (Z.eq_dec p0 0) as [->|Hp0].
    { split; [intros Hle; exfalso; unfold T in Hle; destruct ri; lia|]. intros _. apply mbind_ub, mbind_ub, add_row_ub; [done | simpl; lia]. }
    match goal with |- context [add_row s0 0 ?st ?d] =>
      destruct (add_row_ok s0 0 st d (mkMem (avail m - p0 - p0)) Hs0 ltac:(simpl; lia)) as (s1 & Hrun & Hs1 & Hp1) end.
    rewrite (mbind_run _ _ _ _ _ (mbind_run _ _ _ _ _ Hrun)). simpl in Hp1.
    destruct (tail_rows center (zrange (1 + 1) (p0 + (if ri then 0 else 1) + 1)) ri [(center, fneg fone)]
                (fadd fhalf (f_of_Z r0)) s1 1 (mkMem (avail (mkMem (avail m - p0 - p0)) - 1 - p s0)) Hs1 ltac:(lia))
      as [Hok Hub].
    split.
    + intros Hle. destruct (Hok ltac:(unfold T in Hle; lia)) as (s & m' & Hr & Hs & Hps & Hm).
      exists s, m'. rewrite Hr. split_and!; [done | unfold T; done | congruence | simpl in Hm; rewrite Hp1 in Hm; unfold T; nia].
    + intros Hlt. apply Hub. unfold T in Hlt. lia.
  - destruct (tail_rows center (zrange (1 + 0) (p0 + (if ri then 0 else 1) + 1)) ri [(center, fneg fone)]
                (fadd fhalf (f_of_Z r0)) s0 0 (mkMem (avail m - p0 - p0)) Hs0 ltac:(simpl; lia))
      as [Hok Hub].
    rewrite (mbind_run _ _ _ (s0, 0) (mkMem (avail m - p0 - p0))) by reflexivity.
    split.
    + intros Hle. destruct (Hok ltac:(unfold T in Hle; simpl; lia)) as (s & m' & Hr & Hs & Hps & Hm).
      exists s, m'. rewrite Hr. split_and!; [done | unfold T; rewrite Z.add_0_l in Hs; done | done | simpl in Hm; unfold T; nia].
    + intros Hlt. apply Hub. unfold T in Hlt. simpl. lia.
Qed.

(** With [center] among the velocities the constructor fills the system. *)
Lemma Slau_new_full cs fos l0 r0 p0 center (li ri : bool) m :
  case_params cs fos = (l0, r0, p0, center, li, ri) -> 0 <= p0 ->
  1 + (if li then 1 else 0) <= center <= p0 + (if ri then 0 else 1) ->
  exists s m', Slau_new cs fos m = Ok (s, m') /\ wf s /\ p s = p0 /\
    avail m' = avail m - 2 * p0 - p0 * (1 + p0).
Proof.
  intros Hcp Hp Hin. destruct (Slau_new_phases cs fos l0 r0 p0 center li ri m Hcp Hp) as [Hok _].
  rewrite vcount_zrange in Hok by (destruct li, ri; lia).
  rewrite (proj2 (Z.leb_le _ _)), (proj2 (Z.ltb_lt _ _)) in Hok by lia. cbn [andb] in Hok.
  destruct Hok as (s & m' & Hrun & Hs & Hps & Hm); [destruct li, ri; lia|].
  exists s, m'. replace ((if li then 1 else 0) + _ + _) with p0 in Hs, Hm by (destruct li, ri; lia).
  split_and!; [done | apply rows_upto_wf; congruence | done | done].
Qed.

(** C29: the constructor [Slau(cs, firstOrSecond)] with [p >= 0] writes
    one row per velocity of [initVel..maxVel] other than [center], plus
    the boundary rows, into arrays of [p] pointers.  When [center] lies in
    [initVel..maxVel] these are exactly [p] rows: the system is full, and
    [2p] pointer cells, [p] polynomials and [p] rows of [p] floats were
    allocated.  Otherwise there are [p + 1] rows (or two rows for [p = 0])
    and the last store [A[idx]] is past the end of [A]: undefined
    behaviour. *)
Theorem Slau_new_rows cs fos l0 r0 p0 center (li ri : bool) m :
  case_params cs fos = (l0, r0, p0, center, li, ri) -> 0 <= p0 ->
  (1 + (if li then 1 else 0) <= center <= p0 + (if ri then 0 else 1) ->
     exists s m', Slau_new cs fos m = Ok (s, m') /\ wf s /\ p s = p0 /\
       avail m' = avail m - 2 * p0 - p0 * (1 + p0)) /\
  (center < 1 + (if li then 1 else 0) \/ p0 + (if ri then 0 else 1) < center -> Slau_new cs fos m = UB).
Proof.
  intros Hcp Hp. destruct (Slau_new_phases cs fos l0 r0 p0 center li ri m Hcp Hp) as [_ Hub].
  split; [apply (Slau_new_full cs fos l0 r0); done|].
  intros Hout. apply Hub.
  destruct (Z_le_gt_dec (1 + (if li then 1 else 0)) (p0 + (if ri then 0 else 1) + 1)) as [Hab|Hab].
  - rewrite vcount_zrange by done.
    destruct Hout as [Hout|Hout];
      [rewrite (proj2 (Z.leb_gt _ _)) by lia | rewrite (proj2 (Z.ltb_ge center _)), andb_false_r by lia];
      simpl; destruct li, ri; lia.
  - unfold vcount, zrange. rewrite seqZ_nil by lia. simpl. destruct li, ri; lia.
Qed.

End Build.

(** ** The destructor *)

Section Delete.
Context {F P : Type} `{FloatOps F} `{PolyOps F P}.

Lemma delete_row_full (rs : list (option (list (option F)))) i cells m :
  zlookup rs i = Some (Some cells) ->
  exists rs', delete_row rs i m = Ok (rs', mkMem (avail m + Z.of_nat (length cells))) /\
    length rs' = length rs /\ forall j, j <> i -> zlookup rs' j = zlookup rs j.
Proof.
  intros Ho. pose proof (zlookup_some _ _ _ Ho) as Hi. unfold delete_row, mbind, lift. rewrite Ho. simpl.
  rewrite zinsert_ok by lia. simpl. eexists. split; [reflexivity|]. split; [apply length_insert|].
  intros j Hj. rewrite zlookup_insert by lia. rewrite (proj2 (Z.eqb_neq i j)) by done. done.
Qed.

(** The loop of [~Slau()] over the rows [k..n-1], all full, frees [n]
    cells per row. *)
Lemma delete_rows n (rs : list (option (list (option F)))) k m :
  Z.of_nat (length rs) = n -> 0 <= k <= n ->
  (forall i, k <= i < n -> exists o, zlookup rs i = Some o /\ full_row n o) ->
  exists rs', mfold_left delete_row (zrange k n) rs m = Ok (rs', mkMem (avail m + (n - k) * n)).
Proof.
  intros Hl Hk. remember (Z.to_nat (n - k)) as d eqn:Ed. revert k rs m Hl Hk Ed.
  induction d as [|d IH]; intros k rs m Hl Hk Ed Hrows.
  - assert (k = n) as -> by lia. unfold zrange. rewrite Z.sub_diag. simpl. eexists.
    rewrite Z.add_0_r. destruct m. done.
  - unfold zrange. rewrite seqZ_cons by lia. replace (Z.pred (n - k)) with (n - Z.succ k) by lia.
    fold (zrange (Z.succ k) n). cbn [mfold_left].
    destruct (Hrows k ltac:(lia)) as (o & Ho & (cells & -> & Hlc & _)).
    destruct (delete_row_full rs k cells m Ho) as (rs1 & Hrun & Hl1 & Hsame).
    rewrite (mbind_run _ _ _ _ _ Hrun).
    destruct (IH (Z.succ k) rs1 (mkMem (avail m + Z.of_nat (length cells))) ltac:(lia) ltac:(lia) ltac:(lia))
      as (rs' & Hrun').
    { intros i Hi. rewrite Hsame by lia. apply Hrows. lia. }
    exists rs'. rewrite Hrun'. do 3 f_equal. cbn [avail]. nia.
Qed.

(** [~Slau()] on a full system frees the [p] rows and the two pointer
    arrays and sets [A] and [B] to nullptr. *)
Lemma Slau_delete_wf (s : slau (F:=F) (P:=P)) m :
  wf s -> Slau_delete s m = Ok (mkSlau (p s) None None, mkMem (avail m + p s * p s + p s + p s)).
Proof.
  intros (Hp & (rs & HA & Hl & Hrows) & (bs & HB & _)). unfold Slau_delete. rewrite HA.
  destruct (delete_rows (p s) rs 0 m Hl ltac:(lia)) as (rs' & Hrun).
  { intros i Hi. destruct (zlookup_lt rs i ltac:(lia)) as [o Ho]. exists o. split; [done|].
    rewrite zlookup_nat in Ho by lia. eapply Hrows; eauto. }
  unfold mbind at 1. rewrite (mbind_run _ _ _ _ _ Hrun). simpl. rewrite HB. simpl. unfold mbind, mfree, mret. simpl.
  do 3 f_equal. lia.
Qed.

End Delete.

Section Leak.
Context {F P : Type} `{FloatOps F} `{PolyOps F P}.

(** C30: building a full system and destroying it gives back every
    pointer array and every row of floats but not the [p] polynomials
    [new Polynom(p + 1)] allocated for the right-hand sides: [~Slau()]
    deletes the array [B] and not the objects it points to, so [p]
    objects leak on every construction. *)
Theorem Slau_leaks_polynomials cs fos l0 r0 p0 center (li ri : bool) m :
  case_params cs fos = (l0, r0, p0, center, li, ri) -> 0 <= p0 ->
  1 + (if li then 1 else 0) <= center <= p0 + (if ri then 0 else 1) ->
  exists s m1 m2, Slau_new (F:=F) (P:=P) cs fos m = Ok (s, m1) /\
    Slau_delete s m1 = Ok (mkSlau p0 None None, m2) /\ avail m2 = avail m - p0.
Proof.
  intros Hcp Hp Hin. destruct (Slau_new_full cs fos l0 r0 p0 center li ri m Hcp Hp Hin) as (s & m1 & Hrun & Hwf & Hps & Hm1).
  exists s, m1, (mkMem (avail m1 + p s * p s + p s + p s)). rewrite Slau_delete_wf by done.
  split_and!; [done | by rewrite Hps | simpl; rewrite Hps, Hm1; nia].
Qed.

End Leak.

(** ** Back substitution *)

Section Solve.
Context {F P : Type} `{FloatOps F} `{PolyOps F P}.

(** The inner loop reads [sols[col - 1]] only for the columns [col] whose
    solution is already stored. *)
Lemma back_col_loop (s : slau (F:=F) (P:=P)) resIdx sols cols :
  wf s -> 0 <= resIdx < p s ->
  Forall (fun col => 0 <= col < p s /\ exists q, zlookup sols (col - 1) = Some (Some q)) cols ->
  exists s', ofold_left (back_col resIdx sols) cols s = Ok s' /\ wf s' /\ p s' = p s.
Proof.
  revert s. induction cols as [|col cols IH]; intros s Hwf Hr Hcols; [by exists s|].
  apply Forall_cons in Hcols as ((Hc & q & Hq) & Hcols). cbn [ofold_left]. unfold back_col at 1.
  destruct (wf_getA s resIdx col Hwf Hr Hc) as [a ->]. destruct (wf_getB s resIdx Hwf Hr) as [br ->].
  simpl. rewrite Hq. simpl.
  match goal with |- context [setB s resIdx (Some ?q)] => destruct (wf_setB s resIdx q Hwf Hr) as (s1 & -> & Hwf1 & Hp1 & _) end. simpl.
  rewrite <- Hp1 in Hr, Hcols. destruct (IH s1 Hwf1 Hr Hcols) as (s' & ? & ? & ?). exists s'.
  split_and!; congruence.
Qed.

(** One iteration [resIdx] of the outer loop stores [sols[resIdx - 1]]
    once the solutions of the rows below it are stored. *)
Lemma back_row_ok (s : slau (F:=F) (P:=P)) sols resIdx :
  wf s -> 1 <= resIdx < p s -> Z.of_nat (length sols) = p s - 1 ->
  (forall col, resIdx < col < p s -> exists q, zlookup sols (col - 1) = Some (Some q)) ->
  exists s' sols', back_row (s, sols) resIdx = Ok (s', sols') /\ wf s' /\ p s' = p s /\
    length sols' = length sols /\
    forall col, resIdx <= col < p s -> exists q, zlookup sols' (col - 1) = Some (Some q).
Proof.
  intros Hwf Hr Hl Hsols. unfold back_row.
  destruct (back_col_loop s resIdx sols (zrange (resIdx + 1) (p s)) Hwf ltac:(lia)) as (s' & -> & Hwf' & Hp').
  { apply Forall_forall. intros col Hc%elem_of_zrange. split; [lia|]. apply Hsols. lia. }
  simpl. destruct (wf_getB s' resIdx Hwf' ltac:(lia)) as [br ->]. simpl.
  destruct (wf_getA s' resIdx resIdx Hwf' ltac:(lia) ltac:(lia)) as [d ->]. simpl.
  rewrite zinsert_ok by lia. simpl. eexists _, _. split; [reflexivity|].
  split_and!; [done | done | apply length_insert |]. intros col Hc.
  rewrite zlookup_insert by lia. destruct (Z.eqb_spec (resIdx - 1) (col - 1)); [eauto|]. apply Hsols. lia.
Qed.

(** The outer loop over [resIdx = p - 1 .. 1] fills every cell of [sols]. *)
Lemma back_loop (s : slau (F:=F) (P:=P)) :
  wf s -> 1 <= p s ->
  exists s' sols, ofold_left back_row (rev (zrange 1 (p s))) (s, replicate (Z.to_nat (p s - 1)) None) = Ok (s', sols) /\
    wf s' /\ p s' = p s /\ forall col, 1 <= col < p s -> exists q, zlookup sols (col - 1) = Some (Some q).
Proof.
  intros Hwf Hp.
  loop_invariant (fun (pre : list Z) (acc : slau (F:=F) (P:=P) * list (option P)) =>
    wf acc.1 /\ p acc.1 = p s /\ Z.of_nat (length acc.2) = p s - 1 /\
    forall col, p s - Z.of_nat (length pre) <= col < p s -> exists q, zlookup acc.2 (col - 1) = Some (Some q)).
  destruct Hloop as ([s' sols] & Hrun & Hwf' & Hp' & _ & Hcells).
  - simpl. split_and!; [done | done | rewrite length_replicate; lia | intros; lia].
  - intros pre x rest [s1 sols1] Hl (Hwf1 & Hp1 & Hl1 & Hc1). cbn [fst snd] in *.
    apply zrange_rev_app_cons in Hl as [Hx Hxr].
    destruct (back_row_ok s1 sols1 x Hwf1 ltac:(lia) ltac:(lia)) as (s2 & sols2 & -> & Hwf2 & Hp2 & Hl2 & Hc2).
    { intros col Hc. apply Hc1. lia. }
    eexists. split; [reflexivity|]. cbn [fst snd]. rewrite length_app. simpl.
    split_and!; [done | congruence | lia |]. intros col Hc. apply Hc2. lia.
  - exists s', sols. split_and!; [done | done | done |]. intros col Hc. apply Hcells.
    rewrite length_rev, zrange_length. lia.
Qed.

(** C27: on a full system, [SolveForSecondDerivative()] returns exactly
    when the order is at least 2: then every [sols[col - 1]] it reads has
    been stored, the system stays full and [p - 1] cells are taken (the
    array [sols] is never freed).  For [p = 1] the loop does not run and
    [*sols[0]] reads past the zero-length array; for [p = 0] the array
    size [p - 1] is negative. *)
Theorem SolveForSecondDerivative_total `{!FloatLaws F} (s : slau (F:=F) (P:=P)) m :
  wf s ->
  (2 <= p s -> exists q s', SolveForSecondDerivative s m = Ok ((q, s'), mkMem (avail m - (p s - 1))) /\
                  wf s' /\ p s' = p s) /\
  (p s < 2 -> SolveForSecondDerivative s m = UB).
Proof.
  intros Hwf. destruct (Trianglize_spec s Hwf) as (s1 & Ht & Hwf1 & Hp1 & _).
  unfold SolveForSecondDerivative. rewrite (lift_run _ _ m s1 Ht). pose proof Hwf as (Hp & _).
  destruct (Z.ltb_spec (p s - 1) 0) as [Hlt|Hge]; [split; [lia | done]|].
  rewrite (mbind_run _ _ m tt (mkMem (avail m - (p s - 1)))) by reflexivity.
  destruct (back_loop s1 Hwf1 ltac:(lia)) as (s2 & sols & Hb & Hwf2 & Hp2 & Hcells).
  rewrite (lift_run _ _ _ (s2, sols) Hb). cbn beta iota. split.
  - intros H2. destruct (Hcells 1 ltac:(lia)) as [q Hq]. change (1 - 1) with 0 in Hq.
    rewrite (lift_run _ _ _ q) by (rewrite Hq; done).
    exists q, s2. split_and!; [done | done | congruence].
  - intros H2. assert (Hs : p s1 = 1) by lia. rewrite Hs in Hb. cbn in Hb. injection Hb as <- <-. done.
Qed.

End Solve.

(** ** Properties of the operations *)

Section SlauProps.
Context {F P : Type} `{FloatOps F} `{PolyOps F P}.

(** On a full system, [SeekRow(col)] reads only column [col] and
    returns the first row [m >= col] whose entry there is not [0.0f], or
    [-1] when every entry from row [col] down is [0.0f]. *)
Theorem SeekRow_first (s : slau (F:=F) (P:=P)) col :
  wf s -> 0 <= col < p s ->
  exists m, SeekRow s col = Ok m /\
    ((m = -1 /\ forall r, col <= r < p s -> zero_at s r col = true) \/
     (col <= m < p s /\ zero_at s m col = false /\ forall r, col <= r < m -> zero_at s r col = true)).
Proof.
  intros Hwf Hc. unfold SeekRow.
  destruct (seek_loop_spec s col (zrange col (p s)) Hwf Hc) as (m & Hm & Hcase).
  { apply Forall_forall. intros r Hr%elem_of_zrange. lia. }
  exists m. split; [done|]. destruct Hcase as [(-> & Hz)|(pre & post & Heq & Hnz & Hz)].
  - left. split; [done|]. intros r Hr. eapply Forall_forall in Hz; [exact Hz|]. apply elem_of_zrange. done.
  - right. pose proof (zrange_app_cons_range _ _ _ _ _ Heq). apply zrange_prefix in Heq as ->.
    split; [lia|]. split; [done|]. intros r Hr. eapply Forall_forall in Hz; [exact Hz|]. apply elem_of_zrange. done.
Qed.

(** [GetTaylorCoeffs(d, maxp)] allocates [maxp] floats and stores
    [d^(j+1) / (j+1)!] in cell [j], the running products [nom] and [den]
    being multiplied from the left as the loop does. *)
Theorem GetTaylorCoeffs_spec (d : F) maxp m :
  0 <= maxp ->
  exists cfs, GetTaylorCoeffs d maxp m = Ok (cfs, mkMem (avail m - maxp)) /\ Z.of_nat (length cfs) = maxp /\
    (forall j, 0 <= j < maxp -> cfs !! Z.to_nat j = Some (Some (fdiv (fpow d (j + 1)) (ffact (j + 1))))).
Proof.
  intros Hm. destruct (taylor_prefix d maxp maxp ltac:(lia)) as (cfs & Hrun & Hlen & Hcells & _).
  exists cfs. unfold GetTaylorCoeffs, taylor_loop. rewrite Hrun. split; [done|]. split; [lia | done].
Qed.

End SlauProps.

(** ** Concrete runs *)

(** Exact rational arithmetic for [float], and polynomials as lists of
    coefficients, for the concrete runs. *)
Module SlauExamples.
Import QArith.
Open Scope Z_scope.

#[export] Instance q_float : FloatOps Q := {
  fzero := 0; fone := 1; fhalf := 1 # 2; fneg := Qopp; fadd := Qplus; fsub := Qminus;
  fmul := Qmult; fdiv := Qdiv; feq0 := fun x => Qeq_bool x 0%Q; f_of_Z := inject_Z }.

#[export] Instance q_float_laws : FloatLaws Q := { feq0_fzero := eq_refl }.

#[export] Instance q_poly : PolyOps Q (list Q) := {
  pnew := fun n => replicate (Z.to_nat (n + 1)) 0%Q;
  pset := fun q k v => <[Z.to_nat k := v]> q;
  padd := fun q r m => zip_with (fun a b => (a + m * b)%Q) q r;
  pget := fun q k => nth (Z.to_nat k) q 0%Q;
  pdiv := fun q x => map (fun a => (a / x)%Q) q }.

(** Order 3, center 2, no boundary rows: the velocities 1, 3, 4. *)
Definition cs : env_case := mkEnvCase 0 0 0 0 3 3 2 2 false false false false.

Definition sys3 : slau (F:=Q) (P:=list Q) :=
  match Slau_new cs 1 (mkMem 100) with Ok (s, _) => s | UB => mkSlau 0 None None end.

Lemma Trianglize_upper_witness :
  exists s', Trianglize sys3 = Ok s' /\ wf s' /\ p s' = p sys3 /\
    forall r c, 0 <= c < r /\ r < p sys3 -> zero_at s' r c = true.
Proof. apply (Trianglize_upper sys3). apply wfb_wf. vm_compute. reflexivity. Defined.

Lemma Slau_new_rows_witness :
  (1 + 0 <= 2 <= 3 + 1 ->
     exists s m', Slau_new (F:=Q) (P:=list Q) cs 1 (mkMem 100) = Ok (s, m') /\ wf s /\ p s = 3 /\
       avail m' = avail (mkMem 100) - 2 * 3 - 3 * (1 + 3)) /\
  (2 < 1 + 0 \/ 3 + 1 < 2 -> Slau_new (F:=Q) (P:=list Q) cs 1 (mkMem 100) = UB).
Proof. apply (Slau_new_rows cs 1 0 0 3 2 false false (mkMem 100)); [reflexivity | lia]. Defined.

Lemma Slau_leaks_polynomials_witness :
  exists s m1 m2, Slau_new (F:=Q) (P:=list Q) cs 1 (mkMem 100) = Ok (s, m1) /\
    Slau_delete s m1 = Ok (mkSlau 3 None None, m2) /\ avail m2 = avail (mkMem 100) - 3.
Proof. apply (Slau_leaks_polynomials cs 1 0 0 3 2 false false); [reflexivity | lia | lia]. Defined.

Lemma SeekRow_first_witness :
  exists m, SeekRow sys3 0 = Ok m /\
    ((m = -1 /\ forall r, 0 <= r < p sys3 -> zero_at sys3 r 0 = true) \/
     (0 <= m < p sys3 /\ zero_at sys3 m 0 = false /\ forall r, 0 <= r < m -> zero_at sys3 r 0 = true)).
Proof.
  apply (SeekRow_first sys3 0); [apply wfb_wf; vm_compute; reflexivity | change (p sys3) with 3; lia].
Defined.

Lemma GetTaylorCoeffs_spec_witness :
  exists cfs, GetTaylorCoeffs (1 # 2) 3 (mkMem 10) = Ok (cfs, mkMem (avail (mkMem 10) - 3)) /\
    Z.of_nat (length cfs) = 3 /\
    (forall j, 0 <= j < 3 -> cfs !! Z.to_nat j = Some (Some (fdiv (fpow (1 # 2) (j + 1)) (ffact (j + 1))))).
Proof. apply (GetTaylorCoeffs_spec (1 # 2) 3 (mkMem 10)). lia. Defined.

Lemma SolveForSecondDerivative_total_witness :
  (2 <= p sys3 -> exists q s', SolveForSecondDerivative sys3 (mkMem 10) = Ok ((q, s'), mkMem (avail (mkMem 10) - (p sys3 - 1))) /\
                     wf s' /\ p s' = p sys3) /\
  (p sys3 < 2 -> SolveForSecondDerivative sys3 (mkMem 10) = UB).
Proof. apply (SolveForSecondDerivative_total sys3 (mkMem 10)). apply wfb_wf. vm_compute. reflexivity. Defined.

(** Order 1, center 1: the one velocity 2. *)
Definition cs1 : env_case := mkEnvCase 0 0 0 0 1 1 1 1 false false false false.

(** For a system of order 1, [SolveForSecondDerivative] allocates
    [sols = new Polynom*[0]], its loop does not run, and [return
    *(sols[0])] reads past the end of [sols]: undefined behaviour. *)
Example SolveForSecondDerivative_order_one_UB :
  exists s m, Slau_new (F:=Q) (P:=list Q) cs1 1 (mkMem 10) = Ok (s, m) /\ SolveForSecondDerivative s m = UB.
Proof. eexists _, _. split; [vm_compute; reflexivity | vm_compute; reflexivity]. Qed.

(** The system of order 3 solved: the second derivative stencil
    [1, -2, 1] at the velocities around [center]. *)
Example SolveForSecondDerivative_order_three :
  match SolveForSecondDerivative sys3 (mkMem 0) with
  | Ok (q, _, _) => map (fun c => Qred c) q = [0; 1; -2; 1; 0]%Q
  | UB => False
  end.
Proof. vm_compute. reflexivity. Qed.

End SlauExamples.
