(* ===== verification/SlauExact.v ===== *)
(** * SlauExact: what [Slau.cpp] computes, in exact arithmetic

    [Slau.v] proves what holds whatever the rounding of [float]: the
    code is defined, the shape is kept, and the entries below the diagonal
    compare equal to [0.0f].  This file adds the laws of exact arithmetic
    (the class [ExactLaws]: [F] is a commutative ring where division by a
    nonzero number is exact, and [Polynom] is a vector of coefficients
    over [F]). Under these laws it proves the following:
    - [Trianglize()] keeps every solution of the system [A y = B]. [SwapRows]
      permutes the equations, and [AddToRow] adds a multiple of the pivot
      row whose columns before the pivot are zero.
    - The back substitution of [SolveForSecondDerivative()] solves rows
      [1 .. p - 1] of the triangular system.
    - So the polynomial the function returns is the unknown [1] (the
      second derivative) of every solution of the original system.
    - The function consumes the right-hand sides [B]: a second call
      solves a different system. *)

From Stdlib Require Import Ring.
From S2P Require Import Prelude Slau.
From Stdlib Require QArith Qcanon.
Import Slau.
Local Open Scope Z_scope.

(** Exact arithmetic: a commutative ring with exact division by nonzero
    numbers, [x == 0.0f] deciding [x = 0], and polynomials whose
    coefficients are combined one by one by [add] and [operator/]. *)
Class ExactLaws (F P : Type) `{FloatOps F} `{PolyOps F P} := {
  exact_ring : ring_theory fzero fone fadd fmul fsub fneg (@eq F);
  exact_feq0 x : feq0 x = true <-> x = fzero;
  exact_div u d : feq0 d = false -> fmul (fdiv u d) d = u;
  pget_padd q r m k : pget (padd q r m) k = fadd (pget q k) (fmul m (pget r k));
  pget_pdiv q d k : pget (pdiv q d) k = fdiv (pget q k) d
}.

Section Exact.
Context {F P : Type} `{FloatOps F} `{PolyOps F P} `{!ExactLaws F P}.
Add Ring fring : exact_ring.

#[local] Instance exact_float_laws : FloatLaws F.
Proof. constructor. by apply exact_feq0. Qed.

(** The number in [A[r][c]] and coefficient [k] of [*B[r]], where the
    system is full. *)
Definition cellA (s : slau (F:=F) (P:=P)) (r c : Z) : F :=
  match getA s r c with Ok v => v | UB => fzero end.
Definition coefB (s : slau (F:=F) (P:=P)) (r k : Z) : F :=
  match getB s r with Ok q => pget q k | UB => fzero end.

(** [a[c0] * x[c0] + a[c1] * x[c1] + ...] over the columns [cols]. *)
Definition row_dot (a x : Z -> F) (cols : list Z) : F :=
  fold_right (fun c acc => fadd (fmul (a c) (x c)) acc) fzero cols.

(** [y] solves every equation of [A y = B] in coefficient [k]. *)
Definition solves (s : slau (F:=F) (P:=P)) (y : Z -> F) (k : Z) : Prop :=
  forall r, 0 <= r < p s -> coefB s r k = row_dot (cellA s r) y (zrange 0 (p s)).

(** Coefficient [k] of [*sols[c - 1]], the unknown [c] the back
    substitution has computed. *)
Definition sol_at (sols : list (option P)) (c k : Z) : F :=
  match zlookup sols (c - 1) with Some (Some q) => pget q k | _ => fzero end.

Lemma row_dot_app a x l1 l2 : row_dot a x (l1 ++ l2) = fadd (row_dot a x l1) (row_dot a x l2).
Proof. unfold row_dot. rewrite fold_right_app. induction l1 as [|c l1 IH]; simpl; [ring | rewrite IH; ring]. Qed.

Lemma row_dot_ext a a' x x' l :
  (forall c, c ∈ l -> fmul (a c) (x c) = fmul (a' c) (x' c)) -> row_dot a x l = row_dot a' x' l.
Proof.
  unfold row_dot. induction l as [|c l IH]; intros Hl; simpl; [done|].
  rewrite Hl, IH by set_solver. done.
Qed.

Lemma row_dot_lin a b m x l :
  row_dot (fun c => fadd (a c) (fmul m (b c))) x l = fadd (row_dot a x l) (fmul m (row_dot b x l)).
Proof. unfold row_dot. induction l as [|c l IH]; simpl; [ring | rewrite IH; ring]. Qed.

Lemma row_dot_zero a x l : (forall c, c ∈ l -> a c = fzero) -> row_dot a x l = fzero.
Proof.
  intros Hz. transitivity (row_dot (fun _ => fzero) x l).
  - apply row_dot_ext. intros c Hc. rewrite Hz by done. ring.
  - clear Hz. unfold row_dot. induction l as [|c l IH]; simpl; [done | rewrite IH; ring].
Qed.

Lemma row_dot_cons a x c l : row_dot a x (c :: l) = fadd (fmul (a c) (x c)) (row_dot a x l).
Proof. done. Qed.

(** The first iteration of a loop [for (c = lo; c < hi; c++)], and row [r]. *)
Lemma zrange_cons lo hi : lo < hi -> zrange lo hi = lo :: zrange (lo + 1) hi.
Proof. intros Hr. unfold zrange. rewrite seqZ_cons by lia. f_equal. f_equal; lia. Qed.

Lemma zrange_at lo r hi : lo <= r < hi -> zrange lo hi = zrange lo r ++ r :: zrange (r + 1) hi.
Proof. intros Hr. rewrite (zrange_split lo r hi), (zrange_cons r hi) by lia. done. Qed.

Lemma cellA_eq (s s' : slau (F:=F) (P:=P)) : A s' = A s -> cellA s' = cellA s.
Proof. unfold cellA, getA. intros ->. done. Qed.

Lemma cellA_get (s : slau (F:=F) (P:=P)) r c : wf s -> 0 <= r < p s -> 0 <= c < p s -> getA s r c = Ok (cellA s r c).
Proof. intros Hwf Hr Hc. destruct (wf_getA s r c Hwf Hr Hc) as [v Hv]. unfold cellA. rewrite Hv. done. Qed.

Lemma coefB_eq (s s' : slau (F:=F) (P:=P)) r r' : getB s' r = getB s r' -> coefB s' r = coefB s r'.
Proof. unfold coefB. intros ->. done. Qed.

Lemma cellA_row (s s' : slau (F:=F) (P:=P)) r r' c : getA s' r c = getA s r' c -> cellA s' r c = cellA s r' c.
Proof. unfold cellA. intros ->. done. Qed.

(** An entry that compares equal to [0.0f] is zero. *)
Lemma zero_at_cellA (s : slau (F:=F) (P:=P)) r c : zero_at s r c = true -> cellA s r c = fzero.
Proof. unfold zero_at, cellA. destruct (getA s r c); [apply exact_feq0 | done]. Qed.

Lemma zero_at_cellA_false (s : slau (F:=F) (P:=P)) r c :
  wf s -> 0 <= r < p s -> 0 <= c < p s -> zero_at s r c = false -> feq0 (cellA s r c) = false.
Proof. intros Hwf Hr Hc. unfold zero_at. rewrite (cellA_get s r c Hwf Hr Hc). done. Qed.

Lemma coefB_get (s : slau (F:=F) (P:=P)) r q k : getB s r = Ok q -> coefB s r k = pget q k.
Proof. unfold coefB. intros ->. done. Qed.

(** [float mult = -A[row][ccol] / A[ccol][ccol]] of [AddToRow]. *)
Definition pivot_mult (s : slau (F:=F) (P:=P)) (r ccol : Z) : F :=
  fdiv (fneg (cellA s r ccol)) (cellA s ccol ccol).

(** A nonzero factor cancels. *)
Lemma fmul_cancel d x y : feq0 d = false -> fmul d x = fmul d y -> x = y.
Proof.
  intros Hd E. pose proof (exact_div fone d Hd) as Hinv.
  transitivity (fmul (fmul (fdiv fone d) d) x); [rewrite Hinv; ring|].
  transitivity (fmul (fmul (fdiv fone d) d) y); [|rewrite Hinv; ring].
  rewrite <- !(Rmul_assoc exact_ring), E. done.
Qed.

(** ** Back substitution *)

(** The inner loop [for (col = resIdx + 1; col < p; col++)] subtracts
    [A[resIdx][col] * sols[col - 1]] from [*B[resIdx]], in place. *)
Lemma back_col_val (s : slau (F:=F) (P:=P)) resIdx sols cols :
  wf s -> 0 <= resIdx < p s ->
  Forall (fun col => 0 <= col < p s /\ exists q, zlookup sols (col - 1) = Some (Some q)) cols ->
  exists s', ofold_left (back_col resIdx sols) cols s = Ok s' /\ wf s' /\ p s' = p s /\ A s' = A s /\
    (forall r, r <> resIdx -> getB s' r = getB s r) /\
    forall k, coefB s' resIdx k = fsub (coefB s resIdx k) (row_dot (cellA s resIdx) (fun c => sol_at sols c k) cols).
Proof.
  revert s. induction cols as [|col cols IH]; intros s Hwf Hr Hcols.
  { exists s. split_and!; try done. intros k. unfold row_dot. simpl. ring. }
  apply Forall_cons in Hcols as ((Hc & q & Hq) & Hcols). cbn [ofold_left]. unfold back_col at 1.
  rewrite (cellA_get s resIdx col Hwf Hr Hc). destruct (wf_getB s resIdx Hwf Hr) as [br Hbr]. rewrite Hbr.
  simpl. rewrite Hq. simpl.
  match goal with |- context [setB s resIdx (Some ?b)] =>
    destruct (wf_setB s resIdx b Hwf Hr) as (s1 & -> & Hwf1 & Hp1 & HA1 & HB1) end. simpl.
  rewrite <- Hp1 in Hr, Hcols. destruct (IH s1 Hwf1 Hr Hcols) as (s' & Hrun & Hwf' & Hp' & HA' & HB' & Hk).
  exists s'. split_and!; [done | done | congruence | congruence | |].
  - intros r Hne. rewrite HB', HB1 by done. rewrite (proj2 (Z.eqb_neq resIdx r)) by congruence. done.
  - intros k. rewrite Hk, (cellA_eq s s1 HA1). rewrite (coefB_get s1 resIdx _ k) by (rewrite HB1, Z.eqb_refl; done).
    rewrite (coefB_get s resIdx br k Hbr), pget_padd. unfold row_dot at 2. simpl. unfold sol_at at 2. rewrite Hq.
    fold (row_dot (cellA s resIdx) (fun c => sol_at sols c k) cols). ring.
Qed.

(** One iteration [resIdx] of the outer loop: with a nonzero pivot,
    [sols[resIdx - 1] = *B[resIdx] / A[resIdx][resIdx]] makes equation
    [resIdx] hold, given the unknowns already computed. *)
Lemma back_row_val (s : slau (F:=F) (P:=P)) sols r :
  wf s -> 1 <= r < p s -> Z.of_nat (length sols) = p s - 1 -> feq0 (cellA s r r) = false ->
  (forall c, r < c < p s -> exists q, zlookup sols (c - 1) = Some (Some q)) ->
  exists s' sols', back_row (s, sols) r = Ok (s', sols') /\ wf s' /\ p s' = p s /\ A s' = A s /\
    (forall r', r' <> r -> getB s' r' = getB s r') /\ length sols' = length sols /\
    (forall c, c <> r -> zlookup sols' (c - 1) = zlookup sols (c - 1)) /\
    (exists q, zlookup sols' (r - 1) = Some (Some q)) /\
    (forall k, coefB s' r k = fmul (cellA s r r) (sol_at sols' r k)) /\
    forall k, coefB s r k = fadd (fmul (cellA s r r) (sol_at sols' r k))
                                 (row_dot (cellA s r) (fun c => sol_at sols c k) (zrange (r + 1) (p s))).
Proof.
  intros Hwf Hr Hl Hd Hsols. unfold back_row.
  destruct (back_col_val s r sols (zrange (r + 1) (p s)) Hwf ltac:(lia)) as (s' & -> & Hwf' & Hp' & HA' & HB' & Hk).
  { apply Forall_forall. intros col Hc%elem_of_zrange. split; [lia|]. apply Hsols. lia. }
  simpl. destruct (wf_getB s' r Hwf' ltac:(lia)) as [br Hbr]. rewrite Hbr. simpl.
  rewrite (cellA_get s' r r Hwf' ltac:(lia) ltac:(lia)). simpl. rewrite (cellA_eq s s' HA').
  rewrite zinsert_ok by lia. simpl. eexists _, _. split; [reflexivity|].
  split_and!; [done | done | done | done | apply length_insert | | | |].
  - intros c Hc. rewrite zlookup_insert, (proj2 (Z.eqb_neq (r - 1) (c - 1))) by lia. done.
  - rewrite zlookup_insert, Z.eqb_refl by lia. eauto.
  - intros k. unfold sol_at. rewrite zlookup_insert, Z.eqb_refl, pget_pdiv by lia.
    rewrite (coefB_get s' r br k Hbr), (Rmul_comm exact_ring), exact_div by done. done.
  - intros k. unfold sol_at at 1. rewrite zlookup_insert, Z.eqb_refl, pget_pdiv by lia.
    rewrite <- (coefB_get s' r br k Hbr), Hk, (Rmul_comm exact_ring), exact_div by done. ring.
Qed.

(** The outer loop [for (resIdx = p - 1; resIdx > 0; resIdx--)] with
    nonzero pivots solves rows [1 .. p - 1] of the triangular system:
    equation [r] holds over the columns [r .. p - 1]. *)
Lemma back_loop_val (s : slau (F:=F) (P:=P)) :
  wf s -> 1 <= p s -> (forall r, 1 <= r < p s -> feq0 (cellA s r r) = false) ->
  exists s' sols, ofold_left back_row (rev (zrange 1 (p s))) (s, replicate (Z.to_nat (p s - 1)) None) = Ok (s', sols) /\
    wf s' /\ p s' = p s /\ (forall c, 1 <= c < p s -> exists q, zlookup sols (c - 1) = Some (Some q)) /\
    (forall r k, 1 <= r < p s -> coefB s r k = row_dot (cellA s r) (fun c => sol_at sols c k) (zrange r (p s))) /\
    A s' = A s /\ getB s' 0 = getB s 0 /\
    (forall r k, 1 <= r < p s -> coefB s' r k = fmul (cellA s r r) (sol_at sols r k)).
Proof.
  intros Hwf Hp Hpiv.
  loop_invariant (fun (pre : list Z) (acc : slau (F:=F) (P:=P) * list (option P)) =>
    wf acc.1 /\ p acc.1 = p s /\ A acc.1 = A s /\ Z.of_nat (length acc.2) = p s - 1 /\
    (forall r, r < p s - Z.of_nat (length pre) -> getB acc.1 r = getB s r) /\
    (forall c, p s - Z.of_nat (length pre) <= c < p s -> exists q, zlookup acc.2 (c - 1) = Some (Some q)) /\
    (forall r k, p s - Z.of_nat (length pre) <= r < p s ->
       coefB s r k = row_dot (cellA s r) (fun c => sol_at acc.2 c k) (zrange r (p s))) /\
    (forall r k, p s - Z.of_nat (length pre) <= r < p s -> coefB acc.1 r k = fmul (cellA s r r) (sol_at acc.2 r k))).
  destruct Hloop as ([s' sols] & Hrun & Hwf' & Hp' & HA' & _ & HB' & Hcells & Heq & Hres).
  - simpl. split_and!; [done | done | done | rewrite length_replicate; lia | done | intros; lia | intros; lia | intros; lia].
  - intros pre x rest [s1 sols1] Hl (Hwf1 & Hp1 & HA1 & Hl1 & HB1 & Hc1 & He1 & Hr1). cbn [fst snd] in *.
    apply zrange_rev_app_cons in Hl as [Hx Hxr].
    destruct (back_row_val s1 sols1 x Hwf1 ltac:(lia) ltac:(lia))
      as (s2 & sols2 & -> & Hwf2 & Hp2 & HA2 & HB2 & Hl2 & Hsame & Hnew & Hres2 & Hk).
    { rewrite (cellA_eq s s1 HA1). apply Hpiv. lia. }
    { intros c Hc. apply Hc1. lia. }
    assert (Hsol : forall c k, c <> x -> sol_at sols2 c k = sol_at sols1 c k)
      by (intros c k Hc; unfold sol_at; rewrite Hsame by done; done).
    eexists. split; [reflexivity|]. cbn [fst snd]. rewrite length_app. simpl.
    split_and!; [done | congruence | congruence | lia | | | |].
    + intros r Hr. rewrite HB2 by lia. apply HB1. lia.
    + intros c Hc. destruct (Z.eq_dec c x) as [->|Hne]; [done|]. rewrite Hsame by done. apply Hc1. lia.
    + intros r k Hr. destruct (Z.eq_dec r x) as [->|Hne].
      * rewrite (coefB_eq s s1 x x) in Hk by (apply HB1; lia). rewrite (cellA_eq s s1 HA1), Hp1 in Hk.
        rewrite Hk, (zrange_cons x (p s)), row_dot_cons by lia. f_equal.
        apply row_dot_ext. intros c Hc%elem_of_zrange. rewrite Hsol by lia. done.
      * rewrite He1 by lia. apply row_dot_ext. intros c Hc%elem_of_zrange. rewrite Hsol by lia. done.
    + intros r k Hr. rewrite (cellA_eq s s1 HA1) in Hres2. destruct (Z.eq_dec r x) as [->|Hne]; [done|].
      rewrite (coefB_eq s1 s2 r r), Hr1, Hsol by (auto || lia). done.
  - rewrite length_rev, zrange_length in *. exists s', sols. split_and!; [done | done | done | | | done | | ].
    + intros c Hc. apply Hcells. lia.
    + intros r k Hr. apply Heq. lia.
    + apply HB'. lia.
    + intros r k Hr. apply Hres. lia.
Qed.

(** ** Elimination *)

(** The inner loop of [AddToRow(r, ccol)] adds [mult] times row [ccol]
    to row [r], from column [ccol] on. *)
Lemma add_row_val (s : slau (F:=F) (P:=P)) r ccol mult :
  wf s -> 0 <= r < p s -> 0 <= ccol < p s -> r <> ccol ->
  exists s1, ofold_left (fun s i =>
                          let? a := getA s r i in
                          let? b := getA s ccol i in
                          setA s r i (fadd a (fmul mult b)))
                       (zrange ccol (p s)) s = Ok s1 /\
    wf s1 /\ p s1 = p s /\ B s1 = B s /\
    (forall r' c, r' <> r -> getA s1 r' c = getA s r' c) /\
    (forall c, 0 <= c < p s ->
       cellA s1 r c = if c <? ccol then cellA s r c else fadd (cellA s r c) (fmul mult (cellA s ccol c))).
Proof.
  intros Hwf Hr Hc Hne.
  loop_invariant (fun (pre : list Z) (s1 : slau (F:=F) (P:=P)) => wf s1 /\ p s1 = p s /\ B s1 = B s /\
    (forall r' c, r' <> r -> getA s1 r' c = getA s r' c) /\
    (forall c, 0 <= c < p s ->
       cellA s1 r c = if bool_decide (c ∈ pre) then fadd (cellA s r c) (fmul mult (cellA s ccol c)) else cellA s r c)).
  destruct Hloop as (s1 & Hrun & Hwf1 & Hp1 & HB1 & Hrow1 & Hcol1).
  - split_and!; done.
  - intros pre i rest s1 Hl (Hwf1 & Hp1 & HB1 & Hrow1 & Hcol1).
    pose proof (zrange_app_cons_range _ _ _ _ _ Hl). pose proof (zrange_app_cons_notin _ _ _ _ _ Hl).
    rewrite (cellA_get s1 r i Hwf1 ltac:(lia) ltac:(lia)), (cellA_get s1 ccol i Hwf1 ltac:(lia) ltac:(lia)). simpl.
    destruct (wf_setA s1 r i (fadd (cellA s1 r i) (fmul mult (cellA s1 ccol i))) Hwf1 ltac:(lia) ltac:(lia))
      as (s2 & Hset & Hwf2 & Hp2 & HB2 & Hget2).
    exists s2. split; [done|]. split_and!; [done | congruence | congruence | |].
    + intros r' c Hr'. rewrite Hget2, (proj2 (Z.eqb_neq r r')) by done. simpl. auto.
    + intros c Hc'. rewrite bool_decide_elem_of_snoc. unfold cellA at 1. rewrite Hget2, Z.eqb_refl. simpl.
      rewrite (cellA_row s s1 ccol ccol i) by auto. rewrite Hcol1 by lia.
      destruct (Z.eqb_spec i c) as [<-|Hic].
      * rewrite (bool_decide_eq_false_2 (i ∈ pre)), (bool_decide_eq_true_2 (i = i)) by done. done.
      * rewrite (bool_decide_eq_false_2 (c = i)) by done. rewrite orb_false_r. fold (cellA s1 r c).
        rewrite Hcol1 by lia. done.
  - exists s1. split_and!; try done. intros c Hc'. rewrite Hcol1 by done.
    destruct (Z.ltb_spec c ccol); [rewrite bool_decide_eq_false_2 | rewrite bool_decide_eq_true_2];
      rewrite ?elem_of_zrange; try done; lia.
Qed.

(** [AddToRow(r, ccol)] for [r <> ccol]: nothing when [A[r][ccol]]
    compares equal to [0.0f]; otherwise row [r] of [A] and [*B[r]] get
    [mult] times row [ccol], and [A[r][ccol]] is set to [0]. *)
Lemma AddToRow_rowop (s : slau (F:=F) (P:=P)) r ccol :
  wf s -> 0 <= r < p s -> 0 <= ccol < p s -> r <> ccol ->
  exists s', AddToRow s r ccol = Ok s' /\ wf s' /\ p s' = p s /\
    (forall r' c, r' <> r -> getA s' r' c = getA s r' c) /\ (forall r', r' <> r -> getB s' r' = getB s r') /\
    ((feq0 (cellA s r ccol) = true /\ s' = s) \/
     (feq0 (cellA s r ccol) = false /\
      (forall c, 0 <= c < p s -> cellA s' r c =
         if c =? ccol then fzero else if c <? ccol then cellA s r c
         else fadd (cellA s r c) (fmul (pivot_mult s r ccol) (cellA s ccol c))) /\
      forall k, coefB s' r k = fadd (coefB s r k) (fmul (pivot_mult s r ccol) (coefB s ccol k)))).
Proof.
  intros Hwf Hr Hc Hne. unfold AddToRow. rewrite (cellA_get s r ccol Hwf Hr Hc). simpl.
  destruct (feq0 (cellA s r ccol)) eqn:Ex; [exists s; split_and!; try done; left; done|].
  rewrite (cellA_get s ccol ccol Hwf Hc Hc). simpl. fold (pivot_mult s r ccol).
  destruct (add_row_val s r ccol (pivot_mult s r ccol) Hwf Hr Hc Hne) as (s1 & Hrun & Hwf1 & Hp1 & HB1 & Hrow1 & Hcol1).
  rewrite Hrun. simpl.
  destruct (wf_getB s1 r Hwf1 ltac:(lia)) as [br Hbr]. destruct (wf_getB s1 ccol Hwf1 ltac:(lia)) as [bc Hbc].
  rewrite Hbr, Hbc. simpl.
  destruct (wf_setB s1 r (padd br bc (pivot_mult s r ccol)) Hwf1 ltac:(lia)) as (s2 & Hs2 & Hwf2 & Hp2 & HA2 & HB2).
  rewrite Hs2. simpl.
  destruct (wf_setA s2 r ccol fzero Hwf2 ltac:(lia) ltac:(lia)) as (s3 & Hs3 & Hwf3 & Hp3 & HB3 & Hget3).
  assert (HB1' : forall r', getB s1 r' = getB s r') by (intros; unfold getB; rewrite HB1; done).
  assert (HA2' : forall r' c, getA s2 r' c = getA s1 r' c) by (intros; unfold getA; rewrite HA2; done).
  assert (HB3' : forall r', getB s3 r' = getB s2 r') by (intros; unfold getB; rewrite HB3; done).
  exists s3. split_and!; [done | done | congruence | | | right; split_and!; [done | |]].
  - intros r' c Hr'. rewrite Hget3, (proj2 (Z.eqb_neq r r')), HA2' by done. simpl. auto.
  - intros r' Hr'. rewrite HB3', HB2, (proj2 (Z.eqb_neq r r')) by done. auto.
  - intros c Hc'. unfold cellA at 1. rewrite Hget3, Z.eqb_refl. simpl. destruct (Z.eqb_spec ccol c) as [<-|Hcc].
    + rewrite Z.eqb_refl. done.
    + rewrite (proj2 (Z.eqb_neq c ccol)) by lia. fold (cellA s2 r c).
      rewrite (cellA_row s1 s2 r r c) by apply HA2'. apply Hcol1. lia.
  - intros k. rewrite (coefB_get s3 r (padd br bc (pivot_mult s r ccol)) k) by (rewrite HB3', HB2, Z.eqb_refl; done).
    rewrite pget_padd, <- (coefB_get s1 r br k Hbr), <- (coefB_get s1 ccol bc k Hbc), !(coefB_eq s s1 _ _ (HB1' _)). done.
Qed.

(** In exact arithmetic that row operation keeps every solution, when
    the pivot is nonzero and row [ccol] is zero before column [ccol]:
    the entry [A[r][ccol]] the code sets to [0] is the one the
    operation would compute. *)
Lemma AddToRow_solves (s : slau (F:=F) (P:=P)) r ccol y k :
  wf s -> 0 <= r < p s -> 0 <= ccol < p s -> r <> ccol ->
  (feq0 (cellA s r ccol) = false -> feq0 (cellA s ccol ccol) = false) ->
  (forall c, 0 <= c < ccol -> cellA s ccol c = fzero) ->
  solves s y k ->
  exists s', AddToRow s r ccol = Ok s' /\ wf s' /\ p s' = p s /\
    (forall r' c, r' <> r -> getA s' r' c = getA s r' c) /\ solves s' y k.
Proof.
  intros Hwf Hr Hc Hne Hpiv Hzero Hsol.
  destruct (AddToRow_rowop s r ccol Hwf Hr Hc Hne)
    as (s' & Hrun & Hwf' & Hp' & HA' & HB' & [(_ & ->)|(Hx & Hcell & Hcoef)]); [exists s; split_and!; done|].
  exists s'. split_and!; try done. intros r' Hr'. rewrite Hp' in Hr' |- *.
  destruct (Z.eq_dec r' r) as [->|Hne'].
  - rewrite Hcoef, !Hsol by lia. rewrite <- row_dot_lin. apply row_dot_ext. intros c Hc'%elem_of_zrange. f_equal.
    rewrite Hcell by lia. destruct (Z.eqb_spec c ccol) as [->|Hcc]; [|destruct (Z.ltb_spec c ccol)].
    + unfold pivot_mult. rewrite exact_div by auto. ring.
    + rewrite Hzero by lia. ring.
    + done.
  - rewrite (coefB_eq s s' r' r'), Hsol by auto. apply row_dot_ext. intros c _.
    rewrite (cellA_row s s' r' r' c) by auto. done.
Qed.

(** The elimination loop of column [cl]: with a nonzero pivot, or a
    column that is already zero below it, every solution is kept. *)
Lemma elim_solves (s : slau (F:=F) (P:=P)) cl y k :
  wf s -> 0 <= cl < p s ->
  (forall c, 0 <= c < cl -> cellA s cl c = fzero) ->
  (feq0 (cellA s cl cl) = false \/ forall r, cl < r < p s -> feq0 (cellA s r cl) = true) ->
  solves s y k ->
  exists s', ofold_left (fun s r => AddToRow s r cl) (zrange (cl + 1) (p s)) s = Ok s' /\ solves s' y k.
Proof.
  intros Hwf Hcl Hzero Hpiv Hsol.
  loop_invariant (fun (pre : list Z) (s1 : slau (F:=F) (P:=P)) => wf s1 /\ p s1 = p s /\
    (forall r c, r ∉ pre -> getA s1 r c = getA s r c) /\ solves s1 y k).
  destruct Hloop as (s' & Hrun & _ & _ & _ & Hsol'); [split_and!; done | | eauto].
  intros pre r rest s1 Hl (Hwf1 & Hp1 & Hrow1 & Hsol1).
  pose proof (zrange_app_cons_range _ _ _ _ _ Hl). pose proof (zrange_app_cons_notin _ _ _ _ _ Hl).
  assert (Hcl_pre : cl ∉ pre).
  { intros Hin. assert (Hz : cl ∈ zrange (cl + 1) (p s)) by (rewrite Hl; set_solver). apply elem_of_zrange in Hz. lia. }
  destruct (AddToRow_solves s1 r cl y k Hwf1 ltac:(lia) ltac:(lia) ltac:(lia)) as (s2 & Hrun & Hwf2 & Hp2 & Hrow2 & Hsol2).
  - rewrite (cellA_row s s1 r r cl), (cellA_row s s1 cl cl cl) by auto.
    intros Hx. destruct Hpiv as [|Hz]; [done|]. rewrite Hz in Hx by lia. done.
  - intros c Hc. rewrite (cellA_row s s1 cl cl c) by auto. auto.
  - done.
  - exists s2. split; [done|]. split_and!; [done | congruence | | done].
    intros r' c Hr'. rewrite Hrow2 by set_solver. apply Hrow1. set_solver.
Qed.

(** [Trianglize()] keeps every solution of [A y = B]. *)
Lemma Trianglize_solves (s s1 : slau (F:=F) (P:=P)) y k :
  wf s -> Trianglize s = Ok s1 -> solves s y k -> solves s1 y k.
Proof.
  intros Hwf Ht Hsol. pose proof Hwf as (Hp & _). unfold Trianglize in Ht. revert Ht.
  loop_invariant (fun (pre : list Z) (s1 : slau (F:=F) (P:=P)) => wf s1 /\ p s1 = p s /\
    (forall r c, 0 <= c < Z.of_nat (length pre) -> c < r < p s -> zero_at s1 r c = true) /\ solves s1 y k).
  destruct Hloop as (s' & Hrun & _ & _ & _ & Hsol'); [split_and!; try done; simpl; lia | | rewrite Hrun; intros [= <-]; done].
  intros pre cl rest s2 Hl (Hwf2 & Hp2 & Hz2 & Hsol2).
  pose proof (zrange_app_cons_range _ _ _ _ _ Hl). pose proof (zrange_app_cons _ _ _ _ _ Hl) as Hcl.
  destruct (Trianglize_col s2 cl Hwf2 ltac:(lia))
    as (m & s3 & s4 & Hm & Hsw & Hel & Hwf3 & Hp3 & HA3 & HB3 & Hpiv & Hwf4 & Hp4 & Hz4).
  { intros r c Hc Hr. apply Hz2; lia. }
  rewrite Hm. simpl. rewrite Hsw. simpl. rewrite Hel. eexists. split; [reflexivity|].
  split_and!; [done | congruence | intros r c Hc Hr; rewrite length_app in Hc; simpl in Hc; apply Hz4; lia |].
  set (sw := fun r => if m =? -1 then r else swap_idx cl m r).
  assert (Hsw_range : forall r, 0 <= r < p s2 -> 0 <= sw r < p s2 /\ (r = cl -> cl <= sw r)).
  { intros r Hr. unfold sw, swap_idx.
    destruct (Z.eqb_spec m (-1)), (Z.eqb_spec r cl), (Z.eqb_spec r m); destruct Hpiv as [[? ?]|[? ?]]; lia. }
  assert (Hsol3 : solves s3 y k).
  { intros r Hr. rewrite Hp3 in Hr |- *. rewrite (coefB_eq s2 s3 r (sw r)), Hsol2 by (apply HB3 || apply Hsw_range; done).
    apply row_dot_ext. intros c _. rewrite (cellA_row s2 s3 r (sw r) c) by apply HA3. done. }
  destruct (elim_solves s3 cl y k Hwf3 ltac:(lia)) as (s4' & Hel' & Hsol4).
  - intros c Hc. rewrite (cellA_row s2 s3 cl (sw cl) c) by apply HA3. apply zero_at_cellA.
    destruct (Hsw_range cl ltac:(lia)) as [? Hge]. specialize (Hge eq_refl). apply Hz2; lia.
  - destruct Hpiv as [[-> Hall]|[Hmr Hnz]].
    + right. intros r Hr. rewrite (cellA_row s2 s3 r r cl) by (rewrite HA3; done).
      rewrite (zero_at_cellA _ _ _ (Hall r ltac:(lia))). by apply exact_feq0.
    + left. rewrite (cellA_row s2 s3 cl m cl)
        by (rewrite HA3, (proj2 (Z.eqb_neq m (-1))) by lia; unfold swap_idx; rewrite Z.eqb_refl; done).
      apply zero_at_cellA_false; [done | lia | lia | done].
  - done.
  - rewrite Hp3 in Hel'. rewrite Hel' in Hel. injection Hel as <-. done.
Qed.

(** A triangular system with nonzero pivots in rows [1 .. p - 1] fixes
    the unknowns [1 .. p - 1]: the values the back substitution computes
    are those of every solution. *)
Lemma triangular_unique (s : slau (F:=F) (P:=P)) x y k :
  (forall r c, 0 <= c < r -> r < p s -> cellA s r c = fzero) ->
  (forall r, 1 <= r < p s -> feq0 (cellA s r r) = false) ->
  (forall r, 1 <= r < p s -> coefB s r k = row_dot (cellA s r) x (zrange r (p s))) ->
  solves s y k ->
  forall c, 1 <= c < p s -> x c = y c.
Proof.
  intros Hz Hpiv Hx Hy.
  assert (Hn : forall n : nat, forall c, p s - Z.of_nat n <= c < p s -> 1 <= c -> x c = y c).
  { induction n as [|n IH]; intros c Hc H1; [lia|].
    destruct (Z.eq_dec c (p s - Z.of_nat (S n))) as [->|Hne]; [|apply IH; lia].
    set (r := p s - Z.of_nat (S n)) in *.
    apply (fmul_cancel (cellA s r r)); [apply Hpiv; lia|].
    assert (Htail : row_dot (cellA s r) x (zrange (r + 1) (p s)) = row_dot (cellA s r) y (zrange (r + 1) (p s))).
    { apply row_dot_ext. intros c' Hc'%elem_of_zrange. rewrite IH by lia. done. }
    pose proof (Hx r ltac:(lia)) as Er. rewrite (zrange_cons r (p s)), row_dot_cons in Er by lia.
    pose proof (Hy r ltac:(lia)) as Ey. rewrite (zrange_at 0 r (p s)), row_dot_app, row_dot_cons in Ey by lia.
    rewrite (row_dot_zero _ _ (zrange 0 r)) in Ey by (intros c' Hc'%elem_of_zrange; apply Hz; lia).
    transitivity (fsub (coefB s r k) (row_dot (cellA s r) y (zrange (r + 1) (p s)))).
    - rewrite Er, Htail. ring.
    - rewrite Ey. ring. }
  intros c Hc. apply (Hn (Z.to_nat (p s))); lia.
Qed.

(** The run of [SolveForSecondDerivative()] in exact arithmetic: the
    unknowns [sols] solve the triangular rows, [A] is unchanged, and each
    [*B[r]] of rows [1 .. p - 1] is left holding [A[r][r] * sols[r - 1]]. *)
Lemma Solve_exact_run (s s1 : slau (F:=F) (P:=P)) m :
  wf s -> 2 <= p s -> Trianglize s = Ok s1 ->
  (forall r, 1 <= r < p s -> feq0 (cellA s1 r r) = false) ->
  exists q s2 sols, SolveForSecondDerivative s m = Ok ((q, s2), mkMem (avail m - (p s - 1))) /\
    zlookup sols 0 = Some (Some q) /\ wf s1 /\ p s1 = p s /\
    (forall r c, 0 <= c < r -> r < p s -> cellA s1 r c = fzero) /\
    (forall r k, 1 <= r < p s -> coefB s1 r k = row_dot (cellA s1 r) (fun c => sol_at sols c k) (zrange r (p s))) /\
    A s2 = A s1 /\ getB s2 0 = getB s1 0 /\
    (forall r k, 1 <= r < p s -> coefB s2 r k = fmul (cellA s1 r r) (sol_at sols r k)).
Proof.
  intros Hwf Hp Ht Hpiv.
  destruct (Trianglize_spec s Hwf) as (s1' & Ht' & Hwf1 & Hp1 & Hz). rewrite Ht in Ht'. injection Ht' as <-.
  rewrite <- Hp1 in Hpiv |- *.
  destruct (back_loop_val s1 Hwf1 ltac:(lia) Hpiv) as (s2 & sols & Hb & Hwf2 & Hp2 & Hcells & Heq & HA2 & HB2 & Hres).
  destruct (Hcells 1 ltac:(lia)) as [q Hq]. change (1 - 1) with 0 in Hq.
  exists q, s2, sols. split_and!; try done.
  - unfold SolveForSecondDerivative. rewrite (lift_run _ _ m s1 Ht), (proj2 (Z.ltb_ge _ _)) by lia.
    rewrite (mbind_run _ _ m tt (mkMem (avail m - (p s - 1)))) by reflexivity.
    rewrite (lift_run _ _ _ (s2, sols) Hb). cbn beta iota.
    rewrite (lift_run _ _ _ q) by (rewrite Hq; done). rewrite Hp1. done.
  - intros r c ? ?. apply zero_at_cellA, Hz. lia.
Qed.

(** C25: in exact arithmetic, on a full system of order [p >= 2] whose
    triangular form has nonzero pivots in rows [1 .. p - 1],
    [SolveForSecondDerivative()] returns [*sols[0]] with the following
    properties, for every coefficient [k]:
    - the unknowns [sols] solve equations [1 .. p - 1] of the triangular
      system, over all the columns whatever unknown [0] is;
    - for every solution [y] of the original system [A y = B], the
      returned polynomial is its unknown [1]: coefficient [k] of the
      second-derivative stencil is [y 1]. *)
Theorem SolveForSecondDerivative_exact (s s1 : slau (F:=F) (P:=P)) m :
  wf s -> 2 <= p s -> Trianglize s = Ok s1 ->
  (forall r, 1 <= r < p s -> feq0 (cellA s1 r r) = false) ->
  exists q s2 sols, SolveForSecondDerivative s m = Ok ((q, s2), mkMem (avail m - (p s - 1))) /\
    zlookup sols 0 = Some (Some q) /\
    (forall r k y0, 1 <= r < p s ->
       coefB s1 r k = row_dot (cellA s1 r) (fun c => if c =? 0 then y0 else sol_at sols c k) (zrange 0 (p s))) /\
    (forall y k, solves s y k -> pget q k = y 1).
Proof.
  intros Hwf Hp Ht Hpiv.
  destruct (Solve_exact_run s s1 m Hwf Hp Ht Hpiv) as (q & s2 & sols & Hrun & Hq & Hwf1 & Hp1 & Hz1 & Heq & _).
  exists q, s2, sols. split_and!; [done | done | |].
  - intros r k y0 Hr. rewrite Heq, (zrange_split 0 r (p s)), row_dot_app by lia.
    rewrite (row_dot_zero _ _ (zrange 0 r)) by (intros c Hc%elem_of_zrange; apply Hz1; lia).
    rewrite (Radd_0_l exact_ring). apply row_dot_ext. intros c Hc%elem_of_zrange.
    rewrite (proj2 (Z.eqb_neq c 0)) by lia. done.
  - intros y k Hy. pose proof (Trianglize_solves s s1 y k Hwf Ht Hy) as Hy1. rewrite <- Hp1 in Hpiv, Heq, Hz1.
    rewrite <- (triangular_unique s1 (fun c => sol_at sols c k) y k Hz1 Hpiv) by (auto || lia).
    unfold sol_at. change (1 - 1) with 0. rewrite Hq. done.
Qed.

(** C28: in exact arithmetic, under the hypotheses of C25,
    [SolveForSecondDerivative()] changes the system it solves.  [A]
    keeps its triangular form and [*B[0]] is unchanged, but every
    [*B[r]] of rows [1 .. p - 1] is left holding [A[r][r] * sols[r - 1]]
    in place of the right-hand side of equation [r]. *)
Theorem SolveForSecondDerivative_overwrites_B (s s1 : slau (F:=F) (P:=P)) m :
  wf s -> 2 <= p s -> Trianglize s = Ok s1 ->
  (forall r, 1 <= r < p s -> feq0 (cellA s1 r r) = false) ->
  exists q s2 sols, SolveForSecondDerivative s m = Ok ((q, s2), mkMem (avail m - (p s - 1))) /\
    zlookup sols 0 = Some (Some q) /\ A s2 = A s1 /\ getB s2 0 = getB s1 0 /\
    forall r k, 1 <= r < p s -> coefB s2 r k = fmul (cellA s1 r r) (sol_at sols r k).
Proof.
  intros Hwf Hp Ht Hpiv.
  destruct (Solve_exact_run s s1 m Hwf Hp Ht Hpiv) as (q & s2 & sols & Hrun & Hq & _ & _ & _ & _ & HA & HB & Hres).
  exists q, s2, sols. done.
Qed.

End Exact.

(** ** Concrete runs in exact rational arithmetic *)

(** [float] as the canonical rationals [Qc], where the laws hold with
    equality, and [Polynom] as the list of its coefficients, [add]
    coefficient by coefficient over the longer of the two. *)
Module SlauExactExamples.
Import QArith Qcanon.
Open Scope Z_scope.

#[export] Instance qc_float : FloatOps Qc := {
  fzero := Q2Qc 0; fone := 1%Qc; fhalf := Q2Qc (1 # 2); fneg := Qcopp; fadd := Qcplus; fsub := Qcminus;
  fmul := Qcmult; fdiv := Qcdiv; feq0 := fun x => if Qc_eq_dec x (Q2Qc 0) then true else false;
  f_of_Z := fun z => Q2Qc (inject_Z z) }.

#[export] Instance qc_poly : PolyOps Qc (list Qc) := {
  pnew := fun n => replicate (Z.to_nat (n + 1)) (Q2Qc 0);
  pset := fun q k v => <[Z.to_nat k := v]> q;
  pget := fun q k => nth (Z.to_nat k) q (Q2Qc 0);
  padd := fun q r m => map (fun i => (nth i q (Q2Qc 0) + m * nth i r (Q2Qc 0))%Qc) (seq 0 (Nat.max (length q) (length r)));
  pdiv := fun q x => map (fun a => (a / x)%Qc) q }.

Lemma nth_map_lt {X Y} (f : X -> Y) l n (d : X) (d' : Y) : (n < length l)%nat -> nth n (map f l) d' = f (nth n l d).
Proof. intros Hn. rewrite (nth_indep _ d' (f d)) by (rewrite length_map; done). apply map_nth. Qed.

#[export] Instance qc_exact : ExactLaws Qc (list Qc).
Proof.
  constructor.
  - exact Qcrt.
  - intros x. simpl. destruct (Qc_eq_dec x (Q2Qc 0)); split; congruence.
  - intros u d Hd. simpl in *. destruct (Qc_eq_dec d (Q2Qc 0)); [done|]. field. done.
  - intros q r m k. simpl. destruct (Nat.lt_ge_cases (Z.to_nat k) (Nat.max (length q) (length r))) as [Hlt|Hge].
    + rewrite (nth_map_lt _ _ _ 0%nat) by (rewrite length_seq; done). rewrite seq_nth by done. done.
    + rewrite !nth_overflow by (rewrite ?length_map, ?length_seq; lia). ring.
  - intros q d k. simpl. destruct (Nat.lt_ge_cases (Z.to_nat k) (length q)).
    + apply (nth_map_lt (fun a => (a / d)%Qc)). done.
    + rewrite !nth_overflow by (rewrite ?length_map; lia). unfold Qcdiv. ring.
Qed.

(** Order 3, center 2: the velocities 1, 3, 4 (as in [SlauExamples]). *)
Definition cs : env_case := mkEnvCase 0 0 0 0 3 3 2 2 false false false false.

Definition sysq : slau (F:=Qc) (P:=list Qc) :=
  match Slau_new cs 1 (mkMem 100) with Ok (s, _) => s | UB => mkSlau 0 None None end.

Definition sysq_tri : slau (F:=Qc) (P:=list Qc) :=
  match Trianglize sysq with Ok s => s | UB => sysq end.

Lemma SolveForSecondDerivative_exact_witness :
  exists q s2 sols, SolveForSecondDerivative sysq (mkMem 0) = Ok ((q, s2), mkMem (avail (mkMem 0) - (p sysq - 1))) /\
    zlookup sols 0 = Some (Some q) /\
    (forall r k y0, 1 <= r < p sysq ->
       coefB sysq_tri r k = row_dot (cellA sysq_tri r) (fun c => if c =? 0 then y0 else sol_at sols c k) (zrange 0 (p sysq))) /\
    (forall y k, solves sysq y k -> pget q k = y 1).
Proof.
  apply (SolveForSecondDerivative_exact sysq sysq_tri (mkMem 0)).
  - apply wfb_wf. vm_compute. reflexivity.
  - vm_compute. discriminate.
  - vm_compute. reflexivity.
  - change (p sysq) with 3. intros r Hr. assert (r = 1 \/ r = 2) as [-> | ->] by lia; vm_compute; reflexivity.
Defined.

Lemma SolveForSecondDerivative_overwrites_B_witness :
  exists q s2 sols, SolveForSecondDerivative sysq (mkMem 0) = Ok ((q, s2), mkMem (avail (mkMem 0) - (p sysq - 1))) /\
    zlookup sols 0 = Some (Some q) /\ A s2 = A sysq_tri /\ getB s2 0 = getB sysq_tri 0 /\
    forall r k, 1 <= r < p sysq -> coefB s2 r k = fmul (cellA sysq_tri r r) (sol_at sols r k).
Proof.
  apply (SolveForSecondDerivative_overwrites_B sysq sysq_tri (mkMem 0)).
  - apply wfb_wf. vm_compute. reflexivity.
  - vm_compute. discriminate.
  - vm_compute. reflexivity.
  - change (p sysq) with 3. intros r Hr. assert (r = 1 \/ r = 2) as [-> | ->] by lia; vm_compute; reflexivity.
Defined.

(** Order 4, center 2: the velocities 0, 1, 3, 4. *)
Definition cs4 : env_case := mkEnvCase 0 0 0 0 4 4 2 2 false false false false.

Definition sys4 : slau (F:=Qc) (P:=list Qc) :=
  match Slau_new cs4 1 (mkMem 100) with Ok (s, _) => s | UB => mkSlau 0 None None end.

(** What overwriting [B] does to a caller.  On the system of order 4,
    [SolveForSecondDerivative()] returns the five-point stencil
    [11/12, -5/3, 1/2, 1/3, -1/12].  Called again on the same object, it
    solves the overwritten system and returns another polynomial, whose
    coefficient [3] is [0]. *)
Example SolveForSecondDerivative_consumes_B :
  match SolveForSecondDerivative sys4 (mkMem 0) with
  | Ok (q, s2, m) =>
      map this q = [0; 11 # 12; -5 # 3; 1 # 2; 1 # 3; -1 # 12]%Q /\
      match SolveForSecondDerivative s2 m with
      | Ok (q2, _, _) => map this q2 = [0; 5 # 6; -4 # 3; 0; 2 # 3; -1 # 6]%Q
      | UB => False
      end
  | UB => False
  end.
Proof. vm_compute. split; reflexivity. Qed.

End SlauExactExamples.
