(* ===== verification/SlauTaylor.v ===== *)
(** * SlauTaylor: the system the constructor of [Slau.cpp] builds

    [Slau.v] proves that the constructor [Slau(cs, firstOrSecond)]
    fills every row when [center] lies among the velocities.  This file
    says what it fills them with.  Row [i] of [A] is
    [GetTaylorCoeffs(d_i, p)], i.e. [d_i^(c+1) / (c+1)!] in column [c].
    [B[i]] is [new Polynom(p + 1)] with the stores of that row.  The
    displacements [d_i] and the stores come in the code's order
    ([taylor_rows]):
    - the left boundary row ([-0.5 - left], [bcf[center] = -1]);
    - one row per velocity [vel] of [initVel..maxVel] other than
      [center] ([vel - center], [bcf[vel] = 1], [bcf[center] = -1]);
    - the right boundary row ([0.5 + right], [bcf[center] = -1]). *)

From S2P Require Import Prelude Slau.
Import Slau.
Local Open Scope Z_scope.

Section Rows.
Context {F P : Type} `{FloatOps F} `{PolyOps F P}.

(** [bcf = new Polynom(n + 1)] after the stores [st], in order. *)
Definition row_poly (n : Z) (st : list (Z * F)) : P :=
  fold_left (fun q '(k, v) => pset q k v) st (pnew (n + 1)).

(** The rows of the loop over the velocities [l]: [center] is skipped. *)
Definition vel_rows (center : Z) (l : list Z) : list (F * list (Z * F)) :=
  map (fun vel => (f_of_Z (vel - center), [(vel, fone); (center, fneg fone)]))
      (List.filter (fun v => negb (v =? center)) l).

(** The displacement and the polynomial stores of every row, in the
    order the constructor writes them. *)
Definition taylor_rows (cs : env_case) (fos : Z) : list (F * list (Z * F)) :=
  let '(left', right', p, center, leftIncl, rightIncl) := case_params cs fos in
  (if leftIncl then [(fsub (fneg fhalf) (f_of_Z left'), [(center, fneg fone)])] else []) ++
  vel_rows center (zrange (1 + (if leftIncl then 1 else 0)) (p + (if rightIncl then 0 else 1) + 1)) ++
  (if rightIncl then [(fadd fhalf (f_of_Z right'), [(center, fneg fone)])] else []).

(** Rows [0 .. |rows| - 1] of [s] hold [rows]. *)
Definition rows_are (s : slau (F:=F) (P:=P)) (rows : list (F * list (Z * F))) : Prop :=
  0 <= p s /\ Z.of_nat (length rows) <= p s /\
  (exists rs, A s = Some rs /\ Z.of_nat (length rs) = p s /\
     forall i d st, rows !! i = Some (d, st) -> rs !! i = Some (Some (taylor_loop d (p s)).2)) /\
  (exists bs, B s = Some bs /\ Z.of_nat (length bs) = p s /\
     forall i d st, rows !! i = Some (d, st) -> bs !! i = Some (Some (row_poly (p s) st))).

Lemma vcount_vel_rows center l : vcount center l = Z.of_nat (length (vel_rows center l)).
Proof. unfold vcount, vel_rows. rewrite length_map. done. Qed.

(** The empty arrays [A = new float*[p]], [B = new Polynom*[p]]. *)
Lemma rows_are_nil n :
  0 <= n -> rows_are (mkSlau n (Some (replicate (Z.to_nat n) None)) (Some (replicate (Z.to_nat n) None))) [].
Proof.
  intros Hn. split_and!; [done | simpl; lia | |];
    (eexists; split_and!; [reflexivity | rewrite length_replicate; simpl; lia | intros ? ? ? [=]]).
Qed.

(** One row of the constructor at [idx = |rows| < p]. *)
Lemma add_row_rows s rows st d m :
  rows_are s rows -> Z.of_nat (length rows) < p s ->
  exists s', add_row s (Z.of_nat (length rows)) st d m = Ok (s', mkMem (avail m - 1 - p s)) /\
    rows_are s' (rows ++ [(d, st)]) /\ p s' = p s.
Proof.
  intros (Hp & Hlr & (rs & HA & Hl & Hrs) & (bs & HB & Hlb & Hbs)) Hidx. unfold add_row.
  rewrite (mbind_run _ _ m tt (mkMem (avail m - 1))) by reflexivity.
  rewrite (mbind_run _ _ _ (taylor_loop d (p s)).2 (mkMem (avail m - 1 - p s))) by reflexivity.
  assert (Hset : set_rowA s (Z.of_nat (length rows)) (Some (taylor_loop d (p s)).2) =
                 Ok (mkSlau (p s) (Some (<[length rows := Some (taylor_loop d (p s)).2]> rs)) (B s)))
    by (unfold set_rowA; rewrite HA; simpl; rewrite zinsert_ok, Nat2Z.id by lia; done).
  rewrite (lift_run _ _ _ _ Hset). unfold lift, setB. simpl. rewrite HB. simpl.
  rewrite zinsert_ok, Nat2Z.id by lia. simpl. eexists. split; [reflexivity|]. split; [|done].
  split_and!; [done | rewrite length_app; simpl; lia | |].
  - eexists. split; [reflexivity|]. rewrite length_insert. split; [done|]. intros i d' st' Hi. simpl.
    destruct (decide (i = length rows)) as [->|Hne].
    + rewrite list_lookup_insert_eq by lia. rewrite lookup_app_r, Nat.sub_diag in Hi by lia. by injection Hi as -> ->.
    + rewrite list_lookup_insert_ne by done. apply lookup_app_Some in Hi as [Hi|(Hge & Hi)]; [eauto|].
      apply lookup_lt_Some in Hi. simpl in Hi. lia.
  - eexists. split; [reflexivity|]. rewrite length_insert. split; [done|]. intros i d' st' Hi. simpl.
    destruct (decide (i = length rows)) as [->|Hne].
    + rewrite list_lookup_insert_eq by lia. rewrite lookup_app_r, Nat.sub_diag in Hi by lia. by injection Hi as -> ->.
    + rewrite list_lookup_insert_ne by done. apply lookup_app_Some in Hi as [Hi|(Hge & Hi)]; [eauto|].
      apply lookup_lt_Some in Hi. simpl in Hi. lia.
Qed.

(** The loop over the velocities [l] from row [|rows|]. *)
Lemma vel_loop_rows center l s rows m :
  rows_are s rows -> Z.of_nat (length (rows ++ vel_rows center l)) <= p s ->
  exists s' m', mfold_left (vel_row center) l (s, Z.of_nat (length rows)) m =
      Ok ((s', Z.of_nat (length (rows ++ vel_rows center l))), m') /\
    rows_are s' (rows ++ vel_rows center l) /\ p s' = p s.
Proof.
  revert s rows m. induction l as [|v l IH]; intros s rows m Hs Hle.
  - exists s, m. unfold vel_rows. simpl. rewrite app_nil_r. destruct m. done.
  - cbn [mfold_left]. unfold vel_row at 1. revert Hle.
    destruct (Z.eqb_spec v center) as [->|Hne]; intros Hle.
    + replace (vel_rows center (center :: l)) with (vel_rows center l) in *
        by (unfold vel_rows; simpl; rewrite Z.eqb_refl; done).
      rewrite (mbind_run _ _ m (s, _) m) by reflexivity. apply IH; done.
    + assert (Hv : vel_rows center (v :: l) = (f_of_Z (v - center), [(v, fone); (center, fneg fone)]) :: vel_rows center l)
        by (unfold vel_rows; simpl; rewrite (proj2 (Z.eqb_neq v center)) by done; done).
      rewrite Hv in *. rewrite length_app in Hle. simpl in Hle.
      destruct (add_row_rows s rows [(v, fone); (center, fneg fone)] (f_of_Z (v - center)) m Hs ltac:(lia))
        as (s1 & Hrun & Hs1 & Hp1).
      rewrite (mbind_run _ _ _ _ _ (mbind_run _ _ _ _ _ Hrun)).
      replace (Z.of_nat (length rows) + 1) with (Z.of_nat (length (rows ++ [(f_of_Z (v - center), [(v, fone); (center, fneg fone)])])))
        by (rewrite length_app; simpl; lia).
      destruct (IH s1 _ (mkMem (avail m - 1 - p s)) Hs1) as (s' & m' & Hrun' & Hs' & Hp');
        [rewrite !length_app in *; simpl in *; lia|].
      rewrite <- app_assoc in Hrun', Hs'. exists s', m'. split_and!; [done | done | congruence].
Qed.

(** The constructor writes the rows [taylor_rows], in order, when they
    fit in [p]. *)
Lemma Slau_new_rows_are cs fos l0 r0 p0 center (li ri : bool) m :
  case_params cs fos = (l0, r0, p0, center, li, ri) -> 0 <= p0 ->
  Z.of_nat (length (taylor_rows cs fos)) <= p0 ->
  exists s m', Slau_new cs fos m = Ok (s, m') /\ rows_are s (taylor_rows cs fos) /\ p s = p0.
Proof.
  intros Hcp Hp Hlen. unfold taylor_rows in *. rewrite Hcp in *. unfold Slau_new. rewrite Hcp. cbn beta iota zeta.
  rewrite (proj2 (Z.ltb_ge p0 0)) by lia.
  rewrite (mbind_run _ _ m tt (mkMem (avail m - p0))), (mbind_run _ _ _ tt (mkMem (avail m - p0 - p0)))
    by reflexivity.
  pose proof (rows_are_nil p0 Hp) as Hs0.
  set (s0 := mkSlau (F:=F) (P:=P) p0 (Some (replicate (Z.to_nat p0) None)) (Some (replicate (Z.to_nat p0) None))) in *.
  set (lst := zrange (1 + (if li then 1 else 0)) (p0 + (if ri then 0 else 1) + 1)) in *.
  set (rl := if li then [(fsub (fneg fhalf) (f_of_Z l0), [(center, fneg fone)])] else []) in *.
  set (rr := if ri then [(fadd fhalf (f_of_Z r0), [(center, fneg fone)])] else []) in *.
  rewrite !length_app in Hlen.
  assert (Hlrl : Z.of_nat (length rl) = (if li then 1 else 0)) by (unfold rl; destruct li; done).
  assert (Htail : forall s1 m1 rows0, rows_are s1 rows0 -> p s1 = p0 -> Z.of_nat (length rows0) = (if li then 1 else 0) ->
    exists s m', (let! '(s2, idx2) := mfold_left (vel_row center) lst (s1, Z.of_nat (length rows0)) in
                  if ri then add_row s2 idx2 [(center, fneg fone)] (fadd fhalf (f_of_Z r0)) else mret s2) m1 = Ok (s, m') /\
      rows_are s (rows0 ++ vel_rows center lst ++ rr) /\ p s = p0).
  { intros s1 m1 rows0 Hs1 Hp1 Hrl.
    destruct (vel_loop_rows center lst s1 rows0 m1 Hs1) as (s2 & m2 & Hrun2 & Hs2 & Hp2); [rewrite length_app; lia|].
    rewrite (mbind_run _ _ _ _ _ Hrun2). unfold rr in *. destruct ri.
    - destruct (add_row_rows s2 (rows0 ++ vel_rows center lst) [(center, fneg fone)] (fadd fhalf (f_of_Z r0)) m2 Hs2)
        as (s3 & Hrun3 & Hs3 & Hp3); [rewrite length_app; simpl in Hlen; lia|].
      rewrite Hrun3. do 2 eexists. split; [reflexivity|]. rewrite app_assoc. split; [done | congruence].
    - do 2 eexists. split; [reflexivity|]. rewrite app_assoc, app_nil_r. split; [done | congruence]. }
  unfold rl in *. destruct li.
  - match goal with |- context [add_row s0 0 ?st ?d] =>
      destruct (add_row_rows s0 [] st d (mkMem (avail m - p0 - p0)) Hs0) as (s1 & Hrun & Hs1 & Hp1) end;
      [simpl in *; lia|].
    change (Z.of_nat (length (@nil (F * list (Z * F))))) with 0 in Hrun.
    rewrite (mbind_run _ _ _ _ _ (mbind_run _ _ _ _ _ Hrun)). apply (Htail s1 _ _ Hs1); done.
  - rewrite (mbind_run _ _ _ (s0, 0) _) by reflexivity. apply (Htail s0 _ [] Hs0); done.
Qed.

(** C31: when [center] lies among the velocities [initVel..maxVel], the
    constructor [Slau(cs, firstOrSecond)] builds the Taylor system of
    the stencil.  [taylor_rows] has exactly [p] rows, and row [i], with
    displacement [d] and stores [st], holds two things:
    - in [A[i][c]], for every column [c < p], [d^(c+1) / (c+1)!]
      computed by the running products of [GetTaylorCoeffs];
    - in [B[i]], the polynomial [new Polynom(p + 1)] after the stores
      [st]: [bcf[vel] = 1] and [bcf[center] = -1] for a velocity row,
      [bcf[center] = -1] for a boundary row. *)
Theorem Slau_new_taylor cs fos l0 r0 p0 center (li ri : bool) m :
  case_params cs fos = (l0, r0, p0, center, li, ri) -> 0 <= p0 ->
  1 + (if li then 1 else 0) <= center <= p0 + (if ri then 0 else 1) ->
  exists s m', Slau_new cs fos m = Ok (s, m') /\ p s = p0 /\
    Z.of_nat (length (taylor_rows cs fos)) = p0 /\
    forall i d st, taylor_rows cs fos !! i = Some (d, st) ->
      (forall c, 0 <= c < p0 -> getA s (Z.of_nat i) c = Ok (fdiv (fpow d (c + 1)) (ffact (c + 1)))) /\
      getB s (Z.of_nat i) = Ok (row_poly p0 st).
Proof.
  intros Hcp Hp Hin.
  assert (Hlen : Z.of_nat (length (taylor_rows cs fos)) = p0).
  { unfold taylor_rows. rewrite Hcp, !length_app, !Nat2Z.inj_add, <- vcount_vel_rows, vcount_zrange
      by (destruct li, ri; lia).
    rewrite (proj2 (Z.leb_le _ _)), (proj2 (Z.ltb_lt _ _)) by lia. destruct li, ri; simpl; lia. }
  destruct (Slau_new_rows_are cs fos l0 r0 p0 center li ri m Hcp Hp ltac:(lia))
    as (s & m' & Hrun & (_ & _ & (rs & HA & _ & Hrs) & (bs & HB & _ & Hbs)) & Hps).
  exists s, m'. split_and!; [done | done | done |]. intros i d st Hi.
  pose proof (lookup_lt_Some _ _ _ Hi) as Hil. split.
  - intros c Hc. unfold getA. rewrite HA. simpl. rewrite zlookup_nat, Nat2Z.id, (Hrs i d st Hi) by lia. simpl.
    destruct (taylor_prefix d (p s) (p s) ltac:(lia)) as (cfs & Hloop & _ & Hcells & _).
    unfold taylor_loop. rewrite Hloop. simpl. rewrite zlookup_nat, Hcells by lia. done.
  - unfold getB. rewrite HB. simpl. rewrite zlookup_nat, Nat2Z.id, (Hbs i d st Hi), Hps by lia. done.
Qed.

End Rows.

(** ** The system of order 3 *)

Module SlauTaylorExamples.
Import SlauExamples.

(** Order 3, center 2, no boundary rows ([SlauExamples.cs]): the rows of
    the velocities 1, 3 and 4, with displacements -1, 1 and 2. *)
Lemma Slau_new_taylor_witness :
  exists s m', Slau_new cs 1 (mkMem 100) = Ok (s, m') /\ p s = 3 /\
    Z.of_nat (length (taylor_rows cs 1)) = 3 /\
    forall i d st, taylor_rows cs 1 !! i = Some (d, st) ->
      (forall c, 0 <= c < 3 -> getA s (Z.of_nat i) c = Ok (fdiv (fpow d (c + 1)) (ffact (c + 1)))) /\
      getB s (Z.of_nat i) = Ok (row_poly 3 st).
Proof. apply (Slau_new_taylor cs 1 0 0 3 2 false false (mkMem 100)); [reflexivity | lia | simpl; lia]. Defined.

End SlauTaylorExamples.
