(* ===== verification/Shield.v ===== *)
(** * The automationshield firmware: the serial protocol of two boards

    python-automationshield 0.4.0 ships two Arduino Leonardo sketches,
    [arduino_firmware/leonardo/src_magnetoshield/main.cpp] and
    [.../src_aeroshield/main.cpp].  Each [loop()] reads one command frame
    from the serial port when a byte is available, acts on the hardware
    (a DAC over I2C, a PWM pin), reads the sensors and answers with a
    three-byte frame that packs two 12-bit values.

    The model keeps the globals of each sketch in a record ([Magneto.state],
    [Aero.state]) and the board in [board]: the bytes received and not yet
    read, the bytes written, the I2C transmissions and the [analogWrite]
    calls.  Sensor readings are the environment [sensors] of one loop
    iteration.  [int] is 16 bits wide on the ATmega32U4 ([Avr]): a signed
    overflow is undefined behaviour ([UB]), a left shift follows C++11
    (a non-negative value whose shift fits [unsigned int], converted back
    to [int]), the conversions to [byte], [uint8_t] and [uint16_t] reduce
    modulo [2^8] and [2^16], and the conversion to [int] is gcc's two's
    complement one.  [Serial.readBytes] is modelled with no byte arriving
    during its timeout: it reads what is there, up to the length asked.

    Both sketches implement the interface [Firmware]: a loop over a frame
    size, with its laws [FirmwareLaws]; [serve] runs the Arduino main loop
    for a number of iterations against that interface. *)

From S2P Require Import Prelude.

(** ** The machine *)

Module Avr.

(** [(uint8_t) x], [(byte) x] *)
Definition to_u8 (x : Z) : Z := x mod 2 ^ 8.
(** [(uint16_t) x], and arithmetic on [unsigned int] *)
Definition to_u16 (x : Z) : Z := x mod 2 ^ 16.
(** [(int) x] *)
Definition to_int (x : Z) : Z :=
  let y := x mod 2 ^ 16 in if y <? 2 ^ 15 then y else y - 2 ^ 16.

(** The result of an [int] operation: undefined outside [INT_MIN..INT_MAX]. *)
Definition int_arith (x : Z) : outcome Z :=
  if (- 2 ^ 15 <=? x) && (x <? 2 ^ 15) then Ok x else UB.

(** [a << k] on [int]. *)
Definition int_shl (a k : Z) : outcome Z :=
  if (0 <=? a) && (Z.shiftl a k <? 2 ^ 16) then Ok (to_int (Z.shiftl a k)) else UB.

End Avr.
Import Avr.

(** ** The board *)

Record board := mkBoard {
  rx : list Z;              (** bytes received and not yet read *)
  tx : list Z;              (** bytes written to the serial port *)
  i2c : list (Z * list Z);  (** I2C transmissions: address, bytes *)
  pwm : list (Z * Z)        (** [analogWrite] calls: pin, value *)
}.

(** What the sensors read during one iteration of [loop()]. *)
Record sensors := mkSensors { analog : Z -> Z; raw_angle : Z }.

(** [Serial.available()] *)
Definition available (b : board) : Z := Z.of_nat (length (rx b)).

(** [Serial.readBytes(buf, n)]: the bytes read overwrite the front of
    [buf], the rest of [buf] keeps its old contents. *)
Definition readBytes (buf : list Z) (n : Z) (b : board) : list Z * board :=
  let got := take (Z.to_nat n) (rx b) in
  (got ++ drop (length got) buf, mkBoard (drop (Z.to_nat n) (rx b)) (tx b) (i2c b) (pwm b)).

(** [Serial.write(buf, n)] *)
Definition serial_write (buf : list Z) (n : Z) (b : board) : board :=
  mkBoard (rx b) (tx b ++ take (Z.to_nat n) buf) (i2c b) (pwm b).

(** [outBuffer[0] = x0; outBuffer[1] = x1; outBuffer[2] = x2;] into a
    [byte] array. *)
Definition store3 (buf : list Z) (x0 x1 x2 : Z) : outcome (list Z) :=
  let? b0 := of_option (zinsert buf 0 (to_u8 x0)) in
  let? b1 := of_option (zinsert b0 1 (to_u8 x1)) in
  of_option (zinsert b1 2 (to_u8 x2)).

(** ** The magnetoshield sketch *)

Module Magneto.

Definition potPin : Z := 18.     (** [A0] on the Leonardo *)
Definition sensorPin : Z := 21.  (** [A3] *)
Definition TEST : Z := 0.
Definition RUN : Z := 1.
Definition STOP : Z := 2.
Definition inSize : Z := 3.
Definition outSize : Z := 3.
Definition MCP4725 : Z := 96.    (** [0x60] *)

(** The globals. *)
Record state := mkState {
  pot : Z; sensor : Z; actuator : Z; flag : Z;
  inBuffer : list Z; outBuffer : list Z; io : board
}.

(** The globals at reset: zero-initialised. *)
Definition init (b : board) : state := mkState 0 0 0 0 [0; 0; 0] [0; 0; 0] b.

(** [send()] *)
Definition send (st : state) : state :=
  mkState (pot st) (sensor st) (actuator st) (flag st) (inBuffer st) (outBuffer st)
          (serial_write (outBuffer st) outSize (io st)).

(** [receive()]: [flag = inBuffer[0]; actuator = (inBuffer[1] << 8) + inBuffer[2];] *)
Definition receive (st : state) : outcome state :=
  let '(buf, b) := readBytes (inBuffer st) inSize (io st) in
  let? b0 := of_option (zlookup buf 0) in
  let? b1 := of_option (zlookup buf 1) in
  let? b2 := of_option (zlookup buf 2) in
  let? hi := int_shl b1 8 in
  let? act := int_arith (hi + b2) in
  Ok (mkState (pot st) (sensor st) act b0 buf (outBuffer st) b).

(** [sensorRead()]; [sensor] is a [uint16_t]. *)
Definition sensorRead (sn : sensors) (st : state) : state :=
  mkState (analog sn potPin) (to_u16 (analog sn sensorPin)) (actuator st) (flag st)
          (inBuffer st) (outBuffer st) (io st).

(** [actuatorWrite(DAClevel)]: one I2C transmission to the MCP4725, the
    command [0x40] then the two bytes of the [uint16_t] level. *)
Definition actuatorWrite (DAClevel : Z) (st : state) : state :=
  let firstbyte := to_u8 (Z.shiftr DAClevel 4) in
  let DAClevel' := to_u16 (Z.shiftl DAClevel 12) in
  let secndbyte := to_u8 (Z.shiftr DAClevel' 8) in
  let b := io st in
  mkState (pot st) (sensor st) (actuator st) (flag st) (inBuffer st) (outBuffer st)
          (mkBoard (rx b) (tx b) (i2c b ++ [(MCP4725, [64; firstbyte; secndbyte])]) (pwm b)).

(** [setOutBuffer(v1, v2)]; the sum of the first byte stays within [int]. *)
Definition setOutBuffer (v1 v2 : Z) (st : state) : outcome state :=
  let? ob := store3 (outBuffer st) (Z.land (Z.shiftr v1 4) 240 + Z.shiftr v2 8) (Z.land v1 255) (Z.land v2 255) in
  Ok (mkState (pot st) (sensor st) (actuator st) (flag st) (inBuffer st) ob (io st)).

(** The [switch (flag)] of [loop()]. *)
Definition command (sn : sensors) (st1 : state) : outcome state :=
  if flag st1 =? TEST then
    let? v1 := int_arith (actuator st1 * 2) in
    let? v2 := int_arith (actuator st1 * 4) in
    setOutBuffer v1 v2 st1
  else if flag st1 =? RUN then
    let st' := sensorRead sn (actuatorWrite (to_u16 (actuator st1)) st1) in
    setOutBuffer (pot st') (to_int (sensor st')) st'
  else if flag st1 =? STOP then Ok (actuatorWrite 0 st1)
  else Ok st1.

(** [loop()] *)
Definition loop (sn : sensors) (st : state) : outcome state :=
  if available (io st) >? 0 then
    let? st1 := receive st in
    let? st2 := command sn st1 in
    Ok (send st2)
  else Ok st.

End Magneto.

(** ** The aeroshield sketch *)

Module Aero.

Definition potPin : Z := 21.     (** [A3] *)
Definition actuatorPin : Z := 5.
Definition TEST : Z := 0.
Definition RUN : Z := 1.
Definition STOP : Z := 2.
Definition inSize : Z := 2.
Definition outSize : Z := 3.

(** The globals. *)
Record state := mkState { inBuffer : list Z; outBuffer : list Z; io : board }.

Definition init (b : board) : state := mkState [0; 0] [0; 0; 0] b.

(** [receive()] *)
Definition receive (st : state) : state :=
  let '(buf, b) := readBytes (inBuffer st) inSize (io st) in mkState buf (outBuffer st) b.

(** [send()] *)
Definition send (st : state) : state :=
  mkState (inBuffer st) (outBuffer st) (serial_write (outBuffer st) outSize (io st)).

(** [analogWrite(pin, v)] *)
Definition analogWrite (pin v : Z) (st : state) : state :=
  let b := io st in
  mkState (inBuffer st) (outBuffer st) (mkBoard (rx b) (tx b) (i2c b) (pwm b ++ [(pin, v)])).

(** The [switch (inBuffer[0])] of [loop()]; [angle] is a [uint16_t], so
    the sum of the first byte of the RUN answer is [unsigned int]
    arithmetic, equal modulo [2^8]. *)
Definition command (sn : sensors) (st1 : state) : outcome state :=
  let? c := of_option (zlookup (inBuffer st1) 0) in
  if c =? TEST then
    let? b := of_option (zlookup (inBuffer st1) 1) in
    let? r1 := int_arith (b * 2) in
    let? r2 := int_arith (b * 4) in
    let? ob := store3 (outBuffer st1) (Z.land (Z.shiftr r1 4) 240 + Z.shiftr r1 8) (Z.land r1 255) (Z.land r2 255) in
    Ok (mkState (inBuffer st1) ob (io st1))
  else if c =? RUN then
    let? b := of_option (zlookup (inBuffer st1) 1) in
    let st' := analogWrite actuatorPin b st1 in
    let pot := analog sn potPin in
    let angle := to_u16 (raw_angle sn) in
    let? ob := store3 (outBuffer st') (Z.land (Z.shiftr pot 4) 240 + Z.shiftr angle 8) (Z.land pot 255) (Z.land angle 255) in
    Ok (mkState (inBuffer st') ob (io st'))
  else if c =? STOP then Ok (analogWrite actuatorPin 0 st1)
  else Ok st1.

(** [loop()] *)
Definition loop (sn : sensors) (st : state) : outcome state :=
  if available (io st) >? 0 then
    let? st2 := command sn (receive st) in
    Ok (send st2)
  else Ok st.

End Aero.

(** ** What the host and the DAC read *)

(** The two 12-bit values of an answer frame: the high nibbles in the
    first byte, the low bytes after it. *)
Definition unpack (frame : list Z) : option (Z * Z) :=
  match frame with
  | [b0; b1; b2] => Some (Z.lor (Z.shiftl (Z.land b0 240) 4) b1, Z.lor (Z.shiftl (Z.land b0 15) 8) b2)
  | _ => None
  end.

(** The level an MCP4725 takes from a "write DAC register" transmission
    [[0x40; D11..D4; D3..D0 0000]]. *)
Definition dac_level (bytes : list Z) : option Z :=
  match bytes with
  | [64; hi; lo] => Some (Z.lor (Z.shiftl hi 4) (Z.shiftr lo 4))
  | _ => None
  end.

(** ** Bits of a frame *)

Lemma land_ones_mod x n : 0 <= n -> Z.land x (2 ^ n - 1) = x mod 2 ^ n.
Proof. intros Hn. replace (2 ^ n - 1) with (Z.ones n) by (rewrite Z.ones_equiv; lia). apply Z.land_ones. done. Qed.

(** [x & 0xF0] keeps the second nibble. *)
Lemma land_240 x : Z.land x 240 = (x / 2 ^ 4) mod 2 ^ 4 * 2 ^ 4.
Proof.
  apply Z.bits_inj'. intros m Hm. change 240 with (Z.shiftl (Z.ones 4) 4).
  rewrite Z.land_spec, <- (Z.add_0_r ((x / 2 ^ 4) mod 2 ^ 4 * 2 ^ 4)), testbit_row_major by lia.
  destruct (Z.ltb_spec m 4).
  - rewrite Z.shiftl_spec_low, andb_false_r, Z.testbit_0_l by lia. done.
  - rewrite Z.shiftl_spec, Z.testbit_ones by lia. destruct (Z.ltb_spec (m - 4) 4).
    + rewrite Z.mod_pow2_bits_low, Z.div_pow2_bits by lia.
      replace (m - 4 + 4) with m by lia. rewrite (proj2 (Z.leb_le 0 (m - 4))) by lia. simpl.
      apply andb_true_r.
    + rewrite Z.mod_pow2_bits_high by lia. rewrite !andb_false_r. done.
Qed.

(** Or-ing a value below [2^n] into a multiple of [2^n] adds it. *)
Lemma lor_low a b n : 0 <= n -> 0 <= b < 2 ^ n -> Z.lor (a * 2 ^ n) b = a * 2 ^ n + b.
Proof.
  intros Hn Hb. apply Z.bits_inj'. intros m Hm.
  rewrite Z.lor_spec, testbit_row_major, <- (Z.add_0_r (a * 2 ^ n)), testbit_row_major by lia.
  rewrite Z.testbit_0_l. destruct (Z.ltb_spec m n); [done|].
  rewrite <- (Z.mod_small b (2 ^ n)), Z.mod_pow2_bits_high by lia. apply orb_false_r.
Qed.

Lemma land_255 x : Z.land x 255 = x mod 2 ^ 8.
Proof. apply (land_ones_mod x 8). lia. Qed.

Lemma land_15 x : Z.land x 15 = x mod 2 ^ 4.
Proof. apply (land_ones_mod x 4). lia. Qed.

(** A frame packed from [v1] (its high nibble and low byte), the high
    nibble of [w] and the low byte of [v2]: the host reads [v1], and the
    high nibble of [w] over the low byte of [v2]. *)
Lemma unpack_frame v1 w v2 :
  0 <= v1 < 2 ^ 12 -> 0 <= w < 2 ^ 12 -> 0 <= v2 ->
  unpack [to_u8 (Z.land (Z.shiftr v1 4) 240 + Z.shiftr w 8); to_u8 (Z.land v1 255); to_u8 (Z.land v2 255)] =
    Some (v1, w / 2 ^ 8 * 2 ^ 8 + v2 mod 2 ^ 8).
Proof.
  intros H1 H2 H3. unfold unpack. rewrite !Z.shiftr_div_pow2, !land_240, !land_255, !land_15 by lia.
  rewrite !Z.shiftl_mul_pow2 by lia. unfold to_u8. rewrite !(Z.mod_mod _ (2 ^ 8)) by lia.
  assert (E0 : ((v1 / 2 ^ 4 / 2 ^ 4) mod 2 ^ 4 * 2 ^ 4 + w / 2 ^ 8) mod 2 ^ 8 = v1 / 2 ^ 8 * 2 ^ 4 + w / 2 ^ 8)
    by (Z.to_euclidean_division_equations; lia).
  rewrite E0.
  replace ((v1 / 2 ^ 8 * 2 ^ 4 + w / 2 ^ 8) / 2 ^ 4 mod 2 ^ 4 * 2 ^ 4 * 2 ^ 4) with (v1 / 2 ^ 8 * 2 ^ 8)
    by (Z.to_euclidean_division_equations; lia).
  replace ((v1 / 2 ^ 8 * 2 ^ 4 + w / 2 ^ 8) mod 2 ^ 4) with (w / 2 ^ 8)
    by (Z.to_euclidean_division_equations; lia).
  rewrite !lor_low by (try Z.to_euclidean_division_equations; lia).
  f_equal. f_equal. Z.to_euclidean_division_equations; lia.
Qed.

(** The frame [setOutBuffer(v1, v2)] writes holds [v1] and [v2] when
    both fit in 12 bits. *)
Lemma unpack_pack v1 v2 :
  0 <= v1 < 2 ^ 12 -> 0 <= v2 < 2 ^ 12 ->
  unpack [to_u8 (Z.land (Z.shiftr v1 4) 240 + Z.shiftr v2 8); to_u8 (Z.land v1 255); to_u8 (Z.land v2 255)] =
    Some (v1, v2).
Proof.
  intros H1 H2. rewrite unpack_frame by lia. do 2 f_equal. Z.to_euclidean_division_equations. lia.
Qed.

(** The two bytes [actuatorWrite(DAClevel)] sends after the command give
    the DAC the low 12 bits of [DAClevel]. *)
Lemma dac_level_write L :
  0 <= L ->
  dac_level [64; to_u8 (Z.shiftr L 4); to_u8 (Z.shiftr (to_u16 (Z.shiftl L 12)) 8)] = Some (L mod 2 ^ 12).
Proof.
  intros HL. cbn [dac_level]. rewrite !Z.shiftr_div_pow2, !Z.shiftl_mul_pow2 by lia. unfold to_u8, to_u16.
  replace ((L * 2 ^ 12) mod 2 ^ 16 / 2 ^ 8 mod 2 ^ 8 / 2 ^ 4) with (L mod 2 ^ 4)
    by (Z.to_euclidean_division_equations; lia).
  rewrite lor_low by (Z.to_euclidean_division_equations; lia). f_equal. Z.to_euclidean_division_equations. lia.
Qed.

Lemma store3_ok buf x0 x1 x2 :
  length buf = 3%nat -> store3 buf x0 x1 x2 = Ok [to_u8 x0; to_u8 x1; to_u8 x2].
Proof. destruct buf as [|a [|b [|c [|]]]]; simpl; try discriminate. reflexivity. Qed.

Lemma to_int_small x : - 2 ^ 15 <= x < 2 ^ 15 -> to_int x = x.
Proof. intros Hx. unfold to_int. destruct (Z.ltb_spec (x mod 2 ^ 16) (2 ^ 15)); Z.to_euclidean_division_equations; lia. Qed.

Lemma to_u16_to_int x : to_u16 (to_int x) = to_u16 x.
Proof.
  unfold to_u16, to_int. destruct (Z.ltb_spec (x mod 2 ^ 16) (2 ^ 15)); [apply Z.mod_mod; lia|].
  rewrite <- Zminus_mod_idemp_r, Z_mod_same_full, Z.sub_0_r. apply Z.mod_mod. lia.
Qed.

Lemma int_arith_ok x : - 2 ^ 15 <= x < 2 ^ 15 -> int_arith x = Ok x.
Proof. intros Hx. unfold int_arith. rewrite (proj2 (Z.leb_le _ x)), (proj2 (Z.ltb_lt x _)) by lia. done. Qed.

Lemma int_arith_ub x : x < - 2 ^ 15 \/ 2 ^ 15 <= x -> int_arith x = UB.
Proof.
  intros Hx. unfold int_arith. destruct (Z.leb_spec (- 2 ^ 15) x), (Z.ltb_spec x (2 ^ 15)); simpl; done || lia.
Qed.

(** [(b1 << 8) + b2] on [int] for two bytes: no undefined behaviour, the
    [int] whose bits are [b1 b2]. *)
Lemma int_word b1 b2 :
  0 <= b1 < 2 ^ 8 -> 0 <= b2 < 2 ^ 8 ->
  forall {A} (k : Z -> outcome A),
  (let? hi := int_shl b1 8 in let? act := int_arith (hi + b2) in k act) = k (to_int (b1 * 2 ^ 8 + b2)).
Proof.
  intros H1 H2 A k. unfold int_shl. rewrite Z.shiftl_mul_pow2 by lia.
  rewrite (proj2 (Z.leb_le 0 b1)), (proj2 (Z.ltb_lt (b1 * 2 ^ 8) (2 ^ 16))) by lia. simpl.
  unfold to_int. rewrite !Z.mod_small by lia.
  destruct (Z.ltb_spec (b1 * 2 ^ 8) (2 ^ 15)), (Z.ltb_spec (b1 * 2 ^ 8 + b2) (2 ^ 15)); try lia;
    (rewrite int_arith_ok by lia; simpl; f_equal; lia).
Qed.

(** ** The magnetoshield loop on a frame *)

Section MagnetoFrames.
Import Magneto.

(** [receive()] on a whole frame [[b0; b1; b2]]. *)
Lemma magneto_receive_frame (st : state) b0 b1 b2 rest :
  length (inBuffer st) = 3%nat -> rx (io st) = [b0; b1; b2] ++ rest -> 0 <= b1 < 2 ^ 8 -> 0 <= b2 < 2 ^ 8 ->
  receive st = Ok (mkState (pot st) (sensor st) (to_int (b1 * 2 ^ 8 + b2)) b0 [b0; b1; b2] (outBuffer st)
                           (mkBoard rest (tx (io st)) (i2c (io st)) (pwm (io st)))).
Proof.
  destruct st as [p s a f [|x [|y [|z [|]]]] ob [r t i w]]; simpl; intros Hl Hrx H1 H2; try discriminate.
  subst r. unfold receive, readBytes. simpl. apply (int_word b1 b2 H1 H2).
Qed.

(** [loop()] on a whole frame: [receive()], the command, [send()]. *)
Lemma magneto_loop_frame (st : state) sn b0 b1 b2 rest :
  length (inBuffer st) = 3%nat -> rx (io st) = [b0; b1; b2] ++ rest -> 0 <= b1 < 2 ^ 8 -> 0 <= b2 < 2 ^ 8 ->
  loop sn st =
    let? st2 := command sn (mkState (pot st) (sensor st) (to_int (b1 * 2 ^ 8 + b2)) b0 [b0; b1; b2] (outBuffer st)
                                    (mkBoard rest (tx (io st)) (i2c (io st)) (pwm (io st)))) in
    Ok (send st2).
Proof.
  intros Hin Hrx H1 H2. unfold loop, available. rewrite Hrx. simpl (_ >? 0). cbv iota.
  rewrite (magneto_receive_frame st b0 b1 b2 rest Hin Hrx H1 H2). done.
Qed.

(** C33: a RUN frame [[1; b1; b2]] drives the DAC to the low 12 bits of
    the word [b1 b2] in one I2C transmission to the MCP4725, reads the two
    analog inputs and answers with a frame from which the host unpacks
    both readings (10-bit ADC values, so within 12 bits). *)
Theorem magneto_run_frame (st : state) sn b1 b2 rest :
  length (inBuffer st) = 3%nat -> length (outBuffer st) = 3%nat ->
  rx (io st) = [RUN; b1; b2] ++ rest -> 0 <= b1 < 2 ^ 8 -> 0 <= b2 < 2 ^ 8 ->
  0 <= analog sn potPin < 2 ^ 12 -> 0 <= analog sn sensorPin < 2 ^ 12 ->
  exists st' bytes resp, loop sn st = Ok st' /\ rx (io st') = rest /\
    i2c (io st') = i2c (io st) ++ [(MCP4725, bytes)] /\ dac_level bytes = Some ((b1 * 2 ^ 8 + b2) mod 2 ^ 12) /\
    tx (io st') = tx (io st) ++ resp /\ unpack resp = Some (analog sn potPin, analog sn sensorPin).
Proof.
  intros Hin Hout Hrx H1 H2 Hp Hs. rewrite (magneto_loop_frame st sn RUN b1 b2 rest Hin Hrx H1 H2).
  unfold command. simpl flag. cbv [RUN TEST]. simpl (1 =? 0). simpl (1 =? 1). cbv iota.
  unfold setOutBuffer at 1. simpl outBuffer. rewrite store3_ok by done. simpl.
  assert (Hw : to_u16 (to_int (b1 * 2 ^ 8 + b2)) = b1 * 2 ^ 8 + b2)
    by (rewrite to_u16_to_int; unfold to_u16; apply Z.mod_small; lia).
  assert (Hsn : to_u16 (analog sn sensorPin) = analog sn sensorPin) by (unfold to_u16; apply Z.mod_small; lia).
  rewrite Hw, Hsn, (to_int_small (analog sn sensorPin)) by lia.
  eexists _, _, _. split_and!; [reflexivity | done | reflexivity | apply dac_level_write; lia | reflexivity |].
  apply unpack_pack; lia.
Qed.

(** C34: a TEST frame [[0; b1; b2]] computes [actuator * 2] and
    [actuator * 4] in 16-bit [int], [actuator] being the [int] whose bits
    are [b1 b2]: it is undefined behaviour (signed overflow) unless
    [-2^13 <= actuator < 2^13]; otherwise the answer is sent, and the
    host unpacks [2 * actuator] and [4 * actuator] from it when both fit
    in 12 bits ([0 <= actuator < 2^10]). *)
Theorem magneto_test_frame (st : state) sn b1 b2 rest :
  length (inBuffer st) = 3%nat -> length (outBuffer st) = 3%nat ->
  rx (io st) = [TEST; b1; b2] ++ rest -> 0 <= b1 < 2 ^ 8 -> 0 <= b2 < 2 ^ 8 ->
  (- 2 ^ 13 <= to_int (b1 * 2 ^ 8 + b2) < 2 ^ 13 ->
     exists st' resp, loop sn st = Ok st' /\ rx (io st') = rest /\ tx (io st') = tx (io st) ++ resp /\
       (0 <= to_int (b1 * 2 ^ 8 + b2) < 2 ^ 10 ->
          unpack resp = Some (to_int (b1 * 2 ^ 8 + b2) * 2, to_int (b1 * 2 ^ 8 + b2) * 4))) /\
  (to_int (b1 * 2 ^ 8 + b2) < - 2 ^ 13 \/ 2 ^ 13 <= to_int (b1 * 2 ^ 8 + b2) -> loop sn st = UB).
Proof.
  intros Hin Hout Hrx H1 H2. rewrite (magneto_loop_frame st sn TEST b1 b2 rest Hin Hrx H1 H2).
  unfold command. simpl flag. cbv [TEST]. simpl (0 =? 0). cbv iota. simpl actuator.
  set (a := to_int (b1 * 2 ^ 8 + b2)). split.
  - intros Ha. rewrite !int_arith_ok by lia. simpl. unfold setOutBuffer. simpl outBuffer.
    rewrite store3_ok by done. simpl. eexists _, _. split_and!; [reflexivity | done | reflexivity |].
    intros Ha'. apply unpack_pack; lia.
  - intros Ha. destruct (Z.ltb_spec (a * 2) (- 2 ^ 15)), (Z.leb_spec (2 ^ 15) (a * 2)).
    1-3: rewrite int_arith_ub by lia; done.
    rewrite int_arith_ok, int_arith_ub by lia. done.
Qed.

End MagnetoFrames.

(** ** The aeroshield loop on a frame *)

Section AeroFrames.
Import Aero.

(** [loop()] on a whole frame [[c; b]]: [receive()], the command, [send()]. *)
Lemma aero_loop_frame (st : state) sn c b rest :
  length (inBuffer st) = 2%nat -> rx (io st) = [c; b] ++ rest ->
  loop sn st =
    let? st2 := command sn (mkState [c; b] (outBuffer st) (mkBoard rest (tx (io st)) (i2c (io st)) (pwm (io st)))) in
    Ok (send st2).
Proof.
  destruct st as [[|x [|y [|]]] ob [r t i w]]; simpl; intros Hl Hrx; try discriminate.
  subst r. unfold loop, available. simpl. done.
Qed.

(** C35: a TEST frame [[0; b]] answers with [r1 = b * 2] and [r2 = b * 4],
    but the first byte packs the high nibble of [r1] twice: the host
    unpacks [r1] correctly and, in place of [r2], the high nibble of [r1]
    over the low byte of [r2], which equals [r2] exactly when [b < 64]. *)
Theorem aero_test_frame (st : state) sn b rest :
  length (inBuffer st) = 2%nat -> length (outBuffer st) = 3%nat ->
  rx (io st) = [TEST; b] ++ rest -> 0 <= b < 2 ^ 8 ->
  exists st' resp v2, loop sn st = Ok st' /\ rx (io st') = rest /\ tx (io st') = tx (io st) ++ resp /\
    unpack resp = Some (b * 2, v2) /\ (v2 = b * 4 <-> b < 2 ^ 6).
Proof.
  intros Hin Hout Hrx Hb. rewrite (aero_loop_frame st sn TEST b rest Hin Hrx).
  unfold command. simpl (zlookup _ _). simpl obind. cbv [TEST]. simpl (0 =? 0). cbv iota.
  rewrite !int_arith_ok by lia. simpl obind. simpl outBuffer. rewrite store3_ok by done. simpl.
  eexists _, _, _. split_and!; [reflexivity | done | reflexivity | apply unpack_frame; lia |].
  Z.to_euclidean_division_equations. lia.
Qed.

(** A RUN frame [[1; b]] writes [b] to the PWM pin and answers with a
    frame from which the host unpacks the potentiometer and the raw
    angle (10 and 12 bits). *)
Lemma aero_run_frame (st : state) sn b rest :
  length (inBuffer st) = 2%nat -> length (outBuffer st) = 3%nat ->
  rx (io st) = [RUN; b] ++ rest ->
  0 <= analog sn potPin < 2 ^ 12 -> 0 <= raw_angle sn < 2 ^ 12 ->
  exists st' resp, loop sn st = Ok st' /\ rx (io st') = rest /\
    pwm (io st') = pwm (io st) ++ [(actuatorPin, b)] /\
    tx (io st') = tx (io st) ++ resp /\ unpack resp = Some (analog sn potPin, raw_angle sn).
Proof.
  intros Hin Hout Hrx Hp Ha. rewrite (aero_loop_frame st sn RUN b rest Hin Hrx).
  unfold command. simpl (zlookup _ _). simpl obind. cbv [RUN TEST]. simpl (1 =? 0). simpl (1 =? 1). cbv iota.
  simpl obind. simpl outBuffer. rewrite store3_ok by done. simpl.
  assert (Hu : to_u16 (raw_angle sn) = raw_angle sn) by (unfold to_u16; apply Z.mod_small; lia).
  rewrite Hu. eexists _, _. split_and!; [reflexivity | done | done | reflexivity |]. apply unpack_pack; lia.
Qed.

End AeroFrames.

(** ** The firmware interface and the host's view *)

(** What a sketch offers the host: its board, the sizes of a command and
    of an answer, one iteration of [loop()], its invariant and the
    commands it accepts. *)
Class Firmware (S : Type) := {
  fw_io : S -> board;
  fw_in : nat;
  fw_out : nat;
  fw_loop : sensors -> S -> outcome S;
  fw_inv : S -> Prop;
  fw_frame_ok : list Z -> bool
}.

(** Its contract: an iteration with nothing received does nothing, and
    an iteration with an accepted command at the front of the input
    consumes it and answers with [fw_out] bytes. *)
Class FirmwareLaws (S : Type) `{Firmware S} := {
  fw_idle : forall sn st, rx (fw_io st) = [] -> fw_loop sn st = Ok st;
  fw_step : forall sn st frame rest,
    fw_inv st -> rx (fw_io st) = frame ++ rest -> length frame = fw_in -> fw_frame_ok frame = true ->
    exists st' resp, fw_loop sn st = Ok st' /\ fw_inv st' /\ rx (fw_io st') = rest /\
      tx (fw_io st') = tx (fw_io st) ++ resp /\ length resp = fw_out
}.

(** The Arduino main loop: [loop()] once per element of [sns], the
    sensor readings of that iteration. *)
Fixpoint serve {S} `{Firmware S} (sns : list sensors) (st : S) : outcome S :=
  match sns with
  | [] => Ok st
  | sn :: sns' => let? st' := fw_loop sn st in serve sns' st'
  end.

Section Serve.
Context {S : Type} `{FirmwareLaws S}.

Lemma serve_idle sns st : rx (fw_io st) = [] -> serve sns st = Ok st.
Proof. induction sns as [|sn sns IH]; intros Hrx; simpl; [done|]. rewrite fw_idle by done. apply IH, Hrx. Qed.

(** Against the interface: the input holding accepted commands back to
    back, as many iterations as commands answer every one of them, in
    order, with [fw_out] bytes each, and leave nothing unread. *)
Lemma serve_frames frames sns st :
  fw_inv st -> rx (fw_io st) = concat frames ->
  Forall (fun f => length f = fw_in /\ fw_frame_ok f = true) frames -> (length frames <= length sns)%nat ->
  exists st' resps, serve sns st = Ok st' /\ fw_inv st' /\ rx (fw_io st') = [] /\
    tx (fw_io st') = tx (fw_io st) ++ concat resps /\ length resps = length frames /\
    Forall (fun r => length r = fw_out) resps.
Proof.
  revert sns st. induction frames as [|f frames IH]; intros sns st Hinv Hrx Hok Hlen.
  - exists st, []. rewrite serve_idle by done. simpl. rewrite app_nil_r. done.
  - destruct sns as [|sn sns]; simpl in Hlen; [lia|]. apply Forall_cons in Hok as [[Hl Hf] Hok].
    destruct (fw_step sn st f (concat frames) Hinv Hrx Hl Hf) as (st1 & r & Hrun & Hinv1 & Hrx1 & Htx1 & Hr).
    destruct (IH sns st1 Hinv1 Hrx1 Hok ltac:(lia)) as (st' & rs & Hs & Hinv' & Hrx' & Htx' & Hlr & Hrs).
    exists st', (r :: rs). simpl. rewrite Hrun. simpl.
    split_and!; [done | done | done | rewrite Htx', Htx1, app_assoc; done | f_equal; done | constructor; done].
Qed.

End Serve.

(** ** The two sketches implement the interface *)

Definition is_byte (b : Z) : bool := (0 <=? b) && (b <? 2 ^ 8).

(** The magnetoshield commands without undefined behaviour: three bytes,
    and for TEST an [actuator] whose products stay within [int]. *)
Definition magneto_frame_ok (f : list Z) : bool :=
  match f with
  | [b0; b1; b2] =>
      is_byte b1 && is_byte b2 &&
      (negb (b0 =? Magneto.TEST) || ((- 2 ^ 13 <=? to_int (b1 * 2 ^ 8 + b2)) && (to_int (b1 * 2 ^ 8 + b2) <? 2 ^ 13)))
  | _ => false
  end.

#[export] Instance magneto_fw : Firmware Magneto.state := {
  fw_io := Magneto.io;
  fw_in := 3;
  fw_out := 3;
  fw_loop := Magneto.loop;
  fw_inv st := length (Magneto.inBuffer st) = 3%nat /\ length (Magneto.outBuffer st) = 3%nat;
  fw_frame_ok := magneto_frame_ok
}.

Section MagnetoLaws.
Import Magneto.

(** Every command leaves the serial port alone, the input buffer as it
    is and the output buffer three bytes long. *)
Lemma magneto_command_ok sn (st1 : state) :
  length (outBuffer st1) = 3%nat -> (flag st1 = TEST -> - 2 ^ 13 <= actuator st1 < 2 ^ 13) ->
  exists st2, command sn st1 = Ok st2 /\ rx (io st2) = rx (io st1) /\ tx (io st2) = tx (io st1) /\
    inBuffer st2 = inBuffer st1 /\ length (outBuffer st2) = 3%nat.
Proof.
  intros Hout Htest. unfold command, setOutBuffer.
  destruct (Z.eqb_spec (flag st1) TEST) as [Ht|_].
  { rewrite !int_arith_ok by (specialize (Htest Ht); lia). simpl. rewrite store3_ok by done. eexists. done. }
  destruct (Z.eqb_spec (flag st1) RUN); [simpl; rewrite store3_ok by done; eexists; done|].
  destruct (Z.eqb_spec (flag st1) STOP); eexists; done.
Qed.

#[export] Instance magneto_fw_laws : FirmwareLaws Magneto.state.
Proof.
  split.
  - intros sn st Hrx. simpl in *. unfold loop, available. rewrite Hrx. done.
  - intros sn st frame rest [Hin Hout] Hrx Hl Hok. simpl in *.
    destruct frame as [|b0 [|b1 [|b2 [|]]]]; try discriminate. simpl in Hok.
    apply andb_true_iff in Hok as [[H1 H2]%andb_true_iff Ht]. unfold is_byte in H1, H2.
    apply andb_true_iff in H1 as [H1 H1']. apply andb_true_iff in H2 as [H2 H2'].
    apply Z.leb_le in H1, H2. apply Z.ltb_lt in H1', H2'.
    rewrite (magneto_loop_frame st sn b0 b1 b2 rest Hin Hrx ltac:(lia) ltac:(lia)).
    destruct (magneto_command_ok sn (mkState (pot st) (sensor st) (to_int (b1 * 2 ^ 8 + b2)) b0 [b0; b1; b2]
                (outBuffer st) (mkBoard rest (tx (io st)) (i2c (io st)) (pwm (io st)))) Hout)
      as (st2 & -> & Hrx2 & Htx2 & Hin2 & Hout2).
    { simpl. intros ->. simpl in Ht. apply andb_true_iff in Ht as [Ha Hb]. apply Z.leb_le in Ha. apply Z.ltb_lt in Hb. lia. }
    simpl in Hin2, Hrx2, Htx2. eexists _, _.
    split_and!; [reflexivity | simpl; rewrite Hin2; done | done | done | simpl; rewrite Htx2; reflexivity |].
    rewrite length_take, Hout2. done.
Qed.

End MagnetoLaws.

(** The aeroshield commands: two bytes; none has undefined behaviour. *)
Definition aero_frame_ok (f : list Z) : bool :=
  match f with
  | [c; b] => is_byte b
  | _ => false
  end.

#[export] Instance aero_fw : Firmware Aero.state := {
  fw_io := Aero.io;
  fw_in := 2;
  fw_out := 3;
  fw_loop := Aero.loop;
  fw_inv st := length (Aero.inBuffer st) = 2%nat /\ length (Aero.outBuffer st) = 3%nat;
  fw_frame_ok := aero_frame_ok
}.

Section AeroLaws.
Import Aero.

Lemma aero_command_ok sn c b (st1 : state) :
  inBuffer st1 = [c; b] -> 0 <= b < 2 ^ 8 -> length (outBuffer st1) = 3%nat ->
  exists st2, command sn st1 = Ok st2 /\ rx (io st2) = rx (io st1) /\ tx (io st2) = tx (io st1) /\
    inBuffer st2 = inBuffer st1 /\ length (outBuffer st2) = 3%nat.
Proof.
  intros Hin Hb Hout. unfold command. rewrite Hin. simpl (zlookup _ _). simpl obind.
  destruct (Z.eqb_spec c TEST).
  { rewrite !int_arith_ok by lia. simpl. rewrite store3_ok by done. eexists. done. }
  destruct (Z.eqb_spec c RUN); [simpl; rewrite store3_ok by done; eexists; done|].
  destruct (Z.eqb_spec c STOP); eexists; done.
Qed.

#[export] Instance aero_fw_laws : FirmwareLaws Aero.state.
Proof.
  split.
  - intros sn st Hrx. simpl in *. unfold loop, available. rewrite Hrx. done.
  - intros sn st frame rest [Hin Hout] Hrx Hl Hok. simpl in *.
    destruct frame as [|c [|b [|]]]; try discriminate. simpl in Hok.
    unfold is_byte in Hok. apply andb_true_iff in Hok as [Hb Hb']. apply Z.leb_le in Hb. apply Z.ltb_lt in Hb'.
    rewrite (aero_loop_frame st sn c b rest Hin Hrx).
    destruct (aero_command_ok sn c b (mkState [c; b] (outBuffer st) (mkBoard rest (tx (io st)) (i2c (io st)) (pwm (io st))))
                eq_refl ltac:(lia) Hout) as (st2 & -> & Hrx2 & Htx2 & Hin2 & Hout2).
    simpl in Hin2, Hrx2, Htx2. eexists _, _.
    split_and!; [reflexivity | simpl; rewrite Hin2; done | done | done | simpl; rewrite Htx2; reflexivity |].
    rewrite length_take, Hout2. done.
Qed.

End AeroLaws.

(** The aeroshield sketch answers every command too. *)
Lemma aero_answers_every_frame frames sns b :
  rx b = concat frames ->
  Forall (fun f => length f = 2%nat /\ aero_frame_ok f = true) frames -> (length frames <= length sns)%nat ->
  exists st' resps, serve sns (Aero.init b) = Ok st' /\ rx (Aero.io st') = [] /\
    tx (Aero.io st') = tx b ++ concat resps /\ length resps = length frames /\ Forall (fun r => length r = 3%nat) resps.
Proof.
  intros Hrx Hok Hlen.
  destruct (serve_frames frames sns (Aero.init b)) as (st' & resps & Hs & _ & Hrx' & Htx & Hl & Hr);
    [split; done | done | done | done |].
  exists st', resps. done.
Qed.

(** C32: liveness of the magnetoshield protocol.  From reset, when the
    serial input holds accepted commands back to back, as many
    iterations of [loop()] as there are commands (or more) read every
    byte and answer every command, in order, with a three-byte frame,
    whatever the sensors read. *)
Theorem magneto_answers_every_frame frames sns b :
  rx b = concat frames ->
  Forall (fun f => length f = 3%nat /\ magneto_frame_ok f = true) frames -> (length frames <= length sns)%nat ->
  exists st' resps, serve sns (Magneto.init b) = Ok st' /\ rx (Magneto.io st') = [] /\
    tx (Magneto.io st') = tx b ++ concat resps /\ length resps = length frames /\ Forall (fun r => length r = 3%nat) resps.
Proof.
  intros Hrx Hok Hlen.
  destruct (serve_frames frames sns (Magneto.init b)) as (st' & resps & Hs & _ & Hrx' & Htx & Hl & Hr);
    [split; done | done | done | done |].
  exists st', resps. done.
Qed.

(** ** Concrete runs *)

Module ShieldExamples.

(** The potentiometer reads 1000, the other analog inputs 700, the
    magnetic encoder 3000. *)
Definition sn : sensors := mkSensors (fun pin => if pin =? 18 then 1000 else 700) 3000.

Ltac concrete := first [reflexivity | unfold Magneto.potPin, Magneto.sensorPin; simpl; lia].

Lemma magneto_run_frame_witness :
  exists st' bytes resp, Magneto.loop sn (Magneto.init (mkBoard [1; 2; 3] [] [] [])) = Ok st' /\ rx (Magneto.io st') = [] /\
    i2c (Magneto.io st') = i2c (Magneto.io (Magneto.init (mkBoard [1; 2; 3] [] [] []))) ++ [(Magneto.MCP4725, bytes)] /\
    dac_level bytes = Some ((2 * 2 ^ 8 + 3) mod 2 ^ 12) /\
    tx (Magneto.io st') = tx (Magneto.io (Magneto.init (mkBoard [1; 2; 3] [] [] []))) ++ resp /\
    unpack resp = Some (analog sn Magneto.potPin, analog sn Magneto.sensorPin).
Proof. apply (magneto_run_frame (Magneto.init (mkBoard [1; 2; 3] [] [] [])) sn 2 3 []); concrete. Defined.

Lemma magneto_test_frame_witness :
  (- 2 ^ 13 <= to_int (0 * 2 ^ 8 + 5) < 2 ^ 13 ->
     exists st' resp, Magneto.loop sn (Magneto.init (mkBoard [0; 0; 5] [] [] [])) = Ok st' /\ rx (Magneto.io st') = [] /\
       tx (Magneto.io st') = tx (Magneto.io (Magneto.init (mkBoard [0; 0; 5] [] [] []))) ++ resp /\
       (0 <= to_int (0 * 2 ^ 8 + 5) < 2 ^ 10 ->
          unpack resp = Some (to_int (0 * 2 ^ 8 + 5) * 2, to_int (0 * 2 ^ 8 + 5) * 4))) /\
  (to_int (0 * 2 ^ 8 + 5) < - 2 ^ 13 \/ 2 ^ 13 <= to_int (0 * 2 ^ 8 + 5) ->
     Magneto.loop sn (Magneto.init (mkBoard [0; 0; 5] [] [] [])) = UB).
Proof. apply (magneto_test_frame (Magneto.init (mkBoard [0; 0; 5] [] [] [])) sn 0 5 []); concrete. Defined.

(** [b = 100]: [r1 = 200] and [r2 = 400]; the host reads [200] and
    [144], the low byte of [400]. *)
Lemma aero_test_frame_witness :
  exists st' resp v2, Aero.loop sn (Aero.init (mkBoard [0; 100] [] [] [])) = Ok st' /\ rx (Aero.io st') = [] /\
    tx (Aero.io st') = tx (Aero.io (Aero.init (mkBoard [0; 100] [] [] []))) ++ resp /\
    unpack resp = Some (100 * 2, v2) /\ (v2 = 100 * 4 <-> 100 < 2 ^ 6).
Proof. apply (aero_test_frame (Aero.init (mkBoard [0; 100] [] [] [])) sn 100 []); concrete. Defined.

Lemma magneto_answers_every_frame_witness :
  exists st' resps, serve [sn; sn; sn] (Magneto.init (mkBoard (concat [[1; 2; 3]; [0; 0; 5]; [2; 0; 0]]) [] [] [])) = Ok st' /\
    rx (Magneto.io st') = [] /\
    tx (Magneto.io st') = tx (mkBoard (concat [[1; 2; 3]; [0; 0; 5]; [2; 0; 0]]) [] [] []) ++ concat resps /\
    length resps = length [[1; 2; 3]; [0; 0; 5]; [2; 0; 0]] /\ Forall (fun r => length r = 3%nat) resps.
Proof.
  apply (magneto_answers_every_frame [[1; 2; 3]; [0; 0; 5]; [2; 0; 0]] [sn; sn; sn]
           (mkBoard (concat [[1; 2; 3]; [0; 0; 5]; [2; 0; 0]]) [] [] []));
    [reflexivity | repeat constructor | simpl; lia].
Defined.

(** A command split across two iterations: after a RUN frame with the
    word [0x7FFF], only the first byte of a TEST frame has arrived.
    [Serial.readBytes] reads that one byte and [receive()] takes the
    other two from the previous command, so TEST runs on [32767] and
    [actuator * 2] overflows. *)
Example magneto_split_frame_UB : serve [sn; sn] (Magneto.init (mkBoard [1; 127; 255; 0] [] [] [])) = UB.
Proof. reflexivity. Qed.

End ShieldExamples.
