(* ===== verification/Fdmss.v ===== *)
(** * The pyfdmss entry point: [wrapper.h] and its Python binding

    pyfdmss 0.0.8 exposes one Python function, [run] ([src/main.cpp]), a
    pybind11 binding of the C++ [run] of [src/wrapper.h] with ten named
    file paths and their defaults.  [run] packs the paths into a
    [CmdLineParameters] and calls [SolveImpl], which loads the input with
    an [OverdozenPermsolver], solves, prints a report, writes the field
    files and saves an XML summary.

    The solver class and TinyXML are not among the sources: the solver is
    the interface [PermSolver] (its results for this run), and what
    [SolveImpl] does that can be observed is a trace of events ([event]):
    the [printf] lines with their values, the call that writes the field
    files with its file names, and the saved XML document, a tree
    ([xml]).  [float] and [double] arithmetic is [FloatOps] of [Slau.v].
    The pybind11 call is [py_run]: positional arguments, then keyword
    arguments, then the [py::arg] defaults; a call naming an unknown or
    an already given parameter, or with too many positional arguments,
    raises [TypeError]. *)

From S2P Require Import Prelude Slau.
From Stdlib Require Import String.

Local Open Scope string_scope.

(** ** The parameters and the solver *)

(** [CmdLineParameters], in the order of its constructor's arguments. *)
Record CmdLineParameters := mkCmdLine {
  configFileName : string; imageFileName : string; summaryFileName : string;
  velXFileName : string; velYFileName : string; velZFileName : string;
  pressuresFileName : string; fullVelsFileName : string;
  compVelsFileName : string; logFileName : string
}.

(** What an [OverdozenPermsolver] gives [SolveImpl]: whether
    [ReadFailo(config, image)] loads the input, and the results of
    [launch()] and the getters after it. *)
Class PermSolver (F : Type) := {
  ReadFailo : string -> string -> bool;
  launch : F;
  GetSquareFactor : F;
  GetPermeability : F;
  GetAugeCriterionError : F;
  MILLIDARCY_CONVERT_RATE : F
}.

#[local] Set Warnings "-register-all".

(** A TinyXML node: a declaration, or an element with its [double]
    attributes and its children. *)
Inductive xml (F : Type) :=
  | XDecl (version encoding standalone : string)
  | XElem (name : string) (attrs : list (string * F)) (children : list (xml F)).
Arguments XDecl {F}.
Arguments XElem {F}.

(** What [SolveImpl] does that can be observed. *)
Inductive event (F : Type) :=
  | EPrint (fmt : string) (args : list F)   (** [printf(fmt, args)] *)
  | EWriteFields (files : list string)      (** [ps.printVelPrsFieldsCustom(files)] *)
  | ESave (file : string) (doc : list (xml F)).  (** [doc.SaveFile(file)] *)
Arguments EPrint {F}.
Arguments EWriteFields {F}.
Arguments ESave {F}.

(** ** [SolveImpl] and [run] *)

Section Wrapper.
Context {F : Type} `{FloatOps F} `{PermSolver F}.

(** [e = new TiXmlElement(name); e->SetDoubleAttribute("value", v);] *)
Definition value_elem (name : string) (v : F) : xml F := XElem name [("value", v)] [].

(** [SolveImpl(io_filenames)]: [vel], [squareFactor], [permeability],
    [error] start at [0.0] and [limit_triggered] at [1.0]; a successful
    [ReadFailo] clears [limit_triggered] and fills the others. *)
Definition SolveImpl (io : CmdLineParameters) : list (event F) :=
  let loaded := ReadFailo (configFileName io) (imageFileName io) in
  let '(vel, squareFactor, permeability, error, limit_triggered) :=
    if loaded then (launch, GetSquareFactor, GetPermeability, GetAugeCriterionError, fzero)
    else (fzero, fzero, fzero, fzero, fone) in
  let rootElem :=
    XElem "OverdozenPermsolverOutput" []
      [value_elem "AverageVelocity" vel;
       value_elem "Permeability_micrometer2" permeability;
       value_elem "Permeability_mD" (fmul permeability MILLIDARCY_CONVERT_RATE);
       value_elem "RelativeError" error;
       value_elem "LimiterTriggered" limit_triggered] in
  app (if loaded then [EPrint "File loaded successfully\n" []] else [])
  ([EPrint "Average velocity, micrometers/sec = %.6f\n" [vel];
   EPrint "Average velocity within pore space, micrometers/sec = %.6f\n" [fmul vel squareFactor];
   EPrint "Permeability, sq micrometers = %.6f\n" [permeability];
   EPrint "Permeability, mD = %.6f\n" [fmul permeability MILLIDARCY_CONVERT_RATE];
   EPrint "Open pore space fraction at inlet = %.6f\n" [fdiv fone squareFactor];
   EPrint "Relative error = %.6f\n" [error];
   EWriteFields [velXFileName io; velYFileName io; velZFileName io; pressuresFileName io; fullVelsFileName io];
   ESave (summaryFileName io) [XDecl "1.0" EmptyString EmptyString; rootElem]]).

(** [run(config_path, ..., log_path)] *)
Definition run (config_path image_path summary_path velx_path vely_path velz_path
                pressure_path full_vel_path comp_vel_path log_path : string) : list (event F) :=
  SolveImpl (mkCmdLine config_path image_path summary_path velx_path vely_path velz_path
                       pressure_path full_vel_path comp_vel_path log_path).

End Wrapper.

(** The parameters of the C++ [run] and their default arguments. *)
Definition run_params : list string :=
  ["config_path"; "image_path"; "summary_path"; "velx_path"; "vely_path"; "velz_path";
   "pressure_path"; "full_vel_path"; "comp_vel_path"; "log_path"].

Definition run_defaults : list string :=
  ["config.xml"; "image3d.raw"; "output.txt"; "/dev/null"; "/dev/null"; "/dev/null";
   "/dev/null"; "/dev/null"; "/dev/null"; "/dev/null"].

(** ** The Python binding *)

(** The [py::arg] list of [m.def("run", ...)]: names and defaults. *)
Definition py_run_args : list (string * string) :=
  [("config_path", "config.xml"); ("image_path", "image3d.raw"); ("summary_path", "output.txt");
   ("velx_path", "/dev/null"); ("vely_path", "/dev/null"); ("velz_path", "/dev/null");
   ("pressure_path", "/dev/null"); ("full_vel_path", "/dev/null"); ("comp_vel_path", "/dev/null");
   ("log_path", "/dev/null")].

(** The value a keyword argument gives a parameter, the first one that
    names it. *)
Definition kw_lookup (kw : list (string * string)) (name : string) : option string :=
  option_map snd (List.find (fun '(k, _) => String.eqb k name) kw).

Definition mem_string (x : string) (l : list string) : bool := existsb (String.eqb x) l.

(** pybind11's binding of a call: the positional arguments fill the
    first parameters, the keyword arguments the others, the defaults the
    rest; [None] is the [TypeError]. *)
Definition bind_args (spec : list (string * string)) (pos : list string) (kw : list (string * string))
    : option (list string) :=
  let names := map fst spec in
  if Nat.ltb (List.length spec) (List.length pos) then None
  else if negb (forallb (fun '(k, _) => mem_string k names) kw) then None
  else if existsb (fun '(k, _) => mem_string k (firstn (List.length pos) names)) kw then None
  else Some (app pos (map (fun '(k, d) => match kw_lookup kw k with Some v => v | None => d end)
                          (skipn (List.length pos) spec))).

Inductive py_error := TypeError.

(** [pyfdmss.run(pos..., name=value...)] *)
Definition py_run {F} `{FloatOps F} `{PermSolver F} (pos : list string) (kw : list (string * string))
    : py_error + list (event F) :=
  match bind_args py_run_args pos kw with
  | Some [a1; a2; a3; a4; a5; a6; a7; a8; a9; a10] => inr (run a1 a2 a3 a4 a5 a6 a7 a8 a9 a10)
  | _ => inl TypeError
  end.

(** ** What the caller reads back *)

Section Observe.
Context {F : Type}.

(** The document last saved under [file]. *)
Definition saved (file : string) (t : list (event F)) : option (list (xml F)) :=
  fold_left (fun acc e => match e with
                          | ESave f d => if String.eqb f file then Some d else acc
                          | _ => acc
                          end) t None.

(** The [value] attributes of the children of the summary's root. *)
Definition summary_values (d : list (xml F)) : option (list (string * F)) :=
  match d with
  | [XDecl _ _ _; XElem root [] children] =>
      if String.eqb root "OverdozenPermsolverOutput" then
        Some (flat_map (fun c => match c with
                                 | XElem n [(a, v)] [] => if String.eqb a "value" then [(n, v)] else []
                                 | _ => []
                                 end) children)
      else None
  | _ => None
  end.

(** The files the fields were written to. *)
Definition fields_written (t : list (event F)) : list (list string) :=
  flat_map (fun e => match e with EWriteFields fs => [fs] | _ => [] end) t.

End Observe.

(** The value a call gives parameter [name] with default [d]. *)
Definition arg_value (kw : list (string * string)) (name d : string) : string :=
  match kw_lookup kw name with Some v => v | None => d end.

(** ** Properties *)

Lemma existsb_nil_mem {X} (kw : list (string * X)) :
  existsb (fun '(k, _) => mem_string k []) kw = false.
Proof. induction kw as [|[k v] kw IH]; [done|]. exact IH. Qed.

(** A call with keyword arguments only, all of them parameters of [run],
    binds every parameter to its keyword value or its default. *)
Lemma bind_args_kw kw :
  forallb (fun '(k, _) => mem_string k run_params) kw = true ->
  bind_args py_run_args [] kw = Some (map (fun '(k, d) => arg_value kw k d) py_run_args).
Proof.
  intros Hkw. unfold bind_args. cbn zeta. change (map fst py_run_args) with run_params.
  cbn [List.length Nat.ltb firstn skipn]. rewrite Hkw, existsb_nil_mem. done.
Qed.

(** A keyword that names no parameter of [run] raises [TypeError],
    whatever the positional arguments. *)
Lemma bind_args_unknown pos kw :
  existsb (fun '(k, _) => negb (mem_string k run_params)) kw = true -> bind_args py_run_args pos kw = None.
Proof.
  intros Hkw. unfold bind_args. cbn zeta. change (map fst py_run_args) with run_params.
  destruct (Nat.ltb _ _); [done|].
  destruct (forallb _ kw) eqn:Hall; [|done]. exfalso.
  induction kw as [|[k v] kw IH]; cbn [existsb forallb] in *; [discriminate|].
  destruct (mem_string k run_params); cbn [negb orb andb] in *; [auto | discriminate].
Qed.

Section Summary.
Context {F : Type} `{FloatOps F} `{PermSolver F}.

(** The values the summary of [SolveImpl] holds, in the order of the
    elements: [AverageVelocity], [Permeability_micrometer2],
    [Permeability_mD], [RelativeError], [LimiterTriggered]. *)
Definition expected_summary (config image : string) : list (string * F) :=
  if ReadFailo config image
  then [("AverageVelocity", launch); ("Permeability_micrometer2", GetPermeability);
        ("Permeability_mD", fmul GetPermeability MILLIDARCY_CONVERT_RATE);
        ("RelativeError", GetAugeCriterionError); ("LimiterTriggered", fzero)]
  else [("AverageVelocity", fzero); ("Permeability_micrometer2", fzero);
        ("Permeability_mD", fmul fzero MILLIDARCY_CONVERT_RATE);
        ("RelativeError", fzero); ("LimiterTriggered", fone)].

(** What [SolveImpl] leaves behind: the summary saved under the summary
    file name, the five field files, and on a failed load the report of
    [1.0 / 0.0] as the open pore fraction. *)
Lemma SolveImpl_observed (io : CmdLineParameters) :
  (saved (summaryFileName io) (SolveImpl io) ≫= summary_values) = Some (expected_summary (configFileName io) (imageFileName io)) /\
  fields_written (SolveImpl io) = [[velXFileName io; velYFileName io; velZFileName io; pressuresFileName io; fullVelsFileName io]] /\
  (ReadFailo (configFileName io) (imageFileName io) = false ->
     In (EPrint "Open pore space fraction at inlet = %.6f\n" [fdiv fone fzero]) (SolveImpl io)).
Proof.
  unfold SolveImpl, expected_summary, saved.
  destruct (ReadFailo (configFileName io) (imageFileName io)); cbn; rewrite String.eqb_refl; cbn;
    (split; [done | split; [done |]]); [discriminate|].
  intros _. repeat (first [left; reflexivity | right]).
Qed.

End Summary.

Section PyRun.
Context {F : Type} `{FloatOps F} `{PermSolver F}.

(** C36: a Python call [pyfdmss.run(name=value, ...)] whose keywords all
    name parameters of [run] reaches [SolveImpl] with each path given or
    defaulted as the binding says: the summary is saved under
    [summary_path] (default [output.txt]) and holds the solver's results
    when [ReadFailo] loads [config_path] and [image_path], and zeros with
    [LimiterTriggered = 1] when it fails; the fields go to the five
    velocity and pressure paths (default [/dev/null]).  A keyword that
    names no parameter raises [TypeError]. *)
Theorem py_run_keywords pos kw :
  (pos = [] -> forallb (fun '(k, _) => mem_string k run_params) kw = true ->
   exists t, py_run pos kw = inr t /\
     (saved (arg_value kw "summary_path" "output.txt") t ≫= summary_values) =
       Some (expected_summary (arg_value kw "config_path" "config.xml") (arg_value kw "image_path" "image3d.raw")) /\
     fields_written t =
       [[arg_value kw "velx_path" "/dev/null"; arg_value kw "vely_path" "/dev/null";
         arg_value kw "velz_path" "/dev/null"; arg_value kw "pressure_path" "/dev/null";
         arg_value kw "full_vel_path" "/dev/null"]]) /\
  (existsb (fun '(k, _) => negb (mem_string k run_params)) kw = true -> py_run (F:=F) pos kw = inl TypeError).
Proof.
  split.
  - intros -> Hkw. unfold py_run. rewrite (bind_args_kw kw Hkw). cbn [map py_run_args].
    eexists. split; [reflexivity|]. unfold run.
    destruct (SolveImpl_observed (mkCmdLine (arg_value kw "config_path" "config.xml") (arg_value kw "image_path" "image3d.raw")
      (arg_value kw "summary_path" "output.txt") (arg_value kw "velx_path" "/dev/null") (arg_value kw "vely_path" "/dev/null")
      (arg_value kw "velz_path" "/dev/null") (arg_value kw "pressure_path" "/dev/null") (arg_value kw "full_vel_path" "/dev/null")
      (arg_value kw "comp_vel_path" "/dev/null") (arg_value kw "log_path" "/dev/null"))) as (Hs & Hf & _).
    split; [exact Hs | exact Hf].
  - intros Hkw. unfold py_run. rewrite bind_args_unknown by exact Hkw. done.
Qed.

End PyRun.

(** ** Concrete runs *)

Module FdmssExamples.
Import QArith SlauExamples.

(** A solver that loads [config.xml] only. *)
#[local] Instance demo_solver : PermSolver Q := {
  ReadFailo c i := String.eqb c "config.xml";
  launch := 3 # 2; GetSquareFactor := 4; GetPermeability := 5; GetAugeCriterionError := 1 # 100;
  MILLIDARCY_CONVERT_RATE := 1013 }.

Lemma py_run_keywords_witness :
  ([] = @nil string -> forallb (fun '(k, _) => mem_string k run_params) [("summary_path", "out.xml")] = true ->
   exists t, py_run (F:=Q) [] [("summary_path", "out.xml")] = inr t /\
     (saved (arg_value [("summary_path", "out.xml")] "summary_path" "output.txt") t ≫= summary_values) =
       Some (expected_summary (F:=Q) (arg_value [("summary_path", "out.xml")] "config_path" "config.xml")
                              (arg_value [("summary_path", "out.xml")] "image_path" "image3d.raw")) /\
     fields_written t =
       [[arg_value [("summary_path", "out.xml")] "velx_path" "/dev/null"; arg_value [("summary_path", "out.xml")] "vely_path" "/dev/null";
         arg_value [("summary_path", "out.xml")] "velz_path" "/dev/null"; arg_value [("summary_path", "out.xml")] "pressure_path" "/dev/null";
         arg_value [("summary_path", "out.xml")] "full_vel_path" "/dev/null"]]) /\
  (existsb (fun '(k, _) => negb (mem_string k run_params)) [("summary_path", "out.xml")] = true ->
     py_run (F:=Q) [] [("summary_path", "out.xml")] = inl TypeError).
Proof. apply (py_run_keywords (F:=Q) [] [("summary_path", "out.xml")]). Defined.

(** The defaults of the binding are those of the C++ [run]. *)
Example py_run_args_defaults : py_run_args = combine run_params run_defaults.
Proof. reflexivity. Qed.

(** A misspelt keyword: [TypeError]. *)
Example py_run_misspelt : py_run (F:=Q) [] [("sumary_path", "out.xml")] = inl TypeError.
Proof. reflexivity. Qed.

(** With [config.xml] missing from the call's files, the summary is all
    zeros but [LimiterTriggered], and the report divides by the zero
    square factor. *)
Example py_run_failed_load :
  (match py_run (F:=Q) [] [("config_path", "other.xml")] with
   | inr t => saved "output.txt" t ≫= summary_values
   | inl _ => None
   end) = Some [("AverageVelocity", 0); ("Permeability_micrometer2", 0); ("Permeability_mD", 0 * 1013);
                ("RelativeError", 0); ("LimiterTriggered", 1)]%Q.
Proof. reflexivity. Qed.

End FdmssExamples.
