(* ===== verification/Constants.v ===== *)
(** * Generated and configuration constants: two PostgreSQL catalog
      headers and adelie's [Configs]

    pgserver 0.0.6 ships headers that PostgreSQL's [genbki.pl] generates
    from the catalog definitions: [pg_auth_members_d.h] and
    [pg_parameter_acl_d.h].  Each defines the OIDs of the catalog's
    relation and indexes (and of its row type or TOAST table), one
    [Anum_] macro per column, and [Natts_], the number of columns.  The
    model keeps every macro as a definition of the same name and gathers
    a header in the record [catalog]; [genbki_wf] is what the generator
    guarantees: the column numbers are [1..Natts] in order and the OIDs
    are distinct and in the range of manually assigned OIDs (below
    [FirstGenbkiObjectId = 10000] of PostgreSQL's [transam.h], which is
    not among the sources).

    adelie 1.1.27's [configs.hpp] holds the defaults of three settings and
    the settings themselves, initialised from the defaults.  The
    progress-bar symbol is the UTF-8 byte string of its literal; the
    [double] literals are kept as the decimal values they denote. *)

From S2P Require Import Prelude.
From Stdlib Require QArith.

Local Open Scope Z_scope.

(** ** Catalog headers *)

(** What a [*_d.h] header defines. *)
Record catalog := mkCatalog {
  cat_oids : list Z;     (** relation, row type or TOAST, index OIDs *)
  cat_anums : list Z;    (** the [Anum_] macros, in the order of the header *)
  cat_natts : Z          (** [Natts_] *)
}.

(** The guarantees of [genbki.pl]. *)
Definition genbki_wf (c : catalog) : bool :=
  bool_decide (cat_anums c = zrange 1 (cat_natts c + 1)) &&
  bool_decide (NoDup (cat_oids c)) &&
  forallb (fun o => (0 <? o) && (o <? 10000)) (cat_oids c).

Module PgAuthMembers.
Definition AuthMemRelationId : Z := 1261.
Definition AuthMemRelation_Rowtype_Id : Z := 2843.
Definition AuthMemRoleMemIndexId : Z := 2694.
Definition AuthMemMemRoleIndexId : Z := 2695.
Definition Anum_pg_auth_members_roleid : Z := 1.
Definition Anum_pg_auth_members_member : Z := 2.
Definition Anum_pg_auth_members_grantor : Z := 3.
Definition Anum_pg_auth_members_admin_option : Z := 4.
Definition Natts_pg_auth_members : Z := 4.

Definition header : catalog :=
  mkCatalog [AuthMemRelationId; AuthMemRelation_Rowtype_Id; AuthMemRoleMemIndexId; AuthMemMemRoleIndexId]
            [Anum_pg_auth_members_roleid; Anum_pg_auth_members_member; Anum_pg_auth_members_grantor;
             Anum_pg_auth_members_admin_option]
            Natts_pg_auth_members.
End PgAuthMembers.

Module PgParameterAcl.
Definition ParameterAclRelationId : Z := 6243.
Definition PgParameterAclToastTable : Z := 6244.
Definition PgParameterAclToastIndex : Z := 6245.
Definition ParameterAclParnameIndexId : Z := 6246.
Definition ParameterAclOidIndexId : Z := 6247.
Definition Anum_pg_parameter_acl_oid : Z := 1.
Definition Anum_pg_parameter_acl_parname : Z := 2.
Definition Anum_pg_parameter_acl_paracl : Z := 3.
Definition Natts_pg_parameter_acl : Z := 3.

Definition header : catalog :=
  mkCatalog [ParameterAclRelationId; PgParameterAclToastTable; PgParameterAclToastIndex;
             ParameterAclParnameIndexId; ParameterAclOidIndexId]
            [Anum_pg_parameter_acl_oid; Anum_pg_parameter_acl_parname; Anum_pg_parameter_acl_paracl]
            Natts_pg_parameter_acl.
End PgParameterAcl.

(** ** adelie's settings *)

Module Configs.
(** ["\033[1;32m█\033[0m"]: bold green, a full block, reset. *)
Definition pb_symbol_def : list Z := [27; 91; 49; 59; 51; 50; 109; 226; 150; 136; 27; 91; 48; 109].
Definition hessian_min_def : QArith_base.Q := QArith_base.Qmake 1 (10 ^ 24).
Definition dbeta_tol_def : QArith_base.Q := QArith_base.Qmake 1 (10 ^ 12).

(** The settings, as the program starts. *)
Record settings := mkSettings { pb_symbol : list Z; hessian_min : QArith_base.Q; dbeta_tol : QArith_base.Q }.
Definition init : settings := mkSettings pb_symbol_def hessian_min_def dbeta_tol_def.
End Configs.

(** ** Properties *)

(** The two headers are what [genbki.pl] promises, and their OIDs do not
    collide. *)
Lemma catalog_headers_wf :
  genbki_wf PgAuthMembers.header = true /\ genbki_wf PgParameterAcl.header = true /\
  bool_decide (NoDup (cat_oids PgAuthMembers.header ++ cat_oids PgParameterAcl.header)) = true.
Proof. split_and!; vm_compute; reflexivity. Qed.
